(* ===== verification/_CoqProject ===== *)
-Q . S2P
Prelude.v
SortSearch.v
Decode.v
X86.v
Rv32.v
Hart.v
Sim.v
TransArith.v
TransImm.v
TransJump.v
TransBranch.v
TransMulDiv.v
TransLoad.v
TransStore.v
TransSys.v
TransAmo.v
Translation.v
Refine.v
Vmm.v
PmRegion.v
Trap.v
Vma.v
VmaOps.v
Mmu.v
Csr.v
Loader.v
Path.v
Vfs.v
DList.v
Sched.v
SchedTrap.v
SchedTask.v
Kernel.v
Fork.v
Exec.v
Debugger.v
Syscall.v
Sandbox.v
Fdt.v
Board.v
App.v
