(* ===== verification/Prelude.v ===== *)
(** * Hyrule: a verification of the RISC-V application emulator

    Hyrule (src/sandbox) runs RV32IMA Linux programs on an x86-64 host.  It
    translates guest instructions to host code on demand, keeps the guest's
    memory as a table of regions, and implements processes, scheduling and
    system calls itself, passing file operations on to the host.

    ** The parts and their models

    - The binary translator (translation.c, translate_*.c, hart.c, vmm_trap.S).
      [Decode] models the six instruction formats; [X86] the x86-64 subset and
      the macros of translation.h; [TransArith], [TransImm], [TransJump],
      [TransBranch], [TransMulDiv], [TransLoad], [TransStore], [TransSys] and
      [TransAmo] the templates, one host instruction per line of the inline
      assembly, and their translators; [Hart] the translation cache and its
      sorted table of pcs; [Translation] the dispatch tables, the prefetch loop
      and [vmresume].  [Rv32] is the reference semantics of the guest, [Sim] the
      simulation relation between the two, [Refine] the theorems on one visit of
      the cache, [Vmm] the cycle of [vmresume], vmm_entry_point and [vmexit] a
      task lives in.  [Sandbox] puts the C functions that translated code calls
      (those of [Mmu], [TransAmo], [Trap], [Csr], [Debugger] and [Syscall]) behind
      the interface of the translator and states the theorem of the whole.
    - The generic macros SORT, INSERTION_SORT and SEARCH (sort.h, search.h):
      [SortSearch], over any comparison, with every array access checked.
    - Memory: [PmRegion] is the table of regions (pm_region.c); [Vma] the bytes
      behind them, direct access, stack, heap and mmap areas (app.c, mmu.h,
      uaccess.h); [VmaOps] mmap, munmap and brk (vfs.c, syscall.c); [Mmu] the
      paged access paths with their TLBs and the page walker (mmu*.c).
    - Traps, interrupts and privilege (hart_trap.c, hart_exception.c,
      hart_interrupt.c, hart_util.h): [Trap]; the control and status registers
      (csr_*.c): [Csr].
    - Files (vfs.c): [Path] is the handling of path names, [Vfs] the descriptor
      table and its calls; the host kernel is an interface.
    - Processes: [DList] is list.c; [Sched] models task_sched.c, vmm_sched.c,
      wait_queue.c and the calls of task.c on the records and lists of the tasks;
      [SchedTrap] and [SchedTask] hold the theorems, [Kernel] the start in main.c
      and the theorems on all runs from it.  [Fork] models what a clone copies
      (memory, files, registers), [Exec] execve.  Whether the copies of a clone
      return is an argument of [Sched.clone_task]; [Fork.copies_of] computes it.
    - Programs: [Loader] is the ELF reader of elf_util.c with [program_init] and
      [env_setup] of app.c, [App] the initialization of the first process.
    - System calls (syscall.c, signal.c): [Syscall] has the table of handlers and
      all of them; the calls on files and memory are those of [Vfs] and [VmaOps],
      the six on tasks are handed over to [Sched], [Fork] and [Exec], with the
      answers [task_answer] gives.
    - The debugger (debug.c, debug_breakpoint.c): [Debugger].
    - The board, which the build switches off: [Fdt] is the builder and the scanner
      of device trees (fdt.c), [Board] the tree of the board and the uart
      (emulate_uart.c).

    ** How C is modelled

    A function of the source is a definition of the same name.  State is passed
    explicitly.  A function that can stop the emulator returns an [outcome]:
    [Err EAssert] for ASSERT and __not_reach, [Err EUndef] for an access outside
    an object, [Err EFault] for a host exception, [Err EFuel] for a loop of the
    model that ran out of fuel.  32-bit arithmetic wraps through [w32]; signed
    readings use [sint].  Arrays are lists accessed through [zget] and [zset],
    which fail outside the array.  Pointers into structures that the code shares
    (host blocks behind regions, list elements) are addresses into an explicit
    memory, so aliasing is that of the code.  A call that leaves C for good (a
    trap raised in the middle of a memory access) is a separate constructor of
    the result.  A function that yields the processor in its middle is split at
    that point.

    What the source calls but does not contain is a parameter with the behaviour
    it documents: the functions translated code calls ([HostCalls] in [X86], with
    the laws [HostCallsOk], discharged by [Sandbox.sandbox_calls_ok]), the aligned
    accesses of the atomics ([AlignedMmu], discharged by [Mmu.machine_mmu_ok]), the
    host kernel ([HostKernel] in [Vfs]),
    the files the loader reads ([HostRead] in [Loader]), and the addresses the
    host's allocators return ([HostAlloc] in [Vma]).  Every theorem that uses such
    a contract has a witness with a concrete host.

    ** What the theorems show

    - Translation.  Under the conditions named in the theorems (RV32IMA without
      ebreak, amomin, amomax and amominu; pcs in one window of 2 GB; no breakpoint;
      no division the host faults on): an instruction is translated to a block whose
      x86-64 code implements it and keeps the invariant of the register file;
      prefetching terminates, stays inside the cache and links the blocks, but for
      one case of a flush that is stated; committing a block makes its pc found; and
      any number of rounds of [vmresume], the translated code and [vmexit], over the
      modelled memory, atomics, traps, debugger and system calls, refines the guest
      machine, with a bounded host stack, for programs whose text stays in memory and
      whose units are short enough for a flush.  The cases in which division raises a
      host exception are characterised exactly.
    - Atomics.  Read-modify-write, lr and sc behave as the manual says on
      memory that satisfies the interface.
    - Memory.  The table of regions is a sorted map of disjoint ranges; direct
      accesses read and write exactly the bytes they cover; for mmap, munmap and brk
      the answer, the regions and the bytes are characterised case by case; paged
      access implements Sv32; faults and sfence.vma are as specified.
    - Traps.  Exceptions are delivered as in the privileged manual and change
      nothing else; returns undo them; no masked interrupt is delivered.  The CSR
      instructions read and write what the manual says; the CSR files are a register
      file in which every address reads, replaces and resets its own cell, the
      supervisor registers being views of the machine ones.
    - Files.  Canonicalization equals a reference definition and stays inside its
      buffers; the host path composed for an absolute or relative path with AT_FDCWD
      stays below the root; the descriptor table stays consistent with the host.
    - Processes.  The list operations implement a double-ended queue; the trap
      handler implements an abstract scheduler; [main] returns, and no run of the
      tasks from there on stops the emulator, as long as what a clone copies can be
      copied and a thread gets a stack; on these runs the scheduler is a round robin;
      clone, wait and exit do what they promise, and a clone that cannot be made stops
      the emulator; an exited task never runs again.  Parent and
      child of a fork see the same memory and not each other's writes; a program
      is loaded with the bytes of its file and the stack the ABI describes; execve
      replaces the memory by that of a program below the root; the first process
      is ready to run.
    - System calls.  A call that answers leaves the descriptor table consistent and
      the working directory absolute and without ".."; exactly the six calls of task.c
      are handed over to the tasks; chdir and getcwd are inverse.
    - Debugger.  A translated instruction stops exactly at a breakpoint; the shell
      runs the commands of its input lines.
    - Board.  The builder writes, byte for byte, the blob of the devicetree format,
      and the scanner reads back every property in order and in its node; [fdt_init] leaves the board's tree in the rom; the uart never
      leaves its buffer and prints what is written.
    - Where the code departs from its intent the development proves the departure
      with a concrete run, next to the theorem whose hypothesis excludes it.

    ** Fuel and bounds

    Loops over arrays and strings use the length of the array as fuel; the list
    loops use the number of elements in memory, which no list exceeds; the
    prefetch loop uses the number of instructions the mapping table can hold plus
    one; the run of a block is bounded by the length of its template; [run_cache]
    follows one visit of the cache; the shell of the debugger takes one step per
    input line.  The theorems state that a result is returned, so running out of
    fuel is excluded; the invariant of the system calls is about the calls that
    answer.

    ** Not modelled

    The rest of the board emulation (emulate_ram.c, emulate_rom.c,
    emulate_clint.c, vm.c) is compiled out and uses fields that the structures no
    longer have; ini.c, tinyprintf.c and log.c are third-party utilities, log messages
    are left out; functions that only print, such as dump_hart, change nothing.  The
    assertions on the magic word of a hart are left out: nothing modelled writes it.  The build
    registers no CSR, since the body of register_csr_entry is empty; [Csr] models
    the tables as the files define them.  A host call made by translated code may
    flush the translation cache: in [Vmm] each round says whether one did, and the
    theorem holds for all.  What [yield_cpu] and the calls on tasks do to the process is a
    parameter there and in [Sandbox], as long as paging stays off; [Sched] models
    the scheduler itself.  The saved registers of a
    switched-out task are kept as its stack pointer only. *)
From stdpp Require Export base tactics list numbers strings sets gmap.
From Stdlib Require Export ZArith Lia Bool.

#[global] Open Scope Z_scope.

(** ** Outcomes of C code

    [ASSERT] and [__not_reach] of util.h call [exit(-1)]: [Err EAssert].
    [EUndef] is behaviour C leaves undefined (an access outside an object, a
    null dereference); [EFault] is a processor exception of the host (#DE),
    which ends the emulator; [EFuel] is a model loop that ran out of fuel,
    which the termination theorems exclude. *)
Inductive err :=
| EAssert
| EUndef
| EFault
| EFuel.

Inductive outcome (A : Type) :=
| Ok (a : A)
| Err (e : err).
Arguments Ok {A} a.
Arguments Err {A} e.

#[export] Instance err_eq_dec : EqDecision err.
Proof. solve_decision. Defined.

#[export] Instance outcome_ret : MRet outcome := fun A a => Ok a.

#[export] Instance outcome_bind : MBind outcome :=
  fun A B k m => match m with Ok a => k a | Err e => Err e end.

(** [ASSERT(exp)] of util.h. *)
Definition ASSERT (b : bool) : outcome unit :=
  if b then Ok tt else Err EAssert.

(** [__not_reach()] of util.h. *)
Definition not_reach {A} : outcome A := Err EAssert.

(** A dereference: [None] is an access outside every object. *)
Definition deref {A} (o : option A) : outcome A :=
  match o with Some a => Ok a | None => Err EUndef end.

(** ** Machine integers

    A w-bit unsigned integer is a [Z] in [0, 2^w); arithmetic wraps through
    [w8], [w16], [w32], [w64]; [sint w] reads a w-bit pattern as two's
    complement. *)
Definition w8 (z : Z) : Z := z mod 2 ^ 8.

Definition w16 (z : Z) : Z := z mod 2 ^ 16.

Definition w32 (z : Z) : Z := z mod 2 ^ 32.

Definition w64 (z : Z) : Z := z mod 2 ^ 64.

Definition sint (w z : Z) : Z :=
  let u := z mod 2 ^ w in
  if u <? 2 ^ (w - 1) then u else u - 2 ^ w.

Definition word32 (z : Z) : Prop := 0 <= z < 2 ^ 32.

#[export] Instance word32_dec z : Decision (word32 z).
Proof. unfold word32. apply _. Defined.

(** ** Indexed access to C arrays modelled as lists *)
Definition zget {A} (l : list A) (i : Z) : option A :=
  if 0 <=? i then l !! Z.to_nat i else None.

Definition zset {A} (l : list A) (i : Z) (x : A) : option (list A) :=
  if (0 <=? i) && (i <? Z.of_nat (length l)) then Some (<[Z.to_nat i := x]> l) else None.

(** ** Tactics and hints *)
Create HintDb hyrule discriminated.

Create Rewrite HintDb word.

(** Split every boolean comparison in sight and close by arithmetic. *)
Ltac zbool :=
  repeat match goal with
  | H : context [?a <? ?b] |- _ => destruct (Z.ltb_spec a b)
  | H : context [?a <=? ?b] |- _ => destruct (Z.leb_spec a b)
  | H : context [?a =? ?b] |- _ => destruct (Z.eqb_spec a b)
  | |- context [?a <? ?b] => destruct (Z.ltb_spec a b)
  | |- context [?a <=? ?b] => destruct (Z.leb_spec a b)
  | |- context [?a =? ?b] => destruct (Z.eqb_spec a b)
  end.

(** Evaluate [2 ^ k] for the constant widths so that [lia] sees numerals. *)
Ltac pow2 :=
  change (2 ^ 5) with 32 in *; change (2 ^ 7) with 128 in *;
  change (2 ^ 8) with 256 in *; change (2 ^ 16) with 65536 in *;
  change (2 ^ 31) with 2147483648 in *; change (2 ^ 32) with 4294967296 in *;
  change (2 ^ 63) with 9223372036854775808 in *;
  change (2 ^ 64) with 18446744073709551616 in *.

Ltac lia_w := unfold word32, w8, w16, w32, w64 in *; pow2; Z.to_euclidean_division_equations; lia.

(** Linear arithmetic with division and remainder by constants. *)
Ltac lia_div := Z.to_euclidean_division_equations; lia.

(** Break a successful monadic computation into its steps. *)
Ltac inv_ok :=
  repeat match goal with
  | H : Ok _ = Ok _ |- _ => injection H as H
  | H : Ok _ = Err _ |- _ => discriminate H
  | H : Err _ = Ok _ |- _ => discriminate H
  | H : (_ ≫= _) = Ok _ |- _ => unfold mbind, outcome_bind in H
  | H : match ?x with Ok _ => _ | Err _ => _ end = Ok _ |- _ =>
      let E := fresh "E" in destruct x eqn:E; [|discriminate H]
  end; simplify_eq/=.

Lemma bind_Ok {B C} (m : outcome B) (k : B → outcome C) c :
  (m ≫= k) = Ok c → ∃ b, m = Ok b ∧ k b = Ok c.
Proof. destruct m as [b|]; [|done]. intros. by exists b. Qed.

(** Running the first step without unfolding the bind. *)
Lemma bind_step {B C} (m : outcome B) (k : B → outcome C) b : m = Ok b → (m ≫= k) = k b.
Proof. by intros ->. Qed.

Lemma ASSERT_Ok {A} b (k : outcome A) c : (ASSERT b;; k) = Ok c → b = true ∧ k = Ok c.
Proof. by destruct b. Qed.

Lemma zget_Some {A} (l : list A) i x :
  zget l i = Some x ↔ 0 <= i ∧ l !! Z.to_nat i = Some x.
Proof. unfold zget. destruct (Z.leb_spec 0 i); naive_solver lia. Qed.

Lemma zget_lookup {A} (l : list A) i : 0 <= i → zget l i = l !! Z.to_nat i.
Proof. intros. unfold zget. destruct (Z.leb_spec 0 i); [done|lia]. Qed.

Lemma zget_nat {A} (l : list A) (n : nat) : zget l (Z.of_nat n) = l !! n.
Proof. rewrite zget_lookup by lia. by rewrite Nat2Z.id. Qed.

Lemma zget_is_Some {A} (l : list A) i :
  0 <= i < Z.of_nat (length l) → is_Some (zget l i).
Proof. intros. rewrite zget_lookup by lia. apply lookup_lt_is_Some. lia. Qed.

Lemma zget_bound {A} (l : list A) i x :
  zget l i = Some x → 0 <= i < Z.of_nat (length l).
Proof. intros [? ?%lookup_lt_Some]%zget_Some. lia. Qed.

Lemma zset_ok {A} (l : list A) i x :
  0 <= i < Z.of_nat (length l) → zset l i x = Some (<[Z.to_nat i := x]> l).
Proof.
  intros. unfold zset. destruct (Z.leb_spec 0 i), (Z.ltb_spec i (Z.of_nat (length l)));
    simpl; (done || lia).
Qed.

Lemma zget_middle {A} (l1 l2 : list A) x : zget (l1 ++ x :: l2) (Z.of_nat (length l1)) = Some x.
Proof. rewrite zget_nat. by apply list_lookup_middle. Qed.

Lemma zset_middle {A} (l1 l2 : list A) x y :
  zset (l1 ++ x :: l2) (Z.of_nat (length l1)) y = Some (l1 ++ y :: l2).
Proof.
  rewrite zset_ok by (rewrite length_app; simpl; lia). rewrite Nat2Z.id.
  by rewrite insert_app_r_alt, Nat.sub_diag by lia.
Qed.

Lemma zget_app_l {A} (l1 l2 : list A) i :
  i < Z.of_nat (length l1) → zget (l1 ++ l2) i = zget l1 i.
Proof. intros. unfold zget. destruct (Z.leb_spec 0 i); [|done]. apply lookup_app_l. lia. Qed.

Lemma zget_app_r {A} (l1 l2 : list A) k :
  0 <= k → zget (l1 ++ l2) (Z.of_nat (length l1) + k) = zget l2 k.
Proof.
  intros. rewrite !zget_lookup by lia. rewrite lookup_app_r by lia. f_equal. lia.
Qed.

Lemma length_snoc_Z {A} (l : list A) x : Z.of_nat (length (l ++ [x])) = Z.of_nat (length l) + 1.
Proof. rewrite length_app. simpl. lia. Qed.

(** Two neighbours split a list. *)
Lemma zget_pair {A} (l : list A) i a b :
  zget l i = Some a → zget l (i + 1) = Some b →
  ∃ p q, l = p ++ a :: b :: q ∧ i = Z.of_nat (length p).
Proof.
  intros [Hi (p & q & -> & Hp)%list_elem_of_split_length]%zget_Some Hb.
  assert (i = Z.of_nat (length p)) as -> by lia.
  rewrite <- (length_snoc_Z p a), cons_middle, app_assoc, zget_nat, lookup_app_r in Hb by lia.
  rewrite Nat.sub_diag in Hb. destruct q as [|b' q]; simplify_eq/=. by exists p, q.
Qed.

Lemma w32_word z : word32 (w32 z).
Proof. unfold w32, word32. apply Z.mod_pos_bound. lia. Qed.

Lemma w32_small z : word32 z → w32 z = z.
Proof. intros. unfold w32. apply Z.mod_small. done. Qed.

Lemma w32_idem z : w32 (w32 z) = w32 z.
Proof. apply w32_small, w32_word. Qed.

Lemma w32_add_l a b : w32 (w32 a + b) = w32 (a + b).
Proof. unfold w32. by rewrite Z.add_mod_idemp_l. Qed.

Lemma w32_add_r a b : w32 (a + w32 b) = w32 (a + b).
Proof. unfold w32. by rewrite Z.add_mod_idemp_r. Qed.

Lemma w32_mod_pow z n : 0 <= n <= 32 → w32 z mod 2 ^ n = z mod 2 ^ n.
Proof.
  intros. unfold w32. apply Z.mod_mod_divide. exists (2 ^ (32 - n)).
  rewrite <- Z.pow_add_r by lia. f_equal. lia.
Qed.

Lemma word32_bits z : word32 z ↔ 0 <= z ∧ ∀ i, 32 <= i → Z.testbit z i = false.
Proof.
  unfold word32. split.
  - intros Hz. split; [lia|]. intros i Hi. rewrite <- (Z.mod_small z (2 ^ 32)) by lia.
    by apply Z.mod_pow2_bits_high.
  - intros [H0 Hb]. split; [done|]. destruct (Z.eq_dec z 0) as [->|]; [lia|].
    apply Z.log2_lt_pow2; [lia|]. apply Z.nle_gt. intros Hl.
    specialize (Hb (Z.log2 z) Hl). rewrite Z.bit_log2 in Hb by lia. done.
Qed.

Lemma word32_land a b : word32 a → word32 b → word32 (Z.land a b).
Proof.
  rewrite !word32_bits. intros [? Ha] [? Hb]. split; [apply Z.land_nonneg; lia|].
  intros i Hi. by rewrite Z.land_spec, Ha.
Qed.

Lemma word32_lor a b : word32 a → word32 b → word32 (Z.lor a b).
Proof.
  rewrite !word32_bits. intros [? Ha] [? Hb]. split; [apply Z.lor_nonneg; lia|].
  intros i Hi. by rewrite Z.lor_spec, Ha, Hb.
Qed.

Lemma word32_lxor a b : word32 a → word32 b → word32 (Z.lxor a b).
Proof.
  rewrite !word32_bits. intros [? Ha] [? Hb]. split; [apply Z.lxor_nonneg; lia|].
  intros i Hi. by rewrite Z.lxor_spec, Ha, Hb.
Qed.

Lemma word32_shiftr a n : word32 a → 0 <= n → word32 (Z.shiftr a n).
Proof.
  rewrite !word32_bits. intros [? Ha] ?. split; [by apply Z.shiftr_nonneg|].
  intros i Hi. rewrite Z.shiftr_spec by lia. apply Ha. lia.
Qed.

Lemma word32_b2z b : word32 (Z.b2z b).
Proof. by destruct b. Qed.

Lemma w8_word32 z : word32 (w8 z).
Proof. unfold w8, word32. pose proof (Z.mod_pos_bound z (2 ^ 8) eq_refl). lia. Qed.

Lemma w16_word32 z : word32 (w16 z).
Proof. unfold w16, word32. pose proof (Z.mod_pos_bound z (2 ^ 16) eq_refl). lia. Qed.

Lemma bit_mask k n : 0 <= n → Z.land k (2 ^ n) = (k / 2 ^ n) mod 2 * 2 ^ n.
Proof.
  intros Hn. apply Z.bits_inj'. intros i Hi.
  rewrite Z.land_spec, Z.pow2_bits_eqb, Z.mul_pow2_bits, <- Z.bit0_mod by lia.
  rewrite Z.div_pow2_bits by lia. destruct (Z.eqb_spec n i) as [->|Hne].
  - by rewrite andb_true_r, Z.sub_diag, Z.b2z_bit0.
  - rewrite andb_false_r. symmetry. destruct (Z.lt_ge_cases i n).
    + apply Z.testbit_neg_r. lia.
    + destruct (Z.testbit k _); [|by rewrite Z.bits_0]. apply Z.bits_above_log2; simpl; lia.
Qed.


Lemma clear_low v n m :
  word32 v → 0 <= n → m = Z.ldiff (Z.ones 32) (Z.ones n) → Z.land v m = 2 ^ n * (v / 2 ^ n).
Proof.
  intros Hv Hn ->.
  assert (Z.land v (Z.ldiff (Z.ones 32) (Z.ones n)) = Z.ldiff (Z.land v (Z.ones 32)) (Z.ones n)) as ->.
  { apply Z.bits_inj'. intros i _. by rewrite !Z.land_spec, !Z.ldiff_spec, Z.land_spec, andb_assoc. }
  rewrite Z.land_ones, Z.mod_small by (done || lia). rewrite Z.ldiff_ones_r by lia.
  rewrite Z.shiftl_mul_pow2, Z.shiftr_div_pow2 by lia. lia.
Qed.

Lemma div_word a b : word32 a → word32 b → b ≠ 0 → word32 (a / b) ∧ word32 (a mod b).
Proof.
  unfold word32. intros Ha Hb Hz. pose proof (Z.mod_pos_bound a b ltac:(lia)).
  assert (a / b <= a) by (apply Z.div_le_upper_bound; nia).
  pose proof (Z.div_pos a b ltac:(lia) ltac:(lia)). lia.
Qed.

(** [sint w] is the representative of [z] modulo [2 ^ w] in the signed range. *)
Lemma sint_range w z : 0 < w → - 2 ^ (w - 1) <= sint w z < 2 ^ (w - 1).
Proof.
  intros Hw. unfold sint. pose proof (Z.mod_pos_bound z (2 ^ w) ltac:(lia)).
  assert (2 ^ w = 2 * 2 ^ (w - 1)) by (rewrite <- Z.pow_succ_r by lia; f_equal; lia).
  zbool; lia.
Qed.

Lemma sint_mod w z : 0 < w → sint w z mod 2 ^ w = z mod 2 ^ w.
Proof.
  intros Hw. unfold sint. zbool; [by rewrite Z.mod_mod by lia|].
  rewrite <- (Z.mod_add _ 1) by lia. rewrite Z.mul_1_l, Z.sub_add. by rewrite Z.mod_mod by lia.
Qed.

Lemma sint_unique w z k : 0 < w → - 2 ^ (w - 1) <= k < 2 ^ (w - 1) → k mod 2 ^ w = z mod 2 ^ w → sint w z = k.
Proof.
  intros Hw Hk Hm. unfold sint. rewrite <- Hm.
  assert (2 ^ w = 2 * 2 ^ (w - 1)) by (rewrite <- Z.pow_succ_r by lia; f_equal; lia).
  destruct (Z.lt_ge_cases k 0).
  - replace (k mod 2 ^ w) with (k + 2 ^ w); [zbool; lia|].
    rewrite <- (Z.mod_add _ 1) by lia. rewrite Z.mod_small; lia.
  - rewrite Z.mod_small by lia. zbool; lia.
Qed.

Lemma sint_add w a b : 0 < w → sint w (sint w a + b) = sint w (a + b).
Proof.
  intros Hw. apply sint_unique; [done|by apply sint_range|].
  rewrite sint_mod by done. by rewrite <- (Z.add_mod_idemp_l (sint w a)), sint_mod, Z.add_mod_idemp_l by lia.
Qed.

#[export] Hint Resolve w32_word word32_land word32_lor word32_lxor word32_shiftr word32_b2z
  w8_word32 w16_word32 : hyrule.
#[export] Hint Extern 5 (_ <= _) => lia : hyrule.
#[export] Hint Rewrite w32_idem w32_add_l w32_add_r : word.
