(* ===== verification/SortSearch.v ===== *)
(** * The generic array macros of search.h and sort.h

    [SEARCH] (binary search by an interval [idx_low, idx_high] whose ends are
    compared first), [SORT] (bubble sort) and [INSERTION_SORT] (the last
    element is moved to its place, found by bisection).  The arrays are lists,
    the comparison is a C function that may hit an [ASSERT], so the macros run
    in the [outcome] monad.  The theorems give the result of each macro for a
    comparison that orders the array, with the fuel of every loop shown to be
    enough. *)
From S2P Require Import Prelude.
From Stdlib Require Import Sorted Permutation.

Module Macros.

Section Code.
Context {A : Type} (comp : A → A → outcome Z).

(** [ELEM(type, base, index)], dereferenced. *)
Definition ELEM (base : list A) (index : Z) : outcome A := deref (zget base index).

(** The loop of [SEARCH]; the result is the index of [elem_found]. *)
Fixpoint search_loop (fuel : nat) (base : list A) (target : A) (idx_low idx_high : Z)
    : outcome (option Z) :=
  match fuel with
  | O => Err EFuel
  | S fuel =>
    if idx_low <=? idx_high then
      elem_low ← ELEM base idx_low;
      c_low ← comp target elem_low;
      if c_low =? 0 then Ok (Some idx_low) else
      elem_high ← ELEM base idx_high;
      c_high ← comp target elem_high;
      if c_high =? 0 then Ok (Some idx_high) else
      let idx_mid := Z.quot (idx_low + idx_high) 2 in
      if (idx_mid =? idx_low) || (idx_mid =? idx_high) then Ok None else
      elem_mid ← ELEM base idx_mid;
      c_mid ← comp target elem_mid;
      if c_mid <? 0 then search_loop fuel base target idx_low idx_mid
      else search_loop fuel base target idx_mid idx_high
    else Ok None
  end.

Definition SEARCH (base : list A) (num : Z) (target : A) : outcome (option Z) :=
  search_loop (S (Z.to_nat num)) base target 0 (num - 1).

(** The inner loop of [SORT]: [for (; idx_in < idx_out; idx_in++)], run
    [n] times from [idx_in]. *)
Fixpoint sort_in (n : nat) (base : list A) (idx_in : Z) : outcome (list A) :=
  match n with
  | O => Ok base
  | S n =>
    prev_elem ← ELEM base idx_in;
    next_elem ← ELEM base (idx_in + 1);
    c ← comp prev_elem next_elem;
    base' ← (if 0 <? c then
               b1 ← deref (zset base idx_in next_elem);
               deref (zset b1 (idx_in + 1) prev_elem)
             else Ok base);
    sort_in n base' (idx_in + 1)
  end.

(** The outer loop of [SORT]: [idx_out] counts down from [num - 1] to 1. *)
Fixpoint sort_out (idx_out : nat) (base : list A) : outcome (list A) :=
  match idx_out with
  | O => Ok base
  | S k => base' ← sort_in idx_out base 0; sort_out k base'
  end.

Definition SORT (base : list A) (num : Z) : outcome (list A) :=
  sort_out (Z.to_nat (num - 1)) base.

(** The bisection of [INSERTION_SORT]: the index [__idx_move] the last element
    is moved to. *)
Fixpoint insertion_point (fuel : nat) (base : list A) (elem_target : A)
    (idx_low idx_high : Z) : outcome Z :=
  match fuel with
  | O => Err EFuel
  | S fuel =>
    if idx_low <=? idx_high then
      elem_low ← ELEM base idx_low;
      c_low ← comp elem_target elem_low;
      if c_low <=? 0 then Ok idx_low else
      elem_high ← ELEM base idx_high;
      c_high ← comp elem_high elem_target;
      if c_high <=? 0 then Ok (idx_high + 1) else
      let idx_mid := Z.quot (idx_low + idx_high) 2 in
      if (idx_mid =? idx_low) || (idx_mid =? idx_high) then Ok (idx_mid + 1) else
      elem_mid ← ELEM base idx_mid;
      c_mid ← comp elem_target elem_mid;
      if c_mid <? 0 then insertion_point fuel base elem_target idx_low idx_mid
      else insertion_point fuel base elem_target idx_mid idx_high
    else Ok 0
  end.

(** [for (; __idx > __idx_move; __idx--) base[__idx] = base[__idx - 1]],
    [n] iterations starting at [idx]. *)
Fixpoint shift_up (n : nat) (base : list A) (idx : Z) : outcome (list A) :=
  match n with
  | O => Ok base
  | S n =>
    e ← ELEM base (idx - 1);
    base' ← deref (zset base idx e);
    shift_up n base' (idx - 1)
  end.

Definition INSERTION_SORT (base : list A) (num : Z) : outcome (list A) :=
  if num =? 0 then Ok base else
  elem_target ← ELEM base (num - 1);
  idx_move ← insertion_point (S (Z.to_nat num)) base elem_target 0 (num - 2);
  if idx_move <? num - 1 then
    base' ← shift_up (Z.to_nat (num - 1 - idx_move)) base (num - 1);
    deref (zset base' idx_move elem_target)
  else Ok base.

End Code.

(** ** SEARCH *)

Section SearchSpec.
Context {A : Type} (comp : A → A → outcome Z).

(** [sgn_at base target i c]: the comparison of [target] with element [i]
    returns [c]. *)
Definition sgn_at (base : list A) (target : A) (i c : Z) : Prop :=
  ∃ e, zget base i = Some e ∧ comp target e = Ok c.

(** The array is arranged for [target]: every comparison returns, and the
    signs go from positive through zero to negative. *)
Definition arranged (base : list A) (num : Z) (target : A) : Prop :=
  (∀ i, 0 <= i < num → ∃ c, sgn_at base target i c) ∧
  (∀ i j ci cj, 0 <= i <= j → j < num →
     sgn_at base target i ci → sgn_at base target j cj → Z.sgn cj <= Z.sgn ci).

Definition hit (base : list A) (target : A) (i : Z) : Prop := sgn_at base target i 0.

Lemma ELEM_bind {B} base i e (k : A → outcome B) :
  zget base i = Some e → (ELEM base i ≫= k) = k e.
Proof. unfold ELEM. by intros ->. Qed.

Lemma comp_bind {B} c (m : outcome Z) (k : Z → outcome B) :
  m = Ok c → (m ≫= k) = k c.
Proof. by intros ->. Qed.

Lemma mid_bounds lo hi :
  0 <= lo <= hi → lo <= Z.quot (lo + hi) 2 <= hi ∧
  (Z.quot (lo + hi) 2 = hi → lo = hi) ∧ (Z.quot (lo + hi) 2 = lo → hi <= lo + 1).
Proof. intros. repeat split; intros; lia_div. Qed.

Lemma search_loop_spec base num target :
  arranged base num target →
  ∀ fuel lo hi, 0 <= lo <= hi + 1 → hi < num → hi - lo + 1 < Z.of_nat fuel →
  (∀ i, 0 <= i < num → hit base target i → ∃ j, lo <= j <= hi ∧ hit base target j) →
  ∃ r, search_loop comp fuel base target lo hi = Ok r ∧
    match r with
    | Some i => lo <= i <= hi ∧ hit base target i
    | None => ∀ i, 0 <= i < num → ¬ hit base target i
    end.
Proof.
  intros [Htot Hord]. induction fuel as [|fuel IH]; intros lo hi Hlo Hhi Hf Hin; [lia|].
  cbn [search_loop]. destruct (Z.leb_spec lo hi) as [Hle|Hgt].
  2: { exists None. split; [done|]. intros i Hi Hh. destruct (Hin i Hi Hh) as (j & ? & _). lia. }
  destruct (Htot lo ltac:(lia)) as (cl & el & Hel & Hcl).
  destruct (Htot hi ltac:(lia)) as (ch & eh & Heh & Hch).
  rewrite (ELEM_bind _ _ _ _ Hel), (comp_bind _ _ _ Hcl).
  destruct (Z.eqb_spec cl 0) as [->|Hcl0].
  { exists (Some lo). split; [done|]. split; [lia|]. exists el. done. }
  rewrite (ELEM_bind _ _ _ _ Heh), (comp_bind _ _ _ Hch).
  destruct (Z.eqb_spec ch 0) as [->|Hch0].
  { exists (Some hi). split; [done|]. split; [lia|]. exists eh. done. }
  pose proof (mid_bounds lo hi ltac:(lia)) as (Hm & Hmh & Hml).
  set (mid := Z.quot (lo + hi) 2) in *. cbn zeta.
  assert (Hnl : ¬ hit base target lo) by (intros (? & ? & ?); simplify_eq; congruence).
  assert (Hnh : ¬ hit base target hi) by (intros (? & ? & ?); simplify_eq; congruence).
  destruct ((mid =? lo) || (mid =? hi)) eqn:Hb.
  { exists None. split; [done|]. intros i Hi Hh. destruct (Hin i Hi Hh) as (j & Hj & Hhj).
    destruct (decide (j = lo)) as [->|]; [done|].
    destruct (decide (j = hi)) as [->|]; [done|]. zbool; simpl in Hb; (lia || done). }
  apply orb_false_iff in Hb as [Hb1%Z.eqb_neq Hb2%Z.eqb_neq].
  destruct (Htot mid ltac:(lia)) as (cm & em & Hem & Hcm).
  rewrite (ELEM_bind _ _ _ _ Hem), (comp_bind _ _ _ Hcm).
  destruct (Z.ltb_spec cm 0) as [Hneg|Hpos].
  - destruct (IH lo mid) as (r & -> & Hr); [lia|lia|lia| |].
    { intros i Hi Hh. destruct (Hin i Hi Hh) as (j & Hj & Hhj). exists j. split; [|done].
      split; [lia|]. destruct (Z.le_gt_cases j mid); [lia|].
      assert (Z.sgn 0 <= Z.sgn cm); [|lia].
      eapply (Hord mid j); [lia|lia|by exists em|done]. }
    exists r. split; [done|]. destruct r; [|done]. split; [lia|apply Hr].
  - destruct (IH mid hi) as (r & -> & Hr); [lia|lia|lia| |].
    { intros i Hi Hh. destruct (Z.eq_dec cm 0) as [->|Hnz].
      { exists mid. split; [lia|]. by exists em. }
      destruct (Hin i Hi Hh) as (j & Hj & Hhj). exists j. split; [|done].
      split; [|lia]. destruct (Z.le_gt_cases mid j); [lia|].
      exfalso. assert (Z.sgn cm <= Z.sgn 0); [|lia].
      eapply (Hord j mid); [lia|lia|done|by exists em]. }
    exists r. split; [done|]. destruct r; [|done]. split; [lia|apply Hr].
Qed.

Lemma SEARCH_spec base num target :
  0 <= num → arranged base num target →
  ∃ r, SEARCH comp base num target = Ok r ∧
    match r with
    | Some i => 0 <= i < num ∧ hit base target i
    | None => ∀ i, 0 <= i < num → ¬ hit base target i
    end.
Proof.
  intros Hn Ha.
  destruct (search_loop_spec base num target Ha (S (Z.to_nat num)) 0 (num - 1))
    as (r & Hr & Hs); [lia|lia|lia| |].
  { intros i Hi Hh. exists i. split; [lia|done]. }
  exists r. split; [done|]. destruct r; [|done]. split; [lia|apply Hs].
Qed.

End SearchSpec.

(** ** Any comparison

    What the macros give even when the comparison does not order the array. *)
Section AnyComp.
Context {A : Type} (comp : A → A → outcome Z).

Lemma ELEM_Ok (base : list A) i e : ELEM base i = Ok e → zget base i = Some e.
Proof. unfold ELEM. destruct (zget base i); intros; by simplify_eq/=. Qed.

Lemma search_loop_hit fuel base t lo hi i :
  0 <= lo → search_loop comp fuel base t lo hi = Ok (Some i) →
  lo <= i <= hi ∧ ∃ e, zget base i = Some e ∧ comp t e = Ok 0.
Proof.
  revert lo hi. induction fuel as [|fuel IH]; intros lo hi Hlo; cbn [search_loop]; [done|].
  destruct (Z.leb_spec lo hi); [|done].
  intros (el & Hl%ELEM_Ok & (cl & Hcl & Hk)%bind_Ok)%bind_Ok.
  destruct (Z.eqb_spec cl 0); [simplify_eq; split; [lia|by exists el]|].
  apply bind_Ok in Hk as (eh & Hh%ELEM_Ok & (ch & Hch & Hk)%bind_Ok).
  destruct (Z.eqb_spec ch 0); [simplify_eq; split; [lia|by exists eh]|].
  destruct (_ || _) eqn:Hm; [done|]. apply orb_false_iff in Hm as [Hm1 Hm2].
  destruct (mid_bounds lo hi) as [? _]; [lia|].
  apply bind_Ok in Hk as (em & _ & (cm & _ & Hk)%bind_Ok).
  destruct (cm <? 0); apply IH in Hk as [? ?]; (done || lia || split; (done || lia)).
Qed.

Lemma SEARCH_hit base num t i :
  SEARCH comp base num t = Ok (Some i) →
  0 <= i < num ∧ ∃ e, zget base i = Some e ∧ comp t e = Ok 0.
Proof. intros [? ?]%search_loop_hit; [|lia]. split; [lia|done]. Qed.

Lemma sort_in_perm n base l rest i base' :
  sort_in comp n base i = Ok base' → base = l ++ rest → 0 <= i →
  i + Z.of_nat n < Z.of_nat (length l) → ∃ l', base' = l' ++ rest ∧ l' ≡ₚ l.
Proof.
  revert base l i. induction n as [|n IH]; intros base l i; cbn [sort_in].
  { intros [= <-] -> _ _. by exists l. }
  intros (a & Ha%ELEM_Ok & (b & Hb%ELEM_Ok & (c & _ & (b1 & Hsw & Hk)%bind_Ok)%bind_Ok)%bind_Ok)%bind_Ok
    -> Hi Hn.
  assert (∃ l1, b1 = l1 ++ rest ∧ l1 ≡ₚ l) as (l1 & -> & Hp).
  { destruct (0 <? c); [|injection Hsw as <-; by exists l].
    destruct (zget_pair l i a b) as (p & q & -> & ->);
      [by rewrite <- (zget_app_l l rest) by lia..|].
    rewrite <- app_assoc in Hsw. cbn [app] in Hsw.
    rewrite zset_middle in Hsw. cbn [deref mbind outcome_bind] in Hsw.
    rewrite (cons_middle b), app_assoc, <- (length_snoc_Z p b), zset_middle in Hsw.
    cbn [deref mbind outcome_bind] in Hsw.
    injection Hsw as <-. exists (p ++ b :: a :: q). rewrite <- !app_assoc. split; [done|].
    by apply Permutation_app_head, perm_swap. }
  apply (IH _ l1) in Hk as (l' & -> & Hp'); [|done|lia|rewrite Hp; lia].
  exists l'. split; [done|]. by rewrite Hp'.
Qed.

Lemma SORT_perm l rest base' :
  SORT comp (l ++ rest) (Z.of_nat (length l)) = Ok base' → ∃ l', base' = l' ++ rest ∧ l' ≡ₚ l.
Proof.
  unfold SORT. set (n := Z.to_nat _).
  assert (Hn : (n < length l ∨ n = 0)%nat) by lia. clearbody n. revert l Hn.
  induction n as [|n IH]; intros l Hn; cbn [sort_out]; [intros [= <-]; by exists l|].
  intros (b & Hb & Hk)%bind_Ok.
  apply (sort_in_perm _ _ l rest) in Hb as (l1 & -> & Hp); [|done|lia|lia].
  apply IH in Hk as (l' & -> & Hp'); [|rewrite Hp; lia].
  exists l'. split; [done|]. by rewrite Hp'.
Qed.

End AnyComp.

(** ** INSERTION_SORT and SORT

    Both sort by a key that the comparison agrees with on the elements at
    hand. *)

Section SortSpec.
Context {A : Type} (comp : A → A → outcome Z) (key : A → Z).

(** On the elements of [l] the comparison returns, with the sign of the
    difference of the keys. *)
Definition keyed (l : list A) : Prop :=
  ∀ a b, a ∈ l → b ∈ l → ∃ c, comp a b = Ok c ∧ Z.sgn c = Z.sgn (key a - key b).

Definition sorted_by (l : list A) : Prop :=
  ∀ i j a b, (i <= j)%nat → l !! i = Some a → l !! j = Some b → key a <= key b.

Lemma keyed_perm l l' : l ≡ₚ l' → keyed l → keyed l'.
Proof. intros Hp Hk a b Ha Hb. apply Hk; by rewrite Hp. Qed.

#[export] Instance keyed_proper : Proper ((≡ₚ) ==> iff) keyed.
Proof. intros l l' Hp. split; apply keyed_perm; [done|by symmetry]. Qed.

Lemma sorted_by_app l1 l2 :
  sorted_by l1 → sorted_by l2 → (∀ a b, a ∈ l1 → b ∈ l2 → key a <= key b) →
  sorted_by (l1 ++ l2).
Proof.
  intros H1 H2 H12 i j a b Hij Ha Hb.
  apply lookup_app_Some in Ha as [Ha|[Hi Ha]];
    apply lookup_app_Some in Hb as [Hb|[Hj Hb]].
  - by eapply H1.
  - apply H12; by eapply list_elem_of_lookup_2.
  - apply lookup_lt_Some in Hb. lia.
  - eapply (H2 (i - length l1)%nat (j - length l1)%nat); [lia|done|done].
Qed.

Lemma sorted_by_app_inv l1 l2 :
  sorted_by (l1 ++ l2) → sorted_by l1 ∧ sorted_by l2.
Proof.
  intros H. split.
  - intros i j a b Hij Ha Hb. eapply (H i j); [done|by apply lookup_app_l_Some..].
  - intros i j a b Hij Ha Hb. eapply (H (length l1 + i)%nat (length l1 + j)%nat); [lia|..];
      by rewrite lookup_app_r, Nat.add_comm, Nat.add_sub by lia.
Qed.

Lemma sorted_by_single a : sorted_by [a].
Proof. intros [|?] [|?] x y ? ? ?; simplify_eq/=; lia. Qed.

Lemma sorted_by_insert l1 l2 t :
  sorted_by (l1 ++ l2) → (∀ e, e ∈ l1 → key e <= key t) →
  (∀ e, e ∈ l2 → key t <= key e) → sorted_by (l1 ++ t :: l2).
Proof.
  intros Hs H1 H2. pose proof (sorted_by_app_inv _ _ Hs) as [Hs1 Hs2].
  apply sorted_by_app; [done| |].
  - apply (sorted_by_app [t]); [apply sorted_by_single|done|].
    intros a b ->%list_elem_of_singleton Hb. by apply H2.
  - intros a b Ha [->|Hb]%elem_of_cons; [by apply H1|].
    apply list_elem_of_lookup in Ha as [i Hi]. apply list_elem_of_lookup in Hb as [j Hj].
    eapply (Hs i (length l1 + j)%nat).
    + apply lookup_lt_Some in Hi. lia.
    + by apply lookup_app_l_Some.
    + by rewrite lookup_app_r, Nat.add_comm, Nat.add_sub by lia.
Qed.

Lemma keyed_zget init t rest :
  keyed (init ++ [t]) → ∀ i, 0 <= i < Z.of_nat (length init) →
  ∃ e c1 c2, zget init i = Some e ∧ zget (init ++ t :: rest) i = Some e ∧
    comp t e = Ok c1 ∧ comp e t = Ok c2 ∧
    Z.sgn c1 = Z.sgn (key t - key e) ∧ Z.sgn c2 = Z.sgn (key e - key t).
Proof.
  intros Hk i Hi. destruct (zget_is_Some init i Hi) as [e He]. exists e.
  pose proof He as [_ He']%zget_Some. pose proof (list_elem_of_lookup_2 _ _ _ He').
  destruct (Hk t e) as (c1 & ? & ?); [set_solver..|].
  destruct (Hk e t) as (c2 & ? & ?); [set_solver..|]. exists c1, c2.
  repeat split; try done. apply zget_Some. split; [lia|]. by apply lookup_app_l_Some.
Qed.

Lemma sorted_by_zget l :
  sorted_by l → ∀ i j a b, i <= j → zget l i = Some a → zget l j = Some b → key a <= key b.
Proof.
  intros Hs i j a b ? [? Ha]%zget_Some [? Hb]%zget_Some.
  eapply (Hs (Z.to_nat i) (Z.to_nat j)); [lia|done..].
Qed.

(** The bisection of [INSERTION_SORT] finds a place that keeps the order. *)
Lemma insertion_point_spec init t rest :
  keyed (init ++ [t]) → sorted_by init →
  let base := init ++ t :: rest in
  let n := Z.of_nat (length init) in
  ∀ fuel lo hi, 0 <= lo <= hi → hi < n → hi - lo + 1 < Z.of_nat fuel →
  (∀ i e, i < lo → zget init i = Some e → key e <= key t) →
  (∀ i e, hi < i → zget init i = Some e → key t <= key e) →
  ∃ m, insertion_point comp fuel base t lo hi = Ok m ∧ 0 <= m <= n ∧
    (∀ i e, i < m → zget init i = Some e → key e <= key t) ∧
    (∀ i e, m <= i → zget init i = Some e → key t <= key e).
Proof.
  intros Hk Hs base n.
  pose proof (keyed_zget init t rest Hk) as Hget. fold base in Hget.
  pose proof (sorted_by_zget init Hs) as Hmono.
  induction fuel as [|fuel IH]; intros lo hi Hlo Hhi Hf Hbelow Habove; [lia|].
  cbn [insertion_point]. destruct (Z.leb_spec lo hi); [|lia].
  destruct (Hget lo) as (el & cl & cl' & Hil & Hbl & Hcl & _ & Hsl & _); [lia|].
  rewrite (ELEM_bind _ _ _ _ Hbl), (comp_bind _ _ _ Hcl).
  destruct (Z.leb_spec cl 0) as [Hle|Hgt].
  { exists lo. split; [done|]. split; [lia|]. split; [done|].
    intros i e Hi He. transitivity (key el); [lia|]. by eapply Hmono. }
  destruct (Hget hi) as (eh & ch & ch' & Hih & Hbh & _ & Hch & _ & Hsh); [lia|].
  rewrite (ELEM_bind _ _ _ _ Hbh), (comp_bind _ _ _ Hch).
  destruct (Z.leb_spec ch' 0) as [Hle'|Hgt'].
  { exists (hi + 1). split; [done|]. split; [lia|]. split.
    - intros i e Hi He. transitivity (key eh); [eapply (Hmono i hi); [lia|done..]|lia].
    - intros i e Hi He. apply (Habove i); [lia|done]. }
  pose proof (mid_bounds lo hi ltac:(lia)) as (Hm & Hmh & Hml).
  set (mid := Z.quot (lo + hi) 2) in *. cbn zeta.
  assert (lo <> hi) by (intros ->; simplify_eq; lia).
  destruct ((mid =? lo) || (mid =? hi)) eqn:Hb.
  { assert (mid = lo ∧ hi = lo + 1) as [-> ->].
    { apply orb_true_iff in Hb as [Hb%Z.eqb_eq|Hb%Z.eqb_eq]; lia. }
    exists (lo + 1). split; [done|]. split; [lia|]. split.
    - intros i e Hi He. transitivity (key el); [eapply (Hmono i lo); [lia|done..]|lia].
    - intros i e Hi He. transitivity (key eh); [lia|]. by eapply Hmono. }
  apply orb_false_iff in Hb as [Hb1%Z.eqb_neq Hb2%Z.eqb_neq].
  destruct (Hget mid) as (em & cm & cm' & Him & Hbm & Hcm & _ & Hsm & _); [lia|].
  rewrite (ELEM_bind _ _ _ _ Hbm), (comp_bind _ _ _ Hcm).
  destruct (Z.ltb_spec cm 0).
  - apply IH; [lia..|done|]. intros i e Hi He.
    transitivity (key em); [lia|]. eapply (Hmono mid i); [lia|done..].
  - apply IH; [lia..| |done]. intros i e Hi He.
    transitivity (key em); [eapply (Hmono i mid); [lia|done..]|lia].
Qed.

(** The copying loop of [INSERTION_SORT] moves a block one place up. *)
Lemma shift_up_spec (p q : list A) (x : A) (rest : list A) :
  shift_up (length q) (p ++ q ++ x :: rest) (Z.of_nat (length p + length q)) =
  Ok (p ++ hd x q :: q ++ rest).
Proof.
  revert x rest. induction q as [|y q IH] using rev_ind; intros x rest; [done|].
  rewrite length_app, Nat.add_comm. cbn [length Nat.add shift_up].
  replace (Z.of_nat (length p + S (length q)) - 1) with (Z.of_nat (length (p ++ q)))
    by (rewrite length_app; lia).
  replace (p ++ (q ++ [y]) ++ x :: rest) with ((p ++ q) ++ y :: x :: rest)
    by by rewrite <- !app_assoc.
  rewrite (ELEM_bind _ _ _ _ (zget_middle _ _ _)).
  replace ((p ++ q) ++ y :: x :: rest) with (((p ++ q) ++ [y]) ++ x :: rest)
    by by rewrite <- !app_assoc.
  replace (Z.of_nat (length p + S (length q))) with (Z.of_nat (length ((p ++ q) ++ [y])))
    by (rewrite !length_app; simpl; lia).
  rewrite zset_middle. cbn [deref mbind outcome_bind].
  rewrite <- !app_assoc, length_app. cbn [app]. rewrite IH.
  destruct q; simpl; by rewrite <- ?app_assoc.
Qed.

Lemma INSERTION_SORT_spec init t rest :
  keyed (init ++ [t]) → sorted_by init →
  ∃ l1 l2, init = l1 ++ l2 ∧
    INSERTION_SORT comp (init ++ t :: rest) (Z.of_nat (length init) + 1) =
      Ok (l1 ++ t :: l2 ++ rest) ∧
    sorted_by (l1 ++ t :: l2) ∧ l1 ++ t :: l2 ≡ₚ init ++ [t].
Proof.
  intros Hk Hs. unfold INSERTION_SORT. destruct (Z.eqb_spec (Z.of_nat (length init) + 1) 0); [lia|].
  replace (Z.of_nat (length init) + 1 - 1) with (Z.of_nat (length init)) by lia.
  rewrite (ELEM_bind _ _ _ _ (zget_middle _ _ _)).
  assert (∃ m, insertion_point comp (S (Z.to_nat (Z.of_nat (length init) + 1))) (init ++ t :: rest) t
      0 (Z.of_nat (length init) + 1 - 2) = Ok m ∧ 0 <= m <= Z.of_nat (length init) ∧
    (∀ i e, i < m → zget init i = Some e → key e <= key t) ∧
    (∀ i e, m <= i → zget init i = Some e → key t <= key e)) as (m & -> & Hm & Hlow & Hhigh).
  { destruct (decide (init = [])) as [->|Hne].
    { exists 0. repeat split; try done; intros i e _ [_ ?]%zget_Some; done. }
    destruct init as [|x init]; [done|].
    apply insertion_point_spec; try done; try (simpl; lia).
    - intros i e Hi [? ?]%zget_Some. lia.
    - intros i e Hi ?%zget_bound. lia. }
  cbn [mbind outcome_bind].
  pose proof (take_drop (Z.to_nat m) init) as Htd.
  set (l1 := take (Z.to_nat m) init) in *. set (l2 := drop (Z.to_nat m) init) in *.
  assert (Hl1 : Z.of_nat (length l1) = m) by (unfold l1; rewrite length_take; lia).
  assert (Hsplit : sorted_by (l1 ++ t :: l2)).
  { apply sorted_by_insert; [by rewrite Htd| |]; intros e [i Hi]%list_elem_of_lookup.
    - apply (Hlow (Z.of_nat i)); [apply lookup_lt_Some in Hi; lia|].
      rewrite zget_nat, <- Htd. by apply lookup_app_l_Some.
    - apply (Hhigh (Z.of_nat (length l1 + i))); [lia|].
      by rewrite zget_nat, <- Htd, lookup_app_r, Nat.add_comm, Nat.add_sub by lia. }
  exists l1, l2. split; [done|]. split; [|split; [done|]].
  2: { rewrite <- Htd, <- Permutation_middle, <- Permutation_cons_append. done. }
  destruct (Z.ltb_spec m (Z.of_nat (length init))).
  - rewrite <- Htd, length_app.
    replace (Z.to_nat (Z.of_nat (length l1 + length l2) - m)) with (length l2) by lia.
    rewrite <- app_assoc, shift_up_spec. cbn [mbind outcome_bind].
    by rewrite <- Hl1, zset_middle.
  - assert (l2 = []) as -> by (unfold l2; apply drop_ge; lia).
    rewrite app_nil_r in Htd. rewrite <- Htd at 1. by rewrite <- ?app_assoc.
Qed.

(** One pass of the bubble sort as a list function: [x] is the element carried
    along. *)
Fixpoint bubble (x : A) (l : list A) : list A :=
  match l with
  | [] => [x]
  | y :: l => if key y <? key x then y :: bubble x l else x :: bubble y l
  end.

Lemma bubble_perm x l : bubble x l ≡ₚ x :: l.
Proof.
  revert x. induction l as [|y l IH]; intros x; simpl; [done|].
  destruct (key y <? key x); rewrite IH; [by constructor|done].
Qed.

Lemma bubble_last x l :
  ∃ l' m, bubble x l = l' ++ [m] ∧ (∀ e, e ∈ x :: l → key e <= key m).
Proof.
  revert x. induction l as [|y l IH]; intros x; simpl.
  { exists [], x. split; [done|]. intros e ->%list_elem_of_singleton. lia. }
  destruct (Z.ltb_spec (key y) (key x)) as [H|H].
  - destruct (IH x) as (l' & m & -> & Hm). exists (y :: l'), m. split; [done|].
    intros e [->|[->|He]%elem_of_cons]%elem_of_cons; [apply Hm; set_solver| |apply Hm; set_solver].
    transitivity (key x); [lia|]. apply Hm. set_solver.
  - destruct (IH y) as (l' & m & -> & Hm). exists (x :: l'), m. split; [done|].
    intros e [->|He]%elem_of_cons; [|by apply Hm].
    transitivity (key y); [lia|]. apply Hm. set_solver.
Qed.

Lemma sort_in_bubble l p x r :
  keyed (x :: l) →
  sort_in comp (length l) (p ++ x :: l ++ r) (Z.of_nat (length p)) = Ok (p ++ bubble x l ++ r).
Proof.
  revert p x. induction l as [|y l IH]; intros p x Hk; [done|].
  cbn [length sort_in]. rewrite (ELEM_bind _ _ _ _ (zget_middle _ _ _)).
  replace (Z.of_nat (length p) + 1) with (Z.of_nat (length (p ++ [x])))
    by (rewrite length_app; simpl; lia).
  replace (p ++ x :: (y :: l) ++ r) with ((p ++ [x]) ++ y :: l ++ r)
    by by rewrite <- app_assoc.
  rewrite (ELEM_bind _ _ _ _ (zget_middle _ _ _)).
  destruct (Hk x y) as (c & Hc & Hsg); [set_solver..|]. rewrite (comp_bind _ _ _ Hc).
  cbn [bubble]. destruct (Z.ltb_spec 0 c) as [Hgt|Hle].
  - destruct (Z.ltb_spec (key y) (key x)); [|lia].
    replace ((p ++ [x]) ++ y :: l ++ r) with (p ++ x :: y :: l ++ r) by by rewrite <- app_assoc.
    rewrite zset_middle. cbn [deref mbind outcome_bind].
    replace (p ++ y :: y :: l ++ r) with ((p ++ [y]) ++ y :: l ++ r) by by rewrite <- app_assoc.
    replace (length (p ++ [x])) with (length (p ++ [y])) by (rewrite !length_app; done).
    rewrite zset_middle. cbn [deref mbind outcome_bind]. rewrite IH.
    + by rewrite <- app_assoc.
    + intros a b Ha Hb. apply Hk; set_solver.
  - destruct (Z.ltb_spec (key y) (key x)); [lia|]. cbn [mbind outcome_bind].
    rewrite IH; [by rewrite <- app_assoc|]. intros a b Ha Hb. apply Hk; set_solver.
Qed.

Lemma sort_out_spec n l r :
  length l = S n → keyed l →
  ∃ l', sort_out comp n (l ++ r) = Ok (l' ++ r) ∧ l' ≡ₚ l ∧ sorted_by l'.
Proof.
  revert l r. induction n as [|n IH]; intros l r Hl Hk.
  { destruct l as [|x [|]]; try done. exists [x]. split; [done|].
    split; [done|apply sorted_by_single]. }
  destruct l as [|x l]; [done|]. injection Hl as Hl. cbn [sort_out].
  pose proof (sort_in_bubble l [] x r Hk) as Hin. rewrite Hl in Hin.
  cbn [app length] in Hin. change (Z.of_nat 0) with 0 in Hin. cbn [app].
  rewrite Hin. cbn [mbind outcome_bind].
  pose proof (bubble_perm x l) as Hp. destruct (bubble_last x l) as (l1 & m & Hb & Hm).
  rewrite Hb in Hp |- *. rewrite <- app_assoc.
  destruct (IH l1 ([m] ++ r)) as (l' & -> & Hp' & Hs').
  - apply Permutation_length in Hp. rewrite length_app in Hp. simpl in Hp. lia.
  - intros a b Ha Hb'. apply (keyed_perm _ _ (symmetry Hp) Hk); set_solver.
  - exists (l' ++ [m]). rewrite <- app_assoc. split; [done|].
    split; [by rewrite Hp'|]. apply sorted_by_app; [done|apply sorted_by_single|].
    intros a b Ha ->%list_elem_of_singleton. apply Hm. rewrite <- Hp, <- Hp'. set_solver.
Qed.

Lemma SORT_spec base rest :
  keyed base →
  ∃ base', SORT comp (base ++ rest) (Z.of_nat (length base)) = Ok (base' ++ rest) ∧
    base' ≡ₚ base ∧ sorted_by base'.
Proof.
  intros Hk. unfold SORT. destruct base as [|x base].
  { exists []. split; [done|]. split; [done|]. intros i j a b _ Ha. done. }
  destruct (sort_out_spec (length base) (x :: base) rest eq_refl Hk) as (l' & H & Hp & Hs).
  exists l'.
  replace (Z.to_nat (Z.of_nat (length (x :: base)) - 1)) with (length base) by (simpl; lia).
  done.
Qed.

Lemma sgn_0 z : Z.sgn z = 0 → z = 0.
Proof. lia. Qed.

Lemma sorted_arranged t l rest :
  keyed (t :: l) → sorted_by l → arranged comp (l ++ rest) (Z.of_nat (length l)) t.
Proof.
  intros Hk Hs. assert (Hget : ∀ i e, i < Z.of_nat (length l) → zget (l ++ rest) i = Some e →
    0 <= i ∧ l !! Z.to_nat i = Some e).
  { intros i e Hi [? He]%zget_Some. rewrite lookup_app_l in He by lia. done. }
  split.
  - intros i Hi. destruct (lookup_lt_is_Some_2 l (Z.to_nat i)) as [e He]; [lia|].
    destruct (Hk t e) as (c & Hc & _); [set_solver|right; by eapply list_elem_of_lookup_2|].
    exists c, e. rewrite zget_lookup, lookup_app_l by lia. done.
  - intros i j ci cj Hi Hj (ei & Hei & Hci) (ej & Hej & Hcj).
    apply Hget in Hei as [? Hei]; [|lia]. apply Hget in Hej as [? Hej]; [|lia].
    pose proof (Hs (Z.to_nat i) (Z.to_nat j) ei ej ltac:(lia) Hei Hej).
    apply list_elem_of_lookup_2 in Hei, Hej.
    destruct (Hk t ei) as (c & Hc & Hsi); [set_solver..|].
    destruct (Hk t ej) as (c' & Hc' & Hsj); [set_solver..|].
    rewrite Hc in Hci. rewrite Hc' in Hcj. simplify_eq. lia.
Qed.

(** [SEARCH] on the sorted prefix of an array: an element with the key of the
    target, or none has it. *)
Lemma SEARCH_sorted t l rest :
  keyed (t :: l) → sorted_by l →
  ∃ r, SEARCH comp (l ++ rest) (Z.of_nat (length l)) t = Ok r ∧
    match r with
    | Some i => ∃ e, 0 <= i ∧ zget (l ++ rest) i = Some e ∧ e ∈ l ∧ key e = key t
    | None => ∀ e, e ∈ l → key e ≠ key t
    end.
Proof.
  intros Hk Hs. pose proof (sorted_arranged t l rest Hk Hs) as Ha.
  destruct (SEARCH_spec comp (l ++ rest) (Z.of_nat (length l)) t ltac:(lia) Ha) as (r & Hr & Hm).
  exists r. split; [done|]. destruct r as [i|].
  - destruct Hm as [Hi (e & He & Hc)]. exists e. split; [lia|]. split; [done|].
    apply zget_Some in He as [_ He]. rewrite lookup_app_l in He by lia.
    apply list_elem_of_lookup_2 in He. split; [done|].
    destruct (Hk t e) as (c & Hc' & Hsg); [set_solver..|].
    rewrite Hc' in Hc. simplify_eq. lia.
  - intros e He Hke. pose proof He as [n Hn]%list_elem_of_lookup.
    pose proof (lookup_lt_Some _ _ _ Hn).
    apply (Hm (Z.of_nat n)); [lia|]. destruct (Hk t e) as (c & Hc & Hsg); [set_solver..|].
    exists e. rewrite zget_nat, lookup_app_l by lia. split; [done|].
    rewrite Hc. f_equal. apply sgn_0. rewrite Hsg. lia.
Qed.

End SortSpec.

(** *** The properties of the macros *)
Section Claims.
Context {A : Type} (comp : A → A → outcome Z) (key : A → Z).

(** C40: on an array the comparison orders by a key, [SORT] returns
    the same elements in ascending order of the key and leaves what lies past
    [num]; a [SEARCH] of the result returns an element with the key of the
    target exactly when one exists.  Both loops end within their fuel. *)
Theorem SORT_SEARCH_correct base rest t :
  keyed comp key (t :: base) →
  ∃ base' r, SORT comp (base ++ rest) (Z.of_nat (length base)) = Ok (base' ++ rest) ∧
    base' ≡ₚ base ∧ sorted_by key base' ∧
    SEARCH comp (base' ++ rest) (Z.of_nat (length base)) t = Ok r ∧
    match r with
    | Some i => ∃ e, zget (base' ++ rest) i = Some e ∧ e ∈ base ∧ key e = key t
    | None => ∀ e, e ∈ base → key e ≠ key t
    end.
Proof.
  intros Hk. destruct (SORT_spec comp key base rest) as (base' & H & Hp & Hs).
  { intros a b ??. apply Hk; set_solver. }
  destruct (SEARCH_sorted comp key t base' rest) as (r & Hr & Hm); [by rewrite Hp|done|].
  exists base', r. rewrite (Permutation_length Hp) in Hr. repeat (split; [done|]).
  destruct r as [i|]; [|intros e; rewrite <- Hp; apply Hm].
  destruct Hm as (e & ? & ? & Hin & ?). exists e. by rewrite <- Hp.
Qed.

(** After [INSERTION_SORT] on an array whose first [num - 1]
    elements are sorted, the last one sits at its place in that order and the
    other elements keep theirs; elements past [num] are untouched. *)
Theorem INSERTION_SORT_correct init t rest :
  keyed comp key (init ++ [t]) → sorted_by key init →
  ∃ l1 l2, init = l1 ++ l2 ∧
    INSERTION_SORT comp (init ++ t :: rest) (Z.of_nat (length init) + 1) =
      Ok (l1 ++ t :: l2 ++ rest) ∧
    sorted_by key (l1 ++ t :: l2).
Proof.
  intros Hk Hs. destruct (INSERTION_SORT_spec comp key init t rest Hk Hs) as (l1 & l2 & ? & ? & ? & _).
  by exists l1, l2.
Qed.

End Claims.

(** *** Witnesses *)
Definition diff (a b : Z) : outcome Z := Ok (a - b).

Lemma diff_keyed l : keyed diff id l.
Proof. intros a b _ _. by exists (a - b). Qed.

Lemma SORT_SEARCH_correct_witness :
  ∃ base' r, SORT diff ([3; 1; 2] ++ [9]) 3 = Ok (base' ++ [9]) ∧
    base' ≡ₚ [3; 1; 2] ∧ sorted_by id base' ∧ SEARCH diff (base' ++ [9]) 3 2 = Ok r ∧
    match r with
    | Some i => ∃ e, zget (base' ++ [9]) i = Some e ∧ e ∈ [3; 1; 2] ∧ id e = id 2
    | None => ∀ e, e ∈ [3; 1; 2] → id e ≠ id 2
    end.
Proof. apply (SORT_SEARCH_correct diff id [3; 1; 2] [9] 2), diff_keyed. Defined.

Lemma INSERTION_SORT_correct_witness :
  ∃ l1 l2, [1; 4] = l1 ++ l2 ∧
    INSERTION_SORT diff ([1; 4] ++ 2 :: [7]) 3 = Ok (l1 ++ 2 :: l2 ++ [7]) ∧
    sorted_by id (l1 ++ 2 :: l2).
Proof.
  apply (INSERTION_SORT_correct diff id [1; 4] 2 [7]); [apply diff_keyed|].
  intros [|[|[|i]]] [|[|[|j]]] a b Hij Ha Hb; simplify_eq/=; lia.
Defined.

End Macros.
