(* ===== verification/Decode.v ===== *)
(** * Instruction fields: util.h and the decoder of translation.c

    [sign_extend32] of util.h, [struct decoding] and
    [instruction_decoding_per_type], with the results the translators rely on:
    the sign extension is two's complement, the decoder inverts the six RISC-V
    encodings and every field it produces has the width of its C type. *)
From S2P Require Import Prelude.

Module Decode.

(** The loop of [sign_extend32], [n] iterations from [bit_position]; [sign] is
    0 or 1 and [ret] is kept as its 32-bit pattern. *)
Fixpoint sign_extend32_loop (n : nat) (sign ret bit_position : Z) : Z :=
  match n with
  | O => ret
  | S n => sign_extend32_loop n sign (Z.lor ret (w32 (Z.shiftl sign bit_position)))
             (bit_position + 1)
  end.

(** [sign_extend32] of util.h.  The callers store the [int32_t] in a
    [uint32_t], so the result is the 32-bit pattern. *)
Definition sign_extend32 (data sign_bit : Z) : Z :=
  let sign := Z.land (Z.shiftr data sign_bit) 1 in
  sign_extend32_loop (Z.to_nat (32 - sign_bit)) sign data sign_bit.

Inductive INSTRUCTION_ENCODING_TYPE :=
| ENCODING_TYPE_UNKNOWN
| ENCODING_TYPE_U
| ENCODING_TYPE_I
| ENCODING_TYPE_UJ
| ENCODING_TYPE_S
| ENCODING_TYPE_B
| ENCODING_TYPE_R.

Record decoding := mk_decoding {
  instr_encoding_type : INSTRUCTION_ENCODING_TYPE;
  opcode : Z;
  funct3 : Z;
  rd_index : Z;
  rs1_index : Z;
  rs2_index : Z;
  funct7 : Z;
  imm : Z
}.

(** [(intrs >> sh) & mask] *)
Definition field (intrs sh mask : Z) : Z := Z.land (Z.shiftr intrs sh) mask.

Definition instruction_decoding_per_type (intrs : Z) (t : INSTRUCTION_ENCODING_TYPE)
    : outcome decoding :=
  let op := Z.land intrs 0x7f in
  let rd := field intrs 7 0x1f in
  let f3 := field intrs 12 7 in
  let rs1 := field intrs 15 0x1f in
  let rs2 := field intrs 20 0x1f in
  match t with
  | ENCODING_TYPE_U =>
      Ok (mk_decoding t op 0 rd 0 0 0 (field intrs 12 0xfffff))
  | ENCODING_TYPE_UJ =>
      Ok (mk_decoding t op 0 rd 0 0 0
           (Z.lor (Z.lor (Z.lor (field intrs 21 0x3ff)
                                (Z.shiftl (field intrs 20 0x1) 10))
                         (Z.shiftl (field intrs 12 0xff) 11))
                  (Z.shiftl (field intrs 31 0x1) 19)))
  | ENCODING_TYPE_I =>
      Ok (mk_decoding t op f3 rd rs1 0 0 (field intrs 20 0xfff))
  | ENCODING_TYPE_S =>
      Ok (mk_decoding t op f3 0 rs1 rs2 0
           (Z.lor (field intrs 7 0x1f) (Z.shiftl (field intrs 25 0x7f) 5)))
  | ENCODING_TYPE_B =>
      Ok (mk_decoding t op f3 0 rs1 rs2 0
           (Z.lor (Z.lor (Z.lor (field intrs 8 0xf)
                                (Z.shiftl (field intrs 25 0x3f) 4))
                         (Z.shiftl (field intrs 7 0x1) 10))
                  (Z.shiftl (field intrs 31 0x1) 11)))
  | ENCODING_TYPE_R =>
      Ok (mk_decoding t op f3 rd rs1 rs2 (field intrs 25 0x7f) 0)
  | ENCODING_TYPE_UNKNOWN => not_reach
  end.

(** ** The RISC-V instruction formats

    The six formats of the unprivileged ISA manual as arithmetic on fields;
    [imm] is the immediate of the assembly syntax. *)
Definition enc_R (op rd f3 rs1 rs2 f7 : Z) : Z :=
  op + rd * 2 ^ 7 + f3 * 2 ^ 12 + rs1 * 2 ^ 15 + rs2 * 2 ^ 20 + f7 * 2 ^ 25.

Definition enc_I (op rd f3 rs1 imm : Z) : Z :=
  op + rd * 2 ^ 7 + f3 * 2 ^ 12 + rs1 * 2 ^ 15 + (imm mod 2 ^ 12) * 2 ^ 20.

Definition enc_U (op rd imm20 : Z) : Z := op + rd * 2 ^ 7 + imm20 * 2 ^ 12.

Definition enc_S (op f3 rs1 rs2 imm : Z) : Z :=
  let u := imm mod 2 ^ 12 in
  op + (u mod 2 ^ 5) * 2 ^ 7 + f3 * 2 ^ 12 + rs1 * 2 ^ 15 + rs2 * 2 ^ 20 +
  (u / 2 ^ 5) * 2 ^ 25.

(** [imm[12|10:5]] in bits 31:25 and [imm[4:1|11]] in bits 11:7. *)
Definition enc_B (op f3 rs1 rs2 imm : Z) : Z :=
  let u := imm mod 2 ^ 13 in
  op + ((u / 2 ^ 11) mod 2) * 2 ^ 7 + ((u / 2) mod 2 ^ 4) * 2 ^ 8 + f3 * 2 ^ 12 +
  rs1 * 2 ^ 15 + rs2 * 2 ^ 20 + ((u / 2 ^ 5) mod 2 ^ 6) * 2 ^ 25 + (u / 2 ^ 12) * 2 ^ 31.

(** [imm[20|10:1|11|19:12]] in bits 31:12. *)
Definition enc_J (op rd imm : Z) : Z :=
  let u := imm mod 2 ^ 21 in
  op + rd * 2 ^ 7 + ((u / 2 ^ 12) mod 2 ^ 8) * 2 ^ 12 + ((u / 2 ^ 11) mod 2) * 2 ^ 20 +
  ((u / 2) mod 2 ^ 10) * 2 ^ 21 + (u / 2 ^ 20) * 2 ^ 31.

(** ** Bit-field lemmas *)

Lemma lor_add a b k : 0 <= k → 0 <= a < 2 ^ k → Z.lor a (b * 2 ^ k) = a + b * 2 ^ k.
Proof.
  intros Hk Ha. assert (Z.land a (b * 2 ^ k) = 0) as Hland.
  { apply Z.bits_inj'. intros i Hi. rewrite Z.land_spec, Z.bits_0.
    destruct (Z.lt_ge_cases i k).
    - rewrite Z.mul_pow2_bits_low by lia. apply andb_false_r.
    - rewrite <- (Z.mod_small a (2 ^ k)), Z.mod_pow2_bits_high by lia. done. }
  rewrite <- Z.lxor_lor by done. symmetry. by apply Z.add_nocarry_lxor.
Qed.

Lemma lor_shiftl_add a b k : 0 <= k → 0 <= a < 2 ^ k → Z.lor a (Z.shiftl b k) = a + b * 2 ^ k.
Proof. intros. rewrite Z.shiftl_mul_pow2 by lia. by apply lor_add. Qed.

Lemma field_mask w sh m n :
  m = Z.ones n → 0 <= sh → 0 <= n → field w sh m = (w / 2 ^ sh) mod 2 ^ n.
Proof. intros -> ??. unfold field. by rewrite Z.land_ones, Z.shiftr_div_pow2 by lia. Qed.

Lemma land_mask w m n : m = Z.ones n → 0 <= n → Z.land w m = w mod 2 ^ n.
Proof. intros -> ?. by apply Z.land_ones. Qed.

(** Turn the decoder's masks into [mod] and its shifts into [/], with every
    power of two evaluated. *)
Ltac unmask :=
  repeat match goal with
  | |- context [field ?w ?sh ?m] =>
      let n := eval vm_compute in (Z.log2 m + 1) in
      rewrite (field_mask w sh m n) by (reflexivity || lia)
  end;
  rewrite ?(land_mask _ 0x7f 7) by (reflexivity || lia).

Ltac eval_pow2 :=
  repeat match goal with
  | |- context [2 ^ ?k] => let v := eval vm_compute in (2 ^ k) in change (2 ^ k) with v
  end;
  repeat match goal with
  | H : context [2 ^ ?k] |- _ => let v := eval vm_compute in (2 ^ k) in change (2 ^ k) with v in H
  end.

(** Reassemble the decoder's [|=] of shifted fields as a sum. *)
Ltac unlor :=
  repeat match goal with
  | |- context [Z.lor ?a (Z.shiftl ?b ?k)] =>
      lazymatch a with
      | context [Z.lor _ _] => fail
      | _ => rewrite (lor_shiftl_add a b k) by (eval_pow2; lia_div)
      end
  end.

Ltac decode_fields := unmask; unlor; eval_pow2; f_equal; lia_div.

Lemma decode_R op rd f3 rs1 rs2 f7 :
  0 <= op < 2 ^ 7 → 0 <= rd < 2 ^ 5 → 0 <= f3 < 2 ^ 3 → 0 <= rs1 < 2 ^ 5 → 0 <= rs2 < 2 ^ 5 →
  0 <= f7 < 2 ^ 7 →
  instruction_decoding_per_type (enc_R op rd f3 rs1 rs2 f7) ENCODING_TYPE_R =
  Ok (mk_decoding ENCODING_TYPE_R op f3 rd rs1 rs2 f7 0).
Proof. intros. unfold instruction_decoding_per_type, enc_R. f_equal. decode_fields. Qed.

Lemma decode_I op rd f3 rs1 imm :
  0 <= op < 2 ^ 7 → 0 <= rd < 2 ^ 5 → 0 <= f3 < 2 ^ 3 → 0 <= rs1 < 2 ^ 5 →
  instruction_decoding_per_type (enc_I op rd f3 rs1 imm) ENCODING_TYPE_I =
  Ok (mk_decoding ENCODING_TYPE_I op f3 rd rs1 0 0 (imm mod 2 ^ 12)).
Proof. intros. unfold instruction_decoding_per_type, enc_I. f_equal. decode_fields. Qed.

Lemma decode_U op rd imm20 :
  0 <= op < 2 ^ 7 → 0 <= rd < 2 ^ 5 → 0 <= imm20 < 2 ^ 20 →
  instruction_decoding_per_type (enc_U op rd imm20) ENCODING_TYPE_U =
  Ok (mk_decoding ENCODING_TYPE_U op 0 rd 0 0 0 imm20).
Proof. intros. unfold instruction_decoding_per_type, enc_U. f_equal. decode_fields. Qed.

Lemma decode_S op f3 rs1 rs2 imm :
  0 <= op < 2 ^ 7 → 0 <= f3 < 2 ^ 3 → 0 <= rs1 < 2 ^ 5 → 0 <= rs2 < 2 ^ 5 →
  instruction_decoding_per_type (enc_S op f3 rs1 rs2 imm) ENCODING_TYPE_S =
  Ok (mk_decoding ENCODING_TYPE_S op f3 0 rs1 rs2 0 (imm mod 2 ^ 12)).
Proof. intros. unfold instruction_decoding_per_type, enc_S. f_equal. decode_fields. Qed.

(** funct3 sits in the same bits of every format that has it. *)
Lemma I_funct3 op rd f3 rs1 imm :
  0 <= op < 2 ^ 7 → 0 <= rd < 2 ^ 5 → 0 <= f3 < 2 ^ 3 → 0 <= rs1 < 2 ^ 5 →
  field (enc_I op rd f3 rs1 imm) 12 7 = f3.
Proof. intros. unfold enc_I. unmask. eval_pow2. lia_div. Qed.

(** The pieces of a branch or jump offset, as the encodings scatter them. *)
Lemma pieces_B u :
  0 <= u < 2 ^ 13 → ∃ b11 lo mid s, (u / 2 ^ 11) mod 2 = b11 ∧ (u / 2) mod 2 ^ 4 = lo ∧
    (u / 2 ^ 5) mod 2 ^ 6 = mid ∧ u / 2 ^ 12 = s ∧
    u / 2 = lo + mid * 2 ^ 4 + b11 * 2 ^ 10 + s * 2 ^ 11 ∧
    0 <= b11 < 2 ∧ 0 <= lo < 2 ^ 4 ∧ 0 <= mid < 2 ^ 6 ∧ 0 <= s < 2.
Proof. intros Hu. do 4 eexists. eval_pow2. repeat (split; [reflexivity|]). lia_div. Qed.

Lemma pieces_J u :
  0 <= u < 2 ^ 21 → ∃ hi b11 lo s, (u / 2 ^ 12) mod 2 ^ 8 = hi ∧ (u / 2 ^ 11) mod 2 = b11 ∧
    (u / 2) mod 2 ^ 10 = lo ∧ u / 2 ^ 20 = s ∧
    u / 2 = lo + b11 * 2 ^ 10 + hi * 2 ^ 11 + s * 2 ^ 19 ∧
    0 <= hi < 2 ^ 8 ∧ 0 <= b11 < 2 ∧ 0 <= lo < 2 ^ 10 ∧ 0 <= s < 2.
Proof. intros Hu. do 4 eexists. eval_pow2. repeat (split; [reflexivity|]). lia_div. Qed.

Lemma decode_B op f3 rs1 rs2 imm :
  0 <= op < 2 ^ 7 → 0 <= f3 < 2 ^ 3 → 0 <= rs1 < 2 ^ 5 → 0 <= rs2 < 2 ^ 5 →
  instruction_decoding_per_type (enc_B op f3 rs1 rs2 imm) ENCODING_TYPE_B =
  Ok (mk_decoding ENCODING_TYPE_B op f3 0 rs1 rs2 0 (imm mod 2 ^ 13 / 2)).
Proof.
  intros. unfold instruction_decoding_per_type, enc_B. f_equal.
  destruct (pieces_B (imm mod 2 ^ 13)) as (b & l & m & s & -> & -> & -> & -> & -> & ? & ? & ? & ?);
    [by apply Z.mod_pos_bound|].
  decode_fields.
Qed.

Lemma decode_J op rd imm :
  0 <= op < 2 ^ 7 → 0 <= rd < 2 ^ 5 →
  instruction_decoding_per_type (enc_J op rd imm) ENCODING_TYPE_UJ =
  Ok (mk_decoding ENCODING_TYPE_UJ op 0 rd 0 0 0 (imm mod 2 ^ 21 / 2)).
Proof.
  intros. unfold instruction_decoding_per_type, enc_J. f_equal.
  destruct (pieces_J (imm mod 2 ^ 21)) as (h & b & l & s & -> & -> & -> & -> & -> & ? & ? & ? & ?);
    [by apply Z.mod_pos_bound|].
  decode_fields.
Qed.

(** ** Sign extension *)

Lemma sign_extend32_loop_0 n ret b : sign_extend32_loop n 0 ret b = ret.
Proof.
  revert ret b. induction n as [|n IH]; intros ret b; simpl; [done|].
  rewrite Z.shiftl_0_l. change (w32 0) with 0. by rewrite Z.lor_0_r, IH.
Qed.

Lemma sign_extend32_loop_1 n ret b :
  0 <= b → b + Z.of_nat n = 32 → 0 <= ret < 2 ^ b →
  sign_extend32_loop n 1 ret b = ret + 2 ^ 32 - 2 ^ b.
Proof.
  revert ret b. induction n as [|n IH]; intros ret b Hb Hn Hr.
  { simpl. replace b with 32 by lia. lia. }
  cbn [sign_extend32_loop]. rewrite Z.shiftl_mul_pow2, Z.mul_1_l by lia.
  assert (0 < 2 ^ b) by (apply Z.pow_pos_nonneg; lia).
  assert (2 ^ b < 2 ^ 32) by (apply Z.pow_lt_mono_r; lia).
  assert (2 ^ (b + 1) = 2 * 2 ^ b) as Hs by (rewrite Z.pow_add_r by lia; lia).
  rewrite (w32_small (2 ^ b)) by (unfold word32; lia).
  replace (2 ^ b) with (1 * 2 ^ b) at 1 by lia. rewrite lor_add by lia.
  rewrite IH; lia.
Qed.

Lemma sign_extend32_sint data sign_bit :
  0 <= sign_bit < 32 → 0 <= data < 2 ^ (sign_bit + 1) →
  sign_extend32 data sign_bit = w32 (sint (sign_bit + 1) data).
Proof.
  intros Hs Hd. unfold sign_extend32, sint.
  rewrite (Z.mod_small data) by done. replace (sign_bit + 1 - 1) with sign_bit by lia.
  assert (0 < 2 ^ sign_bit) by (apply Z.pow_pos_nonneg; lia).
  assert (2 ^ sign_bit < 2 ^ 32) by (apply Z.pow_lt_mono_r; lia).
  assert (2 ^ (sign_bit + 1) = 2 * 2 ^ sign_bit) as H2 by (rewrite Z.pow_add_r by lia; lia).
  rewrite Z.shiftr_div_pow2 by lia. rewrite (land_mask _ 1 1) by (reflexivity || lia).
  change (2 ^ 1) with 2. destruct (Z.ltb_spec data (2 ^ sign_bit)) as [Hlt|Hge].
  - rewrite Z.div_small by lia. change (0 mod 2) with 0.
    rewrite sign_extend32_loop_0, w32_small; [done|]. unfold word32. lia.
  - assert (data / 2 ^ sign_bit = 1) as ->.
    { symmetry. apply (Z.div_unique_pos _ _ _ (data - 2 ^ sign_bit)); lia. }
    change (1 mod 2) with 1.
    replace (Z.to_nat (32 - sign_bit)) with (S (Z.to_nat (31 - sign_bit))) by lia.
    cbn [sign_extend32_loop]. rewrite Z.shiftl_mul_pow2, Z.mul_1_l by lia.
    rewrite (w32_small (2 ^ sign_bit)) by (unfold word32; lia).
    replace (Z.lor data (2 ^ sign_bit)) with data.
    2: { replace data with ((data - 2 ^ sign_bit) + 1 * 2 ^ sign_bit) at 1 2 by lia.
         rewrite <- lor_add by lia. rewrite Z.mul_1_l, <- Z.lor_assoc, Z.lor_diag. done. }
    rewrite sign_extend32_loop_1 by lia. unfold w32.
    assert (2 ^ (sign_bit + 1) <= 2 ^ 32) by (apply Z.pow_le_mono_r; lia).
    rewrite <- (Z.mod_add _ 1), Z.mod_small by lia. lia.
Qed.

(** ** The properties of the decoder *)

(** C39: [instruction_decoding_per_type] inverts the six RISC-V formats: on
    the encoding of operands in range it returns exactly the opcode, registers
    and function fields, and the immediate bits in the order of the assembly
    operand (without the implicit zero bit of branches and jumps). *)
Theorem instruction_decoding_correct op rd f3 rs1 rs2 f7 imm imm20 :
  0 <= op < 2 ^ 7 → 0 <= rd < 2 ^ 5 → 0 <= f3 < 2 ^ 3 → 0 <= rs1 < 2 ^ 5 → 0 <= rs2 < 2 ^ 5 →
  0 <= f7 < 2 ^ 7 → 0 <= imm20 < 2 ^ 20 →
  instruction_decoding_per_type (enc_R op rd f3 rs1 rs2 f7) ENCODING_TYPE_R =
    Ok (mk_decoding ENCODING_TYPE_R op f3 rd rs1 rs2 f7 0) ∧
  instruction_decoding_per_type (enc_I op rd f3 rs1 imm) ENCODING_TYPE_I =
    Ok (mk_decoding ENCODING_TYPE_I op f3 rd rs1 0 0 (imm mod 2 ^ 12)) ∧
  instruction_decoding_per_type (enc_S op f3 rs1 rs2 imm) ENCODING_TYPE_S =
    Ok (mk_decoding ENCODING_TYPE_S op f3 0 rs1 rs2 0 (imm mod 2 ^ 12)) ∧
  instruction_decoding_per_type (enc_B op f3 rs1 rs2 imm) ENCODING_TYPE_B =
    Ok (mk_decoding ENCODING_TYPE_B op f3 0 rs1 rs2 0 (imm mod 2 ^ 13 / 2)) ∧
  instruction_decoding_per_type (enc_U op rd imm20) ENCODING_TYPE_U =
    Ok (mk_decoding ENCODING_TYPE_U op 0 rd 0 0 0 imm20) ∧
  instruction_decoding_per_type (enc_J op rd imm) ENCODING_TYPE_UJ =
    Ok (mk_decoding ENCODING_TYPE_UJ op 0 rd 0 0 0 (imm mod 2 ^ 21 / 2)).
Proof.
  intros. split_and!;
    [by apply decode_R|by apply decode_I|by apply decode_S|by apply decode_B|by apply decode_U
    |by apply decode_J].
Qed.

(** [sign_extend32(data, sign_bit)] is the two's complement reading of
    the low [sign_bit + 1] bits, as a 32-bit pattern. *)
Theorem sign_extend32_correct data sign_bit :
  0 <= sign_bit < 32 → 0 <= data < 2 ^ (sign_bit + 1) →
  sign_extend32 data sign_bit = w32 (sint (sign_bit + 1) data).
Proof. apply sign_extend32_sint. Qed.

(** ** Witnesses: [beq x1, x2, -4096] and its offset *)
Lemma instruction_decoding_correct_witness :
  instruction_decoding_per_type (enc_B 0x63 0 1 2 (- 4096)) ENCODING_TYPE_B =
  Ok (mk_decoding ENCODING_TYPE_B 0x63 0 0 1 2 0 (2 ^ 11)).
Proof. apply (instruction_decoding_correct 0x63 0 0 1 2 0 (- 4096) 0); lia. Defined.

Lemma sign_extend32_correct_witness : sign_extend32 0xfff 11 = w32 (sint 12 0xfff).
Proof. apply (sign_extend32_correct 0xfff 11); simpl; lia. Defined.

End Decode.
