(* ===== verification/X86.v ===== *)
(** * The host processor: the x86-64 subset of the translation templates

    The inline assembly of translate_*.c and translation.h is data that the
    emulator copies into the translation cache and then executes.  This file
    gives the instructions those templates use, the macros of translation.h
    that every template shares, and their execution on a state that holds the
    host registers, the host stack, the guest registers inside [struct hart]
    and an abstract rest of the process [W] reached only through calls. *)
From S2P Require Import Prelude.

Module X86.

(** ** Syntax (AT&T operand order) *)
Inductive reg := RAX | RBX | RCX | RDX | RSI | RDI | R8 | R12 | R13 | R14 | R15.

(** The functions templates take the address of. *)
Inductive symbol :=
| sym_vmm_entry_point
| sym_enter_vmm_dbg_shell
| sym_mmu_read8 | sym_mmu_read16 | sym_mmu_read32
| sym_mmu_write8 | sym_mmu_write16 | sym_mmu_write32
| sym_amo_instruction_slowpath
| sym_flush_translation_cache
| sym_ecall_callback | sym_ebreak_callback | sym_mret_callback | sym_sret_callback
| sym_sfence_vma_callback | sym_wfi_callback
| sym_riscv_generic_csr_callback.

#[export] Instance reg_eq_dec : EqDecision reg.
Proof. solve_decision. Defined.

#[export] Instance symbol_eq_dec : EqDecision symbol.
Proof. solve_decision. Defined.

(** [Param k] is [PIC_PARAM(k)], the k-th word of the block's parameter
    area; [Mem r] is [(%r)]. *)
Inductive operand :=
| Param (k : nat)
| Reg (r : reg)
| Mem (r : reg)
| Imm (z : Z).

Inductive cond := CE | CNE | CL | CGE | CB | CAE.

Inductive alu := ADD | SUB | AND | OR | XOR.

Inductive xinstr :=
| movl (src dst : operand)
| movq (src : operand) (dst : reg)
| movabs (f : symbol) (dst : reg)
| alul (o : alu) (src dst : operand)
| addq (src dst : reg)
| cmpl (src dst : operand)
| shl (src dst : operand)
| shr (src dst : operand)
| sar (src dst : operand)
| shrq (n : Z) (dst : reg)
| setcc (c : cond) (dst : reg)
| movzbl (src dst : reg)
| movsbl (src dst : reg)
| movzwl (src dst : reg)
| movswl (src dst : reg)
| movsxd (src dst : reg)
| mul (src : reg)
| imul (src : reg)
| imulq (src : reg)
| div (src : reg)
| idiv (src : reg)
| btr (n : Z) (dst : reg)
| jcc (c : cond) (l : nat)
| jmp (l : nat)
| label (l : nat)
| pushq (r : reg)
| popq (r : reg)
| callq (r : reg)
| jmpq (r : reg)
| jmp_end.

Notation addl := (alul ADD).
Notation subl := (alul SUB).
Notation andl := (alul AND).
Notation orl := (alul OR).
Notation xorl := (alul XOR).

(** A translation template: the [indicator] it is known by, the instructions
    between [indicator_translation_begin] and the parameter area, and the
    number of [PARAM32()] words of that area. *)
Record template := mk_template {
  indicator : string;
  code : list xinstr;
  schema : nat
}.

(** ** The macros of translation.h *)
Definition SAVE_GUEST_CONTEXT_SWITCH_REGS : list xinstr :=
  [pushq R15; pushq R14; pushq R13; pushq R12].

Definition RESTORE_GUEST_CONTEXT_SWITCH_REGS : list xinstr :=
  [popq R12; popq R13; popq R14; popq R15].

(** [BEGIN_TRANSLATION] with NATIVE_DEBUGER, which config.h defines. *)
Definition BEGIN_TRANSLATION : list xinstr :=
  [movq (Reg R12) RDI; movq (Imm 1) RSI; movabs sym_enter_vmm_dbg_shell RAX] ++
  SAVE_GUEST_CONTEXT_SWITCH_REGS ++ [callq RAX] ++ RESTORE_GUEST_CONTEXT_SWITCH_REGS.

Definition PROCEED_TO_NEXT_INSTRUCTION : list xinstr := [addl (Imm 4) (Mem R14)].

Definition RESET_ZERO_REGISTER : list xinstr := [movl (Imm 0) (Mem R15)].

Definition END_INSTRUCTION : list xinstr := [jmp_end].

Definition TRAP_TO_VMM : list xinstr := [movabs sym_vmm_entry_point RAX; jmpq RAX].

(** ** State *)
Inductive xval := VInt (z : Z) | VSym (f : symbol).

Record regfile := mk_regfile {
  rax : xval; rbx : xval; rcx : xval; rdx : xval; rsi : xval; rdi : xval;
  r8 : xval; r12 : xval; r13 : xval; r14 : xval; r15 : xval
}.

Definition getr (f : regfile) (r : reg) : xval :=
  match r with
  | RAX => rax f | RBX => rbx f | RCX => rcx f | RDX => rdx f | RSI => rsi f
  | RDI => rdi f | R8 => r8 f | R12 => r12 f | R13 => r13 f | R14 => r14 f
  | R15 => r15 f
  end.

Definition setr (f : regfile) (r : reg) (v : xval) : regfile :=
  match f with
  | mk_regfile a b c d si di e8 e12 e13 e14 e15 =>
      match r with
      | RAX => mk_regfile v b c d si di e8 e12 e13 e14 e15
      | RBX => mk_regfile a v c d si di e8 e12 e13 e14 e15
      | RCX => mk_regfile a b v d si di e8 e12 e13 e14 e15
      | RDX => mk_regfile a b c v si di e8 e12 e13 e14 e15
      | RSI => mk_regfile a b c d v di e8 e12 e13 e14 e15
      | RDI => mk_regfile a b c d si v e8 e12 e13 e14 e15
      | R8 => mk_regfile a b c d si di v e12 e13 e14 e15
      | R12 => mk_regfile a b c d si di e8 v e13 e14 e15
      | R13 => mk_regfile a b c d si di e8 e12 v e14 e15
      | R14 => mk_regfile a b c d si di e8 e12 e13 v e15
      | R15 => mk_regfile a b c d si di e8 e12 e13 e14 v
      end
  end.

(** The part of [struct hart] the generated code addresses directly: the 32
    words of [registers] at offset 0 and [pc] at offset 128. *)
Record guest := mk_guest {
  registers : list Z;
  pc : Z
}.

(** [flags] holds the operands (destination, source) of the last [cmpl];
    every other arithmetic instruction leaves the flags unspecified. *)
Record xstate (W : Type) := mk_xstate {
  rf : regfile;
  flags : option (Z * Z);
  stack : list xval;
  hart_guest : guest;
  host : W
}.
Arguments mk_xstate {W}.
Arguments rf {W}.
Arguments flags {W}.
Arguments stack {W}.
Arguments hart_guest {W}.
Arguments host {W}.

(** What a C function called from a template does: it returns with a value in
    %rax, it leaves through [do_trap] of hart_trap.c to [vmm_entry_point], or
    it ends the emulator. *)
Inductive callres (W : Type) :=
| Returns (v : Z) (g : guest) (w : W)
| Traps (g : guest) (w : W)
| Dies (e : err).
Arguments Returns {W}.
Arguments Traps {W}.
Arguments Dies {W}.

(** ** The interface to the C side

    [hc_call f args g w] is the call of [f] on the hart and the further
    arguments [args], each truncated to the width of its C parameter.
    [scratch] is the value a caller-saved register holds after a call: the ABI
    leaves it unspecified.  [hc_good] is what the C side keeps of its own state. *)
Class HostCalls (W : Type) := {
  hc_call : symbol → list Z → guest → W → callres W;
  scratch : symbol → W → reg → Z;
  hc_good : W → Prop
}.

Section exec.
Context {W : Type} `{HC : HostCalls W}.
(** The address of the hart, 64-byte aligned by [__attribute__((aligned(64)))]. *)
Context (H : Z).

Definition word_of (v : xval) : outcome Z :=
  match v with VInt z => Ok z | VSym _ => Err EUndef end.

(** *** Guest registers in host memory *)
Definition mem_read32 (g : guest) (a : Z) : outcome Z :=
  let off := a - H in
  if off =? 128 then Ok (pc g)
  else if (0 <=? off) && (off <? 128) && (off mod 4 =? 0)
  then deref (zget (registers g) (off / 4))
  else Err EUndef.

Definition mem_write32 (g : guest) (a v : Z) : outcome guest :=
  let off := a - H in
  if off =? 128 then Ok (mk_guest (registers g) v)
  else if (0 <=? off) && (off <? 128) && (off mod 4 =? 0)
  then rs ← deref (zset (registers g) (off / 4) v); Ok (mk_guest rs (pc g))
  else Err EUndef.

(** *** Operands *)
Definition read32 (ps : list Z) (s : xstate W) (o : operand) : outcome Z :=
  match o with
  | Param k => deref (ps !! k)
  | Reg r => z ← word_of (getr (rf s) r); Ok (w32 z)
  | Mem r => a ← word_of (getr (rf s) r); mem_read32 (hart_guest s) a
  | Imm z => Ok (w32 z)
  end.

Definition set_reg (s : xstate W) (r : reg) (v : xval) : xstate W :=
  match s with mk_xstate q fl st g w => mk_xstate (setr q r v) fl st g w end.

Definition set_flags (s : xstate W) (f : option (Z * Z)) : xstate W :=
  match s with mk_xstate q _ st g w => mk_xstate q f st g w end.

(** A 32-bit write to a register clears its upper half. *)
Definition write32 (s : xstate W) (o : operand) (v : Z) : outcome (xstate W) :=
  match o with
  | Reg r => Ok (set_reg s r (VInt v))
  | Mem r =>
      a ← word_of (getr (rf s) r);
      g' ← mem_write32 (hart_guest s) a v;
      match s with mk_xstate q fl st _ w => Ok (mk_xstate q fl st g' w) end
  | Param _ | Imm _ => Err EUndef
  end.

Definition alu_op (o : alu) (dst src : Z) : Z :=
  match o with
  | ADD => w32 (dst + src)
  | SUB => w32 (dst - src)
  | AND => Z.land dst src
  | OR => Z.lor dst src
  | XOR => Z.lxor dst src
  end.

Definition eval_cond (c : cond) (f : option (Z * Z)) : outcome bool :=
  '(dst, src) ← deref f;
  Ok match c with
     | CE => dst =? src
     | CNE => negb (dst =? src)
     | CL => sint 32 dst <? sint 32 src
     | CGE => negb (sint 32 dst <? sint 32 src)
     | CB => dst <? src
     | CAE => negb (dst <? src)
     end.

Definition word_reg (s : xstate W) (r : reg) : outcome Z := word_of (getr (rf s) r).

(** A 32-bit read-modify-write instruction. *)
Definition rmw (ps : list Z) (s : xstate W) (src dst : operand) (f : Z → Z → Z)
    : outcome (xstate W) :=
  a ← read32 ps s dst; b ← read32 ps s src; s ← write32 s dst (f a b); Ok (set_flags s None).

(** %edx:%eax, the implicit operand of [div] and [idiv]. *)
Definition edx_eax (s : xstate W) : outcome Z :=
  hi ← word_reg s RDX; lo ← word_reg s RAX; Ok (w32 hi * 2 ^ 32 + w32 lo).

Definition set_edx_eax (s : xstate W) (hi lo : Z) : xstate W :=
  set_flags (set_reg (set_reg s RDX (VInt (w32 hi))) RAX (VInt (w32 lo))) None.

(** *** Straight-line instructions *)
Definition step (i : xinstr) (ps : list Z) (s : xstate W) : outcome (xstate W) :=
  match i with
  | movl src dst => v ← read32 ps s src; write32 s dst v
  | movq (Reg r) dst => Ok (set_reg s dst (getr (rf s) r))
  | movq (Imm z) dst => Ok (set_reg s dst (VInt (w64 z)))
  | movabs f dst => Ok (set_reg s dst (VSym f))
  | alul o src dst => rmw ps s src dst (alu_op o)
  | addq src dst =>
      a ← word_reg s dst; b ← word_reg s src;
      Ok (set_flags (set_reg s dst (VInt (w64 (a + b)))) None)
  | cmpl src dst =>
      a ← read32 ps s dst; b ← read32 ps s src; Ok (set_flags s (Some (a, b)))
  | shl src dst => rmw ps s src dst (λ a n, w32 (Z.shiftl a (n mod 2 ^ 5)))
  | shr src dst => rmw ps s src dst (λ a n, Z.shiftr a (n mod 2 ^ 5))
  | sar src dst => rmw ps s src dst (λ a n, w32 (Z.shiftr (sint 32 a) (n mod 2 ^ 5)))
  | shrq n dst =>
      a ← word_reg s dst; Ok (set_flags (set_reg s dst (VInt (Z.shiftr (w64 a) n))) None)
  | setcc c dst =>
      b ← eval_cond c (flags s); a ← word_reg s dst;
      Ok (set_reg s dst (VInt (w64 a - w8 a + Z.b2z b)))
  | movzbl src dst => a ← word_reg s src; Ok (set_reg s dst (VInt (w8 a)))
  | movsbl src dst => a ← word_reg s src; Ok (set_reg s dst (VInt (w32 (sint 8 a))))
  | movzwl src dst => a ← word_reg s src; Ok (set_reg s dst (VInt (w16 a)))
  | movswl src dst => a ← word_reg s src; Ok (set_reg s dst (VInt (w32 (sint 16 a))))
  | movsxd src dst => a ← word_reg s src; Ok (set_reg s dst (VInt (w64 (sint 32 a))))
  | mul src =>
      a ← word_reg s RAX; b ← word_reg s src;
      let p := w32 a * w32 b in Ok (set_edx_eax s (p / 2 ^ 32) p)
  | imul src =>
      a ← word_reg s RAX; b ← word_reg s src;
      let p := sint 32 a * sint 32 b in Ok (set_edx_eax s (p / 2 ^ 32) p)
  | imulq src =>
      a ← word_reg s RAX; b ← word_reg s src;
      let p := sint 64 a * sint 64 b in
      Ok (set_flags (set_reg (set_reg s RDX (VInt (w64 (p / 2 ^ 64)))) RAX (VInt (w64 p))) None)
  | div src =>
      n ← edx_eax s; d ← word_reg s src;
      if (w32 d =? 0) || (2 ^ 32 <=? n / w32 d) then Err EFault
      else Ok (set_edx_eax s (n mod w32 d) (n / w32 d))
  | idiv src =>
      n ← edx_eax s; d ← word_reg s src;
      let n := sint 64 n in
      let d := sint 32 d in
      if (d =? 0) || (Z.quot n d <? - 2 ^ 31) || (2 ^ 31 <=? Z.quot n d) then Err EFault
      else Ok (set_edx_eax s (Z.rem n d) (Z.quot n d))
  | btr n dst =>
      a ← word_reg s dst; Ok (set_flags (set_reg s dst (VInt (Z.clearbit (w32 a) n))) None)
  | pushq r =>
      match s with mk_xstate q fl st g w => Ok (mk_xstate q fl (getr q r :: st) g w) end
  | popq r =>
      match s with
      | mk_xstate q fl (v :: st) g w => Ok (mk_xstate (setr q r v) fl st g w)
      | mk_xstate _ _ [] _ _ => Err EUndef
      end
  | _ => Err EUndef
  end.

(** *** Calls

    The arguments after the hart pointer, from the C prototypes. *)
Definition args (f : symbol) (q : regfile) : outcome (list Z) :=
  match f with
  | sym_enter_vmm_dbg_shell | sym_mmu_read8 | sym_mmu_read16 | sym_mmu_read32 =>
      a ← word_of (rsi q); Ok [w32 a]
  | sym_mmu_write8 => a ← word_of (rsi q); b ← word_of (rdx q); Ok [w32 a; w8 b]
  | sym_mmu_write16 => a ← word_of (rsi q); b ← word_of (rdx q); Ok [w32 a; w16 b]
  | sym_mmu_write32 => a ← word_of (rsi q); b ← word_of (rdx q); Ok [w32 a; w32 b]
  | sym_amo_instruction_slowpath =>
      a ← word_of (rsi q); b ← word_of (rdx q); c ← word_of (rcx q); d ← word_of (r8 q);
      Ok [w8 a; w8 b; w8 c; w32 d]
  | sym_riscv_generic_csr_callback => a ← word_of (rsi q); Ok [a]
  | _ => Ok []
  end.

Definition call (f : symbol) (s : xstate W) : callres W :=
  match h ← word_of (rdi (rf s)); l ← args f (rf s); Ok (h, l) with
  | Ok (h, l) => if h =? H then hc_call f l (hart_guest s) (host s) else Dies EUndef
  | Err e => Dies e
  end.

(** Registers after a call: %rbx, %r12-%r15 survive. *)
Definition clobber (f : symbol) (w : W) (v : Z) (q : regfile) : regfile :=
  let j r := VInt (scratch f w r) in
  mk_regfile (VInt v) (rbx q) (j RCX) (j RDX) (j RSI) (j RDI) (j R8)
    (r12 q) (r13 q) (r14 q) (r15 q).

(** [do_trap] of hart_trap.c reloads the four context registers. *)
Definition do_trap (s : xstate W) (g : guest) (w : W) : xstate W :=
  let q := rf s in
  mk_xstate (mk_regfile (VInt H) (VInt (H + 128)) (rcx q) (VInt H) (rsi q)
               (VSym sym_vmm_entry_point) (r8 q) (VInt H) (r13 q) (VInt (H + 128)) (VInt H))
    None (stack s) g w.

(** *** Execution of a block *)
Inductive xres :=
| XNext (s : xstate W)
| XVmm (s : xstate W)
| XErr (e : err).

(** [skip = Some l] looks for the next label [l] (a jump [lf]); running past
    the code is running into the parameter words. *)
Fixpoint exec (c : list xinstr) (ps : list Z) (skip : option nat) (s : xstate W) : xres :=
  match c with
  | [] => XErr EUndef
  | i :: c =>
      match skip, i with
      | Some l, label l' => if (l =? l')%nat then exec c ps None s else exec c ps skip s
      | Some _, _ => exec c ps skip s
      | None, label _ => exec c ps None s
      | None, jmp l => exec c ps (Some l) s
      | None, jcc cc l =>
          match eval_cond cc (flags s) with
          | Ok b => if b then exec c ps (Some l) s else exec c ps None s
          | Err e => XErr e
          end
      | None, jmp_end => XNext s
      | None, jmpq r =>
          match getr (rf s) r with VSym sym_vmm_entry_point => XVmm s | _ => XErr EUndef end
      | None, callq r =>
          match getr (rf s) r with
          | VSym f =>
              match call f s with
              | Returns v g w =>
                  exec c ps None (mk_xstate (clobber f w v (rf s)) None (stack s) g w)
              | Traps g w => XVmm (do_trap s g w)
              | Dies e => XErr e
              end
          | VInt _ => XErr EUndef
          end
      | None, _ =>
          match step i ps s with Ok s => exec c ps None s | Err e => XErr e end
      end
  end.

End exec.
Arguments XNext {W}.
Arguments XVmm {W}.
Arguments XErr {W}.

(** ** What a block run establishes *)

(** The context registers of translation.c: %r15 the guest registers, %r14 the
    guest pc, %r12 the hart. *)
Definition entry {W} (H : Z) (s : xstate W) : Prop :=
  r12 (rf s) = VInt H ∧ r14 (rf s) = VInt (H + 128) ∧ r15 (rf s) = VInt H.

Definition wf_guest (g : guest) : Prop :=
  length (registers g) = 32%nat ∧ Forall word32 (registers g) ∧ word32 (pc g).

(** [HART_REG] of hart.h. *)
Definition gpr (g : guest) (i : Z) : Z := registers g !!! Z.to_nat i.

Definition set_gpr (g : guest) (i v : Z) : guest :=
  mk_guest (<[Z.to_nat i := v]> (registers g)) (pc g).

Definition set_pc (g : guest) (v : Z) : guest := mk_guest (registers g) v.

(** The run from [s] ends with guest [g] and process [w], by falling through
    to the next block or by leaving to [vmm_entry_point]. *)
Definition runs {W} (H : Z) (s : xstate W) (r : xres) (leave : bool) (g : guest) (w : W) : Prop :=
  ∃ s', r = (if leave then XVmm s' else XNext s') ∧ entry H s' ∧ hart_guest s' = g ∧
        host s' = w ∧ (leave = false → stack s' = stack s).

(** Register x0 reads as zero. *)
Definition x0_zero (g : guest) : Prop := gpr g 0 = 0.

(** The callees after which execution goes on in the translation cache. *)
Definition memory_call (f : symbol) : bool :=
  match f with
  | sym_mmu_read8 | sym_mmu_read16 | sym_mmu_read32
  | sym_mmu_write8 | sym_mmu_write16 | sym_mmu_write32
  | sym_amo_instruction_slowpath => true
  | _ => false
  end.

(** The callees that may leave a value in the word of x0, which their template
    clears. *)
Definition writes_x0 (f : symbol) : bool :=
  match f with sym_amo_instruction_slowpath | sym_riscv_generic_csr_callback => true | _ => false end.

(** The C side keeps the hart well formed and its own state good, memory accesses that return keep the
    pc, and only the atomic and CSR operations, when they return, leave a value in
    the word of x0. *)
Class HostCallsOk (W : Type) `{HostCalls W} := {
  hc_wf : ∀ f l g w, hc_good w → wf_guest g →
    match hc_call f l g w with
    | Returns _ g' w' | Traps g' w' => wf_guest g' ∧ hc_good w'
    | Dies _ => True
    end;
  hc_x0 : ∀ f l g w v g' w', writes_x0 f = false → hc_good w → wf_guest g → x0_zero g →
    hc_call f l g w = Returns v g' w' → x0_zero g';
  hc_trap_x0 : ∀ f l g w g' w', hc_good w → wf_guest g → x0_zero g → hc_call f l g w = Traps g' w' →
    x0_zero g';
  hc_pc : ∀ f l g w v g' w', memory_call f = true → hc_good w → wf_guest g →
    hc_call f l g w = Returns v g' w' → pc g' = pc g
}.

(** The address of a hart leaves room for the registers below 2^64. *)
Definition hart_addr (H : Z) : Prop := 0 <= H ∧ H + 132 <= 2 ^ 64.

(** ** Lemmas on guest registers *)
Lemma gpr_word g i : wf_guest g → word32 (gpr g i).
Proof.
  intros (Hl & Hw & _). unfold gpr. destruct (decide (Z.to_nat i < 32)%nat).
  - eapply Forall_lookup_total_1; [done|lia].
  - rewrite list_lookup_total_alt, lookup_ge_None_2 by lia. done.
Qed.

Lemma set_gpr_wf g i v : wf_guest g → word32 v → wf_guest (set_gpr g i v).
Proof.
  intros (Hl & Hw & Hp) Hv. repeat split; simpl; try apply Hp.
  - by rewrite length_insert.
  - by apply Forall_insert.
Qed.

Lemma set_pc_wf g v : wf_guest g → word32 v → wf_guest (set_pc g v).
Proof. by intros (? & ? & ?) ?. Qed.

Lemma gpr_set_eq g i v : wf_guest g → 0 <= i < 32 → gpr (set_gpr g i v) i = v.
Proof. intros (Hl & _) ?. unfold gpr. simpl. apply list_lookup_total_insert_eq. lia. Qed.

Lemma gpr_set_ne g i j v : 0 <= i → 0 <= j → i ≠ j → gpr (set_gpr g i v) j = gpr g j.
Proof. intros. unfold gpr. simpl. apply list_lookup_total_insert_ne. lia. Qed.

Lemma w32_gpr g i : wf_guest g → w32 (gpr g i) = gpr g i.
Proof. intros. apply w32_small. by apply gpr_word. Qed.

Lemma set_gpr_same g i v :
  length (registers g) = 32%nat → 0 <= i < 32 → gpr g i = v → set_gpr g i v = g.
Proof.
  intros Hl ? <-. destruct g as [rs p]. unfold set_gpr, gpr. simpl. f_equal.
  apply list_insert_id, list_lookup_lookup_total_lt. simpl in Hl. lia.
Qed.

(** ** Lemmas on the addresses templates compute *)
Section mem.
Context (H : Z) (HH : hart_addr H).

Lemma idx_shl i : 0 <= i < 32 → w32 (Z.shiftl (w32 i) (w32 2 mod 2 ^ 5)) = 4 * i.
Proof.
  intros. rewrite (w32_small i) by (unfold word32; lia). change (w32 2 mod 2 ^ 5) with 2. rewrite Z.shiftl_mul_pow2 by lia.
  change (2 ^ 2) with 4. rewrite w32_small; unfold word32; lia.
Qed.

Lemma idx_addr i : 0 <= i < 32 → w64 (4 * i + H) = H + 4 * i.
Proof. intros. destruct HH. unfold w64. rewrite Z.mod_small; lia. Qed.

Lemma off_mod4 i : (H + 4 * i - H) mod 4 = 0.
Proof. replace (H + 4 * i - H) with (i * 4) by lia. by rewrite Z.mod_mul by lia. Qed.

Lemma off_div4 i : (H + 4 * i - H) / 4 = i.
Proof. replace (H + 4 * i - H) with (i * 4) by lia. by rewrite Z.div_mul by lia. Qed.

Lemma mem_read_gpr g i :
  wf_guest g → 0 <= i < 32 → mem_read32 H g (H + 4 * i) = Ok (gpr g i).
Proof.
  intros (Hl & _) Hi. unfold mem_read32. rewrite off_mod4, off_div4.
  zbool; simpl; try lia. rewrite zget_lookup, list_lookup_lookup_total_lt by lia. done.
Qed.

Lemma mem_write_gpr g i v :
  wf_guest g → 0 <= i < 32 → mem_write32 H g (H + 4 * i) v = Ok (set_gpr g i v).
Proof.
  intros (Hl & _) Hi. unfold mem_write32. rewrite off_mod4, off_div4.
  zbool; simpl; try lia. rewrite zset_ok by lia. done.
Qed.

Lemma mem_write_zero g v : wf_guest g → mem_write32 H g H v = Ok (set_gpr g 0 v).
Proof. intros. replace H with (H + 4 * 0) at 2 by lia. by apply mem_write_gpr. Qed.

Lemma mem_read_pc g : mem_read32 H g (H + 128) = Ok (pc g).
Proof. unfold mem_read32. by replace (H + 128 - H) with 128 by lia. Qed.

Lemma mem_write_pc g v : mem_write32 H g (H + 128) v = Ok (set_pc g v).
Proof. unfold mem_write32. by replace (H + 128 - H) with 128 by lia. Qed.

End mem.

(** ** Lemmas on calls *)
Section calls.
Context {W : Type} `{HC : HostCalls W}.
Context (H : Z).

Lemma clobber_entry (s : xstate W) f w v fl st g :
  entry H s → entry H (mk_xstate (clobber f w v (rf s)) fl st g w).
Proof. by intros (? & ? & ?). Qed.

(** A call whose first argument is the hart. *)
Lemma call_hart f l (s : xstate W) :
  rdi (rf s) = VInt H → args f (rf s) = Ok l →
  call H f s = hc_call f l (hart_guest s) (host s).
Proof. intros Hdi Ha. unfold call. rewrite Hdi, Ha. simpl. by rewrite Z.eqb_refl. Qed.

(** The state in which the body of a template starts. *)
Definition body_state (s : xstate W) (v : Z) : xstate W :=
  let j r := VInt (scratch sym_enter_vmm_dbg_shell (host s) r) in
  mk_xstate (mk_regfile (VInt v) (rbx (rf s)) (j RCX) (j RDX) (j RSI) (j RDI) (j R8)
               (VInt H) (r13 (rf s)) (VInt (H + 128)) (VInt H))
    None (stack s) (hart_guest s) (host s).

(** The pc is not a breakpoint: the debugger prologue returns at once. *)
Definition no_breakpoint (g : guest) (w : W) : Prop :=
  ∃ v, hc_call sym_enter_vmm_dbg_shell [1] g w = Returns v g w.

Lemma exec_BEGIN c ps (s : xstate W) v :
  entry H s → hc_call sym_enter_vmm_dbg_shell [1] (hart_guest s) (host s) =
                Returns v (hart_guest s) (host s) →
  exec H (BEGIN_TRANSLATION ++ c) ps None s = exec H c ps None (body_state s v).
Proof.
  intros (H12 & H14 & H15) Hret. destruct s as [q fl st g w]. destruct q. simpl in *. subst.
  unfold call. simpl. rewrite Z.eqb_refl. change (w32 (w64 1)) with 1. by rewrite Hret.
Qed.

End calls.

(** ** Symbolic execution of template bodies *)
Lemma pc_set_gpr g i v : pc (set_gpr g i v) = pc g.
Proof. done. Qed.

Section unfold.
Context {W : Type} `{HC : HostCalls W} (H : Z).

Lemma exec_cons i c ps (s : xstate W) :
  exec H (i :: c) ps None s =
  match i with
  | label _ => exec H c ps None s
  | jmp l => exec H c ps (Some l) s
  | jcc cc l =>
      match eval_cond cc (flags s) with
      | Ok b => if b then exec H c ps (Some l) s else exec H c ps None s
      | Err e => XErr e
      end
  | jmp_end => XNext s
  | jmpq r =>
      match getr (rf s) r with VSym sym_vmm_entry_point => XVmm s | _ => XErr EUndef end
  | callq r =>
      match getr (rf s) r with
      | VSym f =>
          match call H f s with
          | Returns v g w =>
              exec H c ps None (mk_xstate (clobber f w v (rf s)) None (stack s) g w)
          | Traps g w => XVmm (do_trap H s g w)
          | Dies e => XErr e
          end
      | VInt _ => XErr EUndef
      end
  | _ => match step H i ps s with Ok s => exec H c ps None s | Err e => XErr e end
  end.
Proof. by destruct i. Qed.

Lemma exec_skip i c ps l (s : xstate W) :
  exec H (i :: c) ps (Some l) s =
  match i with
  | label l' => if (l =? l')%nat then exec H c ps None s else exec H c ps (Some l) s
  | _ => exec H c ps (Some l) s
  end.
Proof. by destruct i. Qed.

End unfold.

#[export] Hint Resolve gpr_word set_gpr_wf set_pc_wf : hyrule.

(** Conversion unfolds the interpreter and the word arithmetic last. *)
Strategy 100 [exec mem_read32 mem_write32 w8 w16 w32 w64 sint gpr set_gpr set_pc].

Ltac xside := solve [assumption | lia | eauto 6 with hyrule].

(** Evaluation of one instruction. *)
Ltac xeval :=
  rewrite ?exec_skip; try rewrite exec_cons;
  cbn [step read32 write32 rmw set_reg set_flags getr setr word_of word_reg alu_op
       rf flags stack hart_guest host rax rbx rcx rdx rsi rdi r8 r12 r13 r14 r15
       mbind outcome_bind deref app lookup list_lookup eval_cond edx_eax set_edx_eax
       RESET_ZERO_REGISTER PROCEED_TO_NEXT_INSTRUCTION END_INSTRUCTION TRAP_TO_VMM
       SAVE_GUEST_CONTEXT_SWITCH_REGS RESTORE_GUEST_CONTEXT_SWITCH_REGS
       body_state clobber negb Nat.eqb args];
  rewrite ?pc_set_gpr.

(** The address computations and guest accesses, then the words read. *)
Ltac xmem :=
  rewrite ?idx_shl by xside; rewrite ?idx_addr by xside;
  rewrite ?mem_read_gpr by xside; rewrite ?mem_write_gpr by xside;
  rewrite ?mem_write_zero by xside; rewrite ?mem_read_pc, ?mem_write_pc;
  rewrite ?w32_gpr by xside.

Ltac xrun := repeat (progress (xeval; xmem)).

End X86.
