(* ===== verification/Rv32.v ===== *)
(** * The guest: a reference semantics of RV32IMA

    The contract of the translator, written from the RISC-V unprivileged
    manual and not from the C code: the instructions the emulator accepts,
    their binary encoding (with the formats of [Decode]) and their effect on
    the integer registers and pc.  Memory, atomics and the environment call go
    through the same [HostCalls] interface the generated code uses, so the
    comparison is about everything between the fetched word and those calls. *)
From S2P Require Import Prelude Decode X86.
Import Decode X86.

Module Rv32.

Inductive branch := BEQ | BNE | BLT | BGE | BLTU | BGEU.

Inductive load := LB | LH | LW | LBU | LHU.

Inductive store := SB | SH | SW.

Inductive opi := ADDI | SLTI | SLTIU | XORI | ORI | ANDI.

Inductive shift := SLL | SRL | SRA.

Inductive op := OP_ADD | OP_SUB | OP_SLT | OP_SLTU | OP_XOR | OP_OR | OP_AND.

Inductive muldiv := MUL | MULH | MULHSU | MULHU | DIV | DIVU | REM | REMU.

Inductive instr :=
| Lui (rd imm20 : Z)
| Auipc (rd imm20 : Z)
| Jal (rd offset : Z)
| Jalr (rd rs1 imm : Z)
| Branch (o : branch) (rs1 rs2 offset : Z)
| Load (o : load) (rd rs1 imm : Z)
| Store (o : store) (rs1 rs2 imm : Z)
| OpImm (o : opi) (rd rs1 imm : Z)
| ShiftImm (o : shift) (rd rs1 shamt : Z)
| Op (o : op) (rd rs1 rs2 : Z)
| Shift (o : shift) (rd rs1 rs2 : Z)
| MulDiv (o : muldiv) (rd rs1 rs2 : Z)
| Amo (funct5 rd rs1 rs2 aq_rl : Z)
| Fence (rs1 bits : Z)
| FenceI
| Ecall.

(** ** Encoding *)
Definition branch_funct3 (o : branch) : Z :=
  match o with BEQ => 0 | BNE => 1 | BLT => 4 | BGE => 5 | BLTU => 6 | BGEU => 7 end.

Definition load_funct3 (o : load) : Z :=
  match o with LB => 0 | LH => 1 | LW => 2 | LBU => 4 | LHU => 5 end.

Definition store_funct3 (o : store) : Z :=
  match o with SB => 0 | SH => 1 | SW => 2 end.

Definition opi_funct3 (o : opi) : Z :=
  match o with ADDI => 0 | SLTI => 2 | SLTIU => 3 | XORI => 4 | ORI => 6 | ANDI => 7 end.

Definition shift_funct3 (o : shift) : Z :=
  match o with SLL => 1 | SRL | SRA => 5 end.

Definition shift_funct7 (o : shift) : Z :=
  match o with SLL | SRL => 0 | SRA => 0x20 end.

Definition op_funct3 (o : op) : Z :=
  match o with
  | OP_ADD | OP_SUB => 0 | OP_SLT => 2 | OP_SLTU => 3 | OP_XOR => 4 | OP_OR => 6 | OP_AND => 7
  end.

Definition op_funct7 (o : op) : Z := match o with OP_SUB => 0x20 | _ => 0 end.

Definition muldiv_funct3 (o : muldiv) : Z :=
  match o with
  | MUL => 0 | MULH => 1 | MULHSU => 2 | MULHU => 3 | DIV => 4 | DIVU => 5 | REM => 6 | REMU => 7
  end.

Definition encode (i : instr) : Z :=
  match i with
  | Lui rd imm20 => enc_U 0x37 rd imm20
  | Auipc rd imm20 => enc_U 0x17 rd imm20
  | Jal rd off => enc_J 0x6f rd off
  | Jalr rd rs1 imm => enc_I 0x67 rd 0 rs1 imm
  | Branch o rs1 rs2 off => enc_B 0x63 (branch_funct3 o) rs1 rs2 off
  | Load o rd rs1 imm => enc_I 0x03 rd (load_funct3 o) rs1 imm
  | Store o rs1 rs2 imm => enc_S 0x23 (store_funct3 o) rs1 rs2 imm
  | OpImm o rd rs1 imm => enc_I 0x13 rd (opi_funct3 o) rs1 imm
  | ShiftImm o rd rs1 shamt => enc_I 0x13 rd (shift_funct3 o) rs1 (shift_funct7 o * 2 ^ 5 + shamt)
  | Op o rd rs1 rs2 => enc_R 0x33 rd (op_funct3 o) rs1 rs2 (op_funct7 o)
  | Shift o rd rs1 rs2 => enc_R 0x33 rd (shift_funct3 o) rs1 rs2 (shift_funct7 o)
  | MulDiv o rd rs1 rs2 => enc_R 0x33 rd (muldiv_funct3 o) rs1 rs2 1
  | Amo f5 rd rs1 rs2 aq_rl => enc_R 0x2f rd 2 rs1 rs2 (f5 * 2 ^ 2 + aq_rl)
  | Fence rs1 bits => enc_I 0x0f 0 0 rs1 bits
  | FenceI => enc_I 0x0f 0 1 0 0
  | Ecall => enc_I 0x73 0 0 0 0
  end.

(** ** Legal operands *)
Definition reg_ok (r : Z) : Prop := 0 <= r < 32.

Definition imm12_ok (z : Z) : Prop := - 2 ^ 11 <= z < 2 ^ 11.

(** The atomic operations [amo_instruction_slowpath] implements. *)
Definition amo_funct5 : list Z := [0; 1; 2; 3; 4; 8; 0xc; 0x1c].

Definition valid (i : instr) : Prop :=
  match i with
  | Lui rd imm20 | Auipc rd imm20 => reg_ok rd ∧ 0 <= imm20 < 2 ^ 20
  | Jal rd off => reg_ok rd ∧ - 2 ^ 20 <= off < 2 ^ 20 ∧ off mod 2 = 0
  | Jalr rd rs1 imm | Load _ rd rs1 imm | OpImm _ rd rs1 imm =>
      reg_ok rd ∧ reg_ok rs1 ∧ imm12_ok imm
  | Branch _ rs1 rs2 off => reg_ok rs1 ∧ reg_ok rs2 ∧ - 2 ^ 12 <= off < 2 ^ 12 ∧ off mod 2 = 0
  | Store _ rs1 rs2 imm => reg_ok rs1 ∧ reg_ok rs2 ∧ imm12_ok imm
  | ShiftImm _ rd rs1 shamt => reg_ok rd ∧ reg_ok rs1 ∧ 0 <= shamt < 32
  | Op _ rd rs1 rs2 | Shift _ rd rs1 rs2 | MulDiv _ rd rs1 rs2 =>
      reg_ok rd ∧ reg_ok rs1 ∧ reg_ok rs2
  | Amo f5 rd rs1 rs2 aq_rl =>
      f5 ∈ amo_funct5 ∧ reg_ok rd ∧ reg_ok rs1 ∧ reg_ok rs2 ∧ 0 <= aq_rl < 4
  | Fence rs1 bits => reg_ok rs1 ∧ 0 <= bits < 2 ^ 11
  | FenceI | Ecall => True
  end.

(** ** Semantics *)

(** x0 is hardwired to zero. *)
Definition rx (g : guest) (i : Z) : Z := if i =? 0 then 0 else gpr g i.

Definition wx (g : guest) (i v : Z) : guest := if i =? 0 then g else set_gpr g i v.

Definition next (g : guest) : guest := set_pc g (w32 (pc g + 4)).

Definition opi_val (o : opi) (a imm : Z) : Z :=
  match o with
  | ADDI => w32 (a + imm)
  | SLTI => Z.b2z (sint 32 a <? imm)
  | SLTIU => Z.b2z (a <? w32 imm)
  | XORI => Z.lxor a (w32 imm)
  | ORI => Z.lor a (w32 imm)
  | ANDI => Z.land a (w32 imm)
  end.

Definition shift_val (o : shift) (a n : Z) : Z :=
  match o with
  | SLL => w32 (a * 2 ^ n)
  | SRL => a / 2 ^ n
  | SRA => w32 (sint 32 a / 2 ^ n)
  end.

Definition op_val (o : op) (a b : Z) : Z :=
  match o with
  | OP_ADD => w32 (a + b)
  | OP_SUB => w32 (a - b)
  | OP_SLT => Z.b2z (sint 32 a <? sint 32 b)
  | OP_SLTU => Z.b2z (a <? b)
  | OP_XOR => Z.lxor a b
  | OP_OR => Z.lor a b
  | OP_AND => Z.land a b
  end.

Definition muldiv_val (o : muldiv) (a b : Z) : Z :=
  let sa := sint 32 a in
  let sb := sint 32 b in
  match o with
  | MUL => w32 (a * b)
  | MULH => w32 (sa * sb / 2 ^ 32)
  | MULHSU => w32 (sa * b / 2 ^ 32)
  | MULHU => w32 (a * b / 2 ^ 32)
  | DIV => if b =? 0 then w32 (- 1)
           else if (sa =? - 2 ^ 31) && (sb =? - 1) then a else w32 (Z.quot sa sb)
  | DIVU => if b =? 0 then w32 (- 1) else a / b
  | REM => if b =? 0 then a
           else if (sa =? - 2 ^ 31) && (sb =? - 1) then 0 else w32 (Z.rem sa sb)
  | REMU => if b =? 0 then a else a mod b
  end.

Definition taken (o : branch) (a b : Z) : bool :=
  match o with
  | BEQ => a =? b
  | BNE => negb (a =? b)
  | BLT => sint 32 a <? sint 32 b
  | BGE => sint 32 b <=? sint 32 a
  | BLTU => a <? b
  | BGEU => b <=? a
  end.

Definition load_sym (o : load) : symbol :=
  match o with LB | LBU => sym_mmu_read8 | LH | LHU => sym_mmu_read16 | LW => sym_mmu_read32 end.

Definition load_val (o : load) (v : Z) : Z :=
  match o with
  | LB => w32 (sint 8 v)
  | LBU => w8 v
  | LH => w32 (sint 16 v)
  | LHU => w16 v
  | LW => w32 v
  end.

Definition store_sym (o : store) : symbol :=
  match o with SB => sym_mmu_write8 | SH => sym_mmu_write16 | SW => sym_mmu_write32 end.

Definition store_val (o : store) (v : Z) : Z :=
  match o with SB => w8 v | SH => w16 v | SW => v end.

(** [RvOk leave g w]: the instruction is done; [leave] when control does not
    go on to the instruction after it (a jump, a branch, a trap, a fence.i or
    an environment call: the emulator's dispatch loop takes over). *)
Inductive rvres (W : Type) :=
| RvOk (leave : bool) (g : guest) (w : W)
| RvErr (e : err).
Arguments RvOk {W}.
Arguments RvErr {W}.

Definition after_call {W} (r : callres W) (k : Z → guest → W → rvres W) : rvres W :=
  match r with
  | Returns v g w => k v g w
  | Traps g w => RvOk true g w
  | Dies e => RvErr e
  end.

Definition rv_exec {W} `{HC : HostCalls W} (i : instr) (g : guest) (w : W) : rvres W :=
  match i with
  | Lui rd imm20 => RvOk false (next (wx g rd (imm20 * 2 ^ 12))) w
  | Auipc rd imm20 => RvOk false (next (wx g rd (w32 (pc g + imm20 * 2 ^ 12)))) w
  | Jal rd off =>
      RvOk true (set_pc (wx g rd (w32 (pc g + 4))) (w32 (pc g + off))) w
  | Jalr rd rs1 imm =>
      let t := w32 (rx g rs1 + imm) in
      RvOk true (set_pc (wx g rd (w32 (pc g + 4))) (t - t mod 2)) w
  | Branch o rs1 rs2 off =>
      RvOk true (if taken o (rx g rs1) (rx g rs2) then set_pc g (w32 (pc g + off)) else next g) w
  | Load o rd rs1 imm =>
      after_call (hc_call (load_sym o) [w32 (rx g rs1 + imm)] g w)
        (λ v g w, RvOk false (next (wx g rd (load_val o v))) w)
  | Store o rs1 rs2 imm =>
      after_call (hc_call (store_sym o) [w32 (rx g rs1 + imm); store_val o (rx g rs2)] g w)
        (λ _ g w, RvOk false (next g) w)
  | OpImm o rd rs1 imm => RvOk false (next (wx g rd (opi_val o (rx g rs1) imm))) w
  | ShiftImm o rd rs1 shamt => RvOk false (next (wx g rd (shift_val o (rx g rs1) shamt))) w
  | Op o rd rs1 rs2 => RvOk false (next (wx g rd (op_val o (rx g rs1) (rx g rs2)))) w
  | Shift o rd rs1 rs2 =>
      RvOk false (next (wx g rd (shift_val o (rx g rs1) (rx g rs2 mod 2 ^ 5)))) w
  | MulDiv o rd rs1 rs2 => RvOk false (next (wx g rd (muldiv_val o (rx g rs1) (rx g rs2)))) w
  | Amo f5 rd rs1 rs2 _ =>
      after_call (hc_call sym_amo_instruction_slowpath [rs1; rs2; rd; f5] g w)
        (λ _ g w, RvOk false (next (set_gpr g 0 0)) w)
  | Fence _ _ => RvOk false (next g) w
  | FenceI => after_call (hc_call sym_flush_translation_cache [] g w) (λ _ g w, RvOk true (next g) w)
  | Ecall => after_call (hc_call sym_ecall_callback [] g w) (λ _ g w, RvOk true (next g) w)
  end.

(** Division whose host instruction faults: the divisor check is missing from
    [rem] and [remu], and none of the signed templates handles the overflow. *)
Definition host_divides (i : instr) (g : guest) : Prop :=
  match i with
  | MulDiv o _ rs1 rs2 =>
      let a := rx g rs1 in
      let b := rx g rs2 in
      let overflow := sint 32 a = - 2 ^ 31 ∧ sint 32 b = - 1 in
      match o with
      | DIV => ¬ overflow
      | REM => b ≠ 0 ∧ ¬ overflow
      | REMU => b ≠ 0
      | _ => True
      end
  | _ => True
  end.

#[export] Instance host_divides_dec i g : Decision (host_divides i g).
Proof. destruct i; try apply _. destruct o; apply _. Defined.

(** ** Facts shared by the template proofs *)
Lemma rx_gpr g i : x0_zero g → 0 <= i → rx g i = gpr g i.
Proof. intros Hz ?. unfold rx. destruct (Z.eqb_spec i 0) as [->|]; done. Qed.

Lemma wx_reset g rd v :
  wf_guest g → x0_zero g → 0 <= rd < 32 → set_gpr (set_gpr g rd v) 0 0 = wx g rd v.
Proof.
  intros (Hl & _) Hz Hrd. unfold wx. destruct (Z.eqb_spec rd 0) as [->|Hne].
  - replace (set_gpr (set_gpr g 0 v) 0 0) with (set_gpr g 0 0) by
      (unfold set_gpr; simpl; by rewrite list_insert_insert_eq).
    by apply set_gpr_same.
  - apply set_gpr_same; [by simpl; rewrite length_insert|lia|].
    by rewrite gpr_set_ne by lia.
Qed.

End Rv32.
