(* ===== verification/Hart.v ===== *)
(** * The translation cache of a hart: hart.h, hart.c and the macros of
    translation.h that fill it

    [struct hart] keeps the generated code in [translation_cache] and a sorted
    array [pc_mappings] from guest pc to cache offset.  The operations are
    [unoccupied_cache_size], [flush_translation_cache],
    [add_translation_item], [search_translation_item] and the macros
    [PRECHECK_TRANSLATION_CACHE] and [COMMIT_TRANSLATION] of every translator.

    The bytes of the cache are modelled as cells: a block (a template with its
    parameter words) or a jumper, at the offset it was copied to; copying over
    a cell destroys it.  The sizes of the assembled templates are a product of
    the assembler and a parameter. *)
From S2P Require Import Prelude SortSearch X86.
Import Macros X86.

Module Hart.

Definition TRANSLATION_CACHE_SIZE : Z := 1024 * 64.

Definition MAX_INSTRUCTIONS_TOTRANSLATE : Z := 512.

Record program_counter_mapping_item := mk_item {
  guest_pc : Z;
  tc_offset : Z
}.

Inductive cell :=
| CBlock (t : template) (params : list Z)
| CJumper.

(** The fields of [struct hart] that make up the translation cache; the guest
    registers and pc are [X86.guest]. *)
Record hart := mk_hart {
  nr_translated_instructions : Z;
  pc_mappings : list program_counter_mapping_item;
  translation_cache : gmap Z cell;
  translation_cache_ptr : Z
}.

(** [struct prefetch_blob]; its [opaque] is the hart, passed next to it. *)
Record prefetch_blob := mk_blob {
  next_instruction_to_fetch : Z;
  is_to_stop : bool;
  is_flushable : bool
}.

Section code.
(** [TRANSLATION_SIZE(indicator)] and [vmm_jumper_end - vmm_jumper_begin]. *)
Context (TRANSLATION_SIZE : string → Z) (jumper_size : Z).

Definition cell_size (c : cell) : Z :=
  match c with CBlock t _ => TRANSLATION_SIZE (indicator t) | CJumper => jumper_size end.

(** [memcpy] of a cell to [off]: the cells it overlaps are gone. *)
Definition copy_cell (tc : gmap Z cell) (off : Z) (c : cell) : gmap Z cell :=
  <[off := c]> (filter (λ p, p.1 + cell_size p.2 <= off ∨ off + cell_size c <= p.1) tc).

Definition unoccupied_cache_size (h : hart) : Z :=
  if nr_translated_instructions h <? MAX_INSTRUCTIONS_TOTRANSLATE
  then TRANSLATION_CACHE_SIZE - translation_cache_ptr h - jumper_size
  else 0.

Definition flush_translation_cache (h : hart) : hart :=
  mk_hart 0 (pc_mappings h) (translation_cache h) 0.

(** [(int)((pa)->guest_pc - (pb)->guest_pc)] *)
Definition comparing_mapping_item (pa pb : program_counter_mapping_item) : outcome Z :=
  Ok (sint 32 (guest_pc pa - guest_pc pb)).

Definition add_translation_item (h : hart) (guest_instruction_address : Z) (block : cell)
    : outcome (Z * hart) :=
  if unoccupied_cache_size h <? cell_size block then Ok (-1, h) else
  if MAX_INSTRUCTIONS_TOTRANSLATE <=? nr_translated_instructions h then Ok (-2, h) else
  let off := translation_cache_ptr h in
  let tc := copy_cell (translation_cache h) off block in
  mappings ← deref (zset (pc_mappings h) (nr_translated_instructions h)
                       (mk_item guest_instruction_address off));
  let nr := nr_translated_instructions h + 1 in
  mappings ← INSERTION_SORT comparing_mapping_item mappings nr;
  Ok (0, mk_hart nr mappings tc (off + cell_size block)).

(** The pointer [search_translation_item] returns, dereferenced. *)
Definition search_translation_item (h : hart) (guest_instruction_address : Z)
    : outcome (option program_counter_mapping_item) :=
  r ← SEARCH comparing_mapping_item (pc_mappings h) (nr_translated_instructions h)
        (mk_item guest_instruction_address 0);
  match r with
  | None => Ok None
  | Some i => item ← ELEM (pc_mappings h) i; Ok (Some item)
  end.

(** The loop of [COMMIT_TRANSLATION] that stores the parameters in the last
    words of the block at [off]. *)
Definition patch_params (tc : gmap Z cell) (off : Z) (t : template) (params : list Z)
    : outcome (gmap Z cell) :=
  match tc !! off with
  | Some (CBlock t' slots) =>
      if bool_decide (indicator t' = indicator t) && (length params <=? schema t)%nat
      then Ok (<[off := CBlock t' (take (schema t - length params) slots ++ params)]> tc)
      else Err EUndef
  | _ => Err EUndef
  end.

Definition COMMIT_TRANSLATION (t : template) (params : list Z) (h : hart)
    (instruction_linear_addr : Z) : outcome hart :=
  '(rc, h) ← add_translation_item h instruction_linear_addr
               (CBlock t (replicate (schema t) 0xcccccccc));
  ASSERT (rc =? 0);;
  item ← search_translation_item h instruction_linear_addr;
  match item with
  | None => not_reach
  | Some item =>
      ASSERT (guest_pc item =? instruction_linear_addr);;
      tc ← patch_params (translation_cache h) (tc_offset item) t params;
      Ok (mk_hart (nr_translated_instructions h) (pc_mappings h) tc (translation_cache_ptr h))
  end.

(** [PRECHECK_TRANSLATION_CACHE]: the rest of the translator is [k]. *)
Definition PRECHECK_TRANSLATION_CACHE (t : template) (blob : prefetch_blob) (h : hart)
    (k : prefetch_blob → hart → outcome (prefetch_blob * hart))
    : outcome (prefetch_blob * hart) :=
  if unoccupied_cache_size h <? TRANSLATION_SIZE (indicator t) then
    if is_flushable blob then
      k (mk_blob (next_instruction_to_fetch blob) (is_to_stop blob) false)
        (flush_translation_cache h)
    else Ok (mk_blob (next_instruction_to_fetch blob) true (is_flushable blob), h)
  else k (mk_blob (next_instruction_to_fetch blob) (is_to_stop blob) false) h.

(** [blob->next_instruction_to_fetch += 4] and [blob->is_to_stop = 1]. *)
Definition fetch_next (blob : prefetch_blob) : prefetch_blob :=
  mk_blob (w32 (next_instruction_to_fetch blob + 4)) (is_to_stop blob) (is_flushable blob).

Definition stop_fetch (blob : prefetch_blob) : prefetch_blob :=
  mk_blob (next_instruction_to_fetch blob) true (is_flushable blob).

(** The jumper of [prefetch_instructions]. *)
Definition append_jumper (h : hart) : hart :=
  mk_hart (nr_translated_instructions h) (pc_mappings h)
    (copy_cell (translation_cache h) (translation_cache_ptr h) CJumper)
    (translation_cache_ptr h + jumper_size).

End code.

(** ** The cache as a sequence of cells

    The abstract view of a hart: the blocks and jumpers in the order they were
    appended since the last flush, each block with the pc it translates. *)
Inductive slot :=
| Blk (pc : Z) (t : template) (params : list Z)
| Jmp.

Definition slot_cell (x : slot) : cell :=
  match x with Blk _ t ps => CBlock t ps | Jmp => CJumper end.

Definition pcs (L : list slot) : list Z :=
  omap (λ x, match x with Blk p _ _ => Some p | Jmp => None end) L.

Lemma pcs_app L1 L2 : pcs (L1 ++ L2) = pcs L1 ++ pcs L2.
Proof. unfold pcs. by rewrite omap_app. Qed.

(** The block just appended is the only one with its pc. *)
Lemma last_block L addr t ps L1 t1 ps1 L2 :
  L ++ [Blk addr t ps] = L1 ++ Blk addr t1 ps1 :: L2 → addr ∉ pcs L →
  L1 = L ∧ t1 = t ∧ ps1 = ps.
Proof.
  intros Heq Hnot. destruct L2 as [|x L2 _] using rev_ind.
  { by apply app_inj_tail in Heq as [-> [= -> ->]]. }
  exfalso. apply Hnot. rewrite app_comm_cons, app_assoc in Heq.
  apply app_inj_tail in Heq as [-> _]. rewrite pcs_app. set_solver.
Qed.

Section layout.
Context (TRANSLATION_SIZE : string → Z) (jumper_size : Z).
Notation size x := (cell_size TRANSLATION_SIZE jumper_size (slot_cell x)).

Fixpoint total (L : list slot) : Z :=
  match L with [] => 0 | x :: L => size x + total L end.

(** The cells lie one after the other from [off]. *)
Fixpoint placed (off : Z) (L : list slot) (tc : gmap Z cell) : Prop :=
  match L with
  | [] => True
  | x :: L => tc !! off = Some (slot_cell x) ∧ placed (off + size x) L tc
  end.

Fixpoint items (off : Z) (L : list slot) : list program_counter_mapping_item :=
  match L with
  | [] => []
  | Blk p t ps :: L => mk_item p off :: items (off + size (Blk p t ps)) L
  | Jmp :: L => items (off + jumper_size) L
  end.

(** The pcs lie in a window the wrapping comparison orders. *)
Definition in_window (lo p : Z) : Prop := word32 p ∧ lo <= p < lo + 2 ^ 31.

Record rep (lo : Z) (h : hart) (L : list slot) : Prop := {
  rep_placed : placed 0 L (translation_cache h);
  rep_ptr : translation_cache_ptr h = total L;
  rep_len : Z.of_nat (length (pc_mappings h)) = MAX_INSTRUCTIONS_TOTRANSLATE;
  rep_nr : nr_translated_instructions h = Z.of_nat (length (items 0 L));
  rep_max : nr_translated_instructions h <= MAX_INSTRUCTIONS_TOTRANSLATE;
  rep_sorted : ∃ ms rest, pc_mappings h = ms ++ rest ∧ ms ≡ₚ items 0 L ∧ sorted_by guest_pc ms;
  rep_nodup : NoDup (pcs L);
  rep_window : Forall (in_window lo) (pcs L)
}.

(** What the assembler delivers: no template is empty, each fits an empty
    cache next to a jumper. *)
Record sizes_ok : Prop := {
  size_pos : ∀ i, 0 < TRANSLATION_SIZE i;
  jumper_pos : 0 < jumper_size;
  size_fits : ∀ i, TRANSLATION_SIZE i + jumper_size <= TRANSLATION_CACHE_SIZE
}.

Context (Hsz : sizes_ok).

Lemma slot_size_pos x : 0 < size x.
Proof. destruct x; simpl; apply Hsz. Qed.

Lemma total_nonneg L : 0 <= total L.
Proof. induction L as [|x L IH]; simpl; [lia|]. pose proof (slot_size_pos x). lia. Qed.

Lemma total_app L1 L2 : total (L1 ++ L2) = total L1 + total L2.
Proof. induction L1 as [|x L1 IH]; simpl; [done|]. lia. Qed.

Lemma placed_app off L1 L2 tc :
  placed off (L1 ++ L2) tc ↔ placed off L1 tc ∧ placed (off + total L1) L2 tc.
Proof.
  revert off. induction L1 as [|x L1 IH]; intros off; simpl; [by rewrite Z.add_0_r; naive_solver|].
  rewrite IH, Z.add_assoc. tauto.
Qed.

Lemma placed_mono off L tc tc' :
  (∀ o c, off <= o → o + cell_size TRANSLATION_SIZE jumper_size c <= off + total L →
     tc !! o = Some c → tc' !! o = Some c) →
  placed off L tc → placed off L tc'.
Proof.
  revert off. induction L as [|x L IH]; intros off Hm; simpl; [done|]. intros [Hx HL].
  pose proof (total_nonneg L). pose proof (slot_size_pos x). simpl in Hm. split.
  - apply Hm; [lia|lia|done].
  - apply IH; [|done]. intros o c ? ? ?. apply Hm; [lia|lia|done].
Qed.

Lemma placed_copy off L tc c :
  off = total L → placed 0 L tc →
  placed 0 L (copy_cell TRANSLATION_SIZE jumper_size tc off c) ∧
  copy_cell TRANSLATION_SIZE jumper_size tc off c !! off = Some c.
Proof.
  intros -> HL. unfold copy_cell. split; [|by rewrite lookup_insert_eq].
  eapply placed_mono; [|done]. intros o c' Ho Hc' Hl.
  assert (0 < cell_size TRANSLATION_SIZE jumper_size c') by
    (destruct c'; simpl; apply Hsz).
  rewrite lookup_insert_ne by lia. apply map_lookup_filter_Some. simpl. split; [done|lia].
Qed.

Lemma items_app off L1 L2 : items off (L1 ++ L2) = items off L1 ++ items (off + total L1) L2.
Proof.
  revert off. induction L1 as [|x L1 IH]; intros off; simpl; [by rewrite Z.add_0_r|].
  destruct x; simpl; rewrite IH, Z.add_assoc; done.
Qed.

Lemma items_pcs off L : guest_pc <$> items off L = pcs L.
Proof.
  revert off. induction L as [|x L IH]; intros off; simpl; [done|].
  destruct x; simpl; by rewrite IH.
Qed.

Lemma items_inv off L p o :
  mk_item p o ∈ items off L →
  ∃ L1 t ps L2, L = L1 ++ Blk p t ps :: L2 ∧ o = off + total L1.
Proof.
  revert off. induction L as [|x L IH]; intros off Hin; [set_solver|].
  destruct x as [q t ps|]; simpl in Hin.
  - apply elem_of_cons in Hin as [Heq|Hin].
    + simplify_eq. exists [], t, ps, L. simpl. split; [done|lia].
    + destruct (IH _ Hin) as (L1 & t' & ps' & L2 & -> & ->).
      exists (Blk q t ps :: L1), t', ps', L2. simpl. split; [done|lia].
  - destruct (IH _ Hin) as (L1 & t' & ps' & L2 & -> & ->).
    exists (Jmp :: L1), t', ps', L2. simpl. split; [done|lia].
Qed.

Lemma window_compare lo a b :
  in_window lo (guest_pc a) → in_window lo (guest_pc b) →
  comparing_mapping_item a b = Ok (guest_pc a - guest_pc b).
Proof.
  intros [_ ?] [_ ?]. unfold comparing_mapping_item. f_equal.
  apply sint_unique; [lia| |done]. simpl. lia.
Qed.

Lemma window_keyed lo l :
  Forall (in_window lo) (guest_pc <$> l) → keyed comparing_mapping_item guest_pc l.
Proof.
  rewrite Forall_fmap, Forall_forall. intros Hl a b Ha Hb.
  exists (guest_pc a - guest_pc b). split; [|done]. eapply window_compare; by apply Hl.
Qed.

(** ** The operations on the abstract view *)

Lemma flush_rep lo h L : rep lo h L → rep lo (flush_translation_cache h) [].
Proof.
  intros [? ? Hlen ? ? ? ? ?]. split; simpl; try done; try apply NoDup_nil_2; [].
  exists [], (pc_mappings h). split_and!; [done..|]. intros i j a b _ Hl. done.
Qed.

Lemma search_rep lo h L addr :
  rep lo h L → in_window lo addr →
  (∃ L1 t ps L2, L = L1 ++ Blk addr t ps :: L2 ∧
     search_translation_item h addr = Ok (Some (mk_item addr (total L1)))) ∨
  (addr ∉ pcs L ∧ search_translation_item h addr = Ok None).
Proof.
  intros [Hp _ _ Hnr _ (ms & rest & Hms & Hperm & Hs) _ Hw] Ha.
  unfold search_translation_item. rewrite Hms, Hnr, <- (Permutation_length Hperm).
  destruct (SEARCH_sorted comparing_mapping_item guest_pc (mk_item addr 0) ms rest) as (r & Hr & Hm);
    [|done|].
  { apply (window_keyed lo). simpl. constructor; [done|]. by rewrite Hperm, items_pcs. }
  rewrite Hr. cbn [mbind outcome_bind]. destruct r as [i|].
  - left. destruct Hm as ([p o] & _ & Hg & Hin & Hk). simpl in Hk. subst p.
    rewrite Hperm in Hin. apply items_inv in Hin as (L1 & t & ps & L2 & -> & Ho).
    exists L1, t, ps, L2. split; [done|]. rewrite (ELEM_bind _ _ _ _ Hg).
    rewrite Ho, Z.add_0_l. done.
  - right. split; [|done]. rewrite <- (items_pcs 0 L), <- Hperm.
    intros (e & -> & He)%list_elem_of_fmap. by apply (Hm e).
Qed.

Lemma unoccupied_fits h t :
  0 < TRANSLATION_SIZE (indicator t) →
  TRANSLATION_SIZE (indicator t) <= unoccupied_cache_size jumper_size h →
  nr_translated_instructions h < MAX_INSTRUCTIONS_TOTRANSLATE ∧
  translation_cache_ptr h + TRANSLATION_SIZE (indicator t) + jumper_size <=
    TRANSLATION_CACHE_SIZE.
Proof. intros ?. unfold unoccupied_cache_size. zbool; lia. Qed.

(** The array after the store of the new item and the insertion sort. *)
Lemma insert_item lo h L addr :
  rep lo h L → in_window lo addr → nr_translated_instructions h < MAX_INSTRUCTIONS_TOTRANSLATE →
  let item := mk_item addr (total L) in
  ∃ ms' rest', 
    (m ← deref (zset (pc_mappings h) (nr_translated_instructions h) item);
     INSERTION_SORT comparing_mapping_item m (nr_translated_instructions h + 1)) = Ok (ms' ++ rest') ∧
    ms' ≡ₚ items 0 L ++ [item] ∧ sorted_by guest_pc ms' ∧
    length (ms' ++ rest') = length (pc_mappings h).
Proof.
  intros [Hp _ Hlen Hnr _ (ms & rest & Hms & Hperm & Hs) _ Hw] Ha Hlt item.
  pose proof (Permutation_length Hperm) as Hl. rewrite Hnr, <- Hl, Hms in *.
  destruct rest as [|r0 rest]; [rewrite app_nil_r in Hlen; lia|].
  rewrite zset_middle. cbn [deref mbind outcome_bind].
  destruct (INSERTION_SORT_spec comparing_mapping_item guest_pc ms item rest) as
    (l1 & l2 & Heq & Hi & Hs' & Hp'); [|done|].
  { apply (window_keyed lo). rewrite fmap_app, Hperm, items_pcs. by apply Forall_app_2, Forall_singleton. }
  exists (l1 ++ item :: l2), rest. rewrite Hi, <- app_assoc. split_and!; [done| |done|].
  - by rewrite Hp', Hperm.
  - rewrite Heq, !length_app. simpl. lia.
Qed.

Lemma add_rep lo h L addr t slots :
  rep lo h L → in_window lo addr → addr ∉ pcs L →
  TRANSLATION_SIZE (indicator t) <= unoccupied_cache_size jumper_size h →
  ∃ h', add_translation_item TRANSLATION_SIZE jumper_size h addr (CBlock t slots) = Ok (0, h') ∧
    rep lo h' (L ++ [Blk addr t slots]) ∧
    translation_cache_ptr h' + jumper_size <= TRANSLATION_CACHE_SIZE.
Proof.
  intros Hrep Ha Hnot Hfit. pose proof (unoccupied_fits h t (size_pos Hsz _) Hfit) as [Hnr Hptr].
  destruct (insert_item lo h L addr Hrep Ha Hnr) as (ms' & rest' & Hins & Hperm & Hs & Hl).
  destruct Hrep as [Hp Hpt Hlen Hnr' _ _ Hnd Hw]. unfold add_translation_item.
  cbn [cell_size]. zbool; try lia. rewrite Hpt in *.
  destruct (zset _ _ _) as [m|]; [|done]. cbn [deref mbind outcome_bind] in *.
  rewrite Hins. eexists. split; [reflexivity|]. split; [|simpl; lia].
  destruct (placed_copy (total L) L (translation_cache h) (CBlock t slots) eq_refl Hp) as [Hp1 Hp2].
  split; simpl.
  - apply placed_app. split; [done|]. simpl. rewrite Z.add_0_l. done.
  - rewrite total_app. simpl. lia.
  - rewrite Hl. done.
  - rewrite items_app, length_app. simpl. lia.
  - lia.
  - exists ms', rest'. rewrite items_app. simpl. rewrite Z.add_0_l. done.
  - rewrite pcs_app. apply NoDup_app. split; [done|]. split; [set_solver|apply NoDup_singleton].
  - rewrite pcs_app. by apply Forall_app_2, Forall_singleton.
Qed.

(** Writing the parameters of the last block. *)
Lemma patch_rep lo h L addr t slots params tc :
  rep lo h (L ++ [Blk addr t slots]) → length params = schema t →
  patch_params (translation_cache h) (total L) t params = Ok tc →
  rep lo (mk_hart (nr_translated_instructions h) (pc_mappings h) tc (translation_cache_ptr h))
    (L ++ [Blk addr t params]).
Proof.
  intros [Hp Hpt Hlen Hnr Hmax Hms Hnd Hw] Hps Hpatch.
  apply placed_app in Hp as [HL [Ht _]]. rewrite Z.add_0_l in Ht. unfold patch_params in Hpatch.
  rewrite Ht, Hps, Nat.sub_diag in Hpatch. cbn [slot_cell take app] in Hpatch.
  rewrite bool_decide_true in Hpatch by done.
  rewrite Nat.leb_refl in Hpatch. simpl in Hpatch. injection Hpatch as <-.
  rewrite total_app in Hpt. rewrite items_app in Hnr, Hms. rewrite pcs_app in Hnd, Hw.
  split; simpl; rewrite ?total_app, ?items_app, ?pcs_app; try done.
  apply placed_app. split; [|by rewrite Z.add_0_l; simpl; rewrite lookup_insert_eq].
  eapply placed_mono; [|done]. intros o c Ho Hc Hl.
  assert (0 < cell_size TRANSLATION_SIZE jumper_size c) by (destruct c; simpl; apply Hsz).
  by rewrite lookup_insert_ne by lia.
Qed.

Lemma commit_rep lo h L addr t params :
  rep lo h L → in_window lo addr → addr ∉ pcs L → length params = schema t →
  TRANSLATION_SIZE (indicator t) <= unoccupied_cache_size jumper_size h →
  ∃ h', COMMIT_TRANSLATION TRANSLATION_SIZE jumper_size t params h addr = Ok h' ∧
    rep lo h' (L ++ [Blk addr t params]) ∧
    translation_cache_ptr h' + jumper_size <= TRANSLATION_CACHE_SIZE.
Proof.
  intros Hrep Ha Hnot Hps Hfit. unfold COMMIT_TRANSLATION.
  destruct (add_rep lo h L addr t (replicate (schema t) 0xcccccccc) Hrep Ha Hnot Hfit)
    as (h1 & -> & Hrep1 & Hb). cbn [mbind outcome_bind ASSERT Z.eqb].
  destruct (search_rep lo h1 _ addr Hrep1 Ha) as [(L1 & t1 & ps1 & L2 & Heq & ->)|[Hn _]].
  2: { rewrite pcs_app in Hn. set_solver. }
  cbn [mbind outcome_bind guest_pc tc_offset]. rewrite Z.eqb_refl. cbn [ASSERT mbind outcome_bind].
  destruct (last_block _ _ _ _ _ _ _ _ Heq Hnot) as (-> & _ & _).
  destruct (patch_params _ _ _ _) as [tc|e] eqn:Hpatch.
  - eexists. split; [reflexivity|]. split; [by eapply patch_rep|done].
  - exfalso. pose proof (rep_placed _ _ _ Hrep1) as [_ [Ht _]]%placed_app.
    rewrite Z.add_0_l in Ht. unfold patch_params in Hpatch. rewrite Ht in Hpatch.
    simpl in Hpatch. rewrite bool_decide_true, Hps, Nat.leb_refl in Hpatch by done. done.
Qed.

Lemma jumper_rep lo h L :
  rep lo h L → rep lo (append_jumper TRANSLATION_SIZE jumper_size h) (L ++ [Jmp]).
Proof.
  intros [Hp Hpt Hlen Hnr Hmax Hms Hnd Hw].
  destruct (placed_copy (total L) L (translation_cache h) CJumper eq_refl Hp) as [Hp1 Hp2].
  split; simpl; rewrite ?total_app, ?items_app, ?pcs_app, ?app_nil_r; try done.
  - apply placed_app. split; [by rewrite Hpt|]. simpl. by rewrite Hpt, Z.add_0_l.
  - simpl. lia.
Qed.

(** [PRECHECK_TRANSLATION_CACHE] followed by [COMMIT_TRANSLATION]: the shape of
    every translator, [fin] its last statement. *)
Lemma translator_rep lo h L blob t params fin :
  rep lo h L → in_window lo (next_instruction_to_fetch blob) →
  next_instruction_to_fetch blob ∉ pcs L → length params = schema t →
  ∃ blob' h',
    PRECHECK_TRANSLATION_CACHE TRANSLATION_SIZE jumper_size t blob h (λ blob' h',
      h' ← COMMIT_TRANSLATION TRANSLATION_SIZE jumper_size t params h' (next_instruction_to_fetch blob);
      Ok (fin blob', h')) = Ok (blob', h') ∧
    ((blob' = stop_fetch blob ∧ is_flushable blob = false ∧ h' = h) ∨
     (∃ L', (L' = L ∨ (is_flushable blob = true ∧ L' = [] ∧
               unoccupied_cache_size jumper_size h < TRANSLATION_SIZE (indicator t))) ∧
        blob' = fin (mk_blob (next_instruction_to_fetch blob) (is_to_stop blob) false) ∧
        rep lo h' (L' ++ [Blk (next_instruction_to_fetch blob) t params]) ∧
        translation_cache_ptr h' + jumper_size <= TRANSLATION_CACHE_SIZE)).
Proof.
  intros Hrep Ha Hnot Hps. unfold PRECHECK_TRANSLATION_CACHE.
  destruct (Z.ltb_spec (unoccupied_cache_size jumper_size h) (TRANSLATION_SIZE (indicator t))).
  - destruct (is_flushable blob) eqn:Hf.
    + destruct (commit_rep lo (flush_translation_cache h) [] (next_instruction_to_fetch blob) t params)
        as (h' & -> & ? & ?); try done.
      * by eapply flush_rep.
      * simpl. set_solver.
      * unfold unoccupied_cache_size. simpl. pose proof (size_fits Hsz (indicator t)). lia.
      * eexists _, _. split; [reflexivity|]. right. exists []. split_and!; [right; by split_and!|done..].
    + eexists _, _. split; [reflexivity|]. left. unfold stop_fetch. by rewrite Hf.
  - destruct (commit_rep lo h L (next_instruction_to_fetch blob) t params) as (h' & -> & ? & ?); try done.
    eexists _, _. split; [reflexivity|]. right. exists L. split_and!; [by left|done..].
Qed.

(** The entry of a pc: where its block is and what it holds. *)
Definition block_at (h : hart) (addr : Z) (t : template) (ps : list Z) : Prop :=
  ∃ off, search_translation_item h addr = Ok (Some (mk_item addr off)) ∧
    translation_cache h !! off = Some (CBlock t ps).

Lemma block_at_rep lo h L1 addr t ps L2 :
  rep lo h (L1 ++ Blk addr t ps :: L2) → block_at h addr t ps.
Proof.
  intros Hr. assert (Hw : in_window lo addr).
  { pose proof (rep_window _ _ _ Hr) as Hw. rewrite pcs_app in Hw. simpl in Hw.
    by apply Forall_app in Hw as [_ [? _]%Forall_cons]. }
  pose proof (rep_nodup _ _ _ Hr) as Hnd. rewrite pcs_app in Hnd. simpl in Hnd.
  apply NoDup_app in Hnd as (_ & Hd & [Hn2 _]%NoDup_cons).
  destruct (search_rep lo h _ addr Hr Hw) as [(M1 & t1 & ps1 & M2 & Heq & Hs)|[Hn _]].
  2: { rewrite pcs_app in Hn. simpl in Hn. set_solver. }
  exists (total M1). split; [done|].
  pose proof (rep_placed _ _ _ Hr) as Hp. rewrite Heq in Hp.
  apply placed_app in Hp as [_ [Hx _]]. rewrite Z.add_0_l in Hx. rewrite Hx. f_equal.
  apply app_eq_inv in Heq as [(k & -> & Hk)|(k & -> & Hk)]; destruct k as [|y k]; simplify_eq/=; try done.
  - exfalso. apply (Hd addr); [rewrite pcs_app; set_solver|set_solver].
  - exfalso. apply Hn2. rewrite pcs_app. set_solver.
Qed.

(** C5: let the cache be laid out as the translators leave it ([rep]), all its pcs
    and the new one in one window of 2 GB, the new pc not in it yet, the number of
    parameters the template's, and the template small enough for the room left beside
    the jumper.  Then [COMMIT_TRANSLATION] succeeds: the new pc is found and its block
    holds the template with exactly the given parameters; the blocks of all other pcs
    are found as before, unchanged; the cache stays within its bounds with room for
    the jumper.  Without the window a committed pc may not be found
    ([wrapping_comparison_misses]). *)
Theorem COMMIT_TRANSLATION_correct lo h L addr t params :
  rep lo h L → in_window lo addr → addr ∉ pcs L → length params = schema t →
  TRANSLATION_SIZE (indicator t) <= unoccupied_cache_size jumper_size h →
  ∃ h', COMMIT_TRANSLATION TRANSLATION_SIZE jumper_size t params h addr = Ok h' ∧
    block_at h' addr t params ∧
    (∀ p t' ps', block_at h p t' ps' → p ∈ pcs L → block_at h' p t' ps') ∧
    nr_translated_instructions h' = nr_translated_instructions h + 1 ∧
    nr_translated_instructions h' <= MAX_INSTRUCTIONS_TOTRANSLATE ∧
    translation_cache_ptr h' + jumper_size <= TRANSLATION_CACHE_SIZE.
Proof.
  intros Hrep Ha Hnot Hps Hfit.
  destruct (commit_rep lo h L addr t params Hrep Ha Hnot Hps Hfit) as (h' & Hc & Hr & Hb).
  exists h'. split; [done|]. split; [by eapply block_at_rep|]. split.
  - intros p t' ps' (off & Hs & Hl) Hin.
    apply list_elem_of_omap in Hin as ([q tq pq|] & Hin & Hq); simplify_eq.
    apply list_elem_of_split in Hin as (L1 & L2 & ->).
    destruct (block_at_rep lo h _ _ _ _ _ Hrep) as (off' & Hs' & Hl').
    rewrite Hs in Hs'. simplify_eq.
    rewrite <- app_assoc in Hr. cbn [app] in Hr. by eapply block_at_rep.
  - split; [|split; [apply (rep_max _ _ _ Hr)|done]].
    rewrite (rep_nr _ _ _ Hr), (rep_nr _ _ _ Hrep), items_app, length_app. simpl. lia.
Qed.

End layout.

(** ** A concrete hart *)
Definition empty_hart : hart := mk_hart 0 (replicate 512 (mk_item 0 0)) ∅ 0.

Definition demo_size (_ : string) : Z := 100.

Lemma demo_sizes : sizes_ok demo_size 12.
Proof. by split. Qed.

Lemma empty_rep ts js lo : rep ts js lo empty_hart [].
Proof.
  split; simpl; try done; [|apply NoDup_nil_2].
  exists [], (replicate 512 (mk_item 0 0)). split_and!; [done..|].
  intros i j a b _ Hl. done.
Qed.

Definition demo_template : template := mk_template "fence_instruction" [jmp_end] 1.

Lemma COMMIT_TRANSLATION_correct_witness :
  ∃ h', COMMIT_TRANSLATION demo_size 12 demo_template [7] empty_hart 0x1000 = Ok h' ∧
    block_at h' 0x1000 demo_template [7] ∧
    (∀ p t' ps', block_at empty_hart p t' ps' → p ∈ pcs [] → block_at h' p t' ps') ∧
    nr_translated_instructions h' = 0 + 1 ∧ nr_translated_instructions h' <= 512 ∧
    translation_cache_ptr h' + 12 <= TRANSLATION_CACHE_SIZE.
Proof.
  apply (COMMIT_TRANSLATION_correct demo_size 12 demo_sizes 0 empty_hart [] 0x1000 demo_template [7]).
  - apply empty_rep.
  - split; [done|lia].
  - simpl. apply not_elem_of_nil.
  - done.
  - done.
Defined.

(** Blocks for a sequence of pcs. *)
Definition add_all (l : list Z) : outcome hart :=
  foldl (λ o p, h ← o; '(_, h) ← add_translation_item demo_size 12 h p (CBlock demo_template [0]); Ok h)
    (Ok empty_hart) l.

(** Without the window hypothesis the wrapping difference of
    [comparing_mapping_item] is not an order: six blocks are entered
    successfully and one of them is not found again. *)
Theorem wrapping_comparison_misses :
  ∃ h, add_all [0xdf000008; 0x10004; 0x70000004; 0x10008; 0x8fff0000; 0x10000] = Ok h ∧
    mk_item 0xdf000008 0 ∈ take 6 (pc_mappings h) ∧
    search_translation_item h 0xdf000008 = Ok None.
Proof. eexists. split; [vm_compute; reflexivity|]. split; [vm_compute; set_solver|reflexivity]. Qed.

End Hart.
