(* ===== verification/Sim.v ===== *)
(** * What it means for a template to implement an instruction

    [simulates]: run from a block boundary with the hart at [addr], the code of
    a template with its parameter words has exactly the effect of an RV32
    instruction.  [translates]: a translator applied to the encoding of an
    instruction commits such a template.  The translate_*.c files are proved
    against these two notions, and the dispatcher and the run of the cache use
    nothing else about them. *)
From S2P Require Import Prelude Decode X86 Rv32 Hart.
Import Decode X86 Rv32 Hart.

Module Sim.

Section sim.
Context {W : Type} `{HC : HostCalls W} (H : Z).

(** The result of a block agrees with the result of the instruction. *)
Definition agrees (s : xstate W) (x : xres) (r : rvres W) : Prop :=
  match r with
  | RvOk leave g w => runs H s x leave g w
  | RvErr e => x = XErr e
  end.

Definition simulates (addr : Z) (t : template) (params : list Z) (i : instr) : Prop :=
  ∀ s : xstate W, entry H s → wf_guest (hart_guest s) → x0_zero (hart_guest s) →
    pc (hart_guest s) = addr → hc_good (host s) → no_breakpoint (hart_guest s) (host s) →
    host_divides i (hart_guest s) →
    agrees s (exec H (code t) params None s) (rv_exec i (hart_guest s) (host s)).

(** The instructions that end a translation unit. *)
Definition ends_unit (i : instr) : bool :=
  match i with
  | Jal _ _ | Jalr _ _ _ | Branch _ _ _ _ | FenceI | Ecall => true
  | _ => false
  end.

Context (TRANSLATION_SIZE : string → Z) (jumper_size : Z).

(** The statements every translator ends with. *)
Definition translator (t : template) (params : list Z) (fin : prefetch_blob → prefetch_blob)
    (blob : prefetch_blob) (h : hart) : outcome (prefetch_blob * hart) :=
  PRECHECK_TRANSLATION_CACHE TRANSLATION_SIZE jumper_size t blob h (λ blob' h',
    h' ← COMMIT_TRANSLATION TRANSLATION_SIZE jumper_size t params h'
           (next_instruction_to_fetch blob);
    Ok (fin blob', h')).

Definition translates (i : instr)
    (f : prefetch_blob → Z → hart → outcome (prefetch_blob * hart)) : Prop :=
  ∀ addr, word32 addr → ∃ t params, length params = schema t ∧
    simulates addr t params i ∧
    ∀ blob h, next_instruction_to_fetch blob = addr →
      f blob (encode i) h =
      translator t params (if ends_unit i then stop_fetch else fetch_next) blob h.

End sim.

(** ** Shared proof steps *)
Lemma next_reset g rd v v' :
  wf_guest g → x0_zero g → 0 <= rd < 32 → v = v' →
  set_pc (set_gpr (set_gpr g rd v) 0 (w32 0)) (w32 (pc g + w32 4)) = next (wx g rd v').
Proof.
  intros ? ? ? <-. change (w32 0) with 0. change (w32 4) with 4.
  rewrite wx_reset by done. unfold next, wx. by destruct (rd =? 0).
Qed.

(** The 12-bit immediates of the assembly syntax, after decoding. *)
Lemma imm12_sext imm :
  imm12_ok imm → sign_extend32 (imm mod 2 ^ 12) 11 = w32 imm.
Proof.
  intros Hi. pose proof (Z.mod_pos_bound imm (2 ^ 12) eq_refl).
  rewrite sign_extend32_sint by (simpl; lia). f_equal.
  change (11 + 1) with 12. apply sint_unique; [lia|exact Hi|]. by rewrite Z.mod_mod.
Qed.

Lemma imm12_signed imm : imm12_ok imm → sint 32 (w32 imm) = imm.
Proof.
  intros Hi. unfold imm12_ok in Hi. apply sint_unique; [lia|simpl; lia|].
  unfold w32. by rewrite Z.mod_mod by lia.
Qed.

(** A branch or jump offset: decoded without its bit 0, shifted back and sign
    extended. *)
Lemma offset_sext off n :
  0 <= n < 31 → - 2 ^ n <= off < 2 ^ n → off mod 2 = 0 →
  sign_extend32 (w32 (Z.shiftl (off mod 2 ^ (n + 1) / 2) 1)) n = w32 off.
Proof.
  intros Hn Ho Hev. assert (Hp : 2 ^ (n + 1) = 2 * 2 ^ n) by (rewrite Z.pow_add_r by lia; lia).
  pose proof (Z.pow_pos_nonneg 2 n ltac:(lia) ltac:(lia)).
  assert (2 ^ n <= 2 ^ 30) by (apply Z.pow_le_mono_r; lia).
  pose proof (Z.mod_pos_bound off (2 ^ (n + 1)) ltac:(lia)) as Hb.
  assert (Hm : (off mod 2 ^ (n + 1)) mod 2 = 0).
  { rewrite Z.mod_mod_divide; [done|]. exists (2 ^ n). lia. }
  rewrite Z.shiftl_mul_pow2 by lia. change (2 ^ 1) with 2.
  replace (off mod 2 ^ (n + 1) / 2 * 2) with (off mod 2 ^ (n + 1)) by lia_div.
  rewrite w32_small by (unfold word32; lia).
  rewrite sign_extend32_sint by lia. f_equal. apply sint_unique; [lia| |].
  - replace (n + 1 - 1) with n by lia. lia.
  - by rewrite Z.mod_mod by lia.
Qed.

(** A single-bit mask. *)
(** [xor %ecx, %ecx; ...; setcc %cl; movzbl %cl, %ecx]. *)
Lemma setcc_value x b : w32 (w8 (w64 (Z.lxor x x) - w8 (Z.lxor x x) + Z.b2z b)) = Z.b2z b.
Proof. rewrite Z.lxor_nilpotent. by destruct b. Qed.

(** [andl $0x1f, %ecx] and the masking of the shift count by the processor. *)
Lemma shift_count b : w32 (Z.land b (w32 0x1f)) mod 2 ^ 5 = b mod 2 ^ 5.
Proof.
  change (w32 0x1f) with (Z.ones 5). rewrite Z.land_ones by lia.
  rewrite w32_small by (unfold word32; pose proof (Z.mod_pos_bound b (2 ^ 5) eq_refl); lia).
  by rewrite Z.mod_mod by lia.
Qed.

Lemma shift_value o a n :
  0 <= n → word32 a →
  match o with
  | SLL => w32 (Z.shiftl a n)
  | SRL => Z.shiftr a n
  | SRA => w32 (Z.shiftr (sint 32 a) n)
  end = shift_val o a n.
Proof. intros. destruct o; simpl; by rewrite ?Z.shiftl_mul_pow2, ?Z.shiftr_div_pow2 by lia. Qed.

(** The state of a template proof: the prologue done, the body to run. *)
Ltac sim_start t :=
  let s := fresh "s" in let He := fresh "He" in
  intros s He Hwf Hx0 Hpc Hgood [v Hv] Hd; unfold agrees; unfold t, code;
  rewrite (exec_BEGIN _ _ _ s v He Hv);
  destruct s as [q fl st g w]; cbn [hart_guest host] in Hwf, Hx0, Hpc, Hgood, Hv, Hd |- *;
  clear He; unfold body_state; cbn [hart_guest host stack rf rv_exec].

Ltac sim_next :=
  eexists; split; [reflexivity|]; split; [by split_and!|];
  split; [cbn [hart_guest set_reg set_flags]|split; [reflexivity|intros; reflexivity]].

(** The end of a template that writes [rd]: only the value is left. *)
Ltac sim_rd :=
  sim_next; apply next_reset; [by auto with hyrule|done|lia|];
  rewrite ?rx_gpr by (done || lia);
  rewrite ?shift_count, ?setcc_value, ?w32_idem; cbn [op_val opi_val].

(** A call with arguments [l]: the trap and the fatal outcome are closed, the
    return is left with what the callee guarantees about the guest. *)
Ltac sim_call f l :=
  lazymatch goal with
  | |- context [call ?H f ?s] =>
      rewrite (call_hart H f l s);
      [cbn [hart_guest host rf stack]
       |reflexivity
       |cbn [args word_of rf rsi rdx rcx r8 mbind outcome_bind]; autorewrite with word;
        rewrite ?rx_gpr by (done || lia); rewrite ?w32_gpr by assumption;
        first [reflexivity | assumption]]
  end;
  lazymatch goal with
  | Hwf : wf_guest ?g, Hx0 : x0_zero ?g, Hgood : hc_good ?w |- context [hc_call f l ?g ?w] =>
      let E := fresh "E" in
      pose proof (hc_wf f l g w Hgood Hwf) as Hwf';
      destruct (hc_call f l g w) as [vr g' w'|g' w'|e] eqn:E; cbn [after_call];
      [destruct Hwf' as [Hwf' Hgood']; try pose proof (hc_x0 f l g w vr g' w' eq_refl Hgood Hwf Hx0 E) as Hx0'
      |eexists; split; [reflexivity|]; split; [by split_and!|];
       split; [reflexivity|]; split; [reflexivity|discriminate]
      |reflexivity]
  end.

(** ** A concrete process for the examples *)

(** A process whose C side does nothing. *)
#[export] Instance idle_host : HostCalls unit :=
  {| hc_call _ _ g w := Returns 0 g w; scratch _ _ _ := 0; hc_good _ := True |}.

#[export] Instance idle_host_ok : HostCallsOk unit.
Proof. split; [done| | |]; intros; simplify_eq/=; done. Qed.

Definition demo_guest (p : Z) : guest := mk_guest (replicate 32 0) p.

Definition demo_regs : regfile :=
  mk_regfile (VInt 0) (VInt 0) (VInt 0) (VInt 0) (VInt 0) (VInt 0) (VInt 0) (VInt 0) (VInt 0)
    (VInt 0) (VInt 0).

Lemma demo_addr : hart_addr 64.
Proof. split; lia. Qed.

Lemma demo_wf p : word32 p → wf_guest (demo_guest p).
Proof. intros. split_and!; [done| |done]. apply Forall_replicate. done. Qed.

(** The host state at the start of a block, over the guest [g]. *)
Definition demo_state (g : guest) : xstate unit :=
  mk_xstate (mk_regfile (VInt 64) (VInt 192) (VInt 0) (VInt 64) (VInt 0) (VInt 0) (VInt 0)
               (VInt 64) (VInt 0) (VInt 192) (VInt 64)) None [] g tt.

End Sim.
