(* ===== verification/TransArith.v ===== *)
(** * Register-register arithmetic: translate_arithmetic.c

    The ten templates of the class-0 OP instructions, their translators and
    the dispatch on funct3 and funct7; each template is proved to implement
    its RV32I instruction. *)
From S2P Require Import Prelude Decode X86 Rv32 Hart Sim.
Import Decode X86 Rv32 Hart Sim.

Module TransArith.

(** ** Templates *)
Definition add_instruction : template := mk_template "add_instruction" (
  BEGIN_TRANSLATION ++
  [movl (Param 0) (Reg RDX); shl (Imm 0x2) (Reg RDX); addq R15 RDX; movl (Mem RDX) (Reg RSI);
   movl (Param 1) (Reg RDX); shl (Imm 0x2) (Reg RDX); addq R15 RDX; movl (Mem RDX) (Reg RAX);
   addl (Reg RSI) (Reg RAX); movl (Param 2) (Reg RDX); shl (Imm 0x2) (Reg RDX); addq R15 RDX;
   movl (Reg RAX) (Mem RDX)] ++
  RESET_ZERO_REGISTER ++
  PROCEED_TO_NEXT_INSTRUCTION ++
  END_INSTRUCTION) 3.

Definition sub_instruction : template := mk_template "sub_instruction" (
  BEGIN_TRANSLATION ++
  [movl (Param 0) (Reg RDX); shl (Imm 0x2) (Reg RDX); addq R15 RDX; movl (Mem RDX) (Reg RAX);
   movl (Param 1) (Reg RDX); shl (Imm 0x2) (Reg RDX); addq R15 RDX; movl (Mem RDX) (Reg RSI);
   subl (Reg RSI) (Reg RAX); movl (Param 2) (Reg RDX); shl (Imm 0x2) (Reg RDX); addq R15 RDX;
   movl (Reg RAX) (Mem RDX)] ++
  RESET_ZERO_REGISTER ++
  PROCEED_TO_NEXT_INSTRUCTION ++
  END_INSTRUCTION) 3.

Definition and_instruction : template := mk_template "and_instruction" (
  BEGIN_TRANSLATION ++
  [movl (Param 0) (Reg RDX); shl (Imm 0x2) (Reg RDX); addq R15 RDX; movl (Mem RDX) (Reg RSI);
   movl (Param 1) (Reg RDX); shl (Imm 0x2) (Reg RDX); addq R15 RDX; movl (Mem RDX) (Reg RAX);
   andl (Reg RSI) (Reg RAX); movl (Param 2) (Reg RDX); shl (Imm 0x2) (Reg RDX); addq R15 RDX;
   movl (Reg RAX) (Mem RDX)] ++
  RESET_ZERO_REGISTER ++
  PROCEED_TO_NEXT_INSTRUCTION ++
  END_INSTRUCTION) 3.

Definition or_instruction : template := mk_template "or_instruction" (
  BEGIN_TRANSLATION ++
  [movl (Param 0) (Reg RDX); shl (Imm 0x2) (Reg RDX); addq R15 RDX; movl (Mem RDX) (Reg RSI);
   movl (Param 1) (Reg RDX); shl (Imm 0x2) (Reg RDX); addq R15 RDX; movl (Mem RDX) (Reg RAX);
   orl (Reg RSI) (Reg RAX); movl (Param 2) (Reg RDX); shl (Imm 0x2) (Reg RDX); addq R15 RDX;
   movl (Reg RAX) (Mem RDX)] ++
  RESET_ZERO_REGISTER ++
  PROCEED_TO_NEXT_INSTRUCTION ++
  END_INSTRUCTION) 3.

Definition xor_instruction : template := mk_template "xor_instruction" (
  BEGIN_TRANSLATION ++
  [movl (Param 0) (Reg RDX); shl (Imm 0x2) (Reg RDX); addq R15 RDX; movl (Mem RDX) (Reg RSI);
   movl (Param 1) (Reg RDX); shl (Imm 0x2) (Reg RDX); addq R15 RDX; movl (Mem RDX) (Reg RAX);
   xorl (Reg RSI) (Reg RAX); movl (Param 2) (Reg RDX); shl (Imm 0x2) (Reg RDX); addq R15 RDX;
   movl (Reg RAX) (Mem RDX)] ++
  RESET_ZERO_REGISTER ++
  PROCEED_TO_NEXT_INSTRUCTION ++
  END_INSTRUCTION) 3.

Definition slt_instruction : template := mk_template "slt_instruction" (
  BEGIN_TRANSLATION ++
  [xorl (Reg RCX) (Reg RCX); movl (Param 0) (Reg RDX); shl (Imm 0x2) (Reg RDX); addq R15 RDX;
   movl (Mem RDX) (Reg RSI); movl (Param 1) (Reg RDX); shl (Imm 0x2) (Reg RDX); addq R15 RDX;
   movl (Mem RDX) (Reg RDI); cmpl (Reg RDI) (Reg RSI); setcc CL RCX; movzbl RCX RCX;
   movl (Param 2) (Reg RDX); shl (Imm 0x2) (Reg RDX); addq R15 RDX; movl (Reg RCX) (Mem RDX)] ++
  RESET_ZERO_REGISTER ++
  PROCEED_TO_NEXT_INSTRUCTION ++
  END_INSTRUCTION) 3.

Definition sltu_instruction : template := mk_template "sltu_instruction" (
  BEGIN_TRANSLATION ++
  [xorl (Reg RCX) (Reg RCX); movl (Param 0) (Reg RDX); shl (Imm 0x2) (Reg RDX); addq R15 RDX;
   movl (Mem RDX) (Reg RSI); movl (Param 1) (Reg RDX); shl (Imm 0x2) (Reg RDX); addq R15 RDX;
   movl (Mem RDX) (Reg RDI); cmpl (Reg RDI) (Reg RSI); setcc CB RCX; movzbl RCX RCX;
   movl (Param 2) (Reg RDX); shl (Imm 0x2) (Reg RDX); addq R15 RDX; movl (Reg RCX) (Mem RDX)] ++
  RESET_ZERO_REGISTER ++
  PROCEED_TO_NEXT_INSTRUCTION ++
  END_INSTRUCTION) 3.

Definition sll_instruction : template := mk_template "sll_instruction" (
  BEGIN_TRANSLATION ++
  [movl (Param 0) (Reg RDX); shl (Imm 0x2) (Reg RDX); addq R15 RDX; movl (Mem RDX) (Reg RAX);
   movl (Param 1) (Reg RDX); shl (Imm 0x2) (Reg RDX); addq R15 RDX; movl (Mem RDX) (Reg RCX);
   andl (Imm 0x1f) (Reg RCX); shl (Reg RCX) (Reg RAX); movl (Param 2) (Reg RDX);
   shl (Imm 0x2) (Reg RDX); addq R15 RDX; movl (Reg RAX) (Mem RDX)] ++
  RESET_ZERO_REGISTER ++
  PROCEED_TO_NEXT_INSTRUCTION ++
  END_INSTRUCTION) 3.

Definition srl_instruction : template := mk_template "srl_instruction" (
  BEGIN_TRANSLATION ++
  [movl (Param 0) (Reg RDX); shl (Imm 0x2) (Reg RDX); addq R15 RDX; movl (Mem RDX) (Reg RAX);
   movl (Param 1) (Reg RDX); shl (Imm 0x2) (Reg RDX); addq R15 RDX; movl (Mem RDX) (Reg RCX);
   andl (Imm 0x1f) (Reg RCX); shr (Reg RCX) (Reg RAX); movl (Param 2) (Reg RDX);
   shl (Imm 0x2) (Reg RDX); addq R15 RDX; movl (Reg RAX) (Mem RDX)] ++
  RESET_ZERO_REGISTER ++
  PROCEED_TO_NEXT_INSTRUCTION ++
  END_INSTRUCTION) 3.

Definition sra_instruction : template := mk_template "sra_instruction" (
  BEGIN_TRANSLATION ++
  [movl (Param 0) (Reg RDX); shl (Imm 0x2) (Reg RDX); addq R15 RDX; movl (Mem RDX) (Reg RAX);
   movl (Param 1) (Reg RDX); shl (Imm 0x2) (Reg RDX); addq R15 RDX; movl (Mem RDX) (Reg RCX);
   andl (Imm 0x1f) (Reg RCX); sar (Reg RCX) (Reg RAX); movl (Param 2) (Reg RDX);
   shl (Imm 0x2) (Reg RDX); addq R15 RDX; movl (Reg RAX) (Mem RDX)] ++
  RESET_ZERO_REGISTER ++
  PROCEED_TO_NEXT_INSTRUCTION ++
  END_INSTRUCTION) 3.

(** ** Translators *)
Section code.
Context (TRANSLATION_SIZE : string → Z) (jumper_size : Z).
Notation PRECHECK := (PRECHECK_TRANSLATION_CACHE TRANSLATION_SIZE jumper_size).
Notation COMMIT := (COMMIT_TRANSLATION TRANSLATION_SIZE jumper_size).

Definition riscv_add_translator (dec : decoding) (blob : prefetch_blob) (instruction : Z) (h : hart)
    : outcome (prefetch_blob * hart) :=
  let instruction_linear_address := next_instruction_to_fetch blob in
  PRECHECK add_instruction blob h (λ blob h,
    h ← COMMIT add_instruction [rs1_index dec; rs2_index dec; rd_index dec] h
          instruction_linear_address;
    Ok (fetch_next blob, h)).

Definition riscv_sub_translator (dec : decoding) (blob : prefetch_blob) (instruction : Z) (h : hart)
    : outcome (prefetch_blob * hart) :=
  let instruction_linear_address := next_instruction_to_fetch blob in
  PRECHECK sub_instruction blob h (λ blob h,
    h ← COMMIT sub_instruction [rs1_index dec; rs2_index dec; rd_index dec] h
          instruction_linear_address;
    Ok (fetch_next blob, h)).

Definition riscv_add_sub_translator (dec : decoding) (blob : prefetch_blob) (instruction : Z)
    (h : hart) : outcome (prefetch_blob * hart) :=
  if funct7 dec =? 0x20 then riscv_sub_translator dec blob instruction h
  else ASSERT (funct7 dec =? 0);; riscv_add_translator dec blob instruction h.

Definition riscv_and_translator (dec : decoding) (blob : prefetch_blob) (instruction : Z) (h : hart)
    : outcome (prefetch_blob * hart) :=
  let instruction_linear_address := next_instruction_to_fetch blob in
  PRECHECK and_instruction blob h (λ blob h,
    h ← COMMIT and_instruction [rs1_index dec; rs2_index dec; rd_index dec] h
          instruction_linear_address;
    Ok (fetch_next blob, h)).

Definition riscv_or_translator (dec : decoding) (blob : prefetch_blob) (instruction : Z) (h : hart)
    : outcome (prefetch_blob * hart) :=
  let instruction_linear_address := next_instruction_to_fetch blob in
  PRECHECK or_instruction blob h (λ blob h,
    h ← COMMIT or_instruction [rs1_index dec; rs2_index dec; rd_index dec] h
          instruction_linear_address;
    Ok (fetch_next blob, h)).

Definition riscv_xor_translator (dec : decoding) (blob : prefetch_blob) (instruction : Z) (h : hart)
    : outcome (prefetch_blob * hart) :=
  let instruction_linear_address := next_instruction_to_fetch blob in
  PRECHECK xor_instruction blob h (λ blob h,
    h ← COMMIT xor_instruction [rs1_index dec; rs2_index dec; rd_index dec] h
          instruction_linear_address;
    Ok (fetch_next blob, h)).

Definition riscv_slt_translator (dec : decoding) (blob : prefetch_blob) (instruction : Z) (h : hart)
    : outcome (prefetch_blob * hart) :=
  let instruction_linear_address := next_instruction_to_fetch blob in
  PRECHECK slt_instruction blob h (λ blob h,
    h ← COMMIT slt_instruction [rs1_index dec; rs2_index dec; rd_index dec] h
          instruction_linear_address;
    Ok (fetch_next blob, h)).

Definition riscv_sltu_translator (dec : decoding) (blob : prefetch_blob) (instruction : Z) (h : hart)
    : outcome (prefetch_blob * hart) :=
  let instruction_linear_address := next_instruction_to_fetch blob in
  PRECHECK sltu_instruction blob h (λ blob h,
    h ← COMMIT sltu_instruction [rs1_index dec; rs2_index dec; rd_index dec] h
          instruction_linear_address;
    Ok (fetch_next blob, h)).

Definition riscv_sll_translator (dec : decoding) (blob : prefetch_blob) (instruction : Z) (h : hart)
    : outcome (prefetch_blob * hart) :=
  let instruction_linear_address := next_instruction_to_fetch blob in
  PRECHECK sll_instruction blob h (λ blob h,
    h ← COMMIT sll_instruction [rs1_index dec; rs2_index dec; rd_index dec] h
          instruction_linear_address;
    Ok (fetch_next blob, h)).

Definition riscv_srl_translator (dec : decoding) (blob : prefetch_blob) (instruction : Z) (h : hart)
    : outcome (prefetch_blob * hart) :=
  let instruction_linear_address := next_instruction_to_fetch blob in
  PRECHECK srl_instruction blob h (λ blob h,
    h ← COMMIT srl_instruction [rs1_index dec; rs2_index dec; rd_index dec] h
          instruction_linear_address;
    Ok (fetch_next blob, h)).

Definition riscv_sra_translator (dec : decoding) (blob : prefetch_blob) (instruction : Z) (h : hart)
    : outcome (prefetch_blob * hart) :=
  let instruction_linear_address := next_instruction_to_fetch blob in
  PRECHECK sra_instruction blob h (λ blob h,
    h ← COMMIT sra_instruction [rs1_index dec; rs2_index dec; rd_index dec] h
          instruction_linear_address;
    Ok (fetch_next blob, h)).

Definition riscv_srl_sra_translator (dec : decoding) (blob : prefetch_blob) (instruction : Z)
    (h : hart) : outcome (prefetch_blob * hart) :=
  if funct7 dec =? 0x20 then riscv_sra_translator dec blob instruction h
  else ASSERT (funct7 dec =? 0);; riscv_srl_translator dec blob instruction h.

(** [per_funct3_handlers] as [arithmetic_constructor] fills it. *)
Definition per_funct3_handlers (funct3 : Z)
    : option (decoding → prefetch_blob → Z → hart → outcome (prefetch_blob * hart)) :=
  match funct3 with
  | 0x0 => Some riscv_add_sub_translator
  | 0x7 => Some riscv_and_translator
  | 0x6 => Some riscv_or_translator
  | 0x4 => Some riscv_xor_translator
  | 0x2 => Some riscv_slt_translator
  | 0x3 => Some riscv_sltu_translator
  | 0x1 => Some riscv_sll_translator
  | 0x5 => Some riscv_srl_sra_translator
  | _ => None
  end.

Definition riscv_arithmetic_instructions_class0_translation_entry (dec : decoding)
    (blob : prefetch_blob) (instruction : Z) (h : hart) : outcome (prefetch_blob * hart) :=
  match per_funct3_handlers (funct3 dec) with
  | Some f => f dec blob instruction h
  | None => not_reach
  end.

End code.

(** ** The templates implement RV32I *)
Section proofs.
Context {W : Type} `{HC : HostCalls W} (H : Z) (HH : hart_addr H).

(** The code of the template of an OP instruction. *)
Definition op_template (o : op) : template :=
  match o with
  | OP_ADD => add_instruction | OP_SUB => sub_instruction | OP_SLT => slt_instruction
  | OP_SLTU => sltu_instruction | OP_XOR => xor_instruction | OP_OR => or_instruction
  | OP_AND => and_instruction
  end.

Lemma op_simulates addr o rd rs1 rs2 :
  valid (Op o rd rs1 rs2) → simulates H addr (op_template o) [rs1; rs2; rd] (Op o rd rs1 rs2).
Proof.
  intros (Hrd & H1 & H2). unfold reg_ok in *.
  destruct o; cbn [op_template].
  - sim_start add_instruction. xrun. sim_rd. by rewrite Z.add_comm.
  - sim_start sub_instruction. xrun. sim_rd. done.
  - sim_start slt_instruction. xrun. sim_rd. done.
  - sim_start sltu_instruction. xrun. sim_rd. done.
  - sim_start xor_instruction. xrun. sim_rd. rewrite w32_small by xside. apply Z.lxor_comm.
  - sim_start or_instruction. xrun. sim_rd. rewrite w32_small by xside. apply Z.lor_comm.
  - sim_start and_instruction. xrun. sim_rd. rewrite w32_small by xside. apply Z.land_comm.
Qed.

Definition shift_template (o : shift) : template :=
  match o with
  | SLL => sll_instruction | SRL => srl_instruction | SRA => sra_instruction
  end.

Lemma shift_simulates addr o rd rs1 rs2 :
  valid (Shift o rd rs1 rs2) →
  simulates H addr (shift_template o) [rs1; rs2; rd] (Shift o rd rs1 rs2).
Proof.
  intros (Hrd & H1 & H2). unfold reg_ok in *.
  pose proof (λ b, proj1 (Z.mod_pos_bound b (2 ^ 5) eq_refl)) as Hn.
  destruct o; cbn [shift_template].
  - sim_start sll_instruction. xrun. sim_rd. apply (shift_value SLL); auto with hyrule.
  - sim_start srl_instruction. xrun. sim_rd. rewrite w32_small by auto with hyrule.
    apply (shift_value SRL); auto with hyrule.
  - sim_start sra_instruction. xrun. sim_rd. apply (shift_value SRA); auto with hyrule.
Qed.

Context (TRANSLATION_SIZE : string → Z) (jumper_size : Z).
Notation class0 := (riscv_arithmetic_instructions_class0_translation_entry
  TRANSLATION_SIZE jumper_size).

(** The dispatch of the entry point selects the template of the instruction. *)
Lemma op_dispatch o rd rs1 rs2 blob w h :
  class0 (mk_decoding ENCODING_TYPE_R 0x33 (op_funct3 o) rd rs1 rs2 (op_funct7 o) 0) blob w h =
  translator TRANSLATION_SIZE jumper_size (op_template o) [rs1; rs2; rd] fetch_next blob h.
Proof. by destruct o. Qed.

Lemma shift_dispatch o rd rs1 rs2 blob w h :
  class0 (mk_decoding ENCODING_TYPE_R 0x33 (shift_funct3 o) rd rs1 rs2 (shift_funct7 o) 0) blob w h =
  translator TRANSLATION_SIZE jumper_size (shift_template o) [rs1; rs2; rd] fetch_next blob h.
Proof. by destruct o. Qed.

End proofs.
End TransArith.
