(* ===== verification/TransImm.v ===== *)
(** * Register-immediate arithmetic: translate_arithmetic_immediate.c

    The nine OP-IMM templates, their translators and the dispatch on funct3;
    [riscv_right_shift_translator] chooses between srli and srai by bit 10 of
    the immediate. *)
From S2P Require Import Prelude Decode X86 Rv32 Hart Sim.
Import Decode X86 Rv32 Hart Sim.

Module TransImm.

(** ** Templates *)
Definition addi_instruction : template := mk_template "addi_instruction" (
  BEGIN_TRANSLATION ++
  [movl (Param 1) (Reg RDX); shl (Imm 2) (Reg RDX); addq R15 RDX; movl (Mem RDX) (Reg RAX);
   movl (Param 0) (Reg RDX); addl (Reg RDX) (Reg RAX); movl (Param 2) (Reg RDX);
   shl (Imm 2) (Reg RDX); addq R15 RDX; movl (Reg RAX) (Mem RDX)] ++
  RESET_ZERO_REGISTER ++
  PROCEED_TO_NEXT_INSTRUCTION ++
  END_INSTRUCTION) 3.

Definition stli_instruction : template := mk_template "stli_instruction" (
  BEGIN_TRANSLATION ++
  [xorl (Reg RCX) (Reg RCX); movl (Param 1) (Reg RDX); shl (Imm 2) (Reg RDX); addq R15 RDX;
   movl (Mem RDX) (Reg RAX); cmpl (Param 0) (Reg RAX); setcc CL RCX; movzbl RCX RCX;
   movl (Param 2) (Reg RDX); shl (Imm 2) (Reg RDX); addq R15 RDX; movl (Reg RCX) (Mem RDX)] ++
  RESET_ZERO_REGISTER ++
  PROCEED_TO_NEXT_INSTRUCTION ++
  END_INSTRUCTION) 3.

Definition stliu_instruction : template := mk_template "stliu_instruction" (
  BEGIN_TRANSLATION ++
  [xorl (Reg RCX) (Reg RCX); movl (Param 1) (Reg RDX); shl (Imm 2) (Reg RDX); addq R15 RDX;
   movl (Mem RDX) (Reg RAX); cmpl (Param 0) (Reg RAX); setcc CB RCX; movzbl RCX RCX;
   movl (Param 2) (Reg RDX); shl (Imm 2) (Reg RDX); addq R15 RDX; movl (Reg RCX) (Mem RDX)] ++
  RESET_ZERO_REGISTER ++
  PROCEED_TO_NEXT_INSTRUCTION ++
  END_INSTRUCTION) 3.

Definition xori_instruction : template := mk_template "xori_instruction" (
  BEGIN_TRANSLATION ++
  [xorl (Reg RCX) (Reg RCX); movl (Param 1) (Reg RDX); shl (Imm 2) (Reg RDX); addq R15 RDX;
   movl (Mem RDX) (Reg RAX); movl (Param 0) (Reg RDX); xorl (Reg RDX) (Reg RAX);
   movl (Param 2) (Reg RDX); shl (Imm 2) (Reg RDX); addq R15 RDX; movl (Reg RAX) (Mem RDX)] ++
  RESET_ZERO_REGISTER ++
  PROCEED_TO_NEXT_INSTRUCTION ++
  END_INSTRUCTION) 3.

Definition ori_instruction : template := mk_template "ori_instruction" (
  BEGIN_TRANSLATION ++
  [xorl (Reg RCX) (Reg RCX); movl (Param 1) (Reg RDX); shl (Imm 2) (Reg RDX); addq R15 RDX;
   movl (Mem RDX) (Reg RAX); movl (Param 0) (Reg RDX); orl (Reg RDX) (Reg RAX);
   movl (Param 2) (Reg RDX); shl (Imm 2) (Reg RDX); addq R15 RDX; movl (Reg RAX) (Mem RDX)] ++
  RESET_ZERO_REGISTER ++
  PROCEED_TO_NEXT_INSTRUCTION ++
  END_INSTRUCTION) 3.

Definition andi_instruction : template := mk_template "andi_instruction" (
  BEGIN_TRANSLATION ++
  [xorl (Reg RCX) (Reg RCX); movl (Param 1) (Reg RDX); shl (Imm 2) (Reg RDX); addq R15 RDX;
   movl (Mem RDX) (Reg RAX); movl (Param 0) (Reg RDX); andl (Reg RDX) (Reg RAX);
   movl (Param 2) (Reg RDX); shl (Imm 2) (Reg RDX); addq R15 RDX; movl (Reg RAX) (Mem RDX)] ++
  RESET_ZERO_REGISTER ++
  PROCEED_TO_NEXT_INSTRUCTION ++
  END_INSTRUCTION) 3.

Definition slli_instruction : template := mk_template "slli_instruction" (
  BEGIN_TRANSLATION ++
  [xorl (Reg RCX) (Reg RCX); movl (Param 1) (Reg RDX); shl (Imm 2) (Reg RDX); addq R15 RDX;
   movl (Mem RDX) (Reg RAX); movl (Param 0) (Reg RCX); andl (Imm 0x1f) (Reg RCX);
   shl (Reg RCX) (Reg RAX); movl (Param 2) (Reg RDX); shl (Imm 2) (Reg RDX); addq R15 RDX;
   movl (Reg RAX) (Mem RDX)] ++
  RESET_ZERO_REGISTER ++
  PROCEED_TO_NEXT_INSTRUCTION ++
  END_INSTRUCTION) 3.

Definition srli_instruction : template := mk_template "srli_instruction" (
  BEGIN_TRANSLATION ++
  [xorl (Reg RCX) (Reg RCX); movl (Param 1) (Reg RDX); shl (Imm 2) (Reg RDX); addq R15 RDX;
   movl (Mem RDX) (Reg RAX); movl (Param 0) (Reg RCX); andl (Imm 0x1f) (Reg RCX);
   shr (Reg RCX) (Reg RAX); movl (Param 2) (Reg RDX); shl (Imm 2) (Reg RDX); addq R15 RDX;
   movl (Reg RAX) (Mem RDX)] ++
  RESET_ZERO_REGISTER ++
  PROCEED_TO_NEXT_INSTRUCTION ++
  END_INSTRUCTION) 3.

Definition srai_instruction : template := mk_template "srai_instruction" (
  BEGIN_TRANSLATION ++
  [xorl (Reg RCX) (Reg RCX); movl (Param 1) (Reg RDX); shl (Imm 2) (Reg RDX); addq R15 RDX;
   movl (Mem RDX) (Reg RAX); movl (Param 0) (Reg RCX); andl (Imm 0x1f) (Reg RCX);
   sar (Reg RCX) (Reg RAX); movl (Param 2) (Reg RDX); shl (Imm 2) (Reg RDX); addq R15 RDX;
   movl (Reg RAX) (Mem RDX)] ++
  RESET_ZERO_REGISTER ++
  PROCEED_TO_NEXT_INSTRUCTION ++
  END_INSTRUCTION) 3.

(** ** Translators *)
Section code.
Context (TRANSLATION_SIZE : string → Z) (jumper_size : Z).
Notation PRECHECK := (PRECHECK_TRANSLATION_CACHE TRANSLATION_SIZE jumper_size).
Notation COMMIT := (COMMIT_TRANSLATION TRANSLATION_SIZE jumper_size).

Definition riscv_addi_translator (dec : decoding) (blob : prefetch_blob) (instruction : Z) (h : hart)
    : outcome (prefetch_blob * hart) :=
  let instruction_linear_address := next_instruction_to_fetch blob in
  let signed_offset := sign_extend32 (imm dec) 11 in
  PRECHECK addi_instruction blob h (λ blob h,
    h ← COMMIT addi_instruction [signed_offset; rs1_index dec; rd_index dec] h
          instruction_linear_address;
    Ok (fetch_next blob, h)).

Definition riscv_stli_translator (dec : decoding) (blob : prefetch_blob) (instruction : Z) (h : hart)
    : outcome (prefetch_blob * hart) :=
  let instruction_linear_address := next_instruction_to_fetch blob in
  let signed_imm := sign_extend32 (imm dec) 11 in
  PRECHECK stli_instruction blob h (λ blob h,
    h ← COMMIT stli_instruction [signed_imm; rs1_index dec; rd_index dec] h
          instruction_linear_address;
    Ok (fetch_next blob, h)).

Definition riscv_stliu_translator (dec : decoding) (blob : prefetch_blob) (instruction : Z) (h : hart)
    : outcome (prefetch_blob * hart) :=
  let instruction_linear_address := next_instruction_to_fetch blob in
  let signed_imm := sign_extend32 (imm dec) 11 in
  PRECHECK stliu_instruction blob h (λ blob h,
    h ← COMMIT stliu_instruction [signed_imm; rs1_index dec; rd_index dec] h
          instruction_linear_address;
    Ok (fetch_next blob, h)).

Definition riscv_xori_translator (dec : decoding) (blob : prefetch_blob) (instruction : Z) (h : hart)
    : outcome (prefetch_blob * hart) :=
  let instruction_linear_address := next_instruction_to_fetch blob in
  let signed_imm := sign_extend32 (imm dec) 11 in
  PRECHECK xori_instruction blob h (λ blob h,
    h ← COMMIT xori_instruction [signed_imm; rs1_index dec; rd_index dec] h
          instruction_linear_address;
    Ok (fetch_next blob, h)).

Definition riscv_ori_translator (dec : decoding) (blob : prefetch_blob) (instruction : Z) (h : hart)
    : outcome (prefetch_blob * hart) :=
  let instruction_linear_address := next_instruction_to_fetch blob in
  let signed_imm := sign_extend32 (imm dec) 11 in
  PRECHECK ori_instruction blob h (λ blob h,
    h ← COMMIT ori_instruction [signed_imm; rs1_index dec; rd_index dec] h
          instruction_linear_address;
    Ok (fetch_next blob, h)).

Definition riscv_andi_translator (dec : decoding) (blob : prefetch_blob) (instruction : Z) (h : hart)
    : outcome (prefetch_blob * hart) :=
  let instruction_linear_address := next_instruction_to_fetch blob in
  let signed_imm := sign_extend32 (imm dec) 11 in
  PRECHECK andi_instruction blob h (λ blob h,
    h ← COMMIT andi_instruction [signed_imm; rs1_index dec; rd_index dec] h
          instruction_linear_address;
    Ok (fetch_next blob, h)).

Definition riscv_slli_translator (dec : decoding) (blob : prefetch_blob) (instruction : Z) (h : hart)
    : outcome (prefetch_blob * hart) :=
  let instruction_linear_address := next_instruction_to_fetch blob in
  PRECHECK slli_instruction blob h (λ blob h,
    h ← COMMIT slli_instruction [imm dec; rs1_index dec; rd_index dec] h
          instruction_linear_address;
    Ok (fetch_next blob, h)).

Definition riscv_right_shift_translator (dec : decoding) (blob : prefetch_blob) (instruction : Z)
    (h : hart) : outcome (prefetch_blob * hart) :=
  let instruction_linear_address := next_instruction_to_fetch blob in
  if Z.land (imm dec) 0x400 =? 0 then
    PRECHECK srli_instruction blob h (λ blob h,
      h ← COMMIT srli_instruction [imm dec; rs1_index dec; rd_index dec] h
            instruction_linear_address;
      Ok (fetch_next blob, h))
  else
    PRECHECK srai_instruction blob h (λ blob h,
      h ← COMMIT srai_instruction [imm dec; rs1_index dec; rd_index dec] h
            instruction_linear_address;
      Ok (fetch_next blob, h)).

(** [per_funct3_handlers] as [arithmetic_immediate_constructor] fills it. *)
Definition per_funct3_handlers (funct3 : Z)
    : option (decoding → prefetch_blob → Z → hart → outcome (prefetch_blob * hart)) :=
  match funct3 with
  | 0x0 => Some riscv_addi_translator
  | 0x1 => Some riscv_slli_translator
  | 0x2 => Some riscv_stli_translator
  | 0x3 => Some riscv_stliu_translator
  | 0x4 => Some riscv_xori_translator
  | 0x5 => Some riscv_right_shift_translator
  | 0x6 => Some riscv_ori_translator
  | 0x7 => Some riscv_andi_translator
  | _ => None
  end.

Definition riscv_arithmetic_immediate_instructions_translation_entry (blob : prefetch_blob)
    (instruction : Z) (h : hart) : outcome (prefetch_blob * hart) :=
  dec ← instruction_decoding_per_type instruction ENCODING_TYPE_I;
  match per_funct3_handlers (funct3 dec) with
  | Some f => f dec blob instruction h
  | None => not_reach
  end.

End code.

(** ** The templates implement RV32I *)
Section proofs.
Context {W : Type} `{HC : HostCalls W} (H : Z) (HH : hart_addr H).

Definition opi_template (o : opi) : template :=
  match o with
  | ADDI => addi_instruction | SLTI => stli_instruction | SLTIU => stliu_instruction
  | XORI => xori_instruction | ORI => ori_instruction | ANDI => andi_instruction
  end.

Lemma opi_simulates addr o rd rs1 imm :
  valid (OpImm o rd rs1 imm) →
  simulates H addr (opi_template o) [w32 imm; rs1; rd] (OpImm o rd rs1 imm).
Proof.
  intros (Hrd & H1 & Hi). unfold reg_ok, imm12_ok in *.
  destruct o; cbn [opi_template].
  - sim_start addi_instruction. xrun. sim_rd. autorewrite with word. done.
  - sim_start stli_instruction. xrun. sim_rd. by rewrite imm12_signed.
  - sim_start stliu_instruction. xrun. sim_rd. done.
  - sim_start xori_instruction. xrun. sim_rd. by rewrite w32_small by xside.
  - sim_start ori_instruction. xrun. sim_rd. by rewrite w32_small by xside.
  - sim_start andi_instruction. xrun. sim_rd. by rewrite w32_small by xside.
Qed.

Definition shifti_template (o : shift) : template :=
  match o with
  | SLL => slli_instruction | SRL => srli_instruction | SRA => srai_instruction
  end.

(** The templates take the whole immediate and mask the count themselves. *)
Lemma shifti_simulates addr o rd rs1 shamt k :
  valid (ShiftImm o rd rs1 shamt) → k mod 2 ^ 5 = shamt →
  simulates H addr (shifti_template o) [k; rs1; rd] (ShiftImm o rd rs1 shamt).
Proof.
  intros (Hrd & H1 & Hs) Hk. unfold reg_ok in *.
  assert (Hm : w32 k mod 2 ^ 5 = shamt) by (by rewrite w32_mod_pow by lia).
  destruct o; cbn [shifti_template].
  - sim_start slli_instruction. xrun. sim_rd. rewrite Hm.
    apply (shift_value SLL); [lia|auto with hyrule].
  - sim_start srli_instruction. xrun. sim_rd. rewrite Hm, w32_small by xside.
    apply (shift_value SRL); [lia|auto with hyrule].
  - sim_start srai_instruction. xrun. sim_rd. rewrite Hm.
    apply (shift_value SRA); [lia|auto with hyrule].
Qed.

Context (TRANSLATION_SIZE : string → Z) (jumper_size : Z).
Notation entry_point := (riscv_arithmetic_immediate_instructions_translation_entry
  TRANSLATION_SIZE jumper_size).

Lemma opi_translates o rd rs1 imm :
  valid (OpImm o rd rs1 imm) →
  translates H TRANSLATION_SIZE jumper_size (OpImm o rd rs1 imm) entry_point.
Proof.
  intros Hv addr _. exists (opi_template o), [w32 imm; rs1; rd].
  split; [by destruct o|]. split; [by apply opi_simulates|].
  intros blob h _. destruct Hv as (? & ? & Hi). unfold reg_ok in *. cbn [encode].
  unfold riscv_arithmetic_immediate_instructions_translation_entry.
  rewrite decode_I by (destruct o; simpl; lia). rewrite <- imm12_sext by done. by destruct o.
Qed.

Lemma shifti_translates o rd rs1 shamt :
  valid (ShiftImm o rd rs1 shamt) →
  translates H TRANSLATION_SIZE jumper_size (ShiftImm o rd rs1 shamt) entry_point.
Proof.
  intros Hv addr _. pose proof Hv as (? & ? & Hs). unfold reg_ok in *.
  set (k := shift_funct7 o * 2 ^ 5 + shamt).
  assert (Hk : 0 <= k < 2 ^ 12) by (subst k; destruct o; simpl; lia).
  exists (shifti_template o), [k; rs1; rd]. split; [by destruct o|].
  split; [apply shifti_simulates; [done|]; subst k; destruct o; simpl; lia_div|].
  intros blob h _. cbn [encode]. fold k.
  unfold riscv_arithmetic_immediate_instructions_translation_entry.
  rewrite decode_I by (destruct o; simpl; lia). rewrite (Z.mod_small k) by done.
  assert (Hb : Z.land k 0x400 = if o is SRA then 0x400 else 0).
  { change 0x400 with (2 ^ 10) at 1. rewrite (bit_mask k 10) by lia. subst k. destruct o; simpl; lia_div. }
  destruct o; cbn; try done; unfold riscv_right_shift_translator; cbn [imm]; by rewrite Hb.
Qed.

End proofs.
End TransImm.
