(* ===== verification/TransJump.v ===== *)
(** * Upper immediates and unconditional jumps: translation.c (lui, auipc) and
    translate_unconditional_jump_intrs.c

    These four instructions have an opcode of their own, so their translators
    decode the instruction themselves.  [jal] and [jalr] end the translation
    unit: their templates store the target in the hart's pc and leave to the
    dispatch loop. *)
From S2P Require Import Prelude Decode X86 Rv32 Hart Sim.
Import Decode X86 Rv32 Hart Sim.

Module TransJump.

(** ** Templates *)
Definition lui_instruction : template := mk_template "lui_instruction" (
  BEGIN_TRANSLATION ++
  [movl (Param 0) (Reg RAX); movl (Param 1) (Reg RDX); shl (Imm 12) (Reg RAX);
   shl (Imm 2) (Reg RDX); addq R15 RDX; movl (Reg RAX) (Mem RDX)] ++
  RESET_ZERO_REGISTER ++
  PROCEED_TO_NEXT_INSTRUCTION ++
  END_INSTRUCTION) 2.

Definition auipc_instruction : template := mk_template "auipc_instruction" (
  BEGIN_TRANSLATION ++
  [movl (Param 1) (Reg RDX); shl (Imm 2) (Reg RDX); addq R15 RDX; movl (Param 0) (Reg RAX);
   shl (Imm 12) (Reg RAX); movl (Param 2) (Reg RCX); addl (Reg RCX) (Reg RAX);
   movl (Reg RAX) (Mem RDX)] ++
  RESET_ZERO_REGISTER ++
  PROCEED_TO_NEXT_INSTRUCTION ++
  END_INSTRUCTION) 3.

Definition jal_instruction_without_target : template := mk_template "jal_instruction_without_target" (
  BEGIN_TRANSLATION ++
  [movl (Param 0) (Reg RDX); shl (Imm 2) (Reg RDX); addq R15 RDX; movl (Param 1) (Reg RAX);
   movl (Reg RAX) (Mem RDX); movl (Param 2) (Reg RAX); movl (Reg RAX) (Mem R14)] ++
  RESET_ZERO_REGISTER ++
  TRAP_TO_VMM) 3.

Definition jalr_instruction : template := mk_template "jalr_instruction" (
  BEGIN_TRANSLATION ++
  [movl (Param 2) (Reg RDX); shl (Imm 2) (Reg RDX); addq R15 RDX; movl (Mem RDX) (Reg RBX);
   movl (Param 3) (Reg RAX); addl (Reg RAX) (Reg RBX); btr 0x0 RBX; movl (Param 0) (Reg RDX);
   shl (Imm 2) (Reg RDX); addq R15 RDX; movl (Param 1) (Reg RAX); movl (Reg RAX) (Mem RDX);
   movl (Reg RBX) (Mem R14)] ++
  RESET_ZERO_REGISTER ++
  TRAP_TO_VMM) 4.

(** ** Translators *)
Section code.
Context (TRANSLATION_SIZE : string → Z) (jumper_size : Z).
Notation PRECHECK := (PRECHECK_TRANSLATION_CACHE TRANSLATION_SIZE jumper_size).
Notation COMMIT := (COMMIT_TRANSLATION TRANSLATION_SIZE jumper_size).

Definition riscv_lui_translator (blob : prefetch_blob) (instruction : Z) (h : hart)
    : outcome (prefetch_blob * hart) :=
  let instruction_linear_address := next_instruction_to_fetch blob in
  dec ← instruction_decoding_per_type instruction ENCODING_TYPE_U;
  PRECHECK lui_instruction blob h (λ blob h,
    h ← COMMIT lui_instruction [imm dec; rd_index dec] h
          instruction_linear_address;
    Ok (fetch_next blob, h)).

Definition riscv_auipc_translator (blob : prefetch_blob) (instruction : Z) (h : hart)
    : outcome (prefetch_blob * hart) :=
  let instruction_linear_address := next_instruction_to_fetch blob in
  dec ← instruction_decoding_per_type instruction ENCODING_TYPE_U;
  PRECHECK auipc_instruction blob h (λ blob h,
    h ← COMMIT auipc_instruction [imm dec; rd_index dec; instruction_linear_address] h
          instruction_linear_address;
    Ok (fetch_next blob, h)).

Definition riscv_jal_translator (blob : prefetch_blob) (instruction : Z) (h : hart)
    : outcome (prefetch_blob * hart) :=
  let instruction_linear_address := next_instruction_to_fetch blob in
  dec ← instruction_decoding_per_type instruction ENCODING_TYPE_UJ;
  let jump_target := w32 (instruction_linear_address +
    sign_extend32 (w32 (Z.shiftl (imm dec) 1)) 20) in
  PRECHECK jal_instruction_without_target blob h (λ blob h,
    h ← COMMIT jal_instruction_without_target
          [rd_index dec; w32 (instruction_linear_address + 4); jump_target] h
          instruction_linear_address;
    Ok (stop_fetch blob, h)).

Definition riscv_jalr_translator (blob : prefetch_blob) (instruction : Z) (h : hart)
    : outcome (prefetch_blob * hart) :=
  let instruction_linear_address := next_instruction_to_fetch blob in
  dec ← instruction_decoding_per_type instruction ENCODING_TYPE_I;
  let signed_offset := sign_extend32 (imm dec) 11 in
  PRECHECK jalr_instruction blob h (λ blob h,
    h ← COMMIT jalr_instruction
          [rd_index dec; w32 (instruction_linear_address + 4); rs1_index dec; signed_offset] h
          instruction_linear_address;
    Ok (stop_fetch blob, h)).

End code.

(** ** The templates implement RV32I *)
Section proofs.
Context {W : Type} `{HC : HostCalls W} (H : Z) (HH : hart_addr H).

Lemma shl12 imm20 : 0 <= imm20 < 2 ^ 20 → w32 (Z.shiftl (w32 imm20) (w32 12 mod 2 ^ 5)) = imm20 * 2 ^ 12.
Proof.
  intros. change (w32 12 mod 2 ^ 5) with 12. rewrite Z.shiftl_mul_pow2 by lia.
  rewrite (w32_small imm20) by (unfold word32; lia). apply w32_small. unfold word32. lia.
Qed.

Lemma lui_simulates addr rd imm20 :
  valid (Lui rd imm20) → simulates H addr lui_instruction [imm20; rd] (Lui rd imm20).
Proof.
  intros (Hrd & Hi). unfold reg_ok in *. sim_start lui_instruction. xrun.
  rewrite shl12 by done. assert (word32 (imm20 * 2 ^ 12)) by (unfold word32; lia).
  xrun. sim_rd. by apply w32_small.
Qed.

Lemma auipc_simulates addr rd imm20 :
  valid (Auipc rd imm20) → word32 addr →
  simulates H addr auipc_instruction [imm20; rd; addr] (Auipc rd imm20).
Proof.
  intros (Hrd & Hi) Ha. unfold reg_ok in *. sim_start auipc_instruction. xrun.
  rewrite shl12 by done. xrun. sim_rd. subst addr.
  autorewrite with word. by rewrite Z.add_comm.
Qed.

(** The end of a template that writes [rd] and jumps. *)
Lemma jump_reset g rd v t :
  wf_guest g → x0_zero g → 0 <= rd < 32 →
  set_gpr (set_pc (set_gpr g rd v) t) 0 (w32 0) = set_pc (wx g rd v) t.
Proof. intros. change (w32 0) with 0. by rewrite <- wx_reset. Qed.

Lemma jal_simulates addr rd off :
  valid (Jal rd off) → word32 addr →
  simulates H addr jal_instruction_without_target [rd; w32 (addr + 4); w32 (addr + off)]
    (Jal rd off).
Proof.
  intros (Hrd & Ho) Ha. unfold reg_ok in *. sim_start jal_instruction_without_target.
  subst addr. xrun. sim_next. rewrite !w32_idem. by apply jump_reset.
Qed.

Lemma clear_bit0 t : 0 <= t → Z.clearbit t 0 = t - t mod 2.
Proof.
  intros. rewrite Z.clearbit_spec'. change (2 ^ 0) with 1.
  change 1 with (Z.ones 1). rewrite Z.ldiff_ones_r by lia. change (Z.ones 1) with 1.
  rewrite Z.shiftr_div_pow2, Z.shiftl_mul_pow2 by lia. change (2 ^ 1) with 2. lia_div.
Qed.

Lemma jalr_simulates addr rd rs1 imm :
  valid (Jalr rd rs1 imm) → word32 addr →
  simulates H addr jalr_instruction [rd; w32 (addr + 4); rs1; w32 imm] (Jalr rd rs1 imm).
Proof.
  intros (Hrd & H1 & Hi) Ha. unfold reg_ok in *. sim_start jalr_instruction.
  subst addr. xrun. sim_next. autorewrite with word. rewrite rx_gpr by (done || lia).
  pose proof (w32_word (gpr g rs1 + imm)) as Hw.
  rewrite clear_bit0 by apply Hw. rewrite (w32_small (_ - _)) by (unfold word32 in *; lia_div).
  by apply jump_reset.
Qed.

Context (TRANSLATION_SIZE : string → Z) (jumper_size : Z).
Notation translates := (translates H TRANSLATION_SIZE jumper_size).

Lemma lui_translates rd imm20 :
  valid (Lui rd imm20) →
  translates (Lui rd imm20) (riscv_lui_translator TRANSLATION_SIZE jumper_size).
Proof.
  intros Hv addr Ha. exists lui_instruction, [imm20; rd]. split; [done|].
  split; [by apply lui_simulates|]. intros blob h _. destruct Hv as [Hrd Hi]. unfold reg_ok in *.
  cbn [encode]. unfold riscv_lui_translator. by rewrite decode_U by lia.
Qed.

Lemma auipc_translates rd imm20 :
  valid (Auipc rd imm20) →
  translates (Auipc rd imm20) (riscv_auipc_translator TRANSLATION_SIZE jumper_size).
Proof.
  intros Hv addr Ha. exists auipc_instruction, [imm20; rd; addr]. split; [done|].
  split; [by apply auipc_simulates|]. intros blob h <-. destruct Hv as [Hrd Hi].
  unfold reg_ok in *. cbn [encode]. unfold riscv_auipc_translator. by rewrite decode_U by lia.
Qed.

Lemma jal_translates rd off :
  valid (Jal rd off) →
  translates (Jal rd off) (riscv_jal_translator TRANSLATION_SIZE jumper_size).
Proof.
  intros Hv addr Ha. exists jal_instruction_without_target, [rd; w32 (addr + 4); w32 (addr + off)].
  split; [done|]. split; [by apply jal_simulates|]. intros blob h <-.
  destruct Hv as (Hrd & Ho & Hev). unfold reg_ok in *. cbn [encode].
  unfold riscv_jal_translator. rewrite decode_J by lia. cbn [mbind outcome_bind imm].
  change (2 ^ 21) with (2 ^ (20 + 1)). rewrite (offset_sext off 20) by (done || lia). by rewrite w32_add_r.
Qed.

Lemma jalr_translates rd rs1 imm :
  valid (Jalr rd rs1 imm) →
  translates (Jalr rd rs1 imm) (riscv_jalr_translator TRANSLATION_SIZE jumper_size).
Proof.
  intros Hv addr Ha. exists jalr_instruction, [rd; w32 (addr + 4); rs1; w32 imm].
  split; [done|]. split; [by apply jalr_simulates|]. intros blob h <-.
  destruct Hv as (Hrd & H1 & Hi). unfold reg_ok in *. cbn [encode].
  unfold riscv_jalr_translator. rewrite decode_I by lia. cbn [mbind outcome_bind Decode.imm].
  by rewrite imm12_sext.
Qed.

End proofs.
End TransJump.
