(* ===== verification/TransBranch.v ===== *)
(** * Conditional branches: translate_branch.c

    Each template computes both targets: %edx holds pc + 4 and is replaced by
    the branch target unless the negated condition jumps over the move.  A
    branch ends the translation unit. *)
From S2P Require Import Prelude Decode X86 Rv32 Hart Sim.
Import Decode X86 Rv32 Hart Sim.

Module TransBranch.

(** ** Templates *)
Definition beq_instruction : template := mk_template "beq_instruction" (
  BEGIN_TRANSLATION ++
  [movl (Param 0) (Reg RDX); shl (Imm 2) (Reg RDX); addq R15 RDX; movl (Mem RDX) (Reg RSI);
   movl (Param 1) (Reg RDX); shl (Imm 2) (Reg RDX); addq R15 RDX; movl (Mem RDX) (Reg RDI);
   movl (Mem R14) (Reg RDX); addl (Imm 0x4) (Reg RDX); cmpl (Reg RSI) (Reg RDI); jcc CNE 1;
   movl (Param 2) (Reg RDX); label 1; movl (Reg RDX) (Mem R14)] ++
  TRAP_TO_VMM) 3.

Definition bne_instruction : template := mk_template "bne_instruction" (
  BEGIN_TRANSLATION ++
  [movl (Param 0) (Reg RDX); shl (Imm 2) (Reg RDX); addq R15 RDX; movl (Mem RDX) (Reg RSI);
   movl (Param 1) (Reg RDX); shl (Imm 2) (Reg RDX); addq R15 RDX; movl (Mem RDX) (Reg RDI);
   movl (Mem R14) (Reg RDX); addl (Imm 0x4) (Reg RDX); cmpl (Reg RSI) (Reg RDI); jcc CE 1;
   movl (Param 2) (Reg RDX); label 1; movl (Reg RDX) (Mem R14)] ++
  TRAP_TO_VMM) 3.

Definition blt_instruction : template := mk_template "blt_instruction" (
  BEGIN_TRANSLATION ++
  [movl (Param 0) (Reg RDX); shl (Imm 2) (Reg RDX); addq R15 RDX; movl (Mem RDX) (Reg RSI);
   movl (Param 1) (Reg RDX); shl (Imm 2) (Reg RDX); addq R15 RDX; movl (Mem RDX) (Reg RDI);
   movl (Mem R14) (Reg RDX); addl (Imm 0x4) (Reg RDX); cmpl (Reg RDI) (Reg RSI); jcc CGE 1;
   movl (Param 2) (Reg RDX); label 1; movl (Reg RDX) (Mem R14)] ++
  TRAP_TO_VMM) 3.

Definition bltu_instruction : template := mk_template "bltu_instruction" (
  BEGIN_TRANSLATION ++
  [movl (Param 0) (Reg RDX); shl (Imm 2) (Reg RDX); addq R15 RDX; movl (Mem RDX) (Reg RSI);
   movl (Param 1) (Reg RDX); shl (Imm 2) (Reg RDX); addq R15 RDX; movl (Mem RDX) (Reg RDI);
   movl (Mem R14) (Reg RDX); addl (Imm 0x4) (Reg RDX); cmpl (Reg RDI) (Reg RSI); jcc CAE 1;
   movl (Param 2) (Reg RDX); label 1; movl (Reg RDX) (Mem R14)] ++
  TRAP_TO_VMM) 3.

Definition bge_instruction : template := mk_template "bge_instruction" (
  BEGIN_TRANSLATION ++
  [movl (Param 0) (Reg RDX); shl (Imm 2) (Reg RDX); addq R15 RDX; movl (Mem RDX) (Reg RSI);
   movl (Param 1) (Reg RDX); shl (Imm 2) (Reg RDX); addq R15 RDX; movl (Mem RDX) (Reg RDI);
   movl (Mem R14) (Reg RDX); addl (Imm 0x4) (Reg RDX); cmpl (Reg RDI) (Reg RSI); jcc CL 1;
   movl (Param 2) (Reg RDX); label 1; movl (Reg RDX) (Mem R14)] ++
  TRAP_TO_VMM) 3.

Definition bgeu_instruction : template := mk_template "bgeu_instruction" (
  BEGIN_TRANSLATION ++
  [movl (Param 0) (Reg RDX); shl (Imm 2) (Reg RDX); addq R15 RDX; movl (Mem RDX) (Reg RSI);
   movl (Param 1) (Reg RDX); shl (Imm 2) (Reg RDX); addq R15 RDX; movl (Mem RDX) (Reg RDI);
   movl (Mem R14) (Reg RDX); addl (Imm 0x4) (Reg RDX); cmpl (Reg RDI) (Reg RSI); jcc CB 1;
   movl (Param 2) (Reg RDX); label 1; movl (Reg RDX) (Mem R14)] ++
  TRAP_TO_VMM) 3.

(** ** Translators *)
Section code.
Context (TRANSLATION_SIZE : string → Z) (jumper_size : Z).
Notation PRECHECK := (PRECHECK_TRANSLATION_CACHE TRANSLATION_SIZE jumper_size).
Notation COMMIT := (COMMIT_TRANSLATION TRANSLATION_SIZE jumper_size).

Definition riscv_beq_translator (dec : decoding) (blob : prefetch_blob) (instruction : Z) (h : hart)
    : outcome (prefetch_blob * hart) :=
  let instruction_linear_address := next_instruction_to_fetch blob in
  let branch_taken_target := w32 (instruction_linear_address +
    sign_extend32 (w32 (Z.shiftl (imm dec) 1)) 12) in
  PRECHECK beq_instruction blob h (λ blob h,
    h ← COMMIT beq_instruction [rs1_index dec; rs2_index dec; branch_taken_target] h
          instruction_linear_address;
    Ok (stop_fetch blob, h)).

Definition riscv_bne_translator (dec : decoding) (blob : prefetch_blob) (instruction : Z) (h : hart)
    : outcome (prefetch_blob * hart) :=
  let instruction_linear_address := next_instruction_to_fetch blob in
  let branch_taken_target := w32 (instruction_linear_address +
    sign_extend32 (w32 (Z.shiftl (imm dec) 1)) 12) in
  PRECHECK bne_instruction blob h (λ blob h,
    h ← COMMIT bne_instruction [rs1_index dec; rs2_index dec; branch_taken_target] h
          instruction_linear_address;
    Ok (stop_fetch blob, h)).

Definition riscv_blt_translator (dec : decoding) (blob : prefetch_blob) (instruction : Z) (h : hart)
    : outcome (prefetch_blob * hart) :=
  let instruction_linear_address := next_instruction_to_fetch blob in
  let branch_taken_target := w32 (instruction_linear_address +
    sign_extend32 (w32 (Z.shiftl (imm dec) 1)) 12) in
  PRECHECK blt_instruction blob h (λ blob h,
    h ← COMMIT blt_instruction [rs1_index dec; rs2_index dec; branch_taken_target] h
          instruction_linear_address;
    Ok (stop_fetch blob, h)).

Definition riscv_bltu_translator (dec : decoding) (blob : prefetch_blob) (instruction : Z) (h : hart)
    : outcome (prefetch_blob * hart) :=
  let instruction_linear_address := next_instruction_to_fetch blob in
  let branch_taken_target := w32 (instruction_linear_address +
    sign_extend32 (w32 (Z.shiftl (imm dec) 1)) 12) in
  PRECHECK bltu_instruction blob h (λ blob h,
    h ← COMMIT bltu_instruction [rs1_index dec; rs2_index dec; branch_taken_target] h
          instruction_linear_address;
    Ok (stop_fetch blob, h)).

Definition riscv_bge_translator (dec : decoding) (blob : prefetch_blob) (instruction : Z) (h : hart)
    : outcome (prefetch_blob * hart) :=
  let instruction_linear_address := next_instruction_to_fetch blob in
  let branch_taken_target := w32 (instruction_linear_address +
    sign_extend32 (w32 (Z.shiftl (imm dec) 1)) 12) in
  PRECHECK bge_instruction blob h (λ blob h,
    h ← COMMIT bge_instruction [rs1_index dec; rs2_index dec; branch_taken_target] h
          instruction_linear_address;
    Ok (stop_fetch blob, h)).

Definition riscv_bgeu_translator (dec : decoding) (blob : prefetch_blob) (instruction : Z) (h : hart)
    : outcome (prefetch_blob * hart) :=
  let instruction_linear_address := next_instruction_to_fetch blob in
  let branch_taken_target := w32 (instruction_linear_address +
    sign_extend32 (w32 (Z.shiftl (imm dec) 1)) 12) in
  PRECHECK bgeu_instruction blob h (λ blob h,
    h ← COMMIT bgeu_instruction [rs1_index dec; rs2_index dec; branch_taken_target] h
          instruction_linear_address;
    Ok (stop_fetch blob, h)).

(** [per_funct3_handlers] as [branch_constructor] fills it. *)
Definition per_funct3_handlers (funct3 : Z)
    : option (decoding → prefetch_blob → Z → hart → outcome (prefetch_blob * hart)) :=
  match funct3 with
  | 0x0 => Some riscv_beq_translator
  | 0x1 => Some riscv_bne_translator
  | 0x4 => Some riscv_blt_translator
  | 0x6 => Some riscv_bltu_translator
  | 0x5 => Some riscv_bge_translator
  | 0x7 => Some riscv_bgeu_translator
  | _ => None
  end.

Definition riscv_branch_instructions_translation_entry (blob : prefetch_blob)
    (instruction : Z) (h : hart) : outcome (prefetch_blob * hart) :=
  dec ← instruction_decoding_per_type instruction ENCODING_TYPE_B;
  match per_funct3_handlers (funct3 dec) with
  | Some f => f dec blob instruction h
  | None => not_reach
  end.

End code.

(** ** The templates implement RV32I *)
Section proofs.
Context {W : Type} `{HC : HostCalls W} (H : Z) (HH : hart_addr H).

Definition branch_template (o : branch) : template :=
  match o with
  | BEQ => beq_instruction | BNE => bne_instruction | BLT => blt_instruction
  | BGE => bge_instruction | BLTU => bltu_instruction | BGEU => bgeu_instruction
  end.

(** Both ways through a branch template end in the same state but for the pc. *)
Ltac branch_ways c :=
  destruct c; xrun; sim_next; unfold next; autorewrite with word; reflexivity.

Lemma branch_simulates addr o rs1 rs2 off :
  valid (Branch o rs1 rs2 off) →
  simulates H addr (branch_template o) [rs1; rs2; w32 (addr + off)] (Branch o rs1 rs2 off).
Proof.
  intros (H1 & H2 & _). unfold reg_ok in *.
  destruct o; cbn [branch_template].
  - sim_start beq_instruction. subst addr. xrun. cbn [rv_exec taken].
    rewrite !rx_gpr by (done || lia). rewrite (Z.eqb_sym (gpr g rs1)).
    branch_ways (gpr g rs2 =? gpr g rs1).
  - sim_start bne_instruction. subst addr. xrun. cbn [rv_exec taken].
    rewrite !rx_gpr by (done || lia). rewrite (Z.eqb_sym (gpr g rs1)).
    branch_ways (gpr g rs2 =? gpr g rs1).
  - sim_start blt_instruction. subst addr. xrun. cbn [rv_exec taken].
    rewrite !rx_gpr by (done || lia). branch_ways (sint 32 (gpr g rs1) <? sint 32 (gpr g rs2)).
  - sim_start bge_instruction. subst addr. xrun. cbn [rv_exec taken].
    rewrite !rx_gpr by (done || lia). rewrite Z.leb_antisym.
    branch_ways (sint 32 (gpr g rs1) <? sint 32 (gpr g rs2)).
  - sim_start bltu_instruction. subst addr. xrun. cbn [rv_exec taken].
    rewrite !rx_gpr by (done || lia). branch_ways (gpr g rs1 <? gpr g rs2).
  - sim_start bgeu_instruction. subst addr. xrun. cbn [rv_exec taken].
    rewrite !rx_gpr by (done || lia). rewrite Z.leb_antisym.
    branch_ways (gpr g rs1 <? gpr g rs2).
Qed.

Context (TRANSLATION_SIZE : string → Z) (jumper_size : Z).

Lemma branch_translates o rs1 rs2 off :
  valid (Branch o rs1 rs2 off) →
  translates H TRANSLATION_SIZE jumper_size (Branch o rs1 rs2 off)
    (riscv_branch_instructions_translation_entry TRANSLATION_SIZE jumper_size).
Proof.
  intros Hv addr _. exists (branch_template o), [rs1; rs2; w32 (addr + off)].
  split; [by destruct o|]. split; [by apply branch_simulates|].
  intros blob h <-. destruct Hv as (? & ? & Ho & Hev). unfold reg_ok in *. cbn [encode].
  unfold riscv_branch_instructions_translation_entry.
  rewrite decode_B by (destruct o; simpl; lia).
  rewrite <- w32_add_r, <- (offset_sext off 12) by (done || lia). by destruct o.
Qed.

End proofs.
End TransBranch.
