(* ===== verification/TransMulDiv.v ===== *)
(** * Multiplication and division: translate_multiplication_and_division.c

    The eight RV32M templates.  The products agree with the manual for all
    operands.  The divisions agree wherever the host instruction does not
    fault ([host_divides]); the remaining cases are theorems too: [rem] and
    [remu] by zero, and the overflow of [div] and [rem], end the emulator with
    a divide error of the host. *)
From S2P Require Import Prelude Decode X86 Rv32 Hart Sim.
Import Decode X86 Rv32 Hart Sim.

Module TransMulDiv.

(** ** Templates *)
Definition mul_instruction : template := mk_template "mul_instruction" (
  BEGIN_TRANSLATION ++
  [movl (Param 0) (Reg RSI); shl (Imm 0x2) (Reg RSI); addq R15 RSI; movl (Mem RSI) (Reg RDX);
   movl (Param 1) (Reg RSI); shl (Imm 0x2) (Reg RSI); addq R15 RSI; movl (Mem RSI) (Reg RAX);
   imul RDX; movl (Param 2) (Reg RDI); shl (Imm 0x2) (Reg RDI); addq R15 RDI;
   movl (Reg RAX) (Mem RDI)] ++
  RESET_ZERO_REGISTER ++
  PROCEED_TO_NEXT_INSTRUCTION ++
  END_INSTRUCTION) 3.

Definition mulh_instruction : template := mk_template "mulh_instruction" (
  BEGIN_TRANSLATION ++
  [movl (Param 0) (Reg RSI); shl (Imm 0x2) (Reg RSI); addq R15 RSI; movl (Mem RSI) (Reg RDX);
   movl (Param 1) (Reg RSI); shl (Imm 0x2) (Reg RSI); addq R15 RSI; movl (Mem RSI) (Reg RAX);
   imul RDX; movl (Param 2) (Reg RDI); shl (Imm 0x2) (Reg RDI); addq R15 RDI;
   movl (Reg RDX) (Mem RDI)] ++
  RESET_ZERO_REGISTER ++
  PROCEED_TO_NEXT_INSTRUCTION ++
  END_INSTRUCTION) 3.

Definition mulhu_instruction : template := mk_template "mulhu_instruction" (
  BEGIN_TRANSLATION ++
  [movl (Param 0) (Reg RSI); shl (Imm 0x2) (Reg RSI); addq R15 RSI; movl (Mem RSI) (Reg RDX);
   movl (Param 1) (Reg RSI); shl (Imm 0x2) (Reg RSI); addq R15 RSI; movl (Mem RSI) (Reg RAX);
   mul RDX; movl (Param 2) (Reg RDI); shl (Imm 0x2) (Reg RDI); addq R15 RDI;
   movl (Reg RDX) (Mem RDI)] ++
  RESET_ZERO_REGISTER ++
  PROCEED_TO_NEXT_INSTRUCTION ++
  END_INSTRUCTION) 3.

Definition mulhsu_instruction : template := mk_template "mulhsu_instruction" (
  BEGIN_TRANSLATION ++
  [movl (Param 0) (Reg RSI); shl (Imm 0x2) (Reg RSI); addq R15 RSI; movl (Mem RSI) (Reg RAX);
   movsxd RAX RAX; movl (Param 1) (Reg RSI); shl (Imm 0x2) (Reg RSI); addq R15 RSI;
   movl (Mem RSI) (Reg RDX); imulq RDX; shrq 32 RAX; movl (Param 2) (Reg RDI);
   shl (Imm 0x2) (Reg RDI); addq R15 RDI; movl (Reg RAX) (Mem RDI)] ++
  RESET_ZERO_REGISTER ++
  PROCEED_TO_NEXT_INSTRUCTION ++
  END_INSTRUCTION) 3.

Definition div_instruction : template := mk_template "div_instruction" (
  BEGIN_TRANSLATION ++
  [movl (Param 0) (Reg RSI); shl (Imm 0x2) (Reg RSI); addq R15 RSI; movl (Mem RSI) (Reg RAX);
   movsxd RAX RDX; shrq 32 RDX; movl (Param 1) (Reg RSI); shl (Imm 0x2) (Reg RSI);
   addq R15 RSI; movl (Mem RSI) (Reg RBX); movl (Reg RBX) (Reg R8); cmpl (Imm 0x0) (Reg R8);
   jcc CNE 1; movl (Imm 0xffffffff) (Reg RAX); jmp 2; label 1; idiv RBX; label 2;
   movl (Param 2) (Reg RDI); shl (Imm 0x2) (Reg RDI); addq R15 RDI; movl (Reg RAX) (Mem RDI)] ++
  RESET_ZERO_REGISTER ++
  PROCEED_TO_NEXT_INSTRUCTION ++
  END_INSTRUCTION) 3.

Definition rem_instruction : template := mk_template "rem_instruction" (
  BEGIN_TRANSLATION ++
  [movl (Param 0) (Reg RSI); shl (Imm 0x2) (Reg RSI); addq R15 RSI; movl (Mem RSI) (Reg RAX);
   movsxd RAX RDX; shrq 32 RDX; movl (Param 1) (Reg RSI); shl (Imm 0x2) (Reg RSI);
   addq R15 RSI; movl (Mem RSI) (Reg RBX); idiv RBX; movl (Param 2) (Reg RDI);
   shl (Imm 0x2) (Reg RDI); addq R15 RDI; movl (Reg RDX) (Mem RDI)] ++
  RESET_ZERO_REGISTER ++
  PROCEED_TO_NEXT_INSTRUCTION ++
  END_INSTRUCTION) 3.

Definition divu_instruction : template := mk_template "divu_instruction" (
  BEGIN_TRANSLATION ++
  [movl (Param 0) (Reg RSI); shl (Imm 0x2) (Reg RSI); addq R15 RSI; movl (Mem RSI) (Reg RAX);
   xorl (Reg RDX) (Reg RDX); movl (Param 1) (Reg RSI); shl (Imm 0x2) (Reg RSI); addq R15 RSI;
   movl (Mem RSI) (Reg RBX); movl (Reg RBX) (Reg R8); cmpl (Imm 0x0) (Reg R8); jcc CNE 1;
   movl (Imm 0xffffffff) (Reg RAX); jmp 2; label 1; div RBX; label 2; movl (Param 2) (Reg RDI);
   shl (Imm 0x2) (Reg RDI); addq R15 RDI; movl (Reg RAX) (Mem RDI)] ++
  RESET_ZERO_REGISTER ++
  PROCEED_TO_NEXT_INSTRUCTION ++
  END_INSTRUCTION) 3.

Definition remu_instruction : template := mk_template "remu_instruction" (
  BEGIN_TRANSLATION ++
  [movl (Param 0) (Reg RSI); shl (Imm 0x2) (Reg RSI); addq R15 RSI; movl (Mem RSI) (Reg RAX);
   xorl (Reg RDX) (Reg RDX); movl (Param 1) (Reg RSI); shl (Imm 0x2) (Reg RSI); addq R15 RSI;
   movl (Mem RSI) (Reg RBX); div RBX; movl (Param 2) (Reg RDI); shl (Imm 0x2) (Reg RDI);
   addq R15 RDI; movl (Reg RDX) (Mem RDI)] ++
  RESET_ZERO_REGISTER ++
  PROCEED_TO_NEXT_INSTRUCTION ++
  END_INSTRUCTION) 3.

(** ** Translators *)
Section code.
Context (TRANSLATION_SIZE : string → Z) (jumper_size : Z).
Notation PRECHECK := (PRECHECK_TRANSLATION_CACHE TRANSLATION_SIZE jumper_size).
Notation COMMIT := (COMMIT_TRANSLATION TRANSLATION_SIZE jumper_size).

Definition riscv_mul_translator (dec : decoding) (blob : prefetch_blob) (instruction : Z) (h : hart)
    : outcome (prefetch_blob * hart) :=
  let instruction_linear_address := next_instruction_to_fetch blob in
  PRECHECK mul_instruction blob h (λ blob h,
    h ← COMMIT mul_instruction [rs1_index dec; rs2_index dec; rd_index dec] h
          instruction_linear_address;
    Ok (fetch_next blob, h)).

Definition riscv_mulh_translator (dec : decoding) (blob : prefetch_blob) (instruction : Z) (h : hart)
    : outcome (prefetch_blob * hart) :=
  let instruction_linear_address := next_instruction_to_fetch blob in
  PRECHECK mulh_instruction blob h (λ blob h,
    h ← COMMIT mulh_instruction [rs1_index dec; rs2_index dec; rd_index dec] h
          instruction_linear_address;
    Ok (fetch_next blob, h)).

Definition riscv_mulhu_translator (dec : decoding) (blob : prefetch_blob) (instruction : Z) (h : hart)
    : outcome (prefetch_blob * hart) :=
  let instruction_linear_address := next_instruction_to_fetch blob in
  PRECHECK mulhu_instruction blob h (λ blob h,
    h ← COMMIT mulhu_instruction [rs1_index dec; rs2_index dec; rd_index dec] h
          instruction_linear_address;
    Ok (fetch_next blob, h)).

Definition riscv_mulhsu_translator (dec : decoding) (blob : prefetch_blob) (instruction : Z) (h : hart)
    : outcome (prefetch_blob * hart) :=
  let instruction_linear_address := next_instruction_to_fetch blob in
  PRECHECK mulhsu_instruction blob h (λ blob h,
    h ← COMMIT mulhsu_instruction [rs1_index dec; rs2_index dec; rd_index dec] h
          instruction_linear_address;
    Ok (fetch_next blob, h)).

Definition riscv_div_translator (dec : decoding) (blob : prefetch_blob) (instruction : Z) (h : hart)
    : outcome (prefetch_blob * hart) :=
  let instruction_linear_address := next_instruction_to_fetch blob in
  PRECHECK div_instruction blob h (λ blob h,
    h ← COMMIT div_instruction [rs1_index dec; rs2_index dec; rd_index dec] h
          instruction_linear_address;
    Ok (fetch_next blob, h)).

Definition riscv_rem_translator (dec : decoding) (blob : prefetch_blob) (instruction : Z) (h : hart)
    : outcome (prefetch_blob * hart) :=
  let instruction_linear_address := next_instruction_to_fetch blob in
  PRECHECK rem_instruction blob h (λ blob h,
    h ← COMMIT rem_instruction [rs1_index dec; rs2_index dec; rd_index dec] h
          instruction_linear_address;
    Ok (fetch_next blob, h)).

Definition riscv_divu_translator (dec : decoding) (blob : prefetch_blob) (instruction : Z) (h : hart)
    : outcome (prefetch_blob * hart) :=
  let instruction_linear_address := next_instruction_to_fetch blob in
  PRECHECK divu_instruction blob h (λ blob h,
    h ← COMMIT divu_instruction [rs1_index dec; rs2_index dec; rd_index dec] h
          instruction_linear_address;
    Ok (fetch_next blob, h)).

Definition riscv_remu_translator (dec : decoding) (blob : prefetch_blob) (instruction : Z) (h : hart)
    : outcome (prefetch_blob * hart) :=
  let instruction_linear_address := next_instruction_to_fetch blob in
  PRECHECK remu_instruction blob h (λ blob h,
    h ← COMMIT remu_instruction [rs1_index dec; rs2_index dec; rd_index dec] h
          instruction_linear_address;
    Ok (fetch_next blob, h)).

(** [per_funct3_handlers] as [mul_and_div_constructor] fills it. *)
Definition per_funct3_handlers (funct3 : Z)
    : option (decoding → prefetch_blob → Z → hart → outcome (prefetch_blob * hart)) :=
  match funct3 with
  | 0x0 => Some riscv_mul_translator
  | 0x1 => Some riscv_mulh_translator
  | 0x3 => Some riscv_mulhu_translator
  | 0x2 => Some riscv_mulhsu_translator
  | 0x4 => Some riscv_div_translator
  | 0x5 => Some riscv_divu_translator
  | 0x6 => Some riscv_rem_translator
  | 0x7 => Some riscv_remu_translator
  | _ => None
  end.

Definition riscv_mul_div_instructions_translation_entry (dec : decoding)
    (blob : prefetch_blob) (instruction : Z) (h : hart) : outcome (prefetch_blob * hart) :=
  match per_funct3_handlers (funct3 dec) with
  | Some f => f dec blob instruction h
  | None => not_reach
  end.

End code.

(** ** Arithmetic of the templates *)

Lemma w32_mul_sint a b : w32 (sint 32 a * sint 32 b) = w32 (a * b).
Proof.
  unfold w32. rewrite Z.mul_mod, !sint_mod, <- Z.mul_mod by lia. done.
Qed.

(** [movsxd %eax, %rdx; shr $32, %rdx]: %edx:%eax is the sign extension. *)
Lemma sext_pair a :
  word32 a → sint 64 (w32 (Z.shiftr (w64 (w64 (sint 32 a))) 32) * 2 ^ 32 + a) = sint 32 a.
Proof.
  intros Ha. pose proof (sint_range 32 a ltac:(lia)) as Hr. simpl in Hr.
  assert (He : sint 32 a = a ∨ sint 32 a = a - 2 ^ 32).
  { unfold sint. rewrite Z.mod_small by done. destruct (a <? 2 ^ (32 - 1)); auto. }
  apply sint_unique; [lia|simpl; lia|].
  rewrite Z.shiftr_div_pow2 by lia. unfold word32, w64, w32 in *. lia_div.
Qed.

Lemma sint32_zero b : word32 b → (sint 32 b =? 0) = (b =? 0).
Proof.
  intros Hb. unfold sint. rewrite Z.mod_small by done. unfold word32 in Hb. simpl. zbool; lia.
Qed.

(** The quotient of two 32-bit integers fits but for [- 2 ^ 31 / - 1]. *)
Lemma quot_fits a d :
  - 2 ^ 31 <= a < 2 ^ 31 → d ≠ 0 → ¬ (a = - 2 ^ 31 ∧ d = - 1) →
  - 2 ^ 31 <= Z.quot a d < 2 ^ 31.
Proof.
  intros Ha Hd Hn. destruct (Z.eq_dec d 1) as [->|]; [by rewrite Z.quot_1_r|].
  destruct (Z.eq_dec d (- 1)) as [->|]; [change (-1) with (- (1)); rewrite Z.quot_opp_r, Z.quot_1_r; lia|].
  assert (Hq : Z.abs (Z.quot a d) = Z.abs a / Z.abs d).
  { rewrite <- Z.quot_abs by done. apply Z.quot_div_nonneg; lia. }
  assert (Z.abs a / Z.abs d <= Z.abs a / 2) by (apply Z.div_le_compat_l; lia).
  assert (Z.abs a / 2 <= 2 ^ 31 / 2) by (apply Z.div_le_mono; lia).
  change (2 ^ 31 / 2) with (2 ^ 30) in *. lia.
Qed.

(** The fault condition of [idiv] on the sign extension of [a]. *)
Notation idiv_faults n d :=
  ((d =? 0) || (Z.quot n d <? - 2 ^ 31) || (2 ^ 31 <=? Z.quot n d)).

Lemma idiv_no_fault a b :
  word32 b → b ≠ 0 → ¬ (sint 32 a = - 2 ^ 31 ∧ sint 32 b = - 1) →
  idiv_faults (sint 32 a) (sint 32 b) = false.
Proof.
  intros Hb Hb0 Hn. pose proof (sint32_zero b Hb) as Hz.
  destruct (Z.eqb_spec b 0); [done|]. apply Z.eqb_neq in Hz.
  pose proof (quot_fits (sint 32 a) (sint 32 b) (sint_range 32 a ltac:(lia)) Hz Hn).
  zbool; simpl; lia.
Qed.

Lemma idiv_fault a b :
  word32 b → b = 0 ∨ (sint 32 a = - 2 ^ 31 ∧ sint 32 b = - 1) →
  idiv_faults (sint 32 a) (sint 32 b) = true.
Proof. intros Hb [->|[-> ->]]; reflexivity. Qed.

(** The fault condition of [div] with %edx cleared. *)
Lemma edx_cleared x a : w32 (Z.lxor x x) * 2 ^ 32 + a = a.
Proof. by rewrite Z.lxor_nilpotent. Qed.

Lemma div_no_fault a b :
  word32 a → word32 b → b ≠ 0 → (2 ^ 32 <=? a / b) = false.
Proof.
  intros Ha Hb Hb0. destruct (div_word a b Ha Hb Hb0) as [[_ ?] _]. zbool; [lia|done].
Qed.

Section proofs.
Context {W : Type} `{HC : HostCalls W} (H : Z) (HH : hart_addr H).

Definition muldiv_template (o : muldiv) : template :=
  match o with
  | MUL => mul_instruction | MULH => mulh_instruction | MULHSU => mulhsu_instruction
  | MULHU => mulhu_instruction | DIV => div_instruction | DIVU => divu_instruction
  | REM => rem_instruction | REMU => remu_instruction
  end.

(** The high half of the 64-bit product in %rax. *)
Lemma mulhsu_value a b :
  word32 b →
  w32 (Z.shiftr (w64 (w64 (sint 64 (w64 (sint 32 a)) * sint 64 b))) 32) =
  w32 (sint 32 a * b / 2 ^ 32).
Proof.
  intros Hb. pose proof (sint_range 32 a ltac:(lia)) as Ha.
  assert (sint 64 (w64 (sint 32 a)) = sint 32 a) as ->.
  { apply sint_unique; [lia|simpl in *; lia|]. unfold w64. by rewrite Z.mod_mod by lia. }
  assert (sint 64 b = b) as ->.
  { unfold word32 in Hb. apply sint_unique; [lia|simpl; lia|done]. }
  rewrite Z.shiftr_div_pow2 by lia. generalize (sint 32 a * b). intros p.
  unfold w64, w32. rewrite Z.mod_mod by lia. lia_div.
Qed.

Lemma mul_simulates addr o rd rs1 rs2 :
  o ∈ [MUL; MULH; MULHSU; MULHU] → valid (MulDiv o rd rs1 rs2) →
  simulates H addr (muldiv_template o) [rs1; rs2; rd] (MulDiv o rd rs1 rs2).
Proof.
  intros Ho (Hrd & H1 & H2). unfold reg_ok in *. rewrite !elem_of_cons, elem_of_nil in Ho.
  destruct Ho as [->|[->|[->|[->|[]]]]]; cbn [muldiv_template].
  - sim_start mul_instruction. xrun. sim_rd. cbn [muldiv_val]. rewrite w32_mul_sint.
    by rewrite Z.mul_comm.
  - sim_start mulh_instruction. xrun. sim_rd. cbn [muldiv_val]. by rewrite Z.mul_comm.
  - sim_start mulhsu_instruction. xrun. sim_rd. apply mulhsu_value. auto with hyrule.
  - sim_start mulhu_instruction. xrun. sim_rd. cbn [muldiv_val]. by rewrite Z.mul_comm.
Qed.

(** The operands of a division, as the template has them in registers. *)
Ltac div_operands g rs1 rs2 Hd :=
  pose proof (gpr_word g rs1 ltac:(assumption)) as Ha;
  pose proof (gpr_word g rs2 ltac:(assumption)) as Hb;
  cbn [host_divides] in Hd; rewrite ?rx_gpr in Hd by (done || lia).

Lemma div_simulates addr rd rs1 rs2 :
  valid (MulDiv DIV rd rs1 rs2) →
  simulates H addr div_instruction [rs1; rs2; rd] (MulDiv DIV rd rs1 rs2).
Proof.
  intros (Hrd & H1 & H2). unfold reg_ok in *. sim_start div_instruction.
  div_operands g rs1 rs2 Hd. xrun. change (w32 0) with 0.
  destruct (Z.eqb_spec (gpr g rs2) 0) as [Hz|Hz]; cbn [negb].
  - xrun. sim_rd. cbn [muldiv_val]. by rewrite Hz.
  - xrun. rewrite sext_pair, idiv_no_fault by done. xrun. sim_rd. cbn [muldiv_val].
    destruct (Z.eqb_spec (gpr g rs2) 0); [done|].
    destruct (Z.eqb_spec (sint 32 (gpr g rs1)) (- 2 ^ 31)), (Z.eqb_spec (sint 32 (gpr g rs2)) (- 1));
      try done; naive_solver.
Qed.

Lemma rem_simulates addr rd rs1 rs2 :
  valid (MulDiv REM rd rs1 rs2) →
  simulates H addr rem_instruction [rs1; rs2; rd] (MulDiv REM rd rs1 rs2).
Proof.
  intros (Hrd & H1 & H2). unfold reg_ok in *. sim_start rem_instruction.
  div_operands g rs1 rs2 Hd. destruct Hd as [Hz Hn]. xrun.
  rewrite sext_pair, idiv_no_fault by done. xrun. sim_rd. cbn [muldiv_val].
  destruct (Z.eqb_spec (gpr g rs2) 0); [done|].
  destruct (Z.eqb_spec (sint 32 (gpr g rs1)) (- 2 ^ 31)), (Z.eqb_spec (sint 32 (gpr g rs2)) (- 1));
    try done; naive_solver.
Qed.

Lemma divu_simulates addr rd rs1 rs2 :
  valid (MulDiv DIVU rd rs1 rs2) →
  simulates H addr divu_instruction [rs1; rs2; rd] (MulDiv DIVU rd rs1 rs2).
Proof.
  intros (Hrd & H1 & H2). unfold reg_ok in *. sim_start divu_instruction.
  div_operands g rs1 rs2 Hd. xrun. change (w32 0) with 0.
  destruct (Z.eqb_spec (gpr g rs2) 0) as [Hz|Hz]; cbn [negb].
  - xrun. sim_rd. cbn [muldiv_val]. by rewrite Hz.
  - xrun. rewrite edx_cleared, div_no_fault by done. cbn [orb]. xrun. sim_rd. cbn [muldiv_val].
    destruct (Z.eqb_spec (gpr g rs2) 0); [done|]. apply w32_small. by apply div_word.
Qed.

Lemma remu_simulates addr rd rs1 rs2 :
  valid (MulDiv REMU rd rs1 rs2) →
  simulates H addr remu_instruction [rs1; rs2; rd] (MulDiv REMU rd rs1 rs2).
Proof.
  intros (Hrd & H1 & H2). unfold reg_ok in *. sim_start remu_instruction.
  div_operands g rs1 rs2 Hd. xrun. apply Z.eqb_neq in Hd as Hz.
  rewrite edx_cleared, div_no_fault, Hz by done. cbn [orb].
  xrun. sim_rd. cbn [muldiv_val]. destruct (Z.eqb_spec (gpr g rs2) 0); [done|].
  apply w32_small. by apply div_word.
Qed.

Lemma muldiv_simulates addr o rd rs1 rs2 :
  valid (MulDiv o rd rs1 rs2) →
  simulates H addr (muldiv_template o) [rs1; rs2; rd] (MulDiv o rd rs1 rs2).
Proof.
  intros Hv. destruct o;
    [apply mul_simulates; [set_solver|done]..|by apply div_simulates|by apply divu_simulates
    |by apply rem_simulates|by apply remu_simulates].
Qed.

(** Where [host_divides] does not hold the host faults. *)
Lemma division_stops o rd rs1 rs2 (s : xstate W) :
  valid (MulDiv o rd rs1 rs2) → entry H s → wf_guest (hart_guest s) → x0_zero (hart_guest s) →
  no_breakpoint (hart_guest s) (host s) →
  ¬ host_divides (MulDiv o rd rs1 rs2) (hart_guest s) →
  exec H (code (muldiv_template o)) [rs1; rs2; rd] None s = XErr EFault.
Proof.
  intros (Hrd & H1 & H2) He Hwf Hx0 [v Hv] Hd. unfold reg_ok in *.
  assert (o = DIV ∨ o = REM ∨ o = REMU) as Ho by (destruct o; auto; by destruct Hd).
  destruct s as [q fl st g w]. cbn [hart_guest host] in *.
  pose proof (gpr_word g rs1 Hwf) as Ha. pose proof (gpr_word g rs2 Hwf) as Hb.
  cbn [host_divides] in Hd. rewrite !rx_gpr in Hd by (done || lia).
  destruct Ho as [-> | [-> | ->]]; cbn [muldiv_template];
    [unfold div_instruction|unfold rem_instruction|unfold remu_instruction]; unfold code;
    rewrite (exec_BEGIN _ _ _ _ v He Hv); unfold body_state; cbn [hart_guest host stack rf]; xrun.
  - apply dec_stable in Hd. change (w32 0) with 0. rewrite (proj2 (Z.eqb_neq _ _)).
    2: { intros Hz. rewrite Hz in Hd. by destruct Hd. }
    cbn [negb]. xrun. by rewrite sext_pair, idiv_fault by auto.
  - rewrite sext_pair, idiv_fault; [done|done| |done].
    destruct (decide (gpr g rs2 = 0)); [by left|right]. apply dec_stable. naive_solver.
  - apply dec_stable in Hd. by rewrite Hd.
Qed.

Lemma host_divides_not o rd rs1 rs2 g :
  ¬ host_divides (MulDiv o rd rs1 rs2) g ↔
  (o = REM ∨ o = REMU) ∧ rx g rs2 = 0 ∨
  (o = DIV ∨ o = REM) ∧ sint 32 (rx g rs1) = - 2 ^ 31 ∧ sint 32 (rx g rs2) = - 1.
Proof.
  cbn [host_divides]. destruct (decide (rx g rs2 = 0)), (decide (sint 32 (rx g rs1) = - 2 ^ 31 ∧ sint 32 (rx g rs2) = - 1));
    destruct o; naive_solver.
Qed.

(** C6: the templates of the eight multiplications and divisions, run where no
    breakpoint is, raise a divide error of the host exactly in two cases: [rem]
    and [remu] by zero, and [div] and [rem] of [- 2 ^ 31] by [- 1]; in all other
    cases they have the result of the manual, which defines it in these two as
    well. *)
Theorem division_faults o rd rs1 rs2 (s : xstate W) :
  valid (MulDiv o rd rs1 rs2) → entry H s → wf_guest (hart_guest s) → x0_zero (hart_guest s) →
  hc_good (host s) → no_breakpoint (hart_guest s) (host s) →
  let g := hart_guest s in
  let x := exec H (code (muldiv_template o)) [rs1; rs2; rd] None s in
  let faults := (o = REM ∨ o = REMU) ∧ rx g rs2 = 0 ∨
    (o = DIV ∨ o = REM) ∧ sint 32 (rx g rs1) = - 2 ^ 31 ∧ sint 32 (rx g rs2) = - 1 in
  (x = XErr EFault ↔ faults) ∧
  (¬ faults → ∃ s', x = XNext s' ∧ entry H s' ∧ host s' = host s ∧
     hart_guest s' = next (wx g rd (muldiv_val o (rx g rs1) (rx g rs2)))).
Proof.
  intros Hv He Hwf Hz Hg Hb g x faults. subst faults. rewrite <- (host_divides_not o rd).
  assert (host_divides (MulDiv o rd rs1 rs2) g →
    ∃ s', x = XNext s' ∧ entry H s' ∧ host s' = host s ∧ hart_guest s' = next (wx g rd (muldiv_val o (rx g rs1) (rx g rs2)))) as Hok.
  { intros Hd. destruct (muldiv_simulates (pc g) o rd rs1 rs2 Hv s He Hwf Hz eq_refl Hg Hb Hd) as (s' & Hx & He' & Hs' & Hw & _).
    exists s'. done. }
  split.
  - split; [|by apply division_stops]. intros Hx Hd. destruct (Hok Hd) as (s' & Hx' & _). congruence.
  - intros Hn. apply Hok. by apply dec_stable.
Qed.

Context (TRANSLATION_SIZE : string → Z) (jumper_size : Z).

Lemma muldiv_dispatch o rd rs1 rs2 blob w h :
  riscv_mul_div_instructions_translation_entry TRANSLATION_SIZE jumper_size
    (mk_decoding ENCODING_TYPE_R 0x33 (muldiv_funct3 o) rd rs1 rs2 1 0) blob w h =
  translator TRANSLATION_SIZE jumper_size (muldiv_template o) [rs1; rs2; rd] fetch_next blob h.
Proof. by destruct o. Qed.

End proofs.

(** [remu] by zero faults; [mul] of the same registers does not. *)
Lemma division_faults_witness :
  exec 64 (code (muldiv_template REMU)) [6; 5; 7] None (demo_state (demo_guest 0x1000)) = XErr EFault ∧
  ∃ s', exec 64 (code (muldiv_template MUL)) [6; 5; 7] None (demo_state (demo_guest 0x1000)) = XNext s'.
Proof.
  assert (∀ o, valid (MulDiv o 7 6 5)) as Hv by (intros o; unfold valid, reg_ok; lia).
  split.
  - apply (division_faults 64 demo_addr REMU 7 6 5 (demo_state (demo_guest 0x1000)));
      [done|done|by apply demo_wf|done|done|by exists 0|]. left. split; [by right|done].
  - destruct (division_faults 64 demo_addr MUL 7 6 5 (demo_state (demo_guest 0x1000))) as [_ (s' & Hx & _)];
      [done|done|by apply demo_wf|done|done|by exists 0|naive_solver|]. by exists s'.
Defined.

End TransMulDiv.
