(* ===== verification/TransLoad.v ===== *)
(** * Loads: translate_memory_load.c

    A load computes the effective address, calls [mmu_read8], [mmu_read16] or
    [mmu_read32] with the context registers saved, and extends the result into
    [rd].  The upper part of %rax is whatever the callee left there. *)
From S2P Require Import Prelude Decode X86 Rv32 Hart Sim.
Import Decode X86 Rv32 Hart Sim.

Module TransLoad.

(** ** Templates *)
Definition lb_instruction : template := mk_template "lb_instruction" (
  BEGIN_TRANSLATION ++
  [movl (Param 1) (Reg RDX); shl (Imm 2) (Reg RDX); addq R15 RDX; movl (Mem RDX) (Reg RSI);
   movl (Param 0) (Reg RDX); addl (Reg RDX) (Reg RSI); movq (Reg R12) RDI;
   movabs sym_mmu_read8 RAX] ++
  SAVE_GUEST_CONTEXT_SWITCH_REGS ++
  [callq RAX] ++
  RESTORE_GUEST_CONTEXT_SWITCH_REGS ++
  [movl (Param 2) (Reg RDX); shl (Imm 2) (Reg RDX); addq R15 RDX; movsbl RAX RAX;
   movl (Reg RAX) (Mem RDX)] ++
  RESET_ZERO_REGISTER ++
  PROCEED_TO_NEXT_INSTRUCTION ++
  END_INSTRUCTION) 3.

Definition lbu_instruction : template := mk_template "lbu_instruction" (
  BEGIN_TRANSLATION ++
  [movl (Param 1) (Reg RDX); shl (Imm 2) (Reg RDX); addq R15 RDX; movl (Mem RDX) (Reg RSI);
   movl (Param 0) (Reg RDX); addl (Reg RDX) (Reg RSI); movq (Reg R12) RDI;
   movabs sym_mmu_read8 RAX] ++
  SAVE_GUEST_CONTEXT_SWITCH_REGS ++
  [callq RAX] ++
  RESTORE_GUEST_CONTEXT_SWITCH_REGS ++
  [movl (Param 2) (Reg RDX); shl (Imm 2) (Reg RDX); addq R15 RDX; movzbl RAX RAX;
   movl (Reg RAX) (Mem RDX)] ++
  RESET_ZERO_REGISTER ++
  PROCEED_TO_NEXT_INSTRUCTION ++
  END_INSTRUCTION) 3.

Definition lh_instruction : template := mk_template "lh_instruction" (
  BEGIN_TRANSLATION ++
  [movl (Param 1) (Reg RDX); shl (Imm 2) (Reg RDX); addq R15 RDX; movl (Mem RDX) (Reg RSI);
   movl (Param 0) (Reg RDX); addl (Reg RDX) (Reg RSI); movq (Reg R12) RDI;
   movabs sym_mmu_read16 RAX] ++
  SAVE_GUEST_CONTEXT_SWITCH_REGS ++
  [callq RAX] ++
  RESTORE_GUEST_CONTEXT_SWITCH_REGS ++
  [movl (Param 2) (Reg RDX); shl (Imm 2) (Reg RDX); addq R15 RDX; movswl RAX RAX;
   movl (Reg RAX) (Mem RDX)] ++
  RESET_ZERO_REGISTER ++
  PROCEED_TO_NEXT_INSTRUCTION ++
  END_INSTRUCTION) 3.

Definition lhu_instruction : template := mk_template "lhu_instruction" (
  BEGIN_TRANSLATION ++
  [movl (Param 1) (Reg RDX); shl (Imm 2) (Reg RDX); addq R15 RDX; movl (Mem RDX) (Reg RSI);
   movl (Param 0) (Reg RDX); addl (Reg RDX) (Reg RSI); movq (Reg R12) RDI;
   movabs sym_mmu_read16 RAX] ++
  SAVE_GUEST_CONTEXT_SWITCH_REGS ++
  [callq RAX] ++
  RESTORE_GUEST_CONTEXT_SWITCH_REGS ++
  [movl (Param 2) (Reg RDX); shl (Imm 2) (Reg RDX); addq R15 RDX; movzwl RAX RAX;
   movl (Reg RAX) (Mem RDX)] ++
  RESET_ZERO_REGISTER ++
  PROCEED_TO_NEXT_INSTRUCTION ++
  END_INSTRUCTION) 3.

Definition lw_instruction : template := mk_template "lw_instruction" (
  BEGIN_TRANSLATION ++
  [movl (Param 1) (Reg RDX); shl (Imm 2) (Reg RDX); addq R15 RDX; movl (Mem RDX) (Reg RSI);
   movl (Param 0) (Reg RDX); addl (Reg RDX) (Reg RSI); movq (Reg R12) RDI;
   movabs sym_mmu_read32 RAX] ++
  SAVE_GUEST_CONTEXT_SWITCH_REGS ++
  [callq RAX] ++
  RESTORE_GUEST_CONTEXT_SWITCH_REGS ++
  [movl (Param 2) (Reg RDX); shl (Imm 2) (Reg RDX); addq R15 RDX; movl (Reg RAX) (Mem RDX)] ++
  RESET_ZERO_REGISTER ++
  PROCEED_TO_NEXT_INSTRUCTION ++
  END_INSTRUCTION) 3.

(** ** Translators *)
Section code.
Context (TRANSLATION_SIZE : string → Z) (jumper_size : Z).
Notation PRECHECK := (PRECHECK_TRANSLATION_CACHE TRANSLATION_SIZE jumper_size).
Notation COMMIT := (COMMIT_TRANSLATION TRANSLATION_SIZE jumper_size).

Definition riscv_lb_translator (dec : decoding) (blob : prefetch_blob) (instruction : Z) (h : hart)
    : outcome (prefetch_blob * hart) :=
  let instruction_linear_address := next_instruction_to_fetch blob in
  let signed_offset := sign_extend32 (imm dec) 11 in
  PRECHECK lb_instruction blob h (λ blob h,
    h ← COMMIT lb_instruction [signed_offset; rs1_index dec; rd_index dec] h
          instruction_linear_address;
    Ok (fetch_next blob, h)).

Definition riscv_lbu_translator (dec : decoding) (blob : prefetch_blob) (instruction : Z) (h : hart)
    : outcome (prefetch_blob * hart) :=
  let instruction_linear_address := next_instruction_to_fetch blob in
  let signed_offset := sign_extend32 (imm dec) 11 in
  PRECHECK lbu_instruction blob h (λ blob h,
    h ← COMMIT lbu_instruction [signed_offset; rs1_index dec; rd_index dec] h
          instruction_linear_address;
    Ok (fetch_next blob, h)).

Definition riscv_lh_translator (dec : decoding) (blob : prefetch_blob) (instruction : Z) (h : hart)
    : outcome (prefetch_blob * hart) :=
  let instruction_linear_address := next_instruction_to_fetch blob in
  let signed_offset := sign_extend32 (imm dec) 11 in
  PRECHECK lh_instruction blob h (λ blob h,
    h ← COMMIT lh_instruction [signed_offset; rs1_index dec; rd_index dec] h
          instruction_linear_address;
    Ok (fetch_next blob, h)).

Definition riscv_lhu_translator (dec : decoding) (blob : prefetch_blob) (instruction : Z) (h : hart)
    : outcome (prefetch_blob * hart) :=
  let instruction_linear_address := next_instruction_to_fetch blob in
  let signed_offset := sign_extend32 (imm dec) 11 in
  PRECHECK lhu_instruction blob h (λ blob h,
    h ← COMMIT lhu_instruction [signed_offset; rs1_index dec; rd_index dec] h
          instruction_linear_address;
    Ok (fetch_next blob, h)).

Definition riscv_lw_translator (dec : decoding) (blob : prefetch_blob) (instruction : Z) (h : hart)
    : outcome (prefetch_blob * hart) :=
  let instruction_linear_address := next_instruction_to_fetch blob in
  let signed_offset := sign_extend32 (imm dec) 11 in
  PRECHECK lw_instruction blob h (λ blob h,
    h ← COMMIT lw_instruction [signed_offset; rs1_index dec; rd_index dec] h
          instruction_linear_address;
    Ok (fetch_next blob, h)).

(** [per_funct3_handlers] as [memory_load_constructor] fills it. *)
Definition per_funct3_handlers (funct3 : Z)
    : option (decoding → prefetch_blob → Z → hart → outcome (prefetch_blob * hart)) :=
  match funct3 with
  | 2 => Some riscv_lw_translator
  | 1 => Some riscv_lh_translator
  | 5 => Some riscv_lhu_translator
  | 0 => Some riscv_lb_translator
  | 4 => Some riscv_lbu_translator
  | _ => None
  end.

Definition riscv_memory_load_instructions_translation_entry (blob : prefetch_blob)
    (instruction : Z) (h : hart) : outcome (prefetch_blob * hart) :=
  dec ← instruction_decoding_per_type instruction ENCODING_TYPE_I;
  match per_funct3_handlers (funct3 dec) with
  | Some f => f dec blob instruction h
  | None => not_reach
  end.

End code.

(** ** The templates implement RV32I *)
Section proofs.
Context {W : Type} `{HC : HostCalls W} {HCok : HostCallsOk W} (H : Z) (HH : hart_addr H).

Definition load_template (o : load) : template :=
  match o with
  | LB => lb_instruction | LH => lh_instruction | LW => lw_instruction
  | LBU => lbu_instruction | LHU => lhu_instruction
  end.

Lemma load_simulates addr o rd rs1 imm :
  valid (Load o rd rs1 imm) →
  simulates H addr (load_template o) [w32 imm; rs1; rd] (Load o rd rs1 imm).
Proof.
  intros (Hrd & H1 & Hi). unfold reg_ok, imm12_ok in *.
  destruct o; cbn [load_template].
  - sim_start lb_instruction. cbn [load_sym]. xrun.
    sim_call sym_mmu_read8 [w32 (rx g rs1 + imm)]. xrun. sim_rd. done.
  - sim_start lh_instruction. cbn [load_sym]. xrun.
    sim_call sym_mmu_read16 [w32 (rx g rs1 + imm)]. xrun. sim_rd. done.
  - sim_start lw_instruction. cbn [load_sym]. xrun.
    sim_call sym_mmu_read32 [w32 (rx g rs1 + imm)]. xrun. sim_rd. done.
  - sim_start lbu_instruction. cbn [load_sym]. xrun.
    sim_call sym_mmu_read8 [w32 (rx g rs1 + imm)]. xrun. sim_rd. apply w32_small, w8_word32.
  - sim_start lhu_instruction. cbn [load_sym]. xrun.
    sim_call sym_mmu_read16 [w32 (rx g rs1 + imm)]. xrun. sim_rd. apply w32_small, w16_word32.
Qed.

Context (TRANSLATION_SIZE : string → Z) (jumper_size : Z).

Lemma load_translates o rd rs1 imm :
  valid (Load o rd rs1 imm) →
  translates H TRANSLATION_SIZE jumper_size (Load o rd rs1 imm)
    (riscv_memory_load_instructions_translation_entry TRANSLATION_SIZE jumper_size).
Proof.
  intros Hv addr _. exists (load_template o), [w32 imm; rs1; rd].
  split; [by destruct o|]. split; [by apply load_simulates|].
  intros blob h _. destruct Hv as (? & ? & Hi). unfold reg_ok in *. cbn [encode].
  unfold riscv_memory_load_instructions_translation_entry.
  rewrite decode_I by (destruct o; simpl; lia). rewrite <- imm12_sext by done. by destruct o.
Qed.

End proofs.
End TransLoad.
