(* ===== verification/TransStore.v ===== *)
(** * Stores: translate_memory_store.c

    A store computes the effective address in %esi, the value truncated to the
    access width in %edx, and calls [mmu_write8], [mmu_write16] or
    [mmu_write32]. *)
From S2P Require Import Prelude Decode X86 Rv32 Hart Sim.
Import Decode X86 Rv32 Hart Sim.

Module TransStore.

(** ** Templates *)
Definition sb_instruction : template := mk_template "sb_instruction" (
  BEGIN_TRANSLATION ++
  [movl (Param 1) (Reg RDX); shl (Imm 2) (Reg RDX); addq R15 RDX; movl (Mem RDX) (Reg RSI);
   movl (Param 0) (Reg RDX); addl (Reg RDX) (Reg RSI); movl (Param 2) (Reg RDX);
   shl (Imm 2) (Reg RDX); addq R15 RDX; movl (Mem RDX) (Reg RDX); andl (Imm 0xff) (Reg RDX);
   movq (Reg R12) RDI; movabs sym_mmu_write8 RAX] ++
  SAVE_GUEST_CONTEXT_SWITCH_REGS ++
  [callq RAX] ++
  RESTORE_GUEST_CONTEXT_SWITCH_REGS ++
  PROCEED_TO_NEXT_INSTRUCTION ++
  END_INSTRUCTION) 3.

Definition sh_instruction : template := mk_template "sh_instruction" (
  BEGIN_TRANSLATION ++
  [movl (Param 1) (Reg RDX); shl (Imm 2) (Reg RDX); addq R15 RDX; movl (Mem RDX) (Reg RSI);
   movl (Param 0) (Reg RDX); addl (Reg RDX) (Reg RSI); movl (Param 2) (Reg RDX);
   shl (Imm 2) (Reg RDX); addq R15 RDX; movl (Mem RDX) (Reg RDX); andl (Imm 0xffff) (Reg RDX);
   movq (Reg R12) RDI; movabs sym_mmu_write16 RAX] ++
  SAVE_GUEST_CONTEXT_SWITCH_REGS ++
  [callq RAX] ++
  RESTORE_GUEST_CONTEXT_SWITCH_REGS ++
  PROCEED_TO_NEXT_INSTRUCTION ++
  END_INSTRUCTION) 3.

Definition sw_instruction : template := mk_template "sw_instruction" (
  BEGIN_TRANSLATION ++
  [movl (Param 1) (Reg RDX); shl (Imm 2) (Reg RDX); addq R15 RDX; movl (Mem RDX) (Reg RSI);
   movl (Param 0) (Reg RDX); addl (Reg RDX) (Reg RSI); movl (Param 2) (Reg RDX);
   shl (Imm 2) (Reg RDX); addq R15 RDX; movl (Mem RDX) (Reg RDX); movq (Reg R12) RDI;
   movabs sym_mmu_write32 RAX] ++
  SAVE_GUEST_CONTEXT_SWITCH_REGS ++
  [callq RAX] ++
  RESTORE_GUEST_CONTEXT_SWITCH_REGS ++
  PROCEED_TO_NEXT_INSTRUCTION ++
  END_INSTRUCTION) 3.

(** ** Translators *)
Section code.
Context (TRANSLATION_SIZE : string → Z) (jumper_size : Z).
Notation PRECHECK := (PRECHECK_TRANSLATION_CACHE TRANSLATION_SIZE jumper_size).
Notation COMMIT := (COMMIT_TRANSLATION TRANSLATION_SIZE jumper_size).

Definition riscv_sb_translator (dec : decoding) (blob : prefetch_blob) (instruction : Z) (h : hart)
    : outcome (prefetch_blob * hart) :=
  let instruction_linear_address := next_instruction_to_fetch blob in
  let signed_offset := sign_extend32 (imm dec) 11 in
  PRECHECK sb_instruction blob h (λ blob h,
    h ← COMMIT sb_instruction [signed_offset; rs1_index dec; rs2_index dec] h
          instruction_linear_address;
    Ok (fetch_next blob, h)).

Definition riscv_sh_translator (dec : decoding) (blob : prefetch_blob) (instruction : Z) (h : hart)
    : outcome (prefetch_blob * hart) :=
  let instruction_linear_address := next_instruction_to_fetch blob in
  let signed_offset := sign_extend32 (imm dec) 11 in
  PRECHECK sh_instruction blob h (λ blob h,
    h ← COMMIT sh_instruction [signed_offset; rs1_index dec; rs2_index dec] h
          instruction_linear_address;
    Ok (fetch_next blob, h)).

Definition riscv_sw_translator (dec : decoding) (blob : prefetch_blob) (instruction : Z) (h : hart)
    : outcome (prefetch_blob * hart) :=
  let instruction_linear_address := next_instruction_to_fetch blob in
  let signed_offset := sign_extend32 (imm dec) 11 in
  PRECHECK sw_instruction blob h (λ blob h,
    h ← COMMIT sw_instruction [signed_offset; rs1_index dec; rs2_index dec] h
          instruction_linear_address;
    Ok (fetch_next blob, h)).

(** [per_funct3_handlers] as [memory_store_constructor] fills it. *)
Definition per_funct3_handlers (funct3 : Z)
    : option (decoding → prefetch_blob → Z → hart → outcome (prefetch_blob * hart)) :=
  match funct3 with
  | 0 => Some riscv_sb_translator
  | 1 => Some riscv_sh_translator
  | 2 => Some riscv_sw_translator
  | _ => None
  end.

Definition riscv_memory_store_instructions_translation_entry (blob : prefetch_blob)
    (instruction : Z) (h : hart) : outcome (prefetch_blob * hart) :=
  dec ← instruction_decoding_per_type instruction ENCODING_TYPE_S;
  match per_funct3_handlers (funct3 dec) with
  | Some f => f dec blob instruction h
  | None => not_reach
  end.

End code.

(** ** The templates implement RV32I *)
Section proofs.
Context {W : Type} `{HC : HostCalls W} {HCok : HostCallsOk W} (H : Z) (HH : hart_addr H).

Definition store_template (o : store) : template :=
  match o with SB => sb_instruction | SH => sh_instruction | SW => sw_instruction end.

Lemma store_byte a : w8 (Z.land a (w32 0xff)) = w8 a.
Proof.
  change (w32 0xff) with (Z.ones 8). rewrite Z.land_ones by lia. unfold w8. by rewrite Z.mod_mod.
Qed.

Lemma store_half a : w16 (Z.land a (w32 0xffff)) = w16 a.
Proof.
  change (w32 0xffff) with (Z.ones 16). rewrite Z.land_ones by lia. unfold w16. by rewrite Z.mod_mod.
Qed.

Hint Rewrite store_byte store_half : word.

Lemma store_simulates addr o rs1 rs2 imm :
  valid (Store o rs1 rs2 imm) →
  simulates H addr (store_template o) [w32 imm; rs1; rs2] (Store o rs1 rs2 imm).
Proof.
  intros (H1 & H2 & Hi). unfold reg_ok, imm12_ok in *.
  destruct o; cbn [store_template].
  - sim_start sb_instruction. cbn [store_sym store_val]. xrun.
    sim_call sym_mmu_write8 [w32 (rx g rs1 + imm); w8 (rx g rs2)]. xrun. sim_next. done.
  - sim_start sh_instruction. cbn [store_sym store_val]. xrun.
    sim_call sym_mmu_write16 [w32 (rx g rs1 + imm); w16 (rx g rs2)]. xrun. sim_next. done.
  - sim_start sw_instruction. cbn [store_sym store_val]. xrun.
    sim_call sym_mmu_write32 [w32 (rx g rs1 + imm); rx g rs2]. xrun. sim_next. done.
Qed.

Context (TRANSLATION_SIZE : string → Z) (jumper_size : Z).

Lemma store_translates o rs1 rs2 imm :
  valid (Store o rs1 rs2 imm) →
  translates H TRANSLATION_SIZE jumper_size (Store o rs1 rs2 imm)
    (riscv_memory_store_instructions_translation_entry TRANSLATION_SIZE jumper_size).
Proof.
  intros Hv addr _. exists (store_template o), [w32 imm; rs1; rs2].
  split; [by destruct o|]. split; [by apply store_simulates|].
  intros blob h _. destruct Hv as (? & ? & Hi). unfold reg_ok in *. cbn [encode].
  unfold riscv_memory_store_instructions_translation_entry.
  rewrite decode_S by (destruct o; simpl; lia). rewrite <- imm12_sext by done. by destruct o.
Qed.

End proofs.
End TransStore.
