(* ===== verification/TransSys.v ===== *)
(** * Fences and privileged instructions: translate_fence.c and
    translate_privileged_instr.c

    [fence] is a no-op, [fence.i] flushes the translation cache and leaves, and
    each privileged instruction calls its callback with the hart.  The
    translator of SYSTEM reaches only [ecall]: the others are compiled but
    disabled, and so are the CSR instructions. *)
From S2P Require Import Prelude Decode X86 Rv32 Hart Sim.
Import Decode X86 Rv32 Hart Sim.

Module TransSys.

(** ** Templates *)
Definition fence_i_instruction : template := mk_template "fence_i_instruction" (
  BEGIN_TRANSLATION ++
  [movq (Reg R12) RDI; movabs sym_flush_translation_cache RAX] ++
  SAVE_GUEST_CONTEXT_SWITCH_REGS ++
  [callq RAX] ++
  RESTORE_GUEST_CONTEXT_SWITCH_REGS ++
  PROCEED_TO_NEXT_INSTRUCTION ++
  TRAP_TO_VMM) 1.

Definition fence_instruction : template := mk_template "fence_instruction" (
  BEGIN_TRANSLATION ++
  PROCEED_TO_NEXT_INSTRUCTION ++
  END_INSTRUCTION) 1.

Definition ebreak_instruction : template := mk_template "ebreak_instruction" (
  BEGIN_TRANSLATION ++
  [movq (Reg R12) RDI; movabs sym_ebreak_callback RAX] ++
  SAVE_GUEST_CONTEXT_SWITCH_REGS ++
  [callq RAX] ++
  RESTORE_GUEST_CONTEXT_SWITCH_REGS ++
  PROCEED_TO_NEXT_INSTRUCTION ++
  END_INSTRUCTION) 1.

Definition mret_instruction : template := mk_template "mret_instruction" (
  BEGIN_TRANSLATION ++
  [movq (Reg R12) RDI; movabs sym_mret_callback RAX] ++
  SAVE_GUEST_CONTEXT_SWITCH_REGS ++
  [callq RAX] ++
  RESTORE_GUEST_CONTEXT_SWITCH_REGS ++
  TRAP_TO_VMM) 1.

Definition sret_instruction : template := mk_template "sret_instruction" (
  BEGIN_TRANSLATION ++
  [movq (Reg R12) RDI; movabs sym_sret_callback RAX] ++
  SAVE_GUEST_CONTEXT_SWITCH_REGS ++
  [callq RAX] ++
  RESTORE_GUEST_CONTEXT_SWITCH_REGS ++
  TRAP_TO_VMM) 1.

Definition sfence_vma_instruction : template := mk_template "sfence_vma_instruction" (
  BEGIN_TRANSLATION ++
  [movq (Reg R12) RDI; movabs sym_sfence_vma_callback RAX] ++
  SAVE_GUEST_CONTEXT_SWITCH_REGS ++
  [callq RAX] ++
  RESTORE_GUEST_CONTEXT_SWITCH_REGS ++
  PROCEED_TO_NEXT_INSTRUCTION ++
  TRAP_TO_VMM) 1.

Definition ecall_instruction : template := mk_template "ecall_instruction" (
  BEGIN_TRANSLATION ++
  [movq (Reg R12) RDI; movabs sym_ecall_callback RAX] ++
  SAVE_GUEST_CONTEXT_SWITCH_REGS ++
  [callq RAX] ++
  RESTORE_GUEST_CONTEXT_SWITCH_REGS ++
  PROCEED_TO_NEXT_INSTRUCTION ++
  TRAP_TO_VMM) 1.

Definition wfi_instruction : template := mk_template "wfi_instruction" (
  BEGIN_TRANSLATION ++
  [movq (Reg R12) RDI; movabs sym_wfi_callback RAX] ++
  SAVE_GUEST_CONTEXT_SWITCH_REGS ++
  [callq RAX] ++
  RESTORE_GUEST_CONTEXT_SWITCH_REGS ++
  PROCEED_TO_NEXT_INSTRUCTION ++
  TRAP_TO_VMM) 1.

(** ** Translators *)
Section code.
Context (TRANSLATION_SIZE : string → Z) (jumper_size : Z).
Notation PRECHECK := (PRECHECK_TRANSLATION_CACHE TRANSLATION_SIZE jumper_size).
Notation COMMIT := (COMMIT_TRANSLATION TRANSLATION_SIZE jumper_size).

Definition riscv_fence_i_translator (dec : decoding) (blob : prefetch_blob) (instruction : Z) (h : hart)
    : outcome (prefetch_blob * hart) :=
  let instruction_linear_address := next_instruction_to_fetch blob in
  PRECHECK fence_i_instruction blob h (λ blob h,
    h ← COMMIT fence_i_instruction [instruction_linear_address] h
          instruction_linear_address;
    Ok (stop_fetch blob, h)).

Definition riscv_fence_translator (dec : decoding) (blob : prefetch_blob) (instruction : Z) (h : hart)
    : outcome (prefetch_blob * hart) :=
  let instruction_linear_address := next_instruction_to_fetch blob in
  PRECHECK fence_instruction blob h (λ blob h,
    h ← COMMIT fence_instruction [instruction_linear_address] h
          instruction_linear_address;
    Ok (fetch_next blob, h)).

(** [per_funct3_handlers] of translate_fence.c. *)
Definition fence_per_funct3_handlers (funct3 : Z)
    : option (decoding → prefetch_blob → Z → hart → outcome (prefetch_blob * hart)) :=
  match funct3 with
  | 0x0 => Some riscv_fence_translator
  | 0x1 => Some riscv_fence_i_translator
  | _ => None
  end.

Definition riscv_fence_instructions_translation_entry (blob : prefetch_blob)
    (instruction : Z) (h : hart) : outcome (prefetch_blob * hart) :=
  dec ← instruction_decoding_per_type instruction ENCODING_TYPE_S;
  match fence_per_funct3_handlers (funct3 dec) with
  | Some f => f dec blob instruction h
  | None => not_reach
  end.

Definition riscv_ebreak_translator (dec : decoding) (blob : prefetch_blob) (instruction : Z) (h : hart)
    : outcome (prefetch_blob * hart) :=
  let instruction_linear_address := next_instruction_to_fetch blob in
  PRECHECK ebreak_instruction blob h (λ blob h,
    h ← COMMIT ebreak_instruction [instruction_linear_address] h
          instruction_linear_address;
    Ok (fetch_next blob, h)).

Definition riscv_mret_translator (dec : decoding) (blob : prefetch_blob) (instruction : Z) (h : hart)
    : outcome (prefetch_blob * hart) :=
  let instruction_linear_address := next_instruction_to_fetch blob in
  PRECHECK mret_instruction blob h (λ blob h,
    h ← COMMIT mret_instruction [instruction_linear_address] h
          instruction_linear_address;
    Ok (stop_fetch blob, h)).

Definition riscv_sret_translator (dec : decoding) (blob : prefetch_blob) (instruction : Z) (h : hart)
    : outcome (prefetch_blob * hart) :=
  let instruction_linear_address := next_instruction_to_fetch blob in
  PRECHECK sret_instruction blob h (λ blob h,
    h ← COMMIT sret_instruction [instruction_linear_address] h
          instruction_linear_address;
    Ok (stop_fetch blob, h)).

Definition riscv_sfence_vma_translator (dec : decoding) (blob : prefetch_blob) (instruction : Z) (h : hart)
    : outcome (prefetch_blob * hart) :=
  let instruction_linear_address := next_instruction_to_fetch blob in
  PRECHECK sfence_vma_instruction blob h (λ blob h,
    h ← COMMIT sfence_vma_instruction [instruction_linear_address] h
          instruction_linear_address;
    Ok (stop_fetch blob, h)).

Definition riscv_ecall_translator (dec : decoding) (blob : prefetch_blob) (instruction : Z) (h : hart)
    : outcome (prefetch_blob * hart) :=
  let instruction_linear_address := next_instruction_to_fetch blob in
  PRECHECK ecall_instruction blob h (λ blob h,
    h ← COMMIT ecall_instruction [instruction_linear_address] h
          instruction_linear_address;
    Ok (stop_fetch blob, h)).

Definition riscv_wfi_translator (dec : decoding) (blob : prefetch_blob) (instruction : Z) (h : hart)
    : outcome (prefetch_blob * hart) :=
  ASSERT (0x8 =? Z.shiftr (imm dec) 5);;
  let instruction_linear_address := next_instruction_to_fetch blob in
  PRECHECK wfi_instruction blob h (λ blob h,
    h ← COMMIT wfi_instruction [instruction_linear_address] h
          instruction_linear_address;
    Ok (stop_fetch blob, h)).

Definition riscv_funct3_000_translator (dec : decoding) (blob : prefetch_blob) (instruction : Z)
    (h : hart) : outcome (prefetch_blob * hart) :=
  if rs2_index dec =? 0x0 then riscv_ecall_translator dec blob instruction h else not_reach.

(** [per_funct3_handlers] of translate_privileged_instr.c. *)
Definition system_per_funct3_handlers (funct3 : Z)
    : option (decoding → prefetch_blob → Z → hart → outcome (prefetch_blob * hart)) :=
  match funct3 with
  | 0x0 => Some riscv_funct3_000_translator
  | _ => None
  end.

Definition riscv_supervisor_level_instructions_translation_entry (blob : prefetch_blob)
    (instruction : Z) (h : hart) : outcome (prefetch_blob * hart) :=
  dec ← (if Z.land (Z.shiftr instruction 12) 0x7 =? 0
         then instruction_decoding_per_type instruction ENCODING_TYPE_S
         else instruction_decoding_per_type instruction ENCODING_TYPE_I);
  match system_per_funct3_handlers (funct3 dec) with
  | Some f => f dec blob instruction h
  | None => not_reach
  end.

End code.

(** ** The templates *)
Section proofs.
Context {W : Type} `{HC : HostCalls W} {HCok : HostCallsOk W} (H : Z) (HH : hart_addr H).

Lemma fence_simulates addr rs1 bits p :
  simulates H addr fence_instruction [p] (Fence rs1 bits).
Proof. sim_start fence_instruction. xrun. sim_next. done. Qed.

Lemma fence_i_simulates addr p : simulates H addr fence_i_instruction [p] FenceI.
Proof. sim_start fence_i_instruction. xrun. sim_call sym_flush_translation_cache (@nil Z). xrun. sim_next. done. Qed.

Lemma ecall_simulates addr p : simulates H addr ecall_instruction [p] Ecall.
Proof. sim_start ecall_instruction. xrun. sim_call sym_ecall_callback (@nil Z). xrun. sim_next. done. Qed.

(** The instructions translate_privileged_instr.c has templates for. *)
Inductive sysop := EBREAK | MRET | SRET | SFENCE_VMA | WFI.

Definition sys_template (o : sysop) : template :=
  match o with
  | EBREAK => ebreak_instruction | MRET => mret_instruction | SRET => sret_instruction
  | SFENCE_VMA => sfence_vma_instruction | WFI => wfi_instruction
  end.

Definition sys_callback (o : sysop) : symbol :=
  match o with
  | EBREAK => sym_ebreak_callback | MRET => sym_mret_callback | SRET => sym_sret_callback
  | SFENCE_VMA => sym_sfence_vma_callback | WFI => sym_wfi_callback
  end.

(** Every privileged template runs its callback on the hart; [mret] and [sret]
    leave the pc to it, the others step over the instruction, and all but
    [ebreak] give control back to the dispatch loop. *)
Lemma sys_template_runs o p (s : xstate W) :
  entry H s → wf_guest (hart_guest s) → x0_zero (hart_guest s) → hc_good (host s) →
  no_breakpoint (hart_guest s) (host s) →
  agrees H s (exec H (code (sys_template o)) [p] None s)
    (after_call (hc_call (sys_callback o) [] (hart_guest s) (host s)) (λ _ g w,
       match o with
       | EBREAK => RvOk false (next g) w
       | MRET | SRET => RvOk true g w
       | SFENCE_VMA | WFI => RvOk true (next g) w
       end)).
Proof.
  intros He Hwf Hx0 Hgood [v Hv]. unfold agrees.
  destruct o; cbn [sys_template sys_callback];
    [unfold ebreak_instruction, code|unfold mret_instruction, code|unfold sret_instruction, code
    |unfold sfence_vma_instruction, code|unfold wfi_instruction, code];
    rewrite (exec_BEGIN _ _ _ s v He Hv); destruct s as [q fl st g w];
    cbn [hart_guest host] in Hwf, Hx0, Hgood, Hv |- *; clear He; unfold body_state;
    cbn [hart_guest host stack rf]; xrun.
  - sim_call sym_ebreak_callback (@nil Z). xrun. sim_next. done.
  - sim_call sym_mret_callback (@nil Z). xrun. sim_next. done.
  - sim_call sym_sret_callback (@nil Z). xrun. sim_next. done.
  - sim_call sym_sfence_vma_callback (@nil Z). xrun. sim_next. done.
  - sim_call sym_wfi_callback (@nil Z). xrun. sim_next. done.
Qed.

Context (TRANSLATION_SIZE : string → Z) (jumper_size : Z).
Notation translates := (translates H TRANSLATION_SIZE jumper_size).

Lemma fence_translates rs1 bits :
  valid (Fence rs1 bits) →
  translates (Fence rs1 bits)
    (riscv_fence_instructions_translation_entry TRANSLATION_SIZE jumper_size).
Proof.
  intros Hv addr _. exists fence_instruction, [addr]. split; [done|].
  split; [apply fence_simulates|]. intros blob h <-. destruct Hv as [? ?]. unfold reg_ok in *.
  unfold riscv_fence_instructions_translation_entry, encode, instruction_decoding_per_type.
  cbn [mbind outcome_bind funct3]. rewrite I_funct3 by lia. done.
Qed.

Lemma fence_i_translates :
  translates FenceI (riscv_fence_instructions_translation_entry TRANSLATION_SIZE jumper_size).
Proof.
  intros addr _. exists fence_i_instruction, [addr]. split; [done|].
  split; [apply fence_i_simulates|]. by intros blob h <-.
Qed.

Lemma ecall_translates :
  translates Ecall
    (riscv_supervisor_level_instructions_translation_entry TRANSLATION_SIZE jumper_size).
Proof.
  intros addr _. exists ecall_instruction, [addr]. split; [done|].
  split; [apply ecall_simulates|]. by intros blob h <-.
Qed.

End proofs.
End TransSys.
