(* ===== verification/TransAmo.v ===== *)
(** * Atomic operations: translate_amo.c

    One template serves all of RV32A: it passes the register indices and
    funct5 to [amo_instruction_slowpath], which works on the hart's registers,
    the aligned accesses of mmu.c and the global table of reservations of
    lr.w/sc.w. *)
From S2P Require Import Prelude Decode X86 Rv32 Hart Sim.
Import Decode X86 Rv32 Hart Sim.

Module TransAmo.

(** ** The slow path *)

(** [mmu_read32_aligned] and [mmu_write32_aligned] of mmu.c, which may trap. *)
Class AlignedMmu (M : Type) := {
  mmu_read32_aligned : Z → guest → M → callres M;
  mmu_write32_aligned : Z → Z → guest → M → callres M
}.

Record address_reservation_item := mk_reservation {
  addr : Z;
  valid_bit : bool;
  hartid : Z
}.

Definition MAX_RESERVATION_ITEMS : Z := 16.

(** The static variables [reservations] and [next_pointer]. *)
Record amo_globals := mk_globals {
  reservations : list address_reservation_item;
  next_pointer : Z
}.

(** [amo_constructor]: [memset(reservations, 0, ...)]. *)
Definition amo_initial : amo_globals :=
  mk_globals (replicate 16 (mk_reservation 0 false 0)) 0.

Section slowpath.
Context {M : Type} `{MM : AlignedMmu M}.
Context (hart_id : Z).

Definition state : Type := amo_globals * M.

(** A call of the mmu from the slow path: the globals are not touched. *)
Definition mmu_call (f : guest → M → callres M) (g : guest) (s : state)
    (k : Z → guest → state → callres state) : callres state :=
  match f g (snd s) with
  | Returns v g m => k v g (fst s, m)
  | Traps g m => Traps g (fst s, m)
  | Dies e => Dies e
  end.

(** The common body of the read-modify-write operations: copies of [rs1] and
    [rs2] are taken before [rd] is written. *)
Definition amo_rmw (op : Z → Z → Z) (rs1_index rs2_index rd_index : Z) (g : guest) (s : state)
    : callres state :=
  let rs1 := gpr g rs1_index in
  let rs2 := gpr g rs2_index in
  mmu_call (mmu_read32_aligned rs1) g s (λ v g s,
    let g := set_gpr g rd_index (w32 v) in
    mmu_call (mmu_write32_aligned rs1 (op (gpr g rd_index) rs2)) g s Returns).

Definition amoadd_slowpath := amo_rmw (λ rd rs2, w32 (rd + rs2)).

Definition amoswap_slowpath := amo_rmw (λ rd rs2, rs2).

Definition amoxor_slowpath := amo_rmw Z.lxor.

Definition amoor_slowpath := amo_rmw Z.lor.

Definition amoand_slowpath := amo_rmw Z.land.

Definition amomaxu_slowpath := amo_rmw (λ rd rs2, if rs2 <? rd then rd else rs2).

(** The search for a free slot in [lr_slowpath]. *)
Fixpoint first_free (l : list address_reservation_item) (idx : Z) : option Z :=
  match l with
  | [] => None
  | r :: l => if valid_bit r then first_free l (idx + 1) else Some idx
  end.

Definition lr_slowpath (rs1_index rs2_index rd_index : Z) (g : guest) (s : state)
    : callres state :=
  let rs1 := gpr g rs1_index in
  mmu_call (mmu_read32_aligned rs1) g s (λ v g s,
    let g := set_gpr g rd_index (w32 v) in
    let G := fst s in
    let idx := default (next_pointer G) (first_free (reservations G) 0) in
    match zset (reservations G) idx (mk_reservation rs1 true (w8 hart_id)) with
    | Some rs => Returns 0 g (mk_globals rs ((idx + 1) mod MAX_RESERVATION_ITEMS), snd s)
    | None => Dies EUndef
    end).

(** The search for a reservation in [sc_slowpath]. *)
Fixpoint find_reservation (l : list address_reservation_item) (a idx : Z) : option Z :=
  match l with
  | [] => None
  | r :: l =>
      if valid_bit r && (addr r =? a) && (hartid r =? hart_id) then Some idx
      else find_reservation l a (idx + 1)
  end.

(** [reservations[idx].valid = 0]; the other fields stay. *)
Definition clear_reservation (l : list address_reservation_item) (idx : Z)
    : option (list address_reservation_item) :=
  match zget l idx with
  | Some r => zset l idx (mk_reservation (addr r) false (hartid r))
  | None => None
  end.

Definition sc_slowpath (rs1_index rs2_index rd_index : Z) (g : guest) (s : state)
    : callres state :=
  let rs1 := gpr g rs1_index in
  let rs2 := gpr g rs2_index in
  match find_reservation (reservations (fst s)) rs1 0 with
  | Some idx =>
      let g := set_gpr g rd_index 0x0 in
      mmu_call (mmu_write32_aligned rs1 rs2) g s (λ v g s,
        match clear_reservation (reservations (fst s)) idx with
        | Some rs => Returns v g (mk_globals rs (next_pointer (fst s)), snd s)
        | None => Dies EUndef
        end)
  | None => Returns 0 (set_gpr g rd_index 0x1) s
  end.

Definition amo_instruction_slowpath (rs1_index rs2_index rd_index funct5 : Z) (g : guest)
    (s : state) : callres state :=
  match funct5 with
  | 0x0 => amoadd_slowpath rs1_index rs2_index rd_index g s
  | 0x1 => amoswap_slowpath rs1_index rs2_index rd_index g s
  | 0x2 => lr_slowpath rs1_index rs2_index rd_index g s
  | 0x3 => sc_slowpath rs1_index rs2_index rd_index g s
  | 0x4 => amoxor_slowpath rs1_index rs2_index rd_index g s
  | 0x8 => amoor_slowpath rs1_index rs2_index rd_index g s
  | 0xc => amoand_slowpath rs1_index rs2_index rd_index g s
  | 0x1c => amomaxu_slowpath rs1_index rs2_index rd_index g s
  | _ => Dies EAssert
  end.

End slowpath.

(** ** Template *)
Definition amo_instruction : template := mk_template "amo_instruction" (
  BEGIN_TRANSLATION ++
  [movq (Reg R12) RDI; movl (Param 0) (Reg RSI); movl (Param 1) (Reg RDX);
   movl (Param 2) (Reg RCX); movl (Param 3) (Reg R8); movabs sym_amo_instruction_slowpath RAX] ++
  SAVE_GUEST_CONTEXT_SWITCH_REGS ++
  [callq RAX] ++
  RESTORE_GUEST_CONTEXT_SWITCH_REGS ++
  RESET_ZERO_REGISTER ++
  PROCEED_TO_NEXT_INSTRUCTION ++
  END_INSTRUCTION) 4.

(** ** Translator *)
Section code.
Context (TRANSLATION_SIZE : string → Z) (jumper_size : Z).
Notation PRECHECK := (PRECHECK_TRANSLATION_CACHE TRANSLATION_SIZE jumper_size).
Notation COMMIT := (COMMIT_TRANSLATION TRANSLATION_SIZE jumper_size).

Definition riscv_amo_translator (dec : decoding) (blob : prefetch_blob) (instruction : Z) (h : hart)
    : outcome (prefetch_blob * hart) :=
  let instruction_linear_address := next_instruction_to_fetch blob in
  PRECHECK amo_instruction blob h (λ blob h,
    h ← COMMIT amo_instruction
          [rs1_index dec; rs2_index dec; rd_index dec; Z.shiftr (funct7 dec) 2] h
          instruction_linear_address;
    Ok (fetch_next blob, h)).

(** [per_funct5_handlers] as [amo_constructor] fills it. *)
Definition per_funct5_handlers (funct5 : Z)
    : option (decoding → prefetch_blob → Z → hart → outcome (prefetch_blob * hart)) :=
  match funct5 with
  | 0 | 0x1 | 0x2 | 0x3 | 0x4 | 0x8 | 0xc | 0x1c => Some riscv_amo_translator
  | _ => None
  end.

Definition riscv_amo_instructions_translation_entry (blob : prefetch_blob)
    (instruction : Z) (h : hart) : outcome (prefetch_blob * hart) :=
  dec ← instruction_decoding_per_type instruction ENCODING_TYPE_R;
  let funct5 := Z.shiftr (funct7 dec) 2 in
  match per_funct5_handlers funct5 with
  | Some f => f dec blob instruction h
  | None => not_reach
  end.

End code.

(** ** The template calls the slow path with the operands of the instruction *)
Section proofs.
Context {W : Type} `{HC : HostCalls W} {HCok : HostCallsOk W} (H : Z) (HH : hart_addr H).

Lemma funct5_range f5 : f5 ∈ amo_funct5 → 0 <= f5 < 32.
Proof. unfold amo_funct5. rewrite !elem_of_cons, elem_of_nil. intros. lia. Qed.

Lemma amo_simulates a f5 rd rs1 rs2 aq_rl :
  valid (Amo f5 rd rs1 rs2 aq_rl) →
  simulates H a amo_instruction [rs1; rs2; rd; f5] (Amo f5 rd rs1 rs2 aq_rl).
Proof.
  intros (Hf & Hrd & H1 & H2 & _). apply funct5_range in Hf.
  assert (Hargs : @Ok (list Z) [w8 rs1; w8 rs2; w8 rd; w32 f5] = Ok [rs1; rs2; rd; f5]).
  { unfold reg_ok, w8, w32 in *. by rewrite !Z.mod_small by lia. }
  sim_start amo_instruction. xrun. sim_call sym_amo_instruction_slowpath [rs1; rs2; rd; f5].
  xrun. sim_next. done.
Qed.

Context (TRANSLATION_SIZE : string → Z) (jumper_size : Z).

Lemma amo_translates f5 rd rs1 rs2 aq_rl :
  valid (Amo f5 rd rs1 rs2 aq_rl) →
  translates H TRANSLATION_SIZE jumper_size (Amo f5 rd rs1 rs2 aq_rl)
    (riscv_amo_instructions_translation_entry TRANSLATION_SIZE jumper_size).
Proof.
  intros Hv a _. exists amo_instruction, [rs1; rs2; rd; f5]. split; [done|].
  split; [by apply amo_simulates|]. intros blob h <-. destruct Hv as (Hf & ? & ? & ? & ?).
  pose proof (funct5_range _ Hf). unfold reg_ok in *. cbn [encode].
  unfold riscv_amo_instructions_translation_entry. rewrite decode_R by lia.
  cbn [mbind outcome_bind funct7]. rewrite Z.shiftr_div_pow2 by lia.
  assert ((f5 * 2 ^ 2 + aq_rl) / 2 ^ 2 = f5) as -> by lia_div.
  unfold amo_funct5 in Hf. rewrite !elem_of_cons, elem_of_nil in Hf.
  destruct_or!; subst; try done;
    unfold per_funct5_handlers, riscv_amo_translator; cbn [funct7];
    rewrite Z.shiftr_div_pow2 by lia;
    match goal with |- context [(?f * 2 ^ 2 + aq_rl) / 2 ^ 2] =>
      assert ((f * 2 ^ 2 + aq_rl) / 2 ^ 2 = f) as -> by lia_div end; done.
Qed.

End proofs.
(** ** Atomic operations on a memory *)

(** What the slow path needs of the mmu: [holds m a v] when [v] is the word at an
    aligned address that is mapped for reading and writing; there the two accesses
    return, leave the hart alone and behave like an array of words. *)
Class AlignedMmuOk (M : Type) `{AlignedMmu M} (holds : M → Z → Z → Prop) := {
  am_word : ∀ m a v, holds m a v → word32 v;
  am_read : ∀ m a v g, holds m a v → mmu_read32_aligned a g m = Returns v g m;
  am_write : ∀ m a v x g, holds m a v → word32 x → ∃ r m',
    mmu_write32_aligned a x g m = Returns r g m' ∧
    ∀ b w, holds m' b w ↔ if decide (b = a) then w = x else holds m b w
}.

(** The operators of the manual's table of atomic memory operations. *)
Definition amo_value (f5 old x : Z) : option Z :=
  match f5 with
  | 0x0 => Some ((old + x) mod 2 ^ 32)
  | 0x1 => Some x
  | 0x4 => Some (Z.lxor old x)
  | 0x8 => Some (Z.lor old x)
  | 0xc => Some (Z.land old x)
  | 0x1c => Some (Z.max old x)
  | _ => None
  end.

(** [nr h l] counts the valid reservations of [a] by hart [h]. *)
Definition nr_reserved (hart_id : Z) (l : list address_reservation_item) (a : Z) : nat :=
  length (filter (λ r, valid_bit r = true ∧ addr r = a ∧ hartid r = hart_id) l).

Definition globals_ok (G : amo_globals) : Prop :=
  length (reservations G) = 16%nat ∧ 0 <= next_pointer G < MAX_RESERVATION_ITEMS.

Lemma amo_initial_ok : globals_ok amo_initial.
Proof. split; done. Qed.

Section amo.
Context {M : Type} `{MM : AlignedMmu M} {holds : M → Z → Z → Prop} {MMok : AlignedMmuOk M holds}.
Context (hart_id : Z).
Implicit Types (g : guest) (m : M) (G : amo_globals).

Lemma amo_rmw_run op rs1 rs2 rd g G m v :
  0 <= rd < 32 → wf_guest g → holds m (gpr g rs1) v →
  word32 (op v (gpr g rs2)) →
  ∃ r m', amo_rmw op rs1 rs2 rd g (G, m) = Returns r (set_gpr g rd v) (G, m') ∧
    ∀ b w, holds m' b w ↔ if decide (b = gpr g rs1) then w = op v (gpr g rs2) else holds m b w.
Proof.
  intros Hrd Hwf Hl Hop. pose proof (am_word _ _ _ Hl) as Hv.
  unfold amo_rmw, mmu_call. cbn [fst snd]. rewrite (am_read _ _ _ g Hl). cbn [fst snd].
  rewrite w32_small, gpr_set_eq by (done || lia).
  destruct (am_write m _ v (op v (gpr g rs2)) (set_gpr g rd v) Hl Hop) as (r & m' & -> & Hm).
  by exists r, m'.
Qed.

(** C7: an atomic read-modify-write on mapped memory puts the old word into
    rd and the operator of the manual applied to the old word and the old rs2 at
    the address in the old rs1, also when rd is rs1 or rs2; no other word, no
    other register and no reservation changes. *)
Theorem amo_rmw_correct f5 rs1 rs2 rd g G m v x :
  0 <= rd < 32 → wf_guest g → holds m (gpr g rs1) v →
  amo_value f5 v (gpr g rs2) = Some x →
  ∃ r m', amo_instruction_slowpath hart_id rs1 rs2 rd f5 g (G, m) =
      Returns r (set_gpr g rd v) (G, m') ∧
    ∀ b w, holds m' b w ↔ if decide (b = gpr g rs1) then w = x else holds m b w.
Proof.
  intros Hrd Hwf Hl Hx. pose proof (am_word _ _ _ Hl) as Hv.
  pose proof (gpr_word g rs2 Hwf) as H2.
  assert (∃ op, (∀ g s, amo_instruction_slowpath hart_id rs1 rs2 rd f5 g s =
    amo_rmw op rs1 rs2 rd g s) ∧ op v (gpr g rs2) = x ∧ word32 x) as (op & Heq & <- & Hw).
  { unfold amo_value in Hx. repeat case_match; simplify_eq; eexists; (split; [done|]);
      (split; [first [reflexivity | destruct (Z.ltb_spec (gpr g rs2) v); lia]|]);
      first [apply word32_lxor; done | apply word32_lor; done | apply word32_land; done
            | apply w32_word | done | unfold word32 in *; lia]. }
  rewrite Heq. by apply amo_rmw_run.
Qed.

(** *** Reservations *)

Lemma nr_reserved_middle h l1 r l2 a :
  nr_reserved h (l1 ++ r :: l2) a =
    (nr_reserved h l1 a + (if decide (valid_bit r = true ∧ addr r = a ∧ hartid r = h) then 1 else 0)
     + nr_reserved h l2 a)%nat.
Proof.
  unfold nr_reserved. rewrite filter_app, length_app, filter_cons.
  destruct (decide _); simpl; lia.
Qed.

Lemma first_free_spec l i :
  match first_free l i with
  | Some idx => ∃ l1 r l2, l = l1 ++ r :: l2 ∧ idx = i + Z.of_nat (length l1) ∧ valid_bit r = false
  | None => True
  end.
Proof.
  revert i. induction l as [|r l IH]; intros i; simpl; [done|].
  destruct (valid_bit r) eqn:Hr.
  - specialize (IH (i + 1)). destruct (first_free l (i + 1)); [|done].
    destruct IH as (l1 & r' & l2 & -> & -> & ?). exists (r :: l1), r', l2. simpl. split_and!; [done|lia|done].
  - exists [], r, l. simpl. split_and!; [done|lia|done].
Qed.

Lemma find_reservation_spec l a i :
  match find_reservation hart_id l a i with
  | Some idx => ∃ l1 r l2, l = l1 ++ r :: l2 ∧ idx = i + Z.of_nat (length l1) ∧
      valid_bit r = true ∧ addr r = a ∧ hartid r = hart_id
  | None => nr_reserved hart_id l a = 0%nat
  end.
Proof.
  revert i. induction l as [|r l IH]; intros i; simpl; [done|].
  destruct (valid_bit r && (addr r =? a) && (hartid r =? hart_id)) eqn:Hr.
  - apply andb_true_iff in Hr as [[? ?]%andb_true_iff ?]. exists [], r, l. simpl.
    split_and!; [done|lia|done|lia|lia].
  - specialize (IH (i + 1)). destruct (find_reservation hart_id l a (i + 1)).
    + destruct IH as (l1 & r' & l2 & -> & -> & ?). exists (r :: l1), r', l2. simpl.
      split_and!; [done|lia|naive_solver..].
    + pose proof (nr_reserved_middle hart_id [] r l a) as Hn. simpl in Hn. rewrite Hn, IH.
      destruct (decide _) as [(Hv & <- & <-)|]; [|done].
      rewrite Hv, !Z.eqb_refl in Hr. done.
Qed.

(** The slot [lr_slowpath] takes: a free one, or the one [next_pointer] names. *)
Lemma lr_slot G :
  globals_ok G → ∃ l1 r l2, reservations G = l1 ++ r :: l2 ∧
    default (next_pointer G) (first_free (reservations G) 0) = Z.of_nat (length l1) ∧
    Z.of_nat (length l1) < MAX_RESERVATION_ITEMS.
Proof.
  intros [Hl Hn]. pose proof (first_free_spec (reservations G) 0) as Hf.
  destruct (first_free _ 0) as [idx|]; simpl.
  - destruct Hf as (l1 & r & l2 & Heq & -> & _). exists l1, r, l2. split_and!; [done|lia|].
    apply (f_equal length) in Heq. rewrite Hl, length_app in Heq. simpl in Heq.
    unfold MAX_RESERVATION_ITEMS. lia.
  - unfold MAX_RESERVATION_ITEMS in *.
    destruct (lookup_lt_is_Some_2 (reservations G) (Z.to_nat (next_pointer G))) as [r Hr]; [lia|].
    apply list_elem_of_split_length in Hr as (l1 & l2 & -> & Hlen). exists l1, r, l2.
    split_and!; [done|lia|lia].
Qed.

Lemma lr_run rs1 rs2 rd g G m v :
  globals_ok G → holds m (gpr g rs1) v → ∃ G',
    lr_slowpath hart_id rs1 rs2 rd g (G, m) = Returns 0 (set_gpr g rd v) (G', m) ∧
    globals_ok G' ∧ (0 < nr_reserved (w8 hart_id) (reservations G') (gpr g rs1))%nat.
Proof.
  intros HG Hl. destruct (lr_slot G HG) as (l1 & r & l2 & Heq & Hidx & Hlt).
  unfold lr_slowpath, mmu_call. cbn [fst snd]. rewrite (am_read _ _ _ g Hl). cbn [fst snd].
  rewrite Hidx, Heq, zset_middle, w32_small by by eapply am_word.
  eexists. split; [done|]. destruct HG as [HG _]. rewrite Heq in HG. split.
  - split; cbn [reservations next_pointer]; [rewrite length_app in *; simpl in *; lia|].
    apply Z.mod_pos_bound. done.
  - cbn [reservations]. rewrite nr_reserved_middle. cbn [addr valid_bit hartid].
    rewrite decide_True by done. lia.
Qed.

(** C8: sc.w succeeds (rd is 0, rs2 is stored) exactly when the hart holds a
    reservation of the address, and it uses up that one reservation; otherwise rd
    is 1 and neither the memory nor the reservations change. *)
Theorem sc_correct rs1 rs2 rd g G m v :
  wf_guest g → holds m (gpr g rs1) v →
  let n := nr_reserved hart_id (reservations G) (gpr g rs1) in
  if decide (n = 0%nat) then
    amo_instruction_slowpath hart_id rs1 rs2 rd 0x3 g (G, m) = Returns 0 (set_gpr g rd 1) (G, m)
  else ∃ r G' m',
    amo_instruction_slowpath hart_id rs1 rs2 rd 0x3 g (G, m) =
      Returns r (set_gpr g rd 0) (G', m') ∧
    (∀ b w, holds m' b w ↔ if decide (b = gpr g rs1) then w = gpr g rs2 else holds m b w) ∧
    (∀ h b, nr_reserved h (reservations G') b =
      if decide (h = hart_id ∧ b = gpr g rs1) then (n - 1)%nat
      else nr_reserved h (reservations G) b).
Proof.
  intros Hwf Hl n. unfold amo_instruction_slowpath, sc_slowpath, mmu_call. cbn [fst snd].
  pose proof (find_reservation_spec (reservations G) (gpr g rs1) 0) as Hf.
  destruct (find_reservation _ _ _ _) as [idx|]; [|by rewrite decide_True].
  destruct Hf as (l1 & r & l2 & Heq & -> & Hv & Ha & Hh). rewrite Z.add_0_l.
  rewrite decide_False.
  2: { unfold n. rewrite Heq, nr_reserved_middle, decide_True by done. lia. }
  destruct (am_write m _ v (gpr g rs2) (set_gpr g rd 0) Hl (gpr_word _ _ Hwf)) as (x & m' & -> & Hm).
  cbn [fst snd]. unfold clear_reservation. rewrite Heq, zget_middle, zset_middle.
  eexists x, _, m'. split; [done|]. split; [done|]. intros h b. cbn [reservations].
  unfold n. rewrite Heq, !nr_reserved_middle. cbn [addr valid_bit hartid].
  rewrite (decide_False (P := false = true ∧ _)) by naive_solver.
  destruct (decide (h = hart_id ∧ b = gpr g rs1)) as [[-> ->]|Hne].
  - rewrite decide_True by done. lia.
  - rewrite decide_False; [lia|naive_solver].
Qed.

(** After lr.w by a hart whose id fits the 8 bits of the reservation, the
    next sc.w of that hart to the same address stores rs2 and answers 0, in any
    state of the registers and of the rest of the memory; lr.w loads the word into
    rd and keeps the table of reservations well formed. *)
Theorem lr_sc_succeeds rs1 rs2 rd g G m v :
  0 <= hart_id < 2 ^ 8 → globals_ok G → holds m (gpr g rs1) v → ∃ G',
    amo_instruction_slowpath hart_id rs1 rs2 rd 0x2 g (G, m) =
      Returns 0 (set_gpr g rd v) (G', m) ∧
    globals_ok G' ∧
    ∀ rs1' rs2' rd' g' m' v',
      wf_guest g' → gpr g' rs1' = gpr g rs1 → holds m' (gpr g rs1) v' → ∃ r G'' m'',
        amo_instruction_slowpath hart_id rs1' rs2' rd' 0x3 g' (G', m') =
          Returns r (set_gpr g' rd' 0) (G'', m'') ∧
        holds m'' (gpr g rs1) (gpr g' rs2').
Proof.
  intros Hid HG Hl. destruct (lr_run rs1 rs2 rd g G m v HG Hl) as (G' & Hlr & HG' & Hn).
  exists G'. split; [done|]. split; [done|]. intros rs1' rs2' rd' g' m' v' Hwf Ha Hl'.
  rewrite <- Ha in Hl', Hn |- *. unfold amo_instruction_slowpath, sc_slowpath, mmu_call.
  cbn [fst snd]. assert (w8 hart_id = hart_id) as Hw by (unfold w8; lia_div). rewrite Hw in Hn.
  pose proof (find_reservation_spec (reservations G') (gpr g' rs1') 0) as Hf.
  destruct (find_reservation _ _ _ _) as [idx|]; [|lia].
  destruct Hf as (l1 & r & l2 & Heq & -> & _). rewrite Z.add_0_l.
  destruct (am_write m' _ v' (gpr g' rs2') (set_gpr g' rd' 0) Hl' (gpr_word _ _ Hwf))
    as (x & m'' & -> & Hm).
  cbn [fst snd]. unfold clear_reservation. rewrite Heq, zget_middle, zset_middle.
  eexists x, _, m''. split; [done|]. apply Hm. by rewrite decide_True.
Qed.

End amo.

(** ** Examples: a memory of one word at address 0 *)
Definition word_load (m a : Z) : option Z := if a =? 0 then Some (w32 m) else None.

Definition word_holds (m a v : Z) : Prop := word_load m a = Some v.

#[export] Instance word_mmu : AlignedMmu Z := {|
  mmu_read32_aligned a g m :=
    match word_load m a with Some v => Returns v g m | None => Dies EAssert end;
  mmu_write32_aligned a x g m :=
    match word_load m a with Some _ => Returns 0 g x | None => Dies EAssert end
|}.

#[export] Instance word_mmu_ok : AlignedMmuOk Z word_holds.
Proof.
  unfold word_holds. split.
  - unfold word_load. intros. case_match; simplify_eq. apply w32_word.
  - intros ???? Hl. simpl. by rewrite Hl.
  - intros m a v x g Hl Hx. simpl. rewrite Hl. eexists _, _. split; [done|]. intros b w.
    unfold word_load in *. destruct (Z.eqb_spec a 0); simplify_eq.
    destruct (Z.eqb_spec b 0); case_decide; try done. rewrite w32_small by done. naive_solver.
Qed.

(** x1 is 0, the address; x2 is 7. *)
Definition amo_guest : guest := mk_guest (0 :: 0 :: 7 :: replicate 29 0) 0x1000.

Lemma amo_guest_wf : wf_guest amo_guest.
Proof. split_and!; [done| |done]. repeat constructor; done. Qed.

Lemma amo_rmw_correct_witness :
  ∃ r m', amo_instruction_slowpath 0 1 2 2 0 amo_guest (amo_initial, 5) =
      Returns r (set_gpr amo_guest 2 5) (amo_initial, m') ∧
    ∀ b w, word_holds m' b w ↔ if decide (b = gpr amo_guest 1) then w = 12 else word_holds 5 b w.
Proof.
  apply (amo_rmw_correct 0 0 1 2 2 amo_guest amo_initial 5 5 12).
  - lia.
  - apply amo_guest_wf.
  - done.
  - done.
Defined.

(** The globals after lr.w of address 0 by hart 0. *)
Definition amo_reserved : amo_globals :=
  match amo_instruction_slowpath 0 1 0 3 0x2 amo_guest (amo_initial, 5) with Returns _ _ (G, _) => G | _ => amo_initial end.

(** Without a reservation sc.w fails; with one it stores 7 and answers 0. *)
Lemma sc_correct_witness :
  amo_instruction_slowpath 0 1 2 3 0x3 amo_guest (amo_initial, 5) =
    Returns 0 (set_gpr amo_guest 3 1) (amo_initial, 5) ∧
  ∃ r G' m', amo_instruction_slowpath 0 1 2 3 0x3 amo_guest (amo_reserved, 5) =
      Returns r (set_gpr amo_guest 3 0) (G', m') ∧ word_holds m' 0 7.
Proof.
  split; [apply (sc_correct 0 1 2 3 amo_guest amo_initial 5 5 amo_guest_wf eq_refl)|].
  destruct (sc_correct 0 1 2 3 amo_guest amo_reserved 5 5 amo_guest_wf eq_refl) as (r & G' & m' & Hs & Hm & _).
  exists r, G', m'. split; [done|]. by apply Hm.
Defined.

Lemma lr_sc_succeeds_witness :
  ∃ G', amo_instruction_slowpath 0 1 0 3 0x2 amo_guest (amo_initial, 5) =
      Returns 0 (set_gpr amo_guest 3 5) (G', 5) ∧
    globals_ok G' ∧
    ∀ rs1' rs2' rd' g' m' v',
      wf_guest g' → gpr g' rs1' = gpr amo_guest 1 → word_holds m' (gpr amo_guest 1) v' →
      ∃ r G'' m'',
        amo_instruction_slowpath 0 rs1' rs2' rd' 0x3 g' (G', m') =
          Returns r (set_gpr g' rd' 0) (G'', m'') ∧
        word_holds m'' (gpr amo_guest 1) (gpr g' rs2').
Proof.
  apply (lr_sc_succeeds 0 1 0 3 amo_guest amo_initial 5 5); [lia|apply amo_initial_ok|done].
Defined.

(** A run of the slow path on (rs1, rs2, rd, funct5) in sequence. *)
Fixpoint amo_seq (l : list (Z * Z * Z * Z)) (g : guest) (s : amo_globals * Z)
    : callres (amo_globals * Z) :=
  match l with
  | [] => Returns 0 g s
  | (rs1, rs2, rd, f5) :: l =>
      match amo_instruction_slowpath 0 rs1 rs2 rd f5 g s with
      | Returns _ g s => amo_seq l g s
      | r => r
      end
  end.

(** Each lr.w takes a slot of its own, also for an address the hart has
    reserved already, so after two lr.w both of two sc.w succeed, with no lr.w
    between them; the manual lets a hart hold one reservation, which the first
    sc.w ends. *)
Theorem second_sc_succeeds :
  match amo_seq [(1, 0, 3, 0x2); (1, 0, 3, 0x2); (1, 2, 4, 0x3); (1, 0, 5, 0x3)]
          (set_gpr (set_gpr amo_guest 4 9) 5 9) (amo_initial, 5) with
  | Returns _ g (_, m) => gpr g 4 = 0 ∧ gpr g 5 = 0 ∧ m = 0
  | _ => False
  end.
Proof. vm_compute. done. Qed.

End TransAmo.
