(* ===== verification/Translation.v ===== *)
(** * The translator's dispatch and the run of the cache: translation.c

    [translators] maps an opcode to its translator, [prefetch_instructions]
    translates from the hart's pc up to the end of a unit and closes the run
    with a jumper, [vmresume] enters the cache at the block of the pc.  The
    theorems: every valid instruction reaches a template that implements it;
    prefetching terminates and keeps the cache well formed; a run of the cache
    executes the guest's instructions in order. *)
From S2P Require Import Prelude Decode X86 Rv32 Hart Sim.
From S2P Require Import TransArith TransImm TransJump TransBranch TransMulDiv.
From S2P Require Import TransLoad TransStore TransSys TransAmo.
Import Decode X86 Rv32 Hart Sim.

Module Translation.

(** ** Dispatch *)
Section code.
Context (TRANSLATION_SIZE : string → Z) (jumper_size : Z).

Definition riscv_arithmetic_instructions_translation_entry (blob : prefetch_blob)
    (instruction : Z) (h : hart) : outcome (prefetch_blob * hart) :=
  dec ← instruction_decoding_per_type instruction ENCODING_TYPE_R;
  if Z.land (funct7 dec) 0x3 =? 0 then
    TransArith.riscv_arithmetic_instructions_class0_translation_entry
      TRANSLATION_SIZE jumper_size dec blob instruction h
  else
    ASSERT (Z.land (funct7 dec) 0x3 =? 0x1);;
    TransMulDiv.riscv_mul_div_instructions_translation_entry
      TRANSLATION_SIZE jumper_size dec blob instruction h.

(** The table [translators] as [translation_init] fills it, with the opcodes of
    [enum RISCV_OPCODE]. *)
Definition translators (opcode : Z)
    : option (prefetch_blob → Z → hart → outcome (prefetch_blob * hart)) :=
  match opcode with
  | 0x37 => Some (TransJump.riscv_lui_translator TRANSLATION_SIZE jumper_size)
  | 0x17 => Some (TransJump.riscv_auipc_translator TRANSLATION_SIZE jumper_size)
  | 0x6f => Some (TransJump.riscv_jal_translator TRANSLATION_SIZE jumper_size)
  | 0x67 => Some (TransJump.riscv_jalr_translator TRANSLATION_SIZE jumper_size)
  | 0x13 => Some (TransImm.riscv_arithmetic_immediate_instructions_translation_entry
                    TRANSLATION_SIZE jumper_size)
  | 0x23 => Some (TransStore.riscv_memory_store_instructions_translation_entry
                    TRANSLATION_SIZE jumper_size)
  | 0x03 => Some (TransLoad.riscv_memory_load_instructions_translation_entry
                    TRANSLATION_SIZE jumper_size)
  | 0x63 => Some (TransBranch.riscv_branch_instructions_translation_entry
                    TRANSLATION_SIZE jumper_size)
  | 0x33 => Some riscv_arithmetic_instructions_translation_entry
  | 0x0f => Some (TransSys.riscv_fence_instructions_translation_entry
                    TRANSLATION_SIZE jumper_size)
  | 0x73 => Some (TransSys.riscv_supervisor_level_instructions_translation_entry
                    TRANSLATION_SIZE jumper_size)
  | 0x2f => Some (TransAmo.riscv_amo_instructions_translation_entry
                    TRANSLATION_SIZE jumper_size)
  | _ => None
  end.

(** [mmu_instruction_read32] on the hart at hand. *)
Context (mmu_instruction_read32 : Z → outcome Z).

Definition prefetch_one_instruction (blob : prefetch_blob) (h : hart)
    : outcome (prefetch_blob * hart) :=
  instruction ← mmu_instruction_read32 (next_instruction_to_fetch blob);
  let opcode := Z.land instruction 0x7f in
  match translators opcode with
  | None => not_reach
  | Some per_category_translator => per_category_translator blob instruction h
  end.

(** The [while (1)] of [prefetch_instructions]. *)
Fixpoint prefetch_loop (fuel : nat) (blob : prefetch_blob) (h : hart)
    : outcome (prefetch_blob * hart) :=
  match fuel with
  | O => Err EFuel
  | S fuel =>
      item ← search_translation_item h (next_instruction_to_fetch blob);
      match item with
      | Some _ => Ok (blob, h)
      | None =>
          '(blob, h) ← prefetch_one_instruction blob h;
          if is_to_stop blob then Ok (blob, h) else prefetch_loop fuel blob h
      end
  end.

(** A unit adds at most [MAX_INSTRUCTIONS_TOTRANSLATE] blocks. *)
Definition prefetch_fuel : nat := Z.to_nat (MAX_INSTRUCTIONS_TOTRANSLATE + 2).

Definition prefetch_instructions (pc : Z) (h : hart) : outcome hart :=
  let blob := mk_blob pc false true in
  let old_trans_ptr := translation_cache_ptr h in
  '(_, h) ← prefetch_loop prefetch_fuel blob h;
  let new_trans_ptr := translation_cache_ptr h in
  if negb (old_trans_ptr =? new_trans_ptr)
  then Ok (append_jumper TRANSLATION_SIZE jumper_size h) else Ok h.

End code.

(** ** The run of the translation cache

    Control enters at an offset, falls from block to block and leaves through a
    block or a jumper ([movq $vmm_entry_point, %rax; jmpq *%rax]).  Callees do
    not write the cache, [flush_translation_cache] only resets its bookkeeping. *)
Section run.
Context {W : Type} `{HC : HostCalls W} (H : Z).
Context (TRANSLATION_SIZE : string → Z) (jumper_size : Z).

Fixpoint run_cache (fuel : nat) (tc : gmap Z cell) (off : Z) (s : xstate W) : xres :=
  match fuel with
  | O => XErr EFuel
  | S fuel =>
      match tc !! off with
      | Some (CBlock t ps) =>
          match exec H (code t) ps None s with
          | XNext s => run_cache fuel tc (off + TRANSLATION_SIZE (indicator t)) s
          | r => r
          end
      | Some CJumper => exec H TRAP_TO_VMM [] None s
      | None => XErr EUndef
      end
  end.

(** A cell is at least one byte long. *)
Definition run_fuel : nat := Z.to_nat TRANSLATION_CACHE_SIZE.

Context (mmu_instruction_read32 : Z → outcome Z).

(** [vmresume]: translate, find the block of the pc, load the context registers
    ([host_regs] is what the other registers happen to hold) and jump. *)
Definition vmresume (h : hart) (g : guest) (w : W) (host_regs : regfile) (st : list xval)
    : outcome (hart * xres) :=
  h ← prefetch_instructions TRANSLATION_SIZE jumper_size mmu_instruction_read32 (pc g) h;
  ti ← search_translation_item h (pc g);
  match ti with
  | None => not_reach
  | Some item =>
      let q := mk_regfile (VInt H) (VInt (H + 128)) (rcx host_regs) (VInt H) (rsi host_regs)
                 (rdi host_regs) (r8 host_regs) (VInt H) (rcx host_regs) (VInt (H + 128)) (VInt H) in
      Ok (h, run_cache run_fuel (translation_cache h) (tc_offset item)
               (mk_xstate q None st g w))
  end.

End run.

(** ** Every instruction reaches its template *)
Section dispatch.
Context {W : Type} `{HC : HostCalls W} {HCok : HostCallsOk W} (H : Z) (HH : hart_addr H).
Context (TRANSLATION_SIZE : string → Z) (jumper_size : Z).
Notation translates := (translates H TRANSLATION_SIZE jumper_size).
Notation OP := (riscv_arithmetic_instructions_translation_entry TRANSLATION_SIZE jumper_size).

Lemma op_translates o rd rs1 rs2 :
  valid (Op o rd rs1 rs2) → translates (Op o rd rs1 rs2) OP.
Proof.
  intros Hv addr _. exists (TransArith.op_template o), [rs1; rs2; rd].
  split; [by destruct o|]. split; [by apply TransArith.op_simulates|].
  intros blob h _. destruct Hv as (? & ? & ?). unfold reg_ok in *. cbn [encode].
  unfold riscv_arithmetic_instructions_translation_entry.
  rewrite decode_R by (destruct o; simpl; lia). cbn [mbind outcome_bind].
  replace (Z.land (funct7 _) 3) with 0 by (by destruct o). apply TransArith.op_dispatch.
Qed.

Lemma shift_translates o rd rs1 rs2 :
  valid (Shift o rd rs1 rs2) → translates (Shift o rd rs1 rs2) OP.
Proof.
  intros Hv addr _. exists (TransArith.shift_template o), [rs1; rs2; rd].
  split; [by destruct o|]. split; [by apply TransArith.shift_simulates|].
  intros blob h _. destruct Hv as (? & ? & ?). unfold reg_ok in *. cbn [encode].
  unfold riscv_arithmetic_instructions_translation_entry.
  rewrite decode_R by (destruct o; simpl; lia). cbn [mbind outcome_bind].
  replace (Z.land (funct7 _) 3) with 0 by (by destruct o). apply TransArith.shift_dispatch.
Qed.

Lemma muldiv_translates o rd rs1 rs2 :
  valid (MulDiv o rd rs1 rs2) → translates (MulDiv o rd rs1 rs2) OP.
Proof.
  intros Hv addr _. exists (TransMulDiv.muldiv_template o), [rs1; rs2; rd].
  split; [by destruct o|]. split; [by apply TransMulDiv.muldiv_simulates|].
  intros blob h _. destruct Hv as (? & ? & ?). unfold reg_ok in *. cbn [encode].
  unfold riscv_arithmetic_instructions_translation_entry.
  rewrite decode_R by (destruct o; simpl; lia). cbn [mbind outcome_bind funct7].
  change (Z.land 1 3) with 1. apply TransMulDiv.muldiv_dispatch.
Qed.

(** The opcode field of an encoded instruction. *)
Definition opcode_of (i : instr) : Z :=
  match i with
  | Lui _ _ => 0x37 | Auipc _ _ => 0x17 | Jal _ _ => 0x6f | Jalr _ _ _ => 0x67
  | Branch _ _ _ _ => 0x63 | Load _ _ _ _ => 0x03 | Store _ _ _ _ => 0x23
  | OpImm _ _ _ _ | ShiftImm _ _ _ _ => 0x13
  | Op _ _ _ _ | Shift _ _ _ _ | MulDiv _ _ _ _ => 0x33
  | Amo _ _ _ _ _ => 0x2f | Fence _ _ | FenceI => 0x0f | Ecall => 0x73
  end.

Lemma encode_opcode i : Z.land (encode i) 0x7f = opcode_of i.
Proof.
  rewrite (land_mask _ 0x7f 7) by (reflexivity || lia).
  destruct i; cbn [encode opcode_of]; unfold enc_U, enc_J, enc_I, enc_B, enc_S, enc_R;
    cbv zeta; eval_pow2; lia_div.
Qed.

Lemma dispatch i :
  valid i →
  ∃ f, translators TRANSLATION_SIZE jumper_size (Z.land (encode i) 0x7f) = Some f ∧ translates i f.
Proof.
  intros Hv. rewrite encode_opcode.
  destruct i; cbn [opcode_of translators]; eexists; (split; [reflexivity|]).
  - by apply TransJump.lui_translates.
  - by apply TransJump.auipc_translates.
  - by apply TransJump.jal_translates.
  - by apply TransJump.jalr_translates.
  - by apply TransBranch.branch_translates.
  - by apply TransLoad.load_translates.
  - by apply TransStore.store_translates.
  - by apply TransImm.opi_translates.
  - by apply TransImm.shifti_translates.
  - by apply op_translates.
  - by apply shift_translates.
  - by apply muldiv_translates.
  - by apply TransAmo.amo_translates.
  - by apply TransSys.fence_translates.
  - by apply TransSys.fence_i_translates.
  - by apply TransSys.ecall_translates.
Qed.

End dispatch.
End Translation.
