(* ===== verification/Refine.v ===== *)
(** * The emulator refines the guest machine

    The abstract machine runs a program (a partial map from pc to RV32
    instruction) with [Rv32.rv_exec].  Over the abstract view of the cache
    ([Hart.rep]) this file states what a cache holds ([linked]: each block
    implements the instruction of its pc, and a block that falls through is
    followed by the block of the next pc or by a jumper) and proves that
    prefetching establishes it and that a run of the cache is a run of the
    program. *)
From S2P Require Import Prelude SortSearch Decode X86 Rv32 Hart Sim TransImm Translation.
Import Decode X86 Rv32 Hart Sim Translation.

Module Refine.

(** ** The guest machine *)
Section machine.
Context {W : Type} `{HC : HostCalls W} {HCok : HostCallsOk W}.
Context (program : Z → option instr).

(** One visit of the cache: instructions in sequence up to one that leaves, one
    that ends the emulator, or a pause between two of them. *)
Inductive unit_run : guest → W → rvres W → Prop :=
| unit_leave g w i g' w' :
    program (pc g) = Some i → rv_exec i g w = RvOk true g' w' → unit_run g w (RvOk true g' w')
| unit_error g w i e :
    program (pc g) = Some i → rv_exec i g w = RvErr e → unit_run g w (RvErr e)
| unit_pause g w i g' w' :
    program (pc g) = Some i → rv_exec i g w = RvOk false g' w' → unit_run g w (RvOk true g' w')
| unit_next g w i g' w' r :
    program (pc g) = Some i → rv_exec i g w = RvOk false g' w' → unit_run g' w' r →
    unit_run g w r.

(** The states a sequence of instructions passes through. *)
Inductive seq_reach : guest → W → guest → W → Prop :=
| reach_refl g w : seq_reach g w g w
| reach_step g w i g1 w1 g2 w2 :
    program (pc g) = Some i → rv_exec i g w = RvOk false g1 w1 → seq_reach g1 w1 g2 w2 →
    seq_reach g w g2 w2.

(** No breakpoint and no faulting division on the way. *)
Definition runnable (g : guest) (w : W) : Prop :=
  ∀ g1 w1, seq_reach g w g1 w1 →
    no_breakpoint g1 w1 ∧ ∀ i, program (pc g1) = Some i → host_divides i g1.

Lemma runnable_here g w i :
  runnable g w → program (pc g) = Some i → no_breakpoint g w ∧ host_divides i g.
Proof. intros Hr Hi. destruct (Hr g w) as [? Hd]; [constructor|]. by split; [|apply Hd]. Qed.

Lemma runnable_step g w i g' w' :
  runnable g w → program (pc g) = Some i → rv_exec i g w = RvOk false g' w' → runnable g' w'.
Proof. intros Hr Hi He g1 w1 H1. apply Hr. by eapply reach_step. Qed.

(** *** The invariant of the guest state *)
Lemma wx_wf g rd v : wf_guest g → word32 v → wf_guest (wx g rd v).
Proof. intros. unfold wx. destruct (rd =? 0); auto with hyrule. Qed.

Lemma wx_x0 g rd v : 0 <= rd → x0_zero g → x0_zero (wx g rd v).
Proof.
  intros ? Hz. unfold wx. destruct (Z.eqb_spec rd 0); [done|].
  unfold x0_zero. by rewrite gpr_set_ne by lia.
Qed.

Lemma next_inv g : wf_guest g → x0_zero g → wf_guest (next g) ∧ x0_zero (next g).
Proof. intros. split; [|done]. unfold next. auto with hyrule. Qed.

(** The value written is a word. *)
Lemma next_wx_inv g rd v :
  wf_guest g → x0_zero g → reg_ok rd → word32 v →
  wf_guest (next (wx g rd v)) ∧ x0_zero (next (wx g rd v)) ∧
  pc (next (wx g rd v)) = w32 (pc g + 4).
Proof.
  intros ? ? [? ?] ?. destruct (next_inv (wx g rd v)); [by apply wx_wf|by apply wx_x0|].
  split; [done|]. split; [done|]. simpl. unfold wx. by destruct (rd =? 0).
Qed.

Lemma rx_word g i : wf_guest g → word32 (rx g i).
Proof. intros. unfold rx. destruct (i =? 0); [done|auto with hyrule]. Qed.

Lemma opi_word o a imm : word32 a → word32 (opi_val o a imm).
Proof. intros. destruct o; simpl; auto with hyrule. Qed.

Lemma op_word o a b : word32 a → word32 b → word32 (op_val o a b).
Proof. intros. destruct o; simpl; auto with hyrule. Qed.

Lemma shift_word o a n : word32 a → 0 <= n → word32 (shift_val o a n).
Proof.
  intros Ha Hn. destruct o; simpl; auto with hyrule.
  rewrite <- Z.shiftr_div_pow2 by lia. auto with hyrule.
Qed.

Lemma muldiv_word o a b : word32 a → word32 b → word32 (muldiv_val o a b).
Proof.
  intros Ha Hb. destruct o; simpl; auto with hyrule;
    destruct (Z.eqb_spec b 0); auto with hyrule;
    try (destruct (div_word a b); by auto);
    destruct ((_ =? _) && (_ =? _)); auto with hyrule; done.
Qed.

Lemma load_word o v : word32 (load_val o v).
Proof. destruct o; simpl; auto with hyrule. Qed.

Lemma returns_wf f l g w v g' w' :
  hc_good w → wf_guest g → hc_call f l g w = Returns v g' w' → wf_guest g' ∧ hc_good w'.
Proof. intros Hg Hwf E. pose proof (hc_wf f l g w Hg Hwf) as Hw. by rewrite E in Hw. Qed.

Lemma returns_pc f l g w v g' w' :
  hc_good w → wf_guest g → hc_call f l g w = Returns v g' w' → memory_call f = true → pc g' = pc g.
Proof. intros Hg Hwf E Hm. exact (hc_pc _ _ _ _ _ _ _ Hm Hg Hwf E). Qed.

(** An instruction that goes on to the next one leaves a well-formed guest. *)
Lemma rv_exec_inv i g w g' w' :
  valid i → wf_guest g → x0_zero g → hc_good w → rv_exec i g w = RvOk false g' w' →
  (wf_guest g' ∧ x0_zero g' ∧ pc g' = w32 (pc g + 4)) ∧ hc_good w'.
Proof.
  intros Hv Hwf Hz Hgood He. destruct i; simpl in Hv, He; simplify_eq; try (split; [|exact Hgood]).
  - apply next_wx_inv; try done; [apply Hv|]. destruct Hv. unfold word32. lia.
  - apply next_wx_inv; auto with hyrule. apply Hv.
  - destruct (hc_call _ _ g w) as [v g1 w1| |] eqn:E; simplify_eq/=.
    destruct (returns_wf _ _ _ _ _ _ _ Hgood Hwf E) as [Hwf1 Hgood1]. split; [|done].
    rewrite <- (returns_pc _ _ _ _ _ _ _ Hgood Hwf E) by (by destruct o).
    apply next_wx_inv; auto using load_word; [|apply Hv].
    eapply hc_x0; [|exact Hgood|exact Hwf|exact Hz|exact E]. by destruct o.
  - destruct (hc_call _ _ g w) as [v g1 w1| |] eqn:E; simplify_eq/=.
    destruct (returns_wf _ _ _ _ _ _ _ Hgood Hwf E) as [Hwf2 Hgood2]. split; [|done].
    rewrite <- (returns_pc _ _ _ _ _ _ _ Hgood Hwf E) by (by destruct o).
    destruct (next_inv g1); auto.
    eapply hc_x0; [|exact Hgood|exact Hwf|exact Hz|exact E]. by destruct o.
  - apply next_wx_inv; auto using opi_word, rx_word. apply Hv.
  - apply next_wx_inv; auto; [apply Hv|]. apply shift_word; [by apply rx_word|]. lia.
  - apply next_wx_inv; auto using op_word, rx_word. apply Hv.
  - apply next_wx_inv; auto; [apply Hv|]. apply shift_word; [by apply rx_word|].
    apply Z.mod_pos_bound. lia.
  - apply next_wx_inv; auto using muldiv_word, rx_word. apply Hv.
  - destruct (hc_call _ _ g w) as [v g1 w1| |] eqn:E; simplify_eq/=.
    destruct (returns_wf _ _ _ _ _ _ _ Hgood Hwf E) as [Hwf1 Hgood1]. split; [|done].
    rewrite <- (returns_pc _ _ _ _ _ _ _ Hgood Hwf E) by done.
    destruct (next_inv (set_gpr g1 0 0)); [by apply set_gpr_wf|by apply gpr_set_eq|done].
  - destruct (next_inv g); auto.
  - by destruct (hc_call _ _ g w).
  - by destruct (hc_call _ _ g w).
Qed.

Lemma call_next f l g w v g1 w1 :
  hc_call f l g w = Returns v g1 w1 → writes_x0 f = false → wf_guest g → x0_zero g → hc_good w →
  (wf_guest (next g1) ∧ x0_zero (next g1)) ∧ hc_good w1.
Proof.
  intros E Hf Hwf Hz Hg. destruct (returns_wf _ _ _ _ _ _ _ Hg Hwf E). split; [|done].
  apply next_inv; [done|exact (hc_x0 _ _ _ _ _ _ _ Hf Hg Hwf Hz E)].
Qed.

(** An instruction that leaves the cache leaves a well-formed guest. *)
Lemma rv_leave_inv i g w g' w' :
  valid i → wf_guest g → x0_zero g → hc_good w → rv_exec i g w = RvOk true g' w' →
  (wf_guest g' ∧ x0_zero g') ∧ hc_good w'.
Proof.
  intros Hv Hwf Hz Hg.
  assert (Hcall : ∀ f l k, after_call (hc_call f l g w) k = RvOk true g' w' →
    (∀ v g1 w1, hc_call f l g w = Returns v g1 w1 → k v g1 w1 = RvOk true g' w' →
      (wf_guest g' ∧ x0_zero g') ∧ hc_good w') → (wf_guest g' ∧ x0_zero g') ∧ hc_good w').
  { intros f l k He Hk. pose proof (hc_wf f l g w Hg Hwf) as Hw.
    destruct (hc_call f l g w) as [v g1 w1|g1 w1|e] eqn:E; simplify_eq/=; [by eapply Hk|].
    destruct Hw. split; [|done]. split; [done|]. exact (hc_trap_x0 _ _ _ _ _ _ Hg Hwf Hz E). }
  destruct i; simpl in *; try done; try (intros He; apply (Hcall _ _ _ He); intros v g1 w1 E; done).
  - intros [= <- <-]. destruct Hv as [[Hrd _] _]. split; [|done].
    split; [apply set_pc_wf; auto using wx_wf with hyrule|by apply wx_x0].
  - intros [= <- <-]. destruct Hv as [[Hrd _] _]. split; [|done].
    split; [apply set_pc_wf; auto using wx_wf with hyrule|by apply wx_x0].
    set (u := w32 _). assert (Hu : word32 u) by apply w32_word. clearbody u. clear Hcall.
    unfold word32 in *. pose proof (Z.mod_pos_bound u 2). pose proof (Z.mod_le u 2). lia.
  - intros [= <- <-]. split; [|done]. destruct (taken _ _ _); [|by apply next_inv].
    split; [|done]. auto with hyrule.
  - intros He. apply (Hcall _ _ _ He). intros v g1 w1 E [= <- <-]. by apply (call_next _ _ _ _ _ _ _ E).
  - intros He. apply (Hcall _ _ _ He). intros v g1 w1 E [= <- <-]. by apply (call_next _ _ _ _ _ _ _ E).
Qed.

End machine.

(** ** The cache holds the program *)
Section cache.
Context {W : Type} `{HC : HostCalls W} {HCok : HostCallsOk W} (H : Z) (HH : hart_addr H).
Context (TRANSLATION_SIZE : string → Z) (jumper_size : Z).
Context (Hsz : sizes_ok TRANSLATION_SIZE jumper_size).
Context (program : Z → option instr) (fetch : Z → outcome Z) (lo : Z).

(** The program as the emulator finds it in memory: valid instructions inside a
    window of 2^31 bytes, where only a unit-ending instruction is last. *)
Record program_ok : Prop := {
  prog_valid : ∀ p i, program p = Some i → valid i;
  prog_window : ∀ p i, program p = Some i → in_window lo p;
  prog_fetch : ∀ p i, program p = Some i → fetch p = Ok (encode i);
  prog_next : ∀ p i, program p = Some i → ends_unit i = false →
    is_Some (program (w32 (p + 4)))
}.

Context (Hprog : program_ok).

Notation rep := (rep TRANSLATION_SIZE jumper_size lo).
Notation total := (total TRANSLATION_SIZE jumper_size).

(** [tail]: the pc the next appended block must have when the last block falls
    through; [None] when nothing falls off the end. *)
Definition next_ok (tail : option Z) (q : Z) (L : list slot) : Prop :=
  match L with
  | [] => tail = Some q
  | Jmp :: _ => True
  | Blk p _ _ :: _ => p = q
  end.

Fixpoint linked (tail : option Z) (L : list slot) : Prop :=
  match L with
  | [] => True
  | Jmp :: L => linked tail L
  | Blk p t ps :: L =>
      (∃ i, program p = Some i ∧ simulates H p t ps i ∧
            (ends_unit i = false → next_ok tail (w32 (p + 4)) L)) ∧ linked tail L
  end.

Lemma linked_weaken tail L : linked None L → linked tail L.
Proof.
  induction L as [|[p t ps|] L IH]; simpl; [done| |done].
  intros [(i & Hi & Hs & Hn) HL]. split; [|auto]. exists i. split_and!; try done.
  intros He. specialize (Hn He). destruct L as [|[]]; done.
Qed.

(** Closing the unit with a jumper. *)
Lemma linked_jump tail L : linked tail L → linked None (L ++ [Jmp]).
Proof.
  induction L as [|[p t ps|] L IH]; simpl; [done| |done].
  intros [(i & Hi & Hs & Hn) HL]. split; [|auto]. exists i. split_and!; try done.
  intros He. specialize (Hn He). destruct L as [|[]]; done.
Qed.

(** Appending the block the unit waits for. *)
Lemma linked_snoc L q t ps i tail :
  linked (Some q) L → program q = Some i → simulates H q t ps i →
  (ends_unit i = false → tail = Some (w32 (q + 4))) → linked tail (L ++ [Blk q t ps]).
Proof.
  intros HL Hi Hs Ht. induction L as [|[p t' ps'|] L IH]; simpl in *.
  - split; [|done]. exists i. done.
  - destruct HL as [(i' & Hi' & Hs' & Hn) HL]. split; [|auto]. exists i'. split_and!; try done.
    intros He. specialize (Hn He). destruct L as [|[]]; simpl in *; congruence.
  - auto.
Qed.

Notation one := (prefetch_one_instruction TRANSLATION_SIZE jumper_size fetch).
Notation loop := (prefetch_loop TRANSLATION_SIZE jumper_size fetch).

(** One step of prefetching: the cache is full, or the block of the pc is
    appended (to the empty cache after a flush). *)
(** No block of [i] fits the cache any more. *)
Definition full (h : hart) : Prop :=
  ∃ s, unoccupied_cache_size jumper_size h < TRANSLATION_SIZE s.

(** A unit that starts at [q] has at most [n] instructions. *)
Fixpoint unit_within (n : nat) (q : Z) : bool :=
  match n, program q with
  | S n, Some i => ends_unit i || unit_within n (w32 (q + 4))
  | _, _ => false
  end.

Lemma prefetch_one_ok h L q i fl :
  rep h L → linked (Some q) L → program q = Some i → q ∉ pcs L →
  ∃ blob' h', one (mk_blob q false fl) h = Ok (blob', h') ∧
    ((blob' = mk_blob q true fl ∧ fl = false ∧ h' = h) ∨
     (∃ L0 t ps, (L0 = L ∨ (fl = true ∧ L0 = [] ∧ full h)) ∧
        blob' = (if ends_unit i then mk_blob q true false else mk_blob (w32 (q + 4)) false false) ∧
        rep h' (L0 ++ [Blk q t ps]) ∧
        linked (Some (w32 (q + 4))) (L0 ++ [Blk q t ps]) ∧
        translation_cache_ptr h' + jumper_size <= TRANSLATION_CACHE_SIZE)).
Proof.
  intros Hrep Hlk Hi Hnot. unfold prefetch_one_instruction. cbn [next_instruction_to_fetch].
  rewrite (prog_fetch Hprog _ _ Hi). cbn [mbind outcome_bind].
  pose proof (prog_window Hprog _ _ Hi) as Hwin.
  destruct (dispatch H HH TRANSLATION_SIZE jumper_size i (prog_valid Hprog _ _ Hi)) as (f & -> & Hf).
  destruct (Hf q (proj1 Hwin)) as (t & ps & Hlen & Hsim & Heq). rewrite Heq by done.
  destruct (translator_rep TRANSLATION_SIZE jumper_size Hsz lo h L (mk_blob q false fl) t ps
    (if ends_unit i then stop_fetch else fetch_next) Hrep Hwin Hnot Hlen)
    as (blob' & h' & Hrun & Hcase).
  unfold translator. rewrite Hrun. exists blob', h'. split; [done|].
  destruct Hcase as [(-> & ? & ->)|(L0 & HL0 & -> & Hrep' & Hb)]; [by left|right].
  exists L0, t, ps. split; [unfold full; naive_solver|]. split; [by destruct (ends_unit i)|].
  split; [done|]. split; [|done]. eapply linked_snoc; [|done|done|done].
  destruct HL0 as [->|(_ & -> & _)]; done.
Qed.

Lemma pcs_block L q t ps : q ∈ pcs (L ++ [Blk q t ps]).
Proof. rewrite pcs_app. set_solver. Qed.

(** The rest of the unit, once the chance to flush is used up. *)
Lemma prefetch_loop_ok fuel h L q i :
  rep h L → linked (Some q) L → program q = Some i →
  MAX_INSTRUCTIONS_TOTRANSLATE - nr_translated_instructions h < Z.of_nat fuel →
  translation_cache_ptr h + jumper_size <= TRANSLATION_CACHE_SIZE →
  ∃ blob' h' ext q', loop fuel (mk_blob q false false) h = Ok (blob', h') ∧
    rep h' (L ++ ext) ∧ linked (Some q') (L ++ ext) ∧
    translation_cache_ptr h' + jumper_size <= TRANSLATION_CACHE_SIZE ∧
    ∀ n, unit_within n q → (length ext <= n)%nat.
Proof.
  revert h L q i. induction fuel as [|fuel IH]; intros h L q i Hrep Hlk Hi Hf Hb.
  { pose proof (rep_max _ _ _ _ _ Hrep). lia. }
  cbn [prefetch_loop next_instruction_to_fetch].
  destruct (search_rep TRANSLATION_SIZE jumper_size Hsz lo h L q Hrep (prog_window Hprog _ _ Hi))
    as [(L1 & t & ps & L2 & -> & ->)|[Hnot ->]]; cbn [mbind outcome_bind].
  { eexists _, h, [], q. rewrite app_nil_r. split_and!; try done. simpl. lia. }
  destruct (prefetch_one_ok h L q i false Hrep Hlk Hi Hnot) as (blob' & h' & -> & Hcase).
  cbn [mbind outcome_bind]. destruct Hcase as [(-> & _ & ->)|(L0 & t & ps & HL0 & -> & Hr & Hl & Hb')].
  { eexists _, h, [], q. rewrite app_nil_r. split_and!; try done. simpl. lia. }
  destruct HL0 as [->|[? _]]; [|done].
  destruct (ends_unit i) eqn:He; cbn [is_to_stop].
  { eexists _, h', [Blk q t ps], _. split_and!; try done. intros [|n] Hn; [done|simpl; lia]. }
  destruct (prog_next Hprog _ _ Hi He) as [i' Hi'].
  destruct (IH h' _ _ _ Hr Hl Hi') as (b & h2 & ext & q' & Hrun & Hr2 & Hl2 & Hb2 & Hlen); [|done|].
  - rewrite (rep_nr _ _ _ _ _ Hr), items_app, length_app. rewrite (rep_nr _ _ _ _ _ Hrep) in Hf.
    simpl. lia.
  - exists b, h2, (Blk q t ps :: ext), q'. rewrite <- app_assoc in Hr2, Hl2. split_and!; try done.
    intros [|n]; simpl; [done|]. rewrite Hi, He. intros Hn. specialize (Hlen n Hn). lia.
Qed.

Strategy opaque [prefetch_fuel].

(** What prefetching leaves behind.  The last case is a flush after which the
    new blocks end exactly where the old ones did: the code compares only the
    two pointers and appends no jumper, so the last block may run into what lies
    behind the unit. *)
Definition prefetched (h h' : hart) (p : Z) (L' : list slot) : Prop :=
  rep h' L' ∧ p ∈ pcs L' ∧ translation_cache_ptr h' <= TRANSLATION_CACHE_SIZE ∧
  (linked None L' ∨
   (full h ∧ translation_cache_ptr h' = translation_cache_ptr h ∧ ∃ q, linked (Some q) L')).

Lemma loop_first h L p i :
  rep h L → linked None L → program p = Some i →
  translation_cache_ptr h <= TRANSLATION_CACHE_SIZE →
  (p ∈ pcs L ∧ loop prefetch_fuel (mk_blob p false true) h = Ok (mk_blob p false true, h)) ∨
  ∃ blob' h' L0 t ps ext q, loop prefetch_fuel (mk_blob p false true) h = Ok (blob', h') ∧
    p ∉ pcs L ∧ (L0 = L ∨ (L0 = [] ∧ full h)) ∧ rep h' (L0 ++ Blk p t ps :: ext) ∧
    linked (Some q) (L0 ++ Blk p t ps :: ext) ∧
    translation_cache_ptr h' + jumper_size <= TRANSLATION_CACHE_SIZE ∧
    ∀ n, unit_within n p → (length ext < n)%nat.
Proof.
  intros Hrep Hlk Hi Hb.
  assert (prefetch_fuel = S (Z.to_nat (MAX_INSTRUCTIONS_TOTRANSLATE + 1))) as -> by reflexivity.
  cbn [prefetch_loop next_instruction_to_fetch].
  destruct (search_rep TRANSLATION_SIZE jumper_size Hsz lo h L p Hrep (prog_window Hprog _ _ Hi))
    as [(L1 & t & ps & L2 & -> & ->)|[Hnot ->]]; cbn [mbind outcome_bind].
  { left. split; [|done]. rewrite pcs_app. set_solver. }
  right. destruct (prefetch_one_ok h L p i true Hrep (linked_weaken _ _ Hlk) Hi Hnot)
    as (blob' & h' & -> & Hcase). cbn [mbind outcome_bind].
  destruct Hcase as [(_ & ? & _)|(L0 & t & ps & HL0 & -> & Hr & Hl & Hb')]; [done|].
  assert (L0 = L ∨ (L0 = [] ∧ full h)) by naive_solver.
  destruct (ends_unit i) eqn:He; cbn [is_to_stop].
  { eexists _, h', L0, t, ps, [], _. split_and!; try done. intros [|n] Hn; [done|simpl; lia]. }
  destruct (prog_next Hprog _ _ Hi He) as [i' Hi'].
  destruct (prefetch_loop_ok (Z.to_nat (MAX_INSTRUCTIONS_TOTRANSLATE + 1)) h' _ _ _ Hr Hl Hi')
    as (b & h2 & ext & q' & Hrun & Hr2 & Hl2 & Hb2 & Hlen); [|done|].
  - rewrite (rep_nr _ _ _ _ _ Hr). lia.
  - rewrite <- app_assoc in Hr2, Hl2. eexists b, h2, L0, t, ps, ext, q'. split_and!; try done.
    intros [|n]; simpl; [done|]. rewrite Hi, He. intros Hn. specialize (Hlen n Hn). lia.
Qed.

Lemma prefetch_ok h L p i :
  rep h L → linked None L → program p = Some i →
  translation_cache_ptr h <= TRANSLATION_CACHE_SIZE →
  ∃ h' L', prefetch_instructions TRANSLATION_SIZE jumper_size fetch p h = Ok h' ∧
    prefetched h h' p L' ∧ (p ∈ pcs L → h' = h ∧ L' = L).
Proof.
  intros Hrep Hlk Hi Hb. unfold prefetch_instructions.
  destruct (loop_first h L p i Hrep Hlk Hi Hb) as
    [[Hin Hrun]|(blob' & h' & L0 & t & ps & ext & q & Hrun & Hnot & HL0 & Hr & Hl & Hb' & _)];
    rewrite Hrun; cbn [mbind outcome_bind].
  { rewrite Z.eqb_refl. cbn [negb]. exists h, L.
    split; [done|]. split; [|done]. unfold prefetched. auto. }
  assert (Hp : p ∈ pcs (L0 ++ Blk p t ps :: ext)) by (rewrite pcs_app; set_solver).
  destruct (Z.eqb_spec (translation_cache_ptr h) (translation_cache_ptr h')) as [Heq|Hne];
    cbn [negb].
  - exists h', (L0 ++ Blk p t ps :: ext). split; [done|]. split; [|done].
    unfold prefetched. pose proof (jumper_pos _ _ Hsz). split_and!; try done; [lia|right].
    split_and!; [|done|by exists q]. destruct HL0 as [->|[-> Hfull]]; [|done]. exfalso.
    rewrite (rep_ptr _ _ _ _ _ Hr), (rep_ptr _ _ _ _ _ Hrep), total_app in Heq. cbn [Hart.total] in Heq.
    pose proof (total_nonneg _ _ Hsz ext). pose proof (slot_size_pos _ _ Hsz (Blk p t ps)). lia.
  - eexists _, ((L0 ++ Blk p t ps :: ext) ++ [Jmp]). split; [reflexivity|]. split; [|done].
    unfold prefetched. split; [by apply jumper_rep|]. split; [rewrite pcs_app; set_solver|].
    split; [simpl; lia|left]. by eapply linked_jump.
Qed.

(** ** Short units keep their jumper

    The units of the program have at most [n] instructions, the templates
    between [smin] and [smax] bytes, and [n] templates and a jumper are smaller
    than a full cache: then the cache never ends after a flush where it ended before. *)
Record short_units (n : nat) (smin smax : Z) : Prop := {
  su_units : ∀ p i, program p = Some i → unit_within n p;
  su_sizes : ∀ s, smin <= TRANSLATION_SIZE s <= smax;
  su_jumper : jumper_size <= smax;
  su_count : Z.of_nat n * smax + jumper_size < MAX_INSTRUCTIONS_TOTRANSLATE * smin;
  su_bytes : (Z.of_nat n + 1) * smax + 2 * jumper_size <= TRANSLATION_CACHE_SIZE
}.

Lemma total_upper n smin smax L : short_units n smin smax → total L <= Z.of_nat (length L) * smax.
Proof.
  intros Hs. induction L as [|x L IH]; [done|]. cbn [Hart.total length].
  assert (cell_size TRANSLATION_SIZE jumper_size (slot_cell x) <= smax).
  { destruct x; simpl; [apply (su_sizes _ _ _ Hs)|apply Hs]. }
  lia.
Qed.

Lemma total_lower n smin smax off L :
  short_units n smin smax →
  Z.of_nat (length (items TRANSLATION_SIZE jumper_size off L)) * smin <= total L.
Proof.
  intros Hs. revert off. induction L as [|x L IH]; intros off; [done|]. cbn [Hart.total Hart.items].
  pose proof (slot_size_pos _ _ Hsz x). destruct x as [p t ps|]; cbn [length].
  - specialize (IH (off + TRANSLATION_SIZE (indicator t))).
    pose proof (su_sizes _ _ _ Hs (indicator t)). simpl in *. lia.
  - specialize (IH (off + jumper_size)). simpl in *. lia.
Qed.

(** A full cache is larger than a unit. *)
Lemma full_large n smin smax h L :
  short_units n smin smax → rep h L → full h →
  Z.of_nat n * smax + jumper_size < translation_cache_ptr h.
Proof.
  intros Hs Hr [s Hf]. unfold unoccupied_cache_size in Hf.
  pose proof (su_sizes _ _ _ Hs s). pose proof (su_bytes _ _ _ Hs). pose proof (su_count _ _ _ Hs).
  destruct (Z.ltb_spec (nr_translated_instructions h) MAX_INSTRUCTIONS_TOTRANSLATE); [lia|].
  pose proof (total_lower _ _ _ 0 L Hs) as Ht. rewrite <- (rep_nr _ _ _ _ _ Hr) in Ht.
  rewrite (rep_ptr _ _ _ _ _ Hr). pose proof (size_pos _ _ Hsz s).
  replace (nr_translated_instructions h) with MAX_INSTRUCTIONS_TOTRANSLATE in Ht
    by (pose proof (rep_max _ _ _ _ _ Hr); lia). lia.
Qed.

Lemma prefetch_moves n smin smax h L p i h' :
  short_units n smin smax → rep h L → linked None L → program p = Some i →
  translation_cache_ptr h <= TRANSLATION_CACHE_SIZE → p ∉ pcs L →
  prefetch_instructions TRANSLATION_SIZE jumper_size fetch p h = Ok h' →
  translation_cache_ptr h' ≠ translation_cache_ptr h.
Proof.
  intros Hs Hrep Hlk Hi Hb Hnot. unfold prefetch_instructions.
  destruct (loop_first h L p i Hrep Hlk Hi Hb) as
    [[Hin _]|(blob' & h1 & L0 & t & ps & ext & q & Hrun & _ & HL0 & Hr & _ & _ & Hlen)]; [done|].
  rewrite Hrun. cbn [mbind outcome_bind].
  assert (translation_cache_ptr h < translation_cache_ptr h1 ∨
          translation_cache_ptr h1 + jumper_size < translation_cache_ptr h) as Hne.
  { rewrite (rep_ptr _ _ _ _ _ Hr), total_app. destruct HL0 as [->|[-> Hfull]]; [left|right].
    - rewrite (rep_ptr _ _ _ _ _ Hrep). cbn [Hart.total]. pose proof (total_nonneg _ _ Hsz ext).
      pose proof (slot_size_pos _ _ Hsz (Blk p t ps)). lia.
    - pose proof (full_large _ _ _ _ _ Hs Hrep Hfull).
      pose proof (total_upper _ _ _ (Blk p t ps :: ext) Hs).
      specialize (Hlen n (su_units _ _ _ Hs _ _ Hi)).
      pose proof (su_sizes _ _ _ Hs ""). pose proof (size_pos _ _ Hsz "").
      assert (Z.of_nat (length (Blk p t ps :: ext)) * smax <= Z.of_nat n * smax)
        by (apply Z.mul_le_mono_nonneg_r; cbn [length]; lia).
      cbn [Hart.total app] in *. lia. }
  pose proof (jumper_pos _ _ Hsz).
  destruct (Z.eqb_spec (translation_cache_ptr h) (translation_cache_ptr h1)); cbn [negb]; [lia|].
  intros [= <-]. cbn [append_jumper translation_cache_ptr]. lia.
Qed.

(** ** A run of the cache is a run of the program *)

Notation run := (run_cache H TRANSLATION_SIZE).

(** How the end of a visit of the cache answers a unit of the program. *)
Definition answers (x : xres) (r : rvres W) : Prop :=
  match r with
  | RvOk _ g w => ∃ s, x = XVmm s ∧ entry H s ∧ hart_guest s = g ∧ host s = w
  | RvErr e => x = XErr e
  end.

Lemma run_jumper fuel tc off (s : xstate W) :
  tc !! off = Some CJumper → entry H s →
  answers (run (S fuel) tc off s) (RvOk true (hart_guest s) (host s)).
Proof.
  intros Hl (H12 & H14 & H15). cbn [run_cache]. rewrite Hl.
  destruct s as [q fl st g w]. destruct q. eexists. split; [reflexivity|]. done.
Qed.

Lemma cell_at h L1 x L2 :
  rep h (L1 ++ x :: L2) → translation_cache h !! total L1 = Some (slot_cell x).
Proof. intros Hr. pose proof (rep_placed _ _ _ _ _ Hr) as [_ [Hx _]]%placed_app. done. Qed.

Lemma total_snoc L p t ps : total (L ++ [Blk p t ps]) = total L + TRANSLATION_SIZE (indicator t).
Proof. rewrite total_app. simpl. lia. Qed.

Lemma linked_split tail L1 L2 : linked tail (L1 ++ L2) → linked tail L2.
Proof. induction L1 as [|[] L1 IH]; simpl; [done| |done]. intros [_ ?]. auto. Qed.

Lemma run_ok h L1 p t ps L2 fuel (s : xstate W) :
  rep h (L1 ++ Blk p t ps :: L2) → linked None (L1 ++ Blk p t ps :: L2) →
  entry H s → wf_guest (hart_guest s) → x0_zero (hart_guest s) → hc_good (host s) → pc (hart_guest s) = p →
  runnable program (hart_guest s) (host s) → (length (Blk p t ps :: L2) <= fuel)%nat →
  ∃ r, unit_run program (hart_guest s) (host s) r ∧
    answers (run fuel (translation_cache h) (total L1) s) r.
Proof.
  revert L1 p t ps fuel s. induction L2 as [|x L2 IH];
    intros L1 p t ps fuel s Hr Hl He Hwf Hz Hgood Hpc Hrun Hf; (destruct fuel as [|fuel]; [simpl in Hf; lia|]);
    cbn [run_cache]; rewrite (cell_at _ _ _ _ Hr); cbn [slot_cell];
    apply linked_split in Hl as Hl'; destruct Hl' as [(i & Hi & Hsim & Hn) HlL2];
    rewrite <- Hpc in Hi; destruct (runnable_here _ _ _ _ Hrun Hi) as [Hbp Hdiv];
    specialize (Hsim s He Hwf Hz Hpc Hgood Hbp Hdiv); unfold agrees in Hsim;
    (destruct (rv_exec i (hart_guest s) (host s)) as [[] g' w'|e] eqn:Hex;
      [destruct Hsim as (s' & -> & He' & Hg & Hw & _); exists (RvOk true g' w');
       split; [by eapply unit_leave|by eexists]
      |destruct Hsim as (s' & -> & He' & Hg & Hw & _)
      |exists (RvErr e); split; [by eapply unit_error|simpl; by rewrite Hsim]]).
  - exfalso. destruct (ends_unit i) eqn:Hend; [|by specialize (Hn eq_refl)].
    by destruct i; simpl in *; try discriminate; destruct (hc_call _ _ _ _).
  - destruct (rv_exec_inv i _ _ _ _ (prog_valid Hprog _ _ Hi) Hwf Hz Hgood Hex) as [(Hwf' & Hz' & Hpc') Hgood'].
    assert (Hend : ends_unit i = false).
    { destruct (ends_unit i) eqn:Hend; [|done].
      destruct i; simpl in *; try discriminate; by destruct (hc_call _ _ _ _). }
    specialize (Hn Hend). rewrite <- total_snoc with (p := p) (ps := ps).
    rewrite cons_middle, app_assoc in Hr, Hl. subst g' w'. destruct x as [p2 t2 ps2|]; simpl in Hn.
    + subst p2. destruct (IH (L1 ++ [Blk p t ps]) (w32 (p + 4)) t2 ps2 fuel s') as (r & Hu & Ha);
        try done; [by rewrite Hpc', Hpc|by eapply runnable_step|simpl in *; lia|].
      exists r. split; [by eapply unit_next|done].
    + destruct fuel as [|fuel]; [simpl in Hf; lia|].
      eexists. split; [by eapply unit_pause|]. apply run_jumper; [|done].
      by rewrite (cell_at _ _ _ _ Hr).
Qed.

(** The cache has no more cells than bytes. *)
Lemma length_total L : Z.of_nat (length L) <= total L.
Proof.
  induction L as [|x L IH]; [done|]. pose proof (slot_size_pos _ _ Hsz x).
  cbn [length Hart.total]. lia.
Qed.

(** [vmresume] on a hart whose cache holds the program.  It
    translates what is missing, finds the block of the pc and runs it; the run
    is an execution of one or more instructions of the guest program in order,
    ending where control is handed back with exactly the guest state and
    process state of that execution, or in the error it ends in; the cache it
    leaves is well formed again and within its 64 KB.  The one hypothesis on
    the cache: if the unit was not translated before, translating it moved the
    cache pointer (see [jumper_missing]). *)
Lemma vmresume_refines h L (g : guest) (w : W) i q st :
  rep h L → linked None L → translation_cache_ptr h <= TRANSLATION_CACHE_SIZE →
  program (pc g) = Some i → wf_guest g → x0_zero g → hc_good w → runnable program g w →
  (pc g ∈ pcs L ∨ ∀ h', prefetch_instructions TRANSLATION_SIZE jumper_size fetch (pc g) h = Ok h' →
     translation_cache_ptr h' ≠ translation_cache_ptr h) →
  ∃ h' L' x r, vmresume H TRANSLATION_SIZE jumper_size fetch h g w q st = Ok (h', x) ∧
    unit_run program g w r ∧ answers x r ∧
    rep h' L' ∧ linked None L' ∧ translation_cache_ptr h' <= TRANSLATION_CACHE_SIZE.
Proof.
  intros Hrep Hlk Hb Hi Hwf Hz Hgood Hrun Hmove. unfold vmresume.
  destruct (prefetch_ok h L (pc g) i Hrep Hlk Hi Hb) as (h' & L' & Hp & (Hr & Hin & Hb' & Hl) & Hsame).
  assert (Hl' : linked None L').
  { destruct Hl as [|(_ & Heq & _)]; [done|]. destruct Hmove as [Hpc|Hne].
    - by destruct (Hsame Hpc) as [-> ->].
    - by destruct (Hne h' Hp). }
  rewrite Hp. cbn [mbind outcome_bind].
  destruct (search_rep TRANSLATION_SIZE jumper_size Hsz lo h' L' (pc g) Hr (prog_window Hprog _ _ Hi))
    as [(L1 & t & ps & L2 & -> & ->)|[Hn _]]; [|done]. cbn [mbind outcome_bind tc_offset].
  set (s := mk_xstate _ None st g w).
  destruct (run_ok h' L1 (pc g) t ps L2 run_fuel s) as (r & Hu & Ha); try done.
  { pose proof (length_total (L1 ++ Blk (pc g) t ps :: L2)) as Hlen.
    pose proof (rep_ptr _ _ _ _ _ Hr). rewrite length_app in Hlen.
    unfold run_fuel. apply Nat2Z.inj_le. rewrite Z2Nat.id by (unfold TRANSLATION_CACHE_SIZE; lia). lia. }
  eexists h', _, _, r. split_and!; done.
Qed.

(** C3: on every program of valid instructions in a window of 2 GB,
    [prefetch_instructions] at a pc of the program terminates within its fuel
    without failing, leaves the block of the pc in the cache and stays inside the
    64 KB and 512 entries.  It closes the unit: every block that falls through is
    followed by the block of the next pc or by a jumper; except when the cache was
    full, was flushed and ends afterwards at the offset where it ended before:
    then no jumper is written behind the last block.  A program whose units are
    short against the cache never meets the exception. *)
Theorem prefetch_instructions_correct h L p i :
  rep h L → linked None L → program p = Some i →
  translation_cache_ptr h <= TRANSLATION_CACHE_SIZE →
  ∃ h' L', prefetch_instructions TRANSLATION_SIZE jumper_size fetch p h = Ok h' ∧
    rep h' L' ∧ p ∈ pcs L' ∧ translation_cache_ptr h' <= TRANSLATION_CACHE_SIZE ∧
    nr_translated_instructions h' <= MAX_INSTRUCTIONS_TOTRANSLATE ∧
    (linked None L' ∨
     (full h ∧ translation_cache_ptr h' = translation_cache_ptr h ∧ ∃ q, linked (Some q) L')) ∧
    (∀ n smin smax, short_units n smin smax → linked None L').
Proof.
  intros Hrep Hlk Hi Hb.
  destruct (prefetch_ok h L p i Hrep Hlk Hi Hb) as (h' & L' & Hp & (Hr & Hin & Hb' & Hl) & Hsame).
  exists h', L'. split_and!; try done; [apply (rep_max _ _ _ _ _ Hr)|].
  intros n smin smax Hs. destruct Hl as [|(_ & Heq & _)]; [done|].
  destruct (decide (p ∈ pcs L)) as [Hpc|Hpc]; [by destruct (Hsame Hpc) as [-> ->]|].
  by destruct (prefetch_moves _ _ _ _ _ _ _ _ Hs Hrep Hlk Hi Hb Hpc Hp).
Qed.

End cache.

(** ** Single instructions *)
Section single.
Context {W : Type} `{HC : HostCalls W} {HCok : HostCallsOk W} (H : Z) (HH : hart_addr H).
Context (TRANSLATION_SIZE : string → Z) (jumper_size : Z).
Context (Hsz : sizes_ok TRANSLATION_SIZE jumper_size).

(** The hart has a block for [addr] whose host code implements [i]. *)
Definition has_block (h : hart) (addr : Z) (i : instr) : Prop :=
  ∃ t ps, block_at h addr t ps ∧ simulates H addr t ps i.

Lemma translated i addr lo h L fetch :
  valid i → in_window lo addr → rep TRANSLATION_SIZE jumper_size lo h L → addr ∉ pcs L →
  fetch addr = Ok (encode i) →
  ∃ blob h' t ps,
    prefetch_one_instruction TRANSLATION_SIZE jumper_size fetch (mk_blob addr false true) h = Ok (blob, h') ∧
    is_to_stop blob = ends_unit i ∧ block_at h' addr t ps ∧ simulates H addr t ps i.
Proof.
  intros Hv Hwin Hrep Hnot Hfetch. unfold prefetch_one_instruction. cbn [next_instruction_to_fetch].
  rewrite Hfetch. cbn [mbind outcome_bind].
  destruct (dispatch H HH TRANSLATION_SIZE jumper_size i Hv) as (f & -> & Hf).
  destruct (Hf addr (proj1 Hwin)) as (t & ps & Hlen & Hsim & Heq). rewrite Heq by done.
  destruct (translator_rep TRANSLATION_SIZE jumper_size Hsz lo h L (mk_blob addr false true) t ps
    (if ends_unit i then stop_fetch else fetch_next) Hrep Hwin Hnot Hlen)
    as (blob' & h' & Hrun & [(_ & ? & _)|(L0 & HL0 & -> & Hr & _)]); [done|].
  unfold translator. rewrite Hrun.
  eexists _, h', t, ps. split; [done|]. split; [by destruct (ends_unit i)|].
  split; [by eapply block_at_rep|done].
Qed.


(** The block entered for the instruction. *)
Definition enters (h : hart) (fetch : Z → outcome Z) (addr : Z) (t : template) (ps : list Z) : Prop :=
  ∃ blob h', prefetch_one_instruction TRANSLATION_SIZE jumper_size fetch (mk_blob addr false true) h = Ok (blob, h') ∧
    block_at h' addr t ps.

(** C4: the block [prefetch_one_instruction] enters for a valid instruction at a
    new address of the window, run from the start of the block with the hart's
    context registers, 32-bit words in the registers, zero in x0, no breakpoint at
    the pc and no division the host faults on, ends in one of three ways: it falls
    through to the next block, with the context registers restored, 32-bit words in
    the registers, zero in x0 again and the pc advanced by 4, and only if the
    instruction does not end a unit; it leaves to the monitor with the same
    invariant (its pc being where the instruction jumps, traps or returns to); or
    it stops with the error of the instruction. *)
Theorem block_keeps_invariant i addr lo h L fetch t ps (s : xstate W) :
  valid i → in_window lo addr → rep TRANSLATION_SIZE jumper_size lo h L → addr ∉ pcs L →
  fetch addr = Ok (encode i) → enters h fetch addr t ps →
  entry H s → wf_guest (hart_guest s) → x0_zero (hart_guest s) → pc (hart_guest s) = addr →
  hc_good (host s) → no_breakpoint (hart_guest s) (host s) → host_divides i (hart_guest s) →
  match exec H (code t) ps None s with
  | XNext s' =>
      entry H s' ∧ wf_guest (hart_guest s') ∧ x0_zero (hart_guest s') ∧ hc_good (host s') ∧
      pc (hart_guest s') = w32 (addr + 4) ∧ stack s' = stack s ∧ ends_unit i = false
  | XVmm s' => entry H s' ∧ wf_guest (hart_guest s') ∧ x0_zero (hart_guest s') ∧ hc_good (host s')
  | XErr e => rv_exec i (hart_guest s) (host s) = RvErr e
  end.
Proof.
  intros Hv Hwin Hrep Hnot Hfetch (blob & h1 & Hrun & Hblk) He Hwf Hz Hpc Hg Hb Hd.
  destruct (translated i addr lo h L fetch Hv Hwin Hrep Hnot Hfetch) as (blob' & h2 & t2 & ps2 & Hrun' & _ & Hblk' & Hsim).
  rewrite Hrun in Hrun'. injection Hrun' as <- <-. destruct Hblk as (off & Hs1 & Hl1), Hblk' as (off' & Hs2 & Hl2).
  rewrite Hs1 in Hs2. injection Hs2 as <-. rewrite Hl1 in Hl2. injection Hl2 as <- <-.
  specialize (Hsim s He Hwf Hz Hpc Hg Hb Hd). unfold agrees in Hsim.
  destruct (rv_exec i (hart_guest s) (host s)) as [[] g' w'|e] eqn:Hex; [| |by rewrite Hsim].
  - destruct Hsim as (s' & -> & He' & <- & <- & _).
    by destruct (rv_leave_inv i _ _ _ _ Hv Hwf Hz Hg Hex) as [[? ?] ?].
  - destruct Hsim as (s' & -> & He' & <- & <- & Hst).
    destruct (rv_exec_inv i _ _ _ _ Hv Hwf Hz Hg Hex) as [(? & ? & Hpc') ?]. split_and!; try done; [congruence|by apply Hst|].
    destruct i; try done; simpl in Hex; by destruct (hc_call _ _ _ _).
Qed.

End single.

(** ** A concrete machine *)

Definition demo_program (p : Z) : option instr :=
  if p =? 0x1000 then Some (OpImm ADDI 1 0 5) else if p =? 0x1004 then Some Ecall else None.

Definition demo_fetch (program : Z → option instr) (p : Z) : outcome Z :=
  match program p with Some i => Ok (encode i) | None => Err EAssert end.

Lemma demo_program_inv p i :
  demo_program p = Some i →
  (p = 0x1000 ∧ i = OpImm ADDI 1 0 5) ∨ (p = 0x1004 ∧ i = Ecall).
Proof. unfold demo_program. zbool; intros; simplify_eq; auto. Qed.

Lemma demo_ok : program_ok demo_program (demo_fetch demo_program) 0.
Proof.
  split; intros p i Hp.
  - destruct (demo_program_inv p i Hp) as [[_ ->]|[_ ->]]; simpl; unfold reg_ok, imm12_ok; lia.
  - destruct (demo_program_inv p i Hp) as [[-> _]|[-> _]]; split; try lia; done.
  - unfold demo_fetch. by rewrite Hp.
  - destruct (demo_program_inv p i Hp) as [[-> ->]|[-> ->]]; [|done]. by eexists.
Qed.

Lemma demo_runnable g : runnable demo_program g tt.
Proof.
  intros g1 [] _. split; [by exists 0|]. intros i Hi.
  by destruct (demo_program_inv _ i Hi) as [[_ ->]|[_ ->]].
Qed.

Lemma demo_short : short_units demo_size 12 demo_program 2 100 100.
Proof.
  split; [|done..]. intros p i Hp. destruct (demo_program_inv p i Hp) as [[-> _]|[-> _]]; by vm_compute.
Qed.

Lemma prefetch_instructions_correct_witness :
  ∃ h' L', prefetch_instructions demo_size 12 (demo_fetch demo_program) 0x1000 empty_hart = Ok h' ∧
    rep demo_size 12 0 h' L' ∧ 0x1000 ∈ pcs L' ∧
    translation_cache_ptr h' <= TRANSLATION_CACHE_SIZE ∧
    nr_translated_instructions h' <= MAX_INSTRUCTIONS_TOTRANSLATE ∧
    linked 64 demo_program None L'.
Proof.
  destruct (prefetch_instructions_correct 64 demo_addr demo_size 12 demo_sizes demo_program
    (demo_fetch demo_program) 0 demo_ok empty_hart [] 0x1000 (OpImm ADDI 1 0 5)) as (h' & L' & Hrun & Hr & Hin & Hb & Hn & _ & Hl).
  - apply empty_rep.
  - done.
  - done.
  - done.
  - exists h', L'. split_and!; try done. exact (Hl 2%nat 100 100 demo_short).
Defined.


Lemma block_keeps_invariant_witness :
  ∃ s', exec 64 (code TransImm.addi_instruction) [5; 0; 1] None (demo_state (demo_guest 0x1000)) = XNext s' ∧
    x0_zero (hart_guest s') ∧ pc (hart_guest s') = 0x1004.
Proof.
  assert (enters demo_size 12 empty_hart (demo_fetch demo_program) 0x1000 TransImm.addi_instruction [5; 0; 1]) as Hent.
  { eexists _, _. split; [vm_compute; reflexivity|]. eexists. split; vm_compute; reflexivity. }
  pose proof (block_keeps_invariant 64 demo_addr demo_size 12 demo_sizes (OpImm ADDI 1 0 5) 0x1000 0 empty_hart []
    (demo_fetch demo_program) TransImm.addi_instruction [5; 0; 1] (demo_state (demo_guest 0x1000))
    ltac:(simpl; unfold reg_ok, imm12_ok; lia) ltac:(split; [done|lia]) (empty_rep _ _ _) ltac:(apply not_elem_of_nil)
    eq_refl Hent ltac:(done) ltac:(by apply demo_wf) ltac:(done) eq_refl ltac:(done) ltac:(by exists 0) ltac:(done)) as Hinv.
  destruct (exec 64 _ _ _ _) as [s'|s'|e] eqn:Hx; [|by vm_compute in Hx|by vm_compute in Hx].
  exists s'. split; [done|]. destruct Hinv as (_ & _ & Hz & _ & Hpc & _). done.
Defined.

(** ** The missing jumper *)

(** Two units that end in a jump, then [lui] followed by [addi]. *)
Definition gap_program (p : Z) : option instr :=
  if p =? 0x1000 then Some (Jal 0 0) else
  if p =? 0x2000 then Some (Jal 0 0) else
  if p =? 0x3000 then Some (Lui 1 1) else
  if p =? 0x3004 then Some (OpImm ADDI 1 1 1) else
  if p =? 0x3008 then Some Ecall else None.

Definition gap_size (s : string) : Z :=
  if bool_decide (s = "lui_instruction") then 60020 else 30000.

Lemma gap_sizes : sizes_ok gap_size 10.
Proof. split; unfold gap_size; intros; try case_bool_decide; done. Qed.

(** The run of [gap_program]: two units fill the cache, then the one at [0x3000]
    is resumed; the answer of the run without the hart. *)
Definition gap_run : outcome (xres (W:=unit)) :=
  h1 ← prefetch_instructions gap_size 10 (demo_fetch gap_program) 0x1000 empty_hart;
  h2 ← prefetch_instructions gap_size 10 (demo_fetch gap_program) 0x2000 h1;
  r ← vmresume 64 gap_size 10 (demo_fetch gap_program) h2 (demo_guest 0x3000) tt demo_regs [];
  Ok r.2.

(** [prefetch_instructions] decides by the two cache pointers whether to
    append a jumper.  When a flush makes the new unit end where the old cache
    ended, the pointers agree, no jumper is written and the run leaves the last
    block into bytes that are not code. *)
Theorem jumper_missing : gap_run = Ok (XErr EUndef).
Proof. vm_compute. reflexivity. Qed.

End Refine.
