(* ===== verification/Vmm.v ===== *)
(** * The life of a task: [vmresume], the cache, [vmm_entry_point], [vmexit]

    A task runs by visits of its translation cache.  [vmresume] enters it, the
    code leaves through [vmm_entry_point] of vmm_trap.S, which switches to the
    stack of the hart and calls [vmexit]; [vmexit] lets the other tasks run when
    5 ms of processor time have passed and calls [vmresume] again, so that none
    of these calls ever returns ([vmpanic], an assertion, is behind the call).
    The file models the cycle and proves, for any C side that obeys the laws of
    [HostCalls], that any number of rounds is an execution of the guest program,
    that the cache stays well formed and that the host stack does not grow. *)
From S2P Require Import Prelude Decode X86 Rv32 Hart Sim Translation Refine.
Import Decode X86 Rv32 Hart Sim Translation Refine.

Module Vmm.

Section code.
Context {W : Type} `{HC : HostCalls W} (H : Z).
Context (TRANSLATION_SIZE : string → Z) (jumper_size : Z).
(** [mmu_instruction_read32] in the process at hand. *)
Context (mmu_instruction_read32 : W → Z → outcome Z).
(** The address of the global [offset_of_vmm_stack] and the stack of the hart. *)
Context (offset_of_vmm_stack vmm_stack_ptr : Z).
(** What [yield_cpu] leaves when the scheduler comes back to the task: the
    counter of the thread, which the other tasks use too, and the process. *)
Context (yield_cpu : Z → W → Z * W).

(** [vmm_entry_point] up to its call: [rsp] is the stack of the hart, on which
    only [r12] lies. *)
Definition vmm_entry_point (s : xstate W) : xstate W :=
  match s with
  | mk_xstate q _ _ g w =>
      mk_xstate (mk_regfile (rax q) (rbx q) (rcx q) (VInt vmm_stack_ptr) (VInt offset_of_vmm_stack) (r12 q)
                   (r8 q) (r12 q) (r13 q) (r14 q) (r15 q))
        None [r12 q] g w
  end.

Definition VMM_SCHED_MSECONDS : Z := 5.
Definition CLOCKS_PER_SEC : Z := 1000000.

(** [vmexit] up to its call of [vmresume]: the counter and the process. *)
Definition vmexit (now physical_thread_timestamp_counter : Z) (w : W) : Z * W :=
  let diff := now - physical_thread_timestamp_counter in
  let diff_in_mseconds := Z.quot diff (Z.quot CLOCKS_PER_SEC 1000) in
  if VMM_SCHED_MSECONDS <=? diff_in_mseconds then yield_cpu now w
  else (physical_thread_timestamp_counter, w).

(** What a round takes from outside: whether a callee flushed the translation
    cache, the clock, the host registers [vmresume] does not set, and the frames
    the calls of [vmexit] and [vmresume] leave on the stack. *)
Record tick := mk_tick {
  flushed : bool;
  now : Z;
  host_regs : regfile;
  frames : list xval
}.

(** The task between two rounds. *)
Record running_task := mk_task {
  cache : hart;
  cpu : guest;
  process : W;
  counter : Z;
  host_stack : list xval
}.

(** A round: [vmresume], the visit of the cache, [vmm_entry_point], [vmexit]. *)
Definition round (t : tick) (v : running_task) : outcome running_task :=
  '(h, x) ← vmresume H TRANSLATION_SIZE jumper_size (mmu_instruction_read32 (process v)) (cache v) (cpu v)
              (process v) (host_regs t) (host_stack v);
  let h := if flushed t then flush_translation_cache h else h in
  match x with
  | XVmm s =>
      let s := vmm_entry_point s in
      hartptr ← word_of (rdi (rf s));
      if hartptr =? H then
        let '(c, w) := vmexit (now t) (counter v) (host s) in
        Ok (mk_task h (hart_guest s) w c (frames t ++ stack s))
      else Err EUndef
  | XNext _ => Err EUndef
  | XErr e => Err e
  end.

Fixpoint rounds (ts : list tick) (v : running_task) : outcome running_task :=
  match ts with
  | [] => Ok v
  | t :: ts => v ← round t v; rounds ts v
  end.

End code.
Arguments running_task : clear implicits.
Arguments mk_task {W}.
Arguments cache {W}.
Arguments cpu {W}.
Arguments process {W}.
Arguments counter {W}.
Arguments host_stack {W}.

(** ** The task as the guest sees it *)
Section spec.
Context {W : Type} `{HC : HostCalls W} (program : Z → option instr) (yield_cpu : Z → W → Z * W).

Inductive outcome_of_run :=
| Running (g : guest) (w : W) (c : Z)
| Failed (e : err).

(** Units of the program; after each, the other tasks run if 5000 microseconds
    have passed since they last did. *)
Inductive task_run : list Z → guest → W → Z → outcome_of_run → Prop :=
| run_done g w c : task_run [] g w c (Running g w c)
| run_fails now nows g w c e :
    unit_run program g w (RvErr e) → task_run (now :: nows) g w c (Failed e)
| run_on now nows g w c g' w' r :
    unit_run program g w (RvOk true g' w') → now - c < 5000 →
    task_run nows g' w' c r → task_run (now :: nows) g w c r
| run_yields now nows g w c g' w' c2 w2 r :
    unit_run program g w (RvOk true g' w') → 5000 <= now - c → yield_cpu now w' = (c2, w2) →
    task_run nows g' w2 c2 r → task_run (now :: nows) g w c r.

End spec.
Arguments outcome_of_run : clear implicits.
Arguments Running {W}.
Arguments Failed {W}.

(** ** The emulator runs the guest *)
Section proof.
Context {W : Type} `{HC : HostCalls W} {HCok : HostCallsOk W} (H : Z) (HH : hart_addr H).
Context (TRANSLATION_SIZE : string → Z) (jumper_size : Z).
Context (Hsz : sizes_ok TRANSLATION_SIZE jumper_size).
Context (program : Z → option instr) (fetch : W → Z → outcome Z) (lo : Z).
Context (offset_of_vmm_stack vmm_stack_ptr : Z) (yield_cpu : Z → W → Z * W).
Context (n : nat) (smin smax : Z).

Notation rep := (rep TRANSLATION_SIZE jumper_size lo).
Notation linked := (linked H program None).
Notation round := (round H TRANSLATION_SIZE jumper_size fetch offset_of_vmm_stack vmm_stack_ptr yield_cpu).
Notation rounds := (rounds H TRANSLATION_SIZE jumper_size fetch offset_of_vmm_stack vmm_stack_ptr yield_cpu).
Notation task_run := (task_run program yield_cpu).

(** The other tasks leave the process good. *)
Definition yields_good : Prop := ∀ c w, hc_good w → hc_good (yield_cpu c w).2.

(** Wherever the task gets, the program is in memory at its pc, and the next
    unit meets no breakpoint and no division the host faults on. *)
Definition safe (g : guest) (w : W) (c : Z) : Prop :=
  ∀ nows g' w' c', task_run nows g w c (Running g' w' c') →
    is_Some (program (pc g')) ∧ runnable program g' w' ∧ program_ok program (fetch w') lo.

(** The state of the emulator between two rounds. *)
Record task_ok (v : running_task W) : Prop := {
  to_cache : ∃ L, rep (cache v) L ∧ linked L ∧ translation_cache_ptr (cache v) <= TRANSLATION_CACHE_SIZE;
  to_guest : wf_guest (cpu v);
  to_x0 : x0_zero (cpu v);
  to_good : hc_good (process v)
}.

Lemma flush_ok h L :
  rep h L → ∃ L', rep (flush_translation_cache h) L' ∧ linked L' ∧
    translation_cache_ptr (flush_translation_cache h) <= TRANSLATION_CACHE_SIZE.
Proof. intros Hr. exists []. split; [by eapply flush_rep|]. done. Qed.

(** A unit that ends without an error ends where control leaves the cache. *)
Lemma unit_run_leaves g w g' w' b : unit_run program g w (RvOk b g' w') → b = true.
Proof. intros Hu. remember (RvOk b g' w') as r eqn:Er. induction Hu; simplify_eq; auto. Qed.

Lemma unit_run_inv g w g' w' b :
  (∀ p i, program p = Some i → valid i) → unit_run program g w (RvOk b g' w') →
  wf_guest g → x0_zero g → hc_good w → (wf_guest g' ∧ x0_zero g') ∧ hc_good w'.
Proof.
  intros Hv Hu. remember (RvOk b g' w') as r eqn:Er. induction Hu; intros Hwf Hz Hg; simplify_eq.
  - by eapply rv_leave_inv; eauto.
  - edestruct @rv_exec_inv as [(? & ? & _) ?]; eauto.
  - destruct (rv_exec_inv i g w g'0 w'0) as [(? & ? & _) ?]; auto. by eapply Hv.
Qed.

(** The test of [vmexit] in microseconds. *)
Lemma vmexit_spec t c (w : W) :
  vmexit yield_cpu t c w = if decide (5000 <= t - c) then yield_cpu t w else (c, w).
Proof.
  unfold vmexit, VMM_SCHED_MSECONDS, CLOCKS_PER_SEC. change (Z.quot 1000000 1000) with 1000.
  destruct (decide _), (Z.leb_spec 5 (Z.quot (t - c) 1000)); try done; exfalso;
    Z.to_euclidean_division_equations; lia.
Qed.

Lemma vmexit_good t c w : yields_good → hc_good w → hc_good (vmexit yield_cpu t c w).2.
Proof. intros Hy Hg. rewrite vmexit_spec. case_decide; [by apply Hy|done]. Qed.

(** A round is a unit of the program and the visit of the scheduler after it. *)
Lemma round_refines t v :
  yields_good → short_units TRANSLATION_SIZE jumper_size program n smin smax →
  program_ok program (fetch (process v)) lo → is_Some (program (pc (cpu v))) →
  runnable program (cpu v) (process v) → task_ok v →
  (∃ e, unit_run program (cpu v) (process v) (RvErr e) ∧ round t v = Err e) ∨
  (∃ g' w' h', unit_run program (cpu v) (process v) (RvOk true g' w') ∧
    let '(c, w) := vmexit yield_cpu (now t) (counter v) w' in
    let v' := mk_task h' g' w c (frames t ++ [VInt H]) in
    round t v = Ok v' ∧ task_ok v').
Proof.
  intros Ht Hs Hp [i Hi] Hrun [(L & Hr & Hl & Hb) Hwf Hz Hg]. unfold Vmm.round.
  destruct (vmresume_refines H HH TRANSLATION_SIZE jumper_size Hsz program (fetch (process v)) lo Hp
    (cache v) L (cpu v) (process v) i (host_regs t) (host_stack v))
    as (h' & L' & x & r & -> & Hu & Ha & Hr' & Hl' & Hb'); try done.
  { destruct (decide (pc (cpu v) ∈ pcs L)); [by left|right]. intros h'.
    by eapply prefetch_moves. }
  cbn [mbind outcome_bind].
  set (h2 := if flushed t then _ else _).
  assert (∃ L, rep h2 L ∧ linked L ∧ translation_cache_ptr h2 <= TRANSLATION_CACHE_SIZE) as Hc.
  { subst h2. destruct (flushed t); [by eapply flush_ok|by exists L']. }
  clearbody h2. destruct r as [b g' w'|e]; cbn [answers] in Ha.
  - right. destruct Ha as (s & -> & (H12 & _) & <- & <-).
    exists (hart_guest s), (host s), h2. rewrite (unit_run_leaves _ _ _ _ _ Hu) in Hu.
    split; [done|]. destruct s as [q fl st g w]. cbn in H12 |- *. rewrite H12. cbn [word_of mbind outcome_bind].
    rewrite Z.eqb_refl. pose proof (vmexit_good (now t) (counter v) w Ht) as Hv. destruct (vmexit _ _ _ _) as [c w2].
    split; [done|]. destruct (unit_run_inv _ _ _ _ _ (prog_valid _ _ _ Hp) Hu Hwf Hz Hg) as [[] ?].
    split; try done. by apply Hv.
  - left. exists e. by rewrite Ha.
Qed.

Lemma run_step now nows g w c g' w' c2 w2 r :
  unit_run program g w (RvOk true g' w') → vmexit yield_cpu now c w' = (c2, w2) →
  task_run nows g' w2 c2 r → task_run (now :: nows) g w c r.
Proof.
  rewrite vmexit_spec. intros Hu Hv Hr. destruct (decide _); simplify_eq.
  - by eapply run_yields.
  - eapply run_on; [done|lia|done].
Qed.

Lemma safe_step now g w c g' w' c2 w2 :
  safe g w c → unit_run program g w (RvOk true g' w') → vmexit yield_cpu now c w' = (c2, w2) →
  safe g' w2 c2.
Proof. intros Hs Hu Hv nows g3 w3 c3 Hr. eapply Hs. by eapply run_step. Qed.

(** A task under the emulator, for any number of rounds of [vmresume], the
    translated code, [vmm_entry_point] and [vmexit].  The rounds are an
    execution of the guest program, unit after unit, with the other tasks run
    exactly when 5 ms of processor time have passed since the last time; they
    end with the guest registers, pc and process of that execution, or in the
    error it ends in.  Between rounds the translation cache is well formed
    whatever was flushed, x0 is zero, and the host stack holds no more than the
    frames of the last round.  The program's units are short enough for the
    cache to be flushed safely ([short_units]). *)
Lemma rounds_run ts v :
  yields_good → short_units TRANSLATION_SIZE jumper_size program n smin smax →
  safe (cpu v) (process v) (counter v) → task_ok v →
  ∃ r, task_run (now <$> ts) (cpu v) (process v) (counter v) r ∧
    match r with
    | Running g w c =>
        ∃ h, let v' := mk_task h g w c
               match last ts with Some t => frames t ++ [VInt H] | None => host_stack v end in
          rounds ts v = Ok v' ∧ task_ok v'
    | Failed e => rounds ts v = Err e
    end.
Proof.
  intros Ht Hs. revert v. induction ts as [|t ts IH]; intros v Hsafe Hok; cbn [fmap list_fmap Vmm.rounds].
  { exists (Running (cpu v) (process v) (counter v)). split; [constructor|]. exists (cache v). by destruct v. }
  destruct (Hsafe [] _ _ _ (run_done _ _ _ _ _)) as (Hpc & Hrun & Hp).
  destruct (round_refines t v Ht Hs Hp Hpc Hrun Hok) as [(e & Hu & ->)|(g' & w' & h' & Hu & Hrest)].
  { exists (Failed e). split; [by constructor|done]. }
  destruct (vmexit _ _ _ _) as [c2 w2] eqn:Hx. destruct Hrest as [-> Hok']. cbn [mbind outcome_bind].
  set (v' := mk_task h' g' w2 c2 (frames t ++ [VInt H])) in *.
  destruct (IH v' (safe_step _ _ _ _ _ _ _ _ Hsafe Hu Hx) Hok') as (r & Hr & Hm).
  exists r. split; [by eapply run_step|]. cbn [host_stack] in Hm. rewrite last_cons. by destruct (last ts).
Qed.

End proof.

End Vmm.
