(* ===== verification/PmRegion.v ===== *)
(** * Memory regions: pm_region.c

    The address space of a process is the array [pmr_ops] of its
    [struct virtual_machine], whose first [nr_pmr_ops] entries are kept sorted
    by [SORT] and searched by [SEARCH].  A pointer to an entry is its index.
    The theorems: under the invariant [table_ok] (the entries are non-empty,
    disjoint and ascending) a search finds the region of an address; a region is
    registered exactly when it is apart from all others, and both registering
    and unregistering keep the invariant; the free range found for mmap is free. *)
From S2P Require Import Prelude SortSearch.
Import Macros.

Module PmRegion.

(** ** Data *)

(** The callbacks of a region: the ones of app.c are the only ones installed. *)
Inductive pmr_callback := vma_generic.

(** [opaque] is left out: it is NULL in every region. *)
Record pm_region_operation := mk_region {
  addr_low : Z;
  addr_high : Z;
  pmr_read : option pmr_callback;
  pmr_write : option pmr_callback;
  pmr_direct : option pmr_callback;
  pmr_reclaim : option pmr_callback;
  pmr_desc : string;
  flags : Z;
  host_base : option Z
}.

Definition MAX_NR_PM_REGIONS : Z := 256.

Definition MAX_VMA_NR : Z := 128.

(** The fields of [struct virtual_machine] that describe the address space. *)
Record address_space := mk_space {
  nr_pmr_ops : Z;
  pmr_ops : list pm_region_operation;
  vma_heap : option Z;
  vma_stack : option Z
}.

(** ** Code *)
Definition pm_region_operation_compare (pmr1 pmr2 : pm_region_operation) : outcome Z :=
  ASSERT (addr_low pmr1 <=? addr_high pmr1);;
  ASSERT (addr_low pmr2 <=? addr_high pmr2);;
  if addr_high pmr1 <=? addr_low pmr2 then Ok (-1) else
  if addr_high pmr2 <=? addr_low pmr1 then Ok 1 else
  if ((addr_low pmr1 <=? addr_low pmr2) && (addr_high pmr2 <=? addr_high pmr1)) ||
     ((addr_low pmr2 <=? addr_low pmr1) && (addr_high pmr1 <=? addr_high pmr2)) then Ok 0
  else not_reach.

(** The designated initializer of [search_pm_region_callback]: the other fields
    are zero. *)
Definition search_target (guest_pa : Z) : pm_region_operation :=
  mk_region (w32 guest_pa) (w32 (guest_pa + 1)) None None None None "" 0 None.

Definition search_pm_region_callback (vm : address_space) (guest_pa : Z) : outcome (option Z) :=
  SEARCH pm_region_operation_compare (pmr_ops vm) (nr_pmr_ops vm) (search_target guest_pa).

(** The loop of [is_vma_eligible], [n] iterations from [idx]. *)
Fixpoint vma_eligible_loop (n : nat) (vm : address_space) (idx : Z) (vma : option Z)
    (vma_found : bool) : outcome bool :=
  match n with
  | O => Ok vma_found
  | S n =>
      if bool_decide (vma = Some idx) then vma_eligible_loop n vm (idx + 1) vma true else
      e ← ELEM (pmr_ops vm) idx;
      p ← deref vma;
      v ← ELEM (pmr_ops vm) p;
      if (addr_low v <? addr_low e) && (addr_low e <? addr_high v) then Ok false
      else vma_eligible_loop n vm (idx + 1) vma vma_found
  end.

Definition is_vma_eligible (vm : address_space) (vma : option Z) : outcome bool :=
  vma_eligible_loop (Z.to_nat (nr_pmr_ops vm)) vm 0 vma false.

Fixpoint range_eligible_loop (n : nat) (vm : address_space) (idx low high : Z) : outcome bool :=
  match n with
  | O => Ok true
  | S n =>
      e ← ELEM (pmr_ops vm) idx;
      if addr_high e <=? low then range_eligible_loop n vm (idx + 1) low high else
      if high <=? addr_low e then range_eligible_loop n vm (idx + 1) low high else Ok false
  end.

Definition is_range_eligible (vm : address_space) (low high : Z) : outcome bool :=
  range_eligible_loop (Z.to_nat (nr_pmr_ops vm)) vm 0 low high.

(** The loop of [search_free_mmap_region]: [n] is [idx + 1]. *)
Fixpoint free_region_loop (n : nat) (vm : address_space) (len : Z) : outcome Z :=
  match n with
  | O => Ok 0
  | S k =>
      e ← ELEM (pmr_ops vm) (Z.of_nat k);
      room ← (if (k =? 0)%nat then Ok (len <? addr_low e)
              else p ← ELEM (pmr_ops vm) (Z.of_nat k - 1);
                   Ok (len <? w32 (addr_low e - addr_high p)));
      if (room : bool) then Ok (w32 (addr_low e - len)) else free_region_loop k vm len
  end.

Definition search_free_mmap_region (vm : address_space) (size : Z) : outcome Z :=
  let len := w32 (size + 4096) in
  addr_found ← free_region_loop (Z.to_nat (nr_pmr_ops vm)) vm len;
  if addr_found =? 0 then Ok addr_found else
  ok ← is_range_eligible vm addr_found (w32 (addr_found + size));
  ASSERT ok;;
  Ok addr_found.

Definition register_pm_region_operation (vm : address_space) (pmr : pm_region_operation)
    : outcome address_space :=
  ASSERT (bool_decide (is_Some (pmr_read pmr)) && bool_decide (is_Some (pmr_write pmr)));;
  found ← search_pm_region_callback vm (addr_low pmr);
  ASSERT (bool_decide (found = None));;
  ASSERT (nr_pmr_ops vm <? MAX_NR_PM_REGIONS);;
  ops ← deref (zset (pmr_ops vm) (nr_pmr_ops vm) pmr);
  let nr := nr_pmr_ops vm + 1 in
  ops ← SORT pm_region_operation_compare ops nr;
  let vm := mk_space nr ops (vma_heap vm) (vma_stack vm) in
  _pmr ← search_pm_region_callback vm (addr_low pmr);
  ok ← is_vma_eligible vm _pmr;
  ASSERT ok;;
  Ok vm.

(** The two loops of [unregister_pm_region]. *)
Fixpoint entry_loop (n : nat) (idx pmr : Z) : Z :=
  match n with
  | O => idx
  | S n => if idx =? pmr then idx else entry_loop n (idx + 1) pmr
  end.

Fixpoint shift_down (n : nat) (ops : list pm_region_operation) (idx : Z)
    : outcome (list pm_region_operation) :=
  match n with
  | O => Ok ops
  | S n =>
      e ← ELEM ops (idx + 1);
      ops ← deref (zset ops idx e);
      shift_down n ops (idx + 1)
  end.

Definition unregister_pm_region (vm : address_space) (pmr : Z) : outcome address_space :=
  let nr := nr_pmr_ops vm in
  let idx := entry_loop (Z.to_nat nr) 0 pmr in
  ASSERT (idx <? nr);;
  ops ← shift_down (Z.to_nat (nr - 1 - idx)) (pmr_ops vm) idx;
  Ok (mk_space (nr - 1) ops (vma_heap vm) (vma_stack vm)).

(** ** Invariant *)
Definition region_ok (r : pm_region_operation) : Prop :=
  0 <= addr_low r < addr_high r ∧ addr_high r < 2 ^ 32 ∧
  is_Some (pmr_read r) ∧ is_Some (pmr_write r).

Definition inside (pa : Z) (r : pm_region_operation) : Prop := addr_low r <= pa < addr_high r.

Definition apart (a b : pm_region_operation) : Prop :=
  addr_high a <= addr_low b ∨ addr_high b <= addr_low a.

#[export] Instance inside_dec pa r : Decision (inside pa r).
Proof. unfold inside. apply _. Defined.

#[export] Instance apart_dec a b : Decision (apart a b).
Proof. unfold apart. apply _. Defined.

(** The entries in use. *)
Definition regions (vm : address_space) : list pm_region_operation :=
  take (Z.to_nat (nr_pmr_ops vm)) (pmr_ops vm).

(** Ascending and disjoint. *)
Definition ascending (l : list pm_region_operation) : Prop :=
  ∀ i j a b, (i < j)%nat → l !! i = Some a → l !! j = Some b → addr_high a <= addr_low b.

Record table_ok (vm : address_space) : Prop := {
  ok_nr : 0 <= nr_pmr_ops vm <= MAX_VMA_NR;
  ok_len : length (pmr_ops vm) = Z.to_nat MAX_VMA_NR;
  ok_regions : Forall region_ok (regions vm);
  ok_ascending : ascending (regions vm)
}.

(** ** The comparison *)
Ltac region_cases :=
  unfold pm_region_operation_compare, ASSERT, not_reach; simpl;
  repeat (match goal with
          | |- context [?a <=? ?b] => destruct (Z.leb_spec a b)
          end; simpl; try lia).

Lemma compare_before a b :
  addr_low a <= addr_high a → addr_low b <= addr_high b → addr_high a <= addr_low b →
  pm_region_operation_compare a b = Ok (-1).
Proof. intros. by region_cases. Qed.

Lemma compare_after a b :
  addr_low a <= addr_high a → addr_low b < addr_high b → addr_high b <= addr_low a →
  pm_region_operation_compare a b = Ok 1.
Proof. intros. by region_cases. Qed.

Lemma compare_self a : addr_low a < addr_high a → pm_region_operation_compare a a = Ok 0.
Proof. intros. by region_cases. Qed.

(** A comparison that answers 0 on non-empty regions has found one inside the
    other. *)
Lemma compare_zero a b :
  pm_region_operation_compare a b = Ok 0 →
  (addr_low a <= addr_low b ∧ addr_high b <= addr_high a) ∨
  (addr_low b <= addr_low a ∧ addr_high a <= addr_high b).
Proof. region_cases; intros; simplify_eq; lia. Qed.

(** On disjoint regions the comparison orders by [addr_low]. *)
Definition disjoint_list (l : list pm_region_operation) : Prop :=
  ∀ a b, a ∈ l → b ∈ l → a = b ∨ apart a b.

Lemma disjoint_keyed l :
  Forall region_ok l → disjoint_list l → keyed pm_region_operation_compare addr_low l.
Proof.
  intros Hok Hd a b Ha Hb. rewrite Forall_forall in Hok.
  destruct (Hok a Ha) as (? & ? & _), (Hok b Hb) as (? & ? & _).
  destruct (Hd a b Ha Hb) as [->|[?|?]].
  - exists 0. split; [apply compare_self; lia|]. lia.
  - exists (-1). split; [apply compare_before; lia|]. lia.
  - exists 1. split; [apply compare_after; lia|]. lia.
Qed.

Lemma ascending_disjoint l : ascending l → disjoint_list l.
Proof.
  intros Hl a b [i Hi]%list_elem_of_lookup [j Hj]%list_elem_of_lookup.
  destruct (lt_eq_lt_dec i j) as [[?| ->]|?]; [right; left|left|right; right];
    [by eapply (Hl i j)|by simplify_eq|by eapply (Hl j i)].
Qed.

(** ** Search *)
Lemma regions_lookup vm i e :
  table_ok vm → regions vm !! i = Some e ↔ (Z.of_nat i < nr_pmr_ops vm ∧ pmr_ops vm !! i = Some e).
Proof.
  intros [Hn Hl _ _]. unfold regions. split.
  - intros H. apply lookup_take_Some in H as [? ?]. split; [lia|done].
  - intros [? ?]. apply lookup_take_Some. split; [done|lia].
Qed.

Lemma regions_zget vm i :
  table_ok vm → 0 <= i < nr_pmr_ops vm →
  ∃ e, zget (pmr_ops vm) i = Some e ∧ regions vm !! Z.to_nat i = Some e ∧ region_ok e.
Proof.
  intros Hok Hi. destruct (zget_is_Some (pmr_ops vm) i) as [e He].
  { destruct Hok as [? -> _ _]. unfold MAX_VMA_NR in *. lia. }
  exists e. split; [done|]. apply zget_Some in He as [_ He].
  assert (Hr : regions vm !! Z.to_nat i = Some e) by (apply regions_lookup; [done|split; [lia|done]]).
  split; [done|]. eapply Forall_lookup_1; [apply Hok|done].
Qed.

(** The point an address search compares with. *)
Lemma target_compare pa r :
  0 <= pa < 2 ^ 32 - 1 → region_ok r →
  ∃ c, pm_region_operation_compare (search_target pa) r = Ok c ∧
    ((c = -1 ∧ pa < addr_low r) ∨ (c = 0 ∧ inside pa r) ∨ (c = 1 ∧ addr_high r <= pa)).
Proof.
  intros Hpa ([? ?] & ? & _). unfold inside.
  assert (Ht : search_target pa = mk_region pa (pa + 1) None None None None "" 0 None).
  { unfold search_target, w32. by rewrite !Z.mod_small by lia. }
  rewrite Ht. destruct (Z.lt_ge_cases pa (addr_low r)); [|destruct (Z.lt_ge_cases pa (addr_high r))].
  - exists (-1). split; [apply compare_before; simpl; lia|]. lia.
  - exists 0. split; [region_cases; done|]. lia.
  - exists 1. split; [apply compare_after; simpl; lia|]. lia.
Qed.

Lemma target_arranged vm pa :
  table_ok vm → 0 <= pa < 2 ^ 32 - 1 →
  arranged pm_region_operation_compare (pmr_ops vm) (nr_pmr_ops vm) (search_target pa).
Proof.
  intros Hok Hpa. split.
  - intros i Hi. destruct (regions_zget vm i Hok Hi) as (e & He & _ & Hr).
    destruct (target_compare pa e Hpa Hr) as (c & Hc & _). by exists c, e.
  - intros i j ci cj Hij Hj (a & Ha & Hca) (b & Hb & Hcb).
    destruct (regions_zget vm i Hok ltac:(lia)) as (a' & Ha' & Hra & Hoka).
    destruct (regions_zget vm j Hok ltac:(lia)) as (b' & Hb' & Hrb & Hokb).
    rewrite Ha in Ha'. injection Ha' as <-. rewrite Hb in Hb'. injection Hb' as <-.
    destruct (target_compare pa a Hpa Hoka) as (? & Ha1 & Ha2).
    destruct (target_compare pa b Hpa Hokb) as (? & Hb1 & Hb2).
    rewrite Hca in Ha1. injection Ha1 as <-. rewrite Hcb in Hb1. injection Hb1 as <-.
    destruct (decide (i = j)) as [->|]; [replace cj with ci by congruence; lia|].
    pose proof (ok_ascending _ Hok (Z.to_nat i) (Z.to_nat j) _ _ ltac:(lia) Hra Hrb).
    destruct Hoka as (? & _), Hokb as (? & _). unfold inside in *.
    destruct Ha2 as [[-> ?]|[[-> ?]|[-> ?]]], Hb2 as [[-> ?]|[[-> ?]|[-> ?]]]; simpl; lia.
Qed.

Lemma search_spec vm pa :
  table_ok vm → 0 <= pa < 2 ^ 32 - 1 →
  ∃ r, search_pm_region_callback vm pa = Ok r ∧
    match r with
    | Some i => ∃ e, 0 <= i ∧ regions vm !! Z.to_nat i = Some e ∧ inside pa e
    | None => ∀ e, e ∈ regions vm → ¬ inside pa e
    end.
Proof.
  intros Hok Hpa. pose proof (ok_nr _ Hok).
  destruct (SEARCH_spec pm_region_operation_compare (pmr_ops vm) (nr_pmr_ops vm) (search_target pa))
    as (r & Hs & Hr); [lia|by apply target_arranged|].
  exists r. split; [done|]. destruct r as [i|].
  - destruct Hr as [Hi (e & He & Hc)].
    destruct (regions_zget vm i Hok Hi) as (e' & He' & Hr & Hre).
    rewrite He in He'. injection He' as <-. exists e. split; [lia|]. split; [done|].
    destruct (target_compare pa e Hpa Hre) as (c & Hc' & Hin).
    rewrite Hc in Hc'. injection Hc' as <-. by destruct Hin as [[? _]|[[_ ?]|[? _]]].
  - intros e [i Hi]%list_elem_of_lookup Hin. apply regions_lookup in Hi as [? Hi]; [|done].
    apply (Hr (Z.of_nat i)); [lia|]. exists e. rewrite zget_nat. split; [done|].
    assert (Hre : region_ok e).
    { apply (Forall_lookup_1 _ (regions vm) i); [apply Hok|]. by apply regions_lookup. }
    unfold inside in Hin.
    destruct (target_compare pa e Hpa Hre) as (c & Hc' & [[_ ?]|[[-> _]|[_ ?]]]); [lia|done|lia].
Qed.

(** ** Eligibility *)
Lemma vma_eligible_loop_spec n vm idx p v found :
  zget (pmr_ops vm) p = Some v → 0 <= idx → idx + Z.of_nat n <= Z.of_nat (length (pmr_ops vm)) →
  ∃ b, vma_eligible_loop n vm idx (Some p) found = Ok b ∧
    (b = true ↔ (found = true ∨ idx <= p < idx + Z.of_nat n) ∧
      ∀ i e, idx <= i < idx + Z.of_nat n → i ≠ p → zget (pmr_ops vm) i = Some e →
        ¬ addr_low v < addr_low e < addr_high v).
Proof.
  intros Hv. revert idx found. induction n as [|n IH]; intros idx found Hi Hn.
  { exists found. split; [done|]. split; [|by intros [[?|?] _]; [|lia]].
    intros ->. split; [by left|]. intros. lia. }
  cbn [vma_eligible_loop]. case_bool_decide as Heq.
  { injection Heq as ->. destruct (IH (idx + 1) true) as (b & -> & Hb); [lia..|].
    exists b. split; [done|]. rewrite Hb. split; intros [_ Hall].
    - split; [right; lia|]. intros i e ? ?. apply Hall; [lia|done].
    - split; [by left|]. intros i e ?. apply Hall. lia. }
  destruct (zget_is_Some (pmr_ops vm) idx ltac:(lia)) as [e He].
  unfold ELEM. rewrite He. cbn [deref mbind outcome_bind]. rewrite Hv. cbn [deref mbind outcome_bind].
  destruct ((addr_low v <? addr_low e) && (addr_low e <? addr_high v)) eqn:Hc.
  { exists false. split; [done|]. split; [done|]. intros [_ Hall]. exfalso.
    apply (Hall idx e); [lia|congruence|done|]. lia. }
  destruct (IH (idx + 1) found) as (b & -> & Hb); [lia..|]. exists b. split; [done|]. rewrite Hb.
  assert (idx ≠ p) by congruence. split; intros [Hf Hall].
  - split; [destruct Hf; [by left|right; lia]|]. intros i e' ? ? He'.
    destruct (decide (i = idx)) as [->|]; [simplify_eq; lia|]. apply (Hall i e'); (done || lia).
  - split; [destruct Hf; [by left|right; lia]|]. intros i e' ?. apply Hall. lia.
Qed.

(** A null pointer is never eligible, and with an entry in the table it is
    dereferenced. *)
Lemma vma_eligible_null vm b : is_vma_eligible vm None = Ok b → b = false.
Proof.
  unfold is_vma_eligible. destruct (Z.to_nat _) as [|n]; cbn [vma_eligible_loop]; [by intros [= <-]|].
  rewrite bool_decide_false by done. by intros (e & _ & ?)%bind_Ok.
Qed.

Lemma range_eligible_loop_spec n vm idx low high :
  0 <= idx → idx + Z.of_nat n <= Z.of_nat (length (pmr_ops vm)) →
  ∃ b, range_eligible_loop n vm idx low high = Ok b ∧
    (b = true ↔ ∀ i e, idx <= i < idx + Z.of_nat n → zget (pmr_ops vm) i = Some e →
       addr_high e <= low ∨ high <= addr_low e).
Proof.
  revert idx. induction n as [|n IH]; intros idx Hi Hn; cbn [range_eligible_loop].
  { exists true. split; [done|]. split; [|done]. intros. lia. }
  destruct (zget_is_Some (pmr_ops vm) idx ltac:(lia)) as [e He].
  unfold ELEM. rewrite He. cbn [deref mbind outcome_bind].
  destruct (IH (idx + 1)) as (b & Hr & Hb); [lia..|].
  destruct (Z.leb_spec (addr_high e) low); [|destruct (Z.leb_spec high (addr_low e))];
    [rewrite Hr; exists b; split; [done|]; rewrite Hb; clear Hb..|exists false; split; [done|]].
  1,2: split; intros Hall i e' ? He'; [|apply (Hall i); [lia|done]];
    (destruct (decide (i = idx)) as [->|]; [simplify_eq; lia|apply (Hall i); [lia|done]]).
  split; [done|]. intros Hall. destruct (Hall idx e ltac:(lia) He); lia.
Qed.

(** ** The entries of a table *)
Lemma regions_length vm : table_ok vm → Z.of_nat (length (regions vm)) = nr_pmr_ops vm.
Proof.
  intros [Hn Hl _ _]. unfold regions, MAX_VMA_NR in *. rewrite length_take, Hl. lia.
Qed.

Lemma space_split vm :
  table_ok vm → nr_pmr_ops vm < MAX_VMA_NR →
  ∃ x rest, pmr_ops vm = regions vm ++ x :: rest.
Proof.
  intros Hok Hn. pose proof (regions_length vm Hok) as Hlen. pose proof (ok_len _ Hok) as Hl.
  pose proof (take_drop (Z.to_nat (nr_pmr_ops vm)) (pmr_ops vm)) as Hs.
  destruct (drop (Z.to_nat (nr_pmr_ops vm)) (pmr_ops vm)) as [|x rest] eqn:Hd.
  - apply (f_equal length) in Hd. rewrite length_drop in Hd. simpl in Hd.
    unfold MAX_VMA_NR in *. pose proof (ok_nr _ Hok). lia.
  - exists x, rest. by rewrite <- Hs at 1.
Qed.

Lemma regions_mk L rest n heap stk :
  n = Z.of_nat (length L) → regions (mk_space n (L ++ rest) heap stk) = L.
Proof. intros ->. unfold regions. simpl. by rewrite Nat2Z.id, take_app_length. Qed.

Lemma ascending_nodup l : Forall region_ok l → ascending l → NoDup l.
Proof.
  intros Hok Ha. apply NoDup_alt. intros i j a Hi Hj.
  pose proof (Forall_lookup_1 _ _ _ _ Hok Hi) as (? & _).
  destruct (lt_eq_lt_dec i j) as [[?|?]|?]; [|done|];
    [pose proof (Ha i j a a)|pose proof (Ha j i a a)]; naive_solver lia.
Qed.

Lemma sorted_ascending l :
  Forall region_ok l → NoDup l → disjoint_list l → sorted_by addr_low l → ascending l.
Proof.
  intros Hok Hnd Hd Hs i j a b Hij Hi Hj. rewrite Forall_lookup in Hok.
  destruct (Hok _ _ Hi) as (? & _), (Hok _ _ Hj) as (? & _).
  pose proof (Hs i j a b ltac:(lia) Hi Hj).
  destruct (Hd a b) as [<-|[?|?]]; [by eapply list_elem_of_lookup_2..| |done|lia].
  pose proof (NoDup_lookup _ _ _ _ Hnd Hi Hj). lia.
Qed.

(** ** Registering *)

(** The table with a further entry, in the order [SORT] left. *)
Lemma elem_zget (l rest : list pm_region_operation) e :
  e ∈ l → ∃ i, 0 <= i < Z.of_nat (length l) ∧ zget (l ++ rest) i = Some e.
Proof.
  intros [i Hi]%list_elem_of_lookup. pose proof (lookup_lt_Some _ _ _ Hi).
  exists (Z.of_nat i). split; [lia|]. by rewrite zget_nat, lookup_app_l by lia.
Qed.

Lemma zget_elem (l rest : list pm_region_operation) i e :
  i < Z.of_nat (length l) → zget (l ++ rest) i = Some e → e ∈ l.
Proof.
  intros Hi H. rewrite zget_app_l in H by done. apply zget_Some in H as [_ H].
  by eapply list_elem_of_lookup_2.
Qed.

(** What makes the last assertion of [register_pm_region_operation] fail: the
    new region reaches over the start of another one. *)
Lemma eligible_apart vm l rest r p v :
  pmr_ops vm = l ++ rest → nr_pmr_ops vm = Z.of_nat (length l) → zget (pmr_ops vm) p = Some v →
  is_vma_eligible vm (Some p) = Ok true → v = r →
  ∀ e, e ∈ l → e ≠ r → ¬ addr_low r < addr_low e < addr_high r.
Proof.
  intros Hops Hnr Hv He -> e Hin Hne.
  destruct (vma_eligible_loop_spec (Z.to_nat (nr_pmr_ops vm)) vm 0 p r false Hv) as (b & Hb & Hspec);
    [lia|rewrite Hops, length_app; lia|].
  unfold is_vma_eligible in He. rewrite He in Hb. injection Hb as <-.
  destruct Hspec as [[_ Hall] _]; [done|].
  destruct (elem_zget l rest e Hin) as (i & Hi & Hz). rewrite <- Hops in Hz.
  apply (Hall i e); [lia| |done]. intros ->. congruence.
Qed.

(** What a return of [register_pm_region_operation] has gone through. *)
Lemma register_inv vm r vm' :
  table_ok vm → register_pm_region_operation vm r = Ok vm' →
  nr_pmr_ops vm < MAX_VMA_NR ∧ search_pm_region_callback vm (addr_low r) = Ok None ∧
  ∃ l' rest p, l' ≡ₚ regions vm ++ [r] ∧
    vm' = mk_space (Z.of_nat (length l')) (l' ++ rest) (vma_heap vm) (vma_stack vm) ∧
    search_pm_region_callback vm' (addr_low r) = Ok (Some p) ∧
    is_vma_eligible vm' (Some p) = Ok true.
Proof.
  intros Hok. unfold register_pm_region_operation.
  intros [_ (s1 & Hs1 & [->%bool_decide_eq_true [_ (ops1 & Hset & (ops & Hsort & (p & Hp &
    (b & Hb & [-> [= <-]]%ASSERT_Ok)%bind_Ok)%bind_Ok)%bind_Ok)%bind_Ok]%ASSERT_Ok]%ASSERT_Ok)%bind_Ok]%ASSERT_Ok.
  destruct (zset _ _ _) as [ops1'|] eqn:Hz; [|done]. injection Hset as <-.
  assert (Hlt : nr_pmr_ops vm < MAX_VMA_NR).
  { unfold zset in Hz. pose proof (ok_len _ Hok). unfold MAX_VMA_NR in *.
    destruct (Z.ltb_spec (nr_pmr_ops vm) (Z.of_nat (length (pmr_ops vm)))); [lia|].
    by rewrite andb_false_r in Hz. }
  split; [done|]. split; [done|].
  destruct (space_split vm Hok Hlt) as (x & rest & Heq). pose proof (regions_length vm Hok) as Hlen.
  rewrite Heq, <- Hlen, zset_middle in Hz. injection Hz as <-.
  assert (Hn : nr_pmr_ops vm + 1 = Z.of_nat (length (regions vm ++ [r])))
    by (rewrite length_snoc_Z; lia).
  rewrite Hn in *. rewrite cons_middle, app_assoc in Hsort.
  apply SORT_perm in Hsort as (l' & -> & Hperm).
  assert (Hn' : length (regions vm ++ [r]) = length l') by (by rewrite Hperm). rewrite Hn' in *.
  destruct p as [p|]; [|by apply vma_eligible_null in Hb]. by exists l', rest, p.
Qed.

Lemma register_Ok_apart vm r vm' :
  table_ok vm → region_ok r → register_pm_region_operation vm r = Ok vm' →
  Forall (apart r) (regions vm).
Proof.
  intros Hok Hr (_ & Hs1 & l' & rest & p & Hperm & -> & Hp & Hb)%register_inv; [|done].
  assert (Hlow : 0 <= addr_low r < 2 ^ 32 - 1) by (destruct Hr as (? & ? & _); lia).
  destruct (search_spec vm (addr_low r) Hok Hlow) as (s1' & Hs1' & Hno).
  rewrite Hs1 in Hs1'. injection Hs1' as <-.
  apply SEARCH_hit in Hp as (Hpi & v & Hv & Hcv). cbn [pmr_ops nr_pmr_ops] in *.
  assert (Hvl : v ∈ regions vm ++ [r]) by (rewrite <- Hperm; eapply zget_elem; [|done]; lia).
  assert (v = r) as ->.
  { apply elem_of_app in Hvl as [Hv'|?%list_elem_of_singleton]; [|done]. destruct (Hno v Hv').
    pose proof (proj1 (Forall_forall _ _) (ok_regions _ Hok) v Hv') as Hvok.
    destruct (target_compare (addr_low r) v Hlow Hvok) as (c & Hc & Hin).
    rewrite Hcv in Hc. injection Hc as <-. by destruct Hin as [[? _]|[[_ ?]|[? _]]]. }
  apply Forall_forall. intros e He. specialize (Hno e He) as Hne.
  assert (Her : e ≠ r). { intros ->. apply Hne. unfold inside. destruct Hr as (? & _). lia. }
  assert (He' : e ∈ l') by (rewrite Hperm; set_solver).
  assert (¬ addr_low r < addr_low e < addr_high r)
    by (eapply eligible_apart; [..|exact Hb|done|exact He'|done]; done).
  unfold inside, apart in *.
  pose proof (proj1 (Forall_forall _ _) (ok_regions _ Hok) e He) as (? & _). lia.
Qed.

Lemma disjoint_snoc vm r :
  table_ok vm → Forall (apart r) (regions vm) → disjoint_list (regions vm ++ [r]).
Proof.
  intros Hok Hap a b. rewrite Forall_forall in Hap. rewrite !elem_of_app, !list_elem_of_singleton.
  intros [Ha| ->] [Hb| ->]; [|right|right|by left].
  - by apply (ascending_disjoint (regions vm) (ok_ascending _ Hok)).
  - destruct (Hap a Ha); [by right|by left].
  - by apply Hap.
Qed.

Lemma nodup_snoc vm r :
  table_ok vm → region_ok r → Forall (apart r) (regions vm) → NoDup (regions vm ++ [r]).
Proof.
  intros Hok (? & _) Hap. apply NoDup_app. split; [apply ascending_nodup; apply Hok|].
  split; [|apply NoDup_singleton]. intros e He ->%list_elem_of_singleton.
  rewrite Forall_forall in Hap. destruct (Hap r He); lia.
Qed.

Lemma search_apart vm r :
  table_ok vm → region_ok r → Forall (apart r) (regions vm) →
  search_pm_region_callback vm (addr_low r) = Ok None.
Proof.
  intros Hok (? & ? & _) Hap. destruct (search_spec vm (addr_low r) Hok) as (s & -> & Hs); [lia|].
  destruct s as [i|]; [|done]. destruct Hs as (e & _ & He & Hin).
  pose proof (Forall_lookup_1 _ _ _ _ Hap He) as Ha. pose proof (Forall_lookup_1 _ _ _ _ (ok_regions _ Hok) He).
  unfold inside, apart in *. lia.
Qed.

Lemma search_member vm r pa :
  table_ok vm → r ∈ regions vm → inside pa r →
  ∃ p, search_pm_region_callback vm pa = Ok (Some p) ∧ 0 <= p < nr_pmr_ops vm ∧
    zget (pmr_ops vm) p = Some r.
Proof.
  intros Hok Hr Hpa. pose proof (proj1 (Forall_forall _ _) (ok_regions _ Hok) r Hr) as (? & ? & _).
  unfold inside in Hpa. destruct (search_spec vm pa Hok) as (s & Hs & Hspec); [lia|].
  destruct s as [p|]; [|by destruct (Hspec r)].
  destruct Hspec as (e & ? & He & Hin).
  destruct (ascending_disjoint _ (ok_ascending _ Hok) r e) as [<-|Hap];
    [done|by eapply list_elem_of_lookup_2| |unfold inside, apart in *; lia].
  exists p. split; [done|]. apply regions_lookup in He as [? He]; [|done].
  split; [lia|]. by apply zget_Some.
Qed.

(** In a well-formed table every entry is eligible. *)
Lemma eligible_member vm p :
  table_ok vm → 0 <= p < nr_pmr_ops vm → is_vma_eligible vm (Some p) = Ok true.
Proof.
  intros Hok Hp. destruct (regions_zget vm p Hok Hp) as (v & Hv & Hvr & Hvok).
  destruct (vma_eligible_loop_spec (Z.to_nat (nr_pmr_ops vm)) vm 0 p v false Hv) as (b & Hb & Hspec);
    [lia|rewrite (ok_len _ Hok); pose proof (ok_nr _ Hok); unfold MAX_VMA_NR in *; lia|].
  unfold is_vma_eligible. rewrite Hb. f_equal. apply Hspec. split; [right; lia|].
  intros i e Hi Hne He. destruct (regions_zget vm i Hok) as (e' & He' & Her & Heok); [lia|].
  rewrite He in He'. injection He' as <-.
  destruct Hvok as (? & _), Heok as (? & _).
  destruct (Z.lt_total i p) as [?|[?|?]]; [|done|].
  - pose proof (ok_ascending _ Hok _ _ _ _ (ltac:(lia) : (Z.to_nat i < Z.to_nat p)%nat) Her Hvr). lia.
  - pose proof (ok_ascending _ Hok _ _ _ _ (ltac:(lia) : (Z.to_nat p < Z.to_nat i)%nat) Hvr Her). lia.
Qed.

(** The table after the sort. *)
Lemma sorted_table vm r :
  table_ok vm → region_ok r → nr_pmr_ops vm < MAX_VMA_NR → Forall (apart r) (regions vm) →
  ∃ x rest l', pmr_ops vm = regions vm ++ x :: rest ∧
    SORT pm_region_operation_compare ((regions vm ++ [r]) ++ rest)
      (Z.of_nat (length (regions vm ++ [r]))) = Ok (l' ++ rest) ∧
    l' ≡ₚ regions vm ++ [r] ∧
    table_ok (mk_space (Z.of_nat (length l')) (l' ++ rest) (vma_heap vm) (vma_stack vm)).
Proof.
  intros Hok Hr Hlt Hap. pose proof (disjoint_snoc vm r Hok Hap) as Hd.
  pose proof (nodup_snoc vm r Hok Hr Hap) as Hnd.
  assert (Hrs : Forall region_ok (regions vm ++ [r])) by (apply Forall_app; split; [apply Hok|auto]).
  destruct (space_split vm Hok Hlt) as (x & rest & Heq). pose proof (regions_length vm Hok) as Hlen.
  destruct (SORT_spec pm_region_operation_compare addr_low (regions vm ++ [r]) rest)
    as (l' & Hsort & Hperm & Hsorted); [by apply disjoint_keyed|].
  assert (Hll : length l' = S (length (regions vm))) by (rewrite Hperm, length_app; simpl; lia).
  exists x, rest, l'. split; [done|]. split; [done|]. split; [done|].
  split; rewrite ?regions_mk by done; simpl.
  - pose proof (ok_nr _ Hok). unfold MAX_VMA_NR in *. lia.
  - rewrite <- (ok_len _ Hok), Heq, !length_app. simpl. lia.
  - by rewrite Hperm.
  - apply sorted_ascending; [by rewrite Hperm..| |done]. intros a b. rewrite !Hperm. apply Hd.
Qed.

Lemma register_apart_Ok vm r :
  table_ok vm → region_ok r → nr_pmr_ops vm < MAX_VMA_NR → Forall (apart r) (regions vm) →
  ∃ vm', register_pm_region_operation vm r = Ok vm' ∧ table_ok vm' ∧
    regions vm' ≡ₚ r :: regions vm ∧ vma_heap vm' = vma_heap vm ∧ vma_stack vm' = vma_stack vm.
Proof.
  intros Hok Hr Hlt Hap.
  destruct (sorted_table vm r Hok Hr Hlt Hap) as (x & rest & l' & Heq & Hsort & Hperm & Hok').
  pose proof (regions_length vm Hok) as Hlen. pose proof Hr as (? & ? & Hrd & Hwr).
  assert (Hin : r ∈ regions (mk_space (Z.of_nat (length l')) (l' ++ rest) (vma_heap vm) (vma_stack vm)))
    by (rewrite regions_mk, Hperm by done; set_solver).
  destruct (search_member _ _ (addr_low r) Hok' Hin) as (p & Hp & Hpn & _); [unfold inside; lia|].
  exists (mk_space (Z.of_nat (length l')) (l' ++ rest) (vma_heap vm) (vma_stack vm)).
  split; [|split; [done|split; [|done]]; rewrite regions_mk by done; by rewrite Hperm, Permutation_app_comm].
  unfold register_pm_region_operation, MAX_NR_PM_REGIONS, MAX_VMA_NR in *.
  rewrite !bool_decide_true, (search_apart vm r Hok Hr Hap) by done. cbn [andb ASSERT mbind outcome_bind].
  rewrite bool_decide_true by done. cbn [ASSERT mbind outcome_bind].
  destruct (Z.ltb_spec (nr_pmr_ops vm) 256); [|lia]. cbn [ASSERT mbind outcome_bind].
  rewrite Heq, <- Hlen, zset_middle. cbn [deref mbind outcome_bind].
  rewrite <- (length_snoc_Z _ r), (cons_middle r (regions vm) rest), app_assoc, Hsort. cbn [mbind outcome_bind].
  assert (Hn : length (regions vm ++ [r]) = length l') by (by rewrite Hperm). rewrite Hn, Hp.
  cbn [mbind outcome_bind]. by rewrite (eligible_member _ _ Hok' Hpn).
Qed.

(** ** Unregistering *)
Lemma entry_loop_spec n idx p :
  entry_loop n idx p = if decide (idx <= p < idx + Z.of_nat n) then p else idx + Z.of_nat n.
Proof.
  revert idx. induction n as [|n IH]; intros idx; cbn [entry_loop].
  - rewrite decide_False by lia. lia.
  - destruct (Z.eqb_spec idx p) as [->|]; [by rewrite decide_True by lia|].
    rewrite IH. repeat case_decide; lia.
Qed.

Lemma shift_down_spec l1 x q rest :
  ∃ y, shift_down (length q) (l1 ++ x :: q ++ rest) (Z.of_nat (length l1)) =
    Ok (l1 ++ q ++ y :: rest).
Proof.
  revert l1 x. induction q as [|z q IH]; intros l1 x; cbn [length shift_down]; [by exists x|].
  destruct (IH (l1 ++ [z]) z) as [y Hy]. exists y. unfold ELEM.
  assert (zget (l1 ++ x :: (z :: q) ++ rest) (Z.of_nat (length l1) + 1) = Some z) as ->.
  { rewrite <- (length_snoc_Z l1 x), (cons_middle x), app_assoc. cbn [app]. apply zget_middle. }
  cbn [deref mbind outcome_bind]. rewrite zset_middle. cbn [deref mbind outcome_bind].
  rewrite <- (length_snoc_Z l1 z). rewrite <- !app_assoc in Hy. exact Hy.
Qed.

Lemma ascending_app l1 l2 :
  ascending (l1 ++ l2) ↔
  ascending l1 ∧ ascending l2 ∧ ∀ a b, a ∈ l1 → b ∈ l2 → addr_high a <= addr_low b.
Proof.
  split.
  - intros H. split_and!.
    + intros i j a b ? Hi Hj. apply (H i j a b); [done|by apply lookup_app_l_Some..].
    + intros i j a b ? Hi Hj. apply (H (length l1 + i)%nat (length l1 + j)%nat); [lia|..];
        rewrite lookup_app_r by lia; by rewrite Nat.add_comm, Nat.add_sub.
    + intros a b [i Hi]%list_elem_of_lookup [j Hj]%list_elem_of_lookup.
      pose proof (lookup_lt_Some _ _ _ Hi).
      apply (H i (length l1 + j)%nat); [lia|by apply lookup_app_l_Some|].
      rewrite lookup_app_r by lia. by rewrite Nat.add_comm, Nat.add_sub.
  - intros (H1 & H2 & H12) i j a b Hij. rewrite !lookup_app_Some.
    intros [Hi|[? Hi]] [Hj|[? Hj]]; [by eapply H1| | |].
    + apply H12; by eapply list_elem_of_lookup_2.
    + apply lookup_lt_Some in Hj. lia.
    + eapply H2; [|done|done]. lia.
Qed.

Lemma ascending_single x : ascending [x].
Proof. intros i j a b Hij Hi Hj. apply lookup_lt_Some in Hj. simpl in Hj. lia. Qed.

Lemma ascending_middle l1 x l2 :
  ascending (l1 ++ x :: l2) ↔
  ascending (l1 ++ l2) ∧ (∀ e, e ∈ l1 → addr_high e <= addr_low x) ∧
  (∀ e, e ∈ l2 → addr_high x <= addr_low e).
Proof.
  rewrite (cons_middle x), app_assoc, !ascending_app.
  pose proof (ascending_single x). split.
  - intros ((? & _ & Hx) & ? & Ha). split_and!; try done; set_solver.
  - intros ((? & ? & Ha) & Hl & Hr). split_and!; try done; set_solver.
Qed.

Lemma ascending_remove l1 x l2 : ascending (l1 ++ x :: l2) → ascending (l1 ++ l2).
Proof. by intros [? _]%ascending_middle. Qed.

Lemma unregister_spec vm p :
  table_ok vm → 0 <= p < nr_pmr_ops vm →
  ∃ l1 x l2 vm', regions vm = l1 ++ x :: l2 ∧ p = Z.of_nat (length l1) ∧
    unregister_pm_region vm p = Ok vm' ∧ table_ok vm' ∧ regions vm' = l1 ++ l2 ∧
    vma_heap vm' = vma_heap vm ∧ vma_stack vm' = vma_stack vm.
Proof.
  intros Hok Hp. pose proof (regions_length vm Hok) as Hlen.
  destruct (regions_zget vm p Hok Hp) as (x & _ & Hx & _).
  apply list_elem_of_split_length in Hx as (l1 & l2 & Heq & Hl1).
  assert (∃ rest, pmr_ops vm = regions vm ++ rest) as [rest Hops]
    by (eexists; symmetry; apply take_drop).
  destruct (shift_down_spec l1 x l2 rest) as [y Hy].
  exists l1, x, l2, (mk_space (nr_pmr_ops vm - 1) (l1 ++ l2 ++ y :: rest) (vma_heap vm) (vma_stack vm)).
  rewrite Heq, length_app in Hlen. simpl in Hlen.
  split; [done|]. split; [lia|]. split.
  - unfold unregister_pm_region. rewrite entry_loop_spec, decide_True by lia.
    destruct (Z.ltb_spec p (nr_pmr_ops vm)); [|lia]. cbn [ASSERT mbind outcome_bind].
    rewrite Hops, Heq, <- app_assoc. cbn [app].
    replace (Z.to_nat (nr_pmr_ops vm - 1 - p)) with (length l2) by lia.
    replace p with (Z.of_nat (length l1)) by lia. by rewrite Hy.
  - rewrite app_assoc, regions_mk by (rewrite length_app; lia). split; [|done].
    pose proof (ok_regions _ Hok) as Hr. rewrite Heq in Hr.
    split; rewrite ?regions_mk by (rewrite length_app; lia); simpl.
    + pose proof (ok_nr _ Hok). lia.
    + rewrite <- (ok_len _ Hok), Hops, Heq, !length_app. simpl. lia.
    + apply Forall_app in Hr as [? [_ ?]%Forall_cons]. by apply Forall_app.
    + apply (ascending_remove l1 x). rewrite <- Heq. apply Hok.
Qed.

(** ** A free range for mmap *)

(** The end of the region before entry [k]. *)
Definition floor_of (vm : address_space) (k : nat) : Z :=
  match k with O => 0 | S k => from_option addr_high 0 (regions vm !! k) end.

Lemma free_region_loop_spec n vm len :
  table_ok vm → Z.of_nat n <= nr_pmr_ops vm → 0 <= len < 2 ^ 32 →
  ∃ a, free_region_loop n vm len = Ok a ∧
    ((a = 0 ∧ ∀ k e, (k < n)%nat → regions vm !! k = Some e → addr_low e - floor_of vm k <= len) ∨
     ∃ k e, (k < n)%nat ∧ regions vm !! k = Some e ∧ len < addr_low e - floor_of vm k ∧
       a = addr_low e - len).
Proof.
  intros Hok Hn Hlen. induction n as [|n IH]; cbn [free_region_loop].
  { exists 0. split; [done|]. left. split; [done|]. intros. lia. }
  destruct (regions_zget vm (Z.of_nat n) Hok) as (e & He & Her & ([? ?] & ? & _)); [lia|].
  rewrite Nat2Z.id in Her. unfold ELEM. rewrite He. cbn [deref mbind outcome_bind].
  assert (Hroom : (if (n =? 0)%nat then Ok (len <? addr_low e)
     else p ← deref (zget (pmr_ops vm) (Z.of_nat n - 1)); Ok (len <? w32 (addr_low e - addr_high p)))
     = Ok (len <? addr_low e - floor_of vm n) ∧ 0 <= floor_of vm n <= addr_low e).
  { destruct n as [|k]; [by rewrite Z.sub_0_r|]. cbn [Nat.eqb].
    replace (Z.of_nat (S k) - 1) with (Z.of_nat k) by lia.
    destruct (regions_zget vm (Z.of_nat k) Hok) as (p & Hp & Hpr & ([? ?] & ? & _)); [lia|].
    rewrite Nat2Z.id in Hpr. rewrite Hp. cbn [deref mbind outcome_bind floor_of].
    rewrite Hpr. cbn [from_option]. pose proof (ok_ascending _ Hok k (S k) p e ltac:(lia) Hpr Her).
    split; [|lia]. by rewrite w32_small by (unfold word32; lia). }
  destruct Hroom as [-> Hfl]. cbn [mbind outcome_bind].
  destruct (Z.ltb_spec len (addr_low e - floor_of vm n)).
  - exists (addr_low e - len). split; [f_equal; apply w32_small; unfold word32; lia|].
    right. exists n, e. split; [lia|done].
  - destruct IH as (a & -> & Ha); [lia|]. exists a. split; [done|].
    destruct Ha as [[-> Hall]|(k & e' & ? & ?)]; [left|right; exists k, e'; split; [lia|done]].
    split; [done|]. intros k e' Hk Hke.
    destruct (decide (k = n)) as [->|]; [by simplify_eq|]. apply Hall; [lia|done].
Qed.

(** A gap of the table is clear of every region. *)
Lemma gap_clear vm k e a :
  table_ok vm → regions vm !! k = Some e → floor_of vm k <= a → 
  ∀ e', e' ∈ regions vm → addr_high e' <= a ∨ addr_low e <= addr_low e'.
Proof.
  intros Hok He Ha e' [j Hj]%list_elem_of_lookup.
  pose proof (Forall_lookup_1 _ _ _ _ (ok_regions _ Hok) He) as (? & _).
  destruct (lt_eq_lt_dec j k) as [[Hjk| ->]|?]; [left|right; by simplify_eq|right].
  - destruct k as [|k]; [lia|]. cbn [floor_of] in Ha.
    destruct (lookup_lt_is_Some_2 (regions vm) k) as [p Hp];
      [pose proof (lookup_lt_Some _ _ _ He); lia|]. rewrite Hp in Ha. cbn [from_option] in Ha.
    pose proof (Forall_lookup_1 _ _ _ _ (ok_regions _ Hok) Hp) as (? & _).
    destruct (decide (j = k)) as [->|]; [by simplify_eq|].
    pose proof (ok_ascending _ Hok j k _ _ ltac:(lia) Hj Hp). lia.
  - pose proof (ok_ascending _ Hok k j _ _ ltac:(lia) He Hj). lia.
Qed.

Lemma free_search_spec vm size :
  table_ok vm → 0 <= size → size + 4096 < 2 ^ 32 →
  ∃ a, search_free_mmap_region vm size = Ok a ∧
    if decide (a = 0) then
      ∀ k e, regions vm !! k = Some e → addr_low e - floor_of vm k <= size + 4096
    else 0 < a ∧ a + size + 4096 < 2 ^ 32 ∧
      (∃ k e, regions vm !! k = Some e ∧ size + 4096 < addr_low e - floor_of vm k ∧ a + size + 4096 = addr_low e) ∧
      ∀ e, e ∈ regions vm → addr_high e <= a ∨ a + size + 4096 <= addr_low e.
Proof.
  intros Hok ? ?. unfold search_free_mmap_region. rewrite w32_small by (unfold word32; lia).
  pose proof (ok_nr _ Hok) as Hnr. pose proof (regions_length _ Hok) as Hlen.
  destruct (free_region_loop_spec (Z.to_nat (nr_pmr_ops vm)) vm (size + 4096) Hok)
    as (a & -> & [[-> Hall]|(k & e & Hk & He & Hgap & Ha)]); [lia|lia| |]; cbn [mbind outcome_bind].
  { exists 0. split; [done|]. rewrite decide_True by done. intros k e Hk.
    apply Hall; [|done]. apply lookup_lt_Some in Hk. lia. }
  assert (0 <= floor_of vm k).
  { destruct k as [|k]; [done|]. cbn [floor_of]. destruct (regions vm !! k) as [p|] eqn:Hp; [|done].
    pose proof (Forall_lookup_1 _ _ _ _ (ok_regions _ Hok) Hp) as (? & _). simpl. lia. }
  pose proof (Forall_lookup_1 _ _ _ _ (ok_regions _ Hok) He) as (? & ? & _).
  assert (Hclear : ∀ e', e' ∈ regions vm → addr_high e' <= a ∨ a + size + 4096 <= addr_low e').
  { intros e' He'. destruct (gap_clear vm k e a Hok He ltac:(lia) e' He'); [by left|right; lia]. }
  destruct (Z.eqb_spec a 0); [lia|].
  destruct (range_eligible_loop_spec (Z.to_nat (nr_pmr_ops vm)) vm 0 a (w32 (a + size)))
    as (b & Hb & Hspec); [lia|rewrite (ok_len _ Hok); unfold MAX_VMA_NR in *; lia|].
  unfold is_range_eligible. rewrite Hb. rewrite (proj2 Hspec).
  - exists a. split; [done|]. rewrite decide_False by done. split_and!; [lia|lia|exists k, e; split_and!; [done|lia|lia]|done].
  - intros i e' Hi He'. destruct (regions_zget vm i Hok) as (e1 & He1 & Hr1 & _); [lia|].
    rewrite He' in He1. injection He1 as <-.
    destruct (Hclear e') as [?|?]; [by eapply list_elem_of_lookup_2|by left|right].
    rewrite w32_small by (unfold word32; lia). lia.
Qed.

(** The last address: the end of the search range wraps. *)
Lemma search_last vm :
  table_ok vm → 0 < nr_pmr_ops vm → search_pm_region_callback vm (2 ^ 32 - 1) = Err EAssert.
Proof.
  intros Hok Hn. destruct (regions_zget vm 0 Hok) as (e & He & _); [lia|].
  unfold search_pm_region_callback, SEARCH. cbn [search_loop].
  destruct (Z.leb_spec 0 (nr_pmr_ops vm - 1)); [|lia]. by unfold ELEM; rewrite He.
Qed.

(** ** Theorems *)

(** In a well-formed table [search_pm_region_callback] returns the one
    region that holds the address, or nothing when no region does.  The last
    address of the 32-bit space is the exception: the end of its search range
    wraps to 0 and the comparison's assertion ends the emulator, unless the table
    is empty. *)
Theorem search_pm_region_correct vm pa :
  table_ok vm → word32 pa →
  if decide (pa = 2 ^ 32 - 1 ∧ 0 < nr_pmr_ops vm) then
    search_pm_region_callback vm pa = Err EAssert
  else ∃ r, search_pm_region_callback vm pa = Ok r ∧
    match r with
    | Some p => ∃ e, 0 <= p ∧ regions vm !! Z.to_nat p = Some e ∧ inside pa e ∧
        ∀ e', e' ∈ regions vm → inside pa e' → e' = e
    | None => ∀ e, e ∈ regions vm → ¬ inside pa e
    end.
Proof.
  intros Hok [? ?]. case_decide as Hd.
  - destruct Hd as [-> Hn]. by apply search_last.
  - destruct (decide (pa = 2 ^ 32 - 1)) as [->|].
    { exists None. unfold regions, search_pm_region_callback, SEARCH. cbn [search_loop].
      pose proof (ok_nr _ Hok). assert (nr_pmr_ops vm = 0) as -> by lia. split; [done|].
      by intros e ?%not_elem_of_nil. }
    destruct (search_spec vm pa Hok) as (r & Hs & Hr); [lia|]. exists r. split; [done|].
    destruct r as [p|]; [|done]. destruct Hr as (e & ? & He & Hin). exists e. split_and!; [done..|].
    intros e' He' Hin'. destruct (ascending_disjoint _ (ok_ascending _ Hok) e' e) as [?|Hap];
      [done|by eapply list_elem_of_lookup_2|done|unfold inside, apart in *; lia].
Qed.

(** With room in the array, [register_pm_region_operation] returns
    exactly when the new region is apart from all registered ones; it then adds
    the region, keeps the table well formed and does not touch the heap and stack
    pointers. *)
Theorem register_correct vm r :
  table_ok vm → region_ok r → nr_pmr_ops vm < MAX_VMA_NR →
  if decide (Forall (apart r) (regions vm)) then
    ∃ vm', register_pm_region_operation vm r = Ok vm' ∧ table_ok vm' ∧
      regions vm' ≡ₚ r :: regions vm ∧ vma_heap vm' = vma_heap vm ∧ vma_stack vm' = vma_stack vm
  else ∃ e, register_pm_region_operation vm r = Err e.
Proof.
  intros Hok Hr Hn. case_decide as Hap; [by apply register_apart_Ok|].
  destruct (register_pm_region_operation vm r) as [vm'|e] eqn:He; [|by exists e].
  destruct Hap. by eapply register_Ok_apart.
Qed.

(** [unregister_pm_region] of an entry removes just that entry and
    keeps the others in order; of a pointer outside the table it ends the
    emulator. *)
Theorem unregister_correct vm p :
  table_ok vm →
  if decide (0 <= p < nr_pmr_ops vm) then
    ∃ vm', unregister_pm_region vm p = Ok vm' ∧ table_ok vm' ∧
      regions vm' = delete (Z.to_nat p) (regions vm)
  else unregister_pm_region vm p = Err EAssert.
Proof.
  intros Hok. case_decide as Hp.
  - destruct (unregister_spec vm p Hok Hp) as (l1 & x & l2 & vm' & Heq & -> & ? & ? & Hr & _).
    exists vm'. split; [done|]. split; [done|]. by rewrite Hr, Heq, Nat2Z.id, delete_middle.
  - unfold unregister_pm_region. pose proof (ok_nr _ Hok). rewrite entry_loop_spec, decide_False by lia.
    destruct (Z.ltb_spec (0 + Z.of_nat (Z.to_nat (nr_pmr_ops vm))) (nr_pmr_ops vm)); [lia|done].
Qed.

(** [search_free_mmap_region] for a size whose sum with the spare page does
    not wrap: a non-zero answer starts a range of [size + 4096] bytes that no
    region meets and that ends where a region starts, so the range rounded up to a
    page boundary is free as well; the answer 0 is given exactly when no gap below a
    region is wide enough. *)
Theorem search_free_mmap_region_correct vm size :
  table_ok vm → 0 <= size → size + 4096 < 2 ^ 32 →
  ∃ a, search_free_mmap_region vm size = Ok a ∧
    if decide (a = 0) then
      ∀ k e, regions vm !! k = Some e → addr_low e - floor_of vm k <= size + 4096
    else 0 < a ∧ a + size + 4096 < 2 ^ 32 ∧
      (∃ k e, regions vm !! k = Some e ∧ size + 4096 < addr_low e - floor_of vm k ∧ a + size + 4096 = addr_low e) ∧
      ∀ e, e ∈ regions vm → addr_high e <= a ∨ a + size + 4096 <= addr_low e.
Proof. apply free_search_spec. Qed.

(** ** Examples *)
Definition plain_region (low high : Z) : pm_region_operation :=
  mk_region low high (Some vma_generic) (Some vma_generic) (Some vma_generic) (Some vma_generic)
    "" 6 None.

(** A table of the regions [l]; the unused entries are zeroed. *)
Definition space_of (l : list pm_region_operation) : address_space :=
  mk_space (Z.of_nat (length l))
    (l ++ replicate (128 - length l) (mk_region 0 0 None None None None "" 0 None)) None None.

Definition demo_space : address_space :=
  space_of [plain_region 0x10000 0x20000; plain_region 0x80000000 0x80001000].

Lemma demo_table : table_ok demo_space.
Proof.
  split; [done|done|repeat constructor; simpl; try lia; try done|].
  intros [|[|[|i]]] [|[|[|j]]] a b Hij Ha Hb; simplify_eq/=; lia.
Qed.

Lemma search_pm_region_correct_witness :
  ∃ r, search_pm_region_callback demo_space 0x10010 = Ok r ∧
    match r with
    | Some p => ∃ e, 0 <= p ∧ regions demo_space !! Z.to_nat p = Some e ∧ inside 0x10010 e ∧
        ∀ e', e' ∈ regions demo_space → inside 0x10010 e' → e' = e
    | None => ∀ e, e ∈ regions demo_space → ¬ inside 0x10010 e
    end.
Proof. apply (search_pm_region_correct demo_space 0x10010 demo_table). done. Defined.

Lemma register_correct_witness :
  ∃ vm', register_pm_region_operation demo_space (plain_region 0x30000 0x31000) = Ok vm' ∧
    table_ok vm' ∧ regions vm' ≡ₚ plain_region 0x30000 0x31000 :: regions demo_space ∧
    vma_heap vm' = None ∧ vma_stack vm' = None.
Proof.
  apply (register_correct demo_space (plain_region 0x30000 0x31000) demo_table); [|done].
  split_and!; simpl; (lia || done).
Defined.

Lemma unregister_correct_witness :
  ∃ vm', unregister_pm_region demo_space 0 = Ok vm' ∧ table_ok vm' ∧
    regions vm' = [plain_region 0x80000000 0x80001000].
Proof. apply (unregister_correct demo_space 0 demo_table). Defined.

Lemma search_free_mmap_region_correct_witness :
  ∃ a, search_free_mmap_region demo_space 0x2000 = Ok a ∧
    if decide (a = 0) then
      ∀ k e, regions demo_space !! k = Some e → addr_low e - floor_of demo_space k <= 0x3000
    else 0 < a ∧ a + 0x2000 + 4096 < 2 ^ 32 ∧
      (∃ k e, regions demo_space !! k = Some e ∧ 0x2000 + 4096 < addr_low e - floor_of demo_space k ∧
         a + 0x2000 + 4096 = addr_low e) ∧
      ∀ e, e ∈ regions demo_space → addr_high e <= a ∨ a + 0x2000 + 4096 <= addr_low e.
Proof. apply (search_free_mmap_region_correct demo_space 0x2000 demo_table); lia. Defined.

(** A full array of 128 regions. *)
Definition full_space : address_space :=
  space_of ((λ n : nat, plain_region (32 * Z.of_nat n) (32 * Z.of_nat n + 16)) <$> seq 0 128).

(** The bound that [register_pm_region_operation] asserts is twice the size
    of the array, so on a full array the 129th region is copied behind its end. *)
Theorem register_overflows :
  register_pm_region_operation full_space (plain_region 0x10000 0x11000) = Err EUndef.
Proof. vm_compute. reflexivity. Qed.

(** With a size near 2^32 the sum with the spare page wraps; the answer
    of [search_free_mmap_region] then starts a range that runs over a registered
    region, and the assertion behind it does not notice because its end wraps as
    well. *)
Theorem free_region_wraps :
  search_free_mmap_region demo_space 0xfffff800 = Ok 0x7ffff800 ∧
  ∃ e, e ∈ regions demo_space ∧ ¬ addr_high e <= 0x7ffff800 ∧ ¬ 0x7ffff800 + 0xfffff800 <= addr_low e.
Proof.
  split; [vm_compute; reflexivity|]. exists (plain_region 0x80000000 0x80001000).
  split; [set_solver|]. simpl. lia.
Qed.

End PmRegion.
