(* ===== verification/Trap.v ===== *)
(** * Traps: hart_trap.c, hart_exception.c, hart_interrupt.c, hart_util.h

    Exceptions and interrupts enter machine or supervisor mode by writing the
    trap CSRs, the status fields and the pc, flushing the translation cache and
    jumping to the monitor; [mret_callback] and [sret_callback] of
    translate_privileged_instr.c undo it.  The theorems: trap entry is the
    privileged manual's; the return instructions restore what the trap saved;
    the choice of the target mode. *)
From S2P Require Import Prelude X86 Hart.
Import X86 Hart.

Module Trap.

(** ** State *)
Definition PRIVILEGE_LEVEL_USER : Z := 0x0.

Definition PRIVILEGE_LEVEL_SUPERVISOR : Z := 0x1.

Definition PRIVILEGE_LEVEL_MACHINE : Z := 0x3.

Record status_control_blob := mk_status {
  uie : bool; sie : bool; mie : bool; upie : bool; spie : bool; mpie : bool;
  spp : Z;
  mpp : Z
}.

(** The part of [struct hart] beside the registers and the translation cache:
    the values [csr_blob] of the 4096 CSRs (zeroed by [hart_init]), the dwords of
    the interrupt words, the status fields and the privilege level. *)
Record hart_control := mk_control {
  csrs : gmap Z Z;
  idelegation : Z;
  ienable : Z;
  ipending : Z;
  status : status_control_blob;
  privilege_level : Z
}.

Record cpu := mk_cpu {
  regs : guest;
  control : hart_control;
  cache : hart
}.

Definition CSR_ADDRESS_MEPC : Z := 0x341.

Definition CSR_ADDRESS_MEDELEG : Z := 0x302.

Definition CSR_ADDRESS_MCAUSE : Z := 0x342.

Definition CSR_ADDRESS_MTVAL : Z := 0x343.

Definition CSR_ADDRESS_MTVEC : Z := 0x305.

Definition CSR_ADDRESS_STVEC : Z := 0x105.

Definition CSR_ADDRESS_SATP : Z := 0x180.

Definition CSR_ADDRESS_SCAUSE : Z := 0x142.

Definition CSR_ADDRESS_STVAL : Z := 0x143.

Definition CSR_ADDRESS_SEPC : Z := 0x141.

Definition csr_blob (c : hart_control) (a : Z) : Z := default 0 (csrs c !! a).

Definition set_csr (c : hart_control) (a v : Z) : hart_control :=
  mk_control (<[a := v]> (csrs c)) (idelegation c) (ienable c) (ipending c) (status c)
    (privilege_level c).

Definition set_status (c : hart_control) (s : status_control_blob) (pl : Z) : hart_control :=
  mk_control (csrs c) (idelegation c) (ienable c) (ipending c) s pl.

(** How a C function leaves: it returns, it jumps to the monitor ([do_trap]), or
    the emulator ends. *)
Inductive leaves (A : Type) :=
| Return (a : A)
| Trapped (a : A)
| Ends (e : err).
Arguments Return {A}.
Arguments Trapped {A}.
Arguments Ends {A}.

(** ** Trap entry *)

(** The last lines of both setup functions: the vector of the trap. *)
Definition trap_pc (tvec cause : Z) : Z :=
  let trap_mode := Z.land tvec 0x1 in
  if (trap_mode =? 0) || (Z.land cause 0x80000000 =? 0) then Z.land tvec 0xfffffffc
  else w32 (Z.land tvec 0xfffffffc + w32 (Z.land cause 0x7fffffff * 4)).

Definition setup_mmode_trap (cause tval : Z) (x : cpu) : cpu :=
  let c := control x in
  let c := set_csr c CSR_ADDRESS_MCAUSE cause in
  let c := set_csr c CSR_ADDRESS_MTVAL tval in
  let c := set_csr c CSR_ADDRESS_MEPC (pc (regs x)) in
  let st := status c in
  let st := mk_status (uie st) (sie st) false (upie st) (spie st) (mie st) (spp st)
              (privilege_level c) in
  let c := set_status c st PRIVILEGE_LEVEL_MACHINE in
  mk_cpu (set_pc (regs x) (trap_pc (csr_blob c CSR_ADDRESS_MTVEC) cause)) c (cache x).

(** [spp] is one bit wide. *)
Definition setup_smode_trap (cause tval : Z) (x : cpu) : cpu :=
  let c := control x in
  let c := set_csr c CSR_ADDRESS_SCAUSE cause in
  let c := set_csr c CSR_ADDRESS_STVAL tval in
  let c := set_csr c CSR_ADDRESS_SEPC (pc (regs x)) in
  let st := status c in
  let st := mk_status (uie st) false (mie st) (upie st) (sie st) (mpie st)
              (privilege_level c mod 2) (mpp st) in
  let c := set_status c st PRIVILEGE_LEVEL_SUPERVISOR in
  mk_cpu (set_pc (regs x) (trap_pc (csr_blob c CSR_ADDRESS_STVEC) cause)) c (cache x).

Definition flush (x : cpu) : cpu := mk_cpu (regs x) (control x) (flush_translation_cache (cache x)).

Definition raise_trap_raw (target_privilege_level cause tval : Z) (x : cpu) : leaves cpu :=
  if target_privilege_level =? PRIVILEGE_LEVEL_MACHINE then
    Trapped (flush (setup_mmode_trap cause tval x))
  else if target_privilege_level =? PRIVILEGE_LEVEL_SUPERVISOR then
    Trapped (flush (setup_smode_trap cause tval x))
  else Ends EAssert.

(** ** Exceptions *)
Definition exception_target_privilege_level (x : cpu) (exception_number : Z) : outcome Z :=
  if negb (privilege_level (control x) =? PRIVILEGE_LEVEL_MACHINE) then
    if 32 <=? exception_number then Err EUndef else
    Ok (if negb (Z.land (csr_blob (control x) CSR_ADDRESS_MEDELEG)
                   (Z.shiftl 1 exception_number) =? 0)
        then PRIVILEGE_LEVEL_SUPERVISOR else PRIVILEGE_LEVEL_MACHINE)
  else Ok PRIVILEGE_LEVEL_MACHINE.

Definition raise_exception_internal (exception_cause trap_value : Z) (x : cpu) : leaves cpu :=
  match exception_target_privilege_level x exception_cause with
  | Err e => Ends e
  | Ok target_pl =>
      if exception_cause <? 16 then raise_trap_raw target_pl exception_cause trap_value x
      else Ends EAssert
  end.

Definition EXCEPTION_ILLEEGAL_INSTRUCTION : Z := 0x2.

Definition EXCEPTION_LOAD_ADDRESS_MISALIGN : Z := 0x4.

Definition EXCEPTION_INSTRUCTION_PAGE_FAULT : Z := 0xc.

Definition EXCEPTION_LOAD_PAGE_FAULT : Z := 0xd.

Definition EXCEPTION_STORE_PAGE_FAULT : Z := 0xf.

(** ** Interrupts *)
Definition interrupt_target_privilege_level (x : cpu) (vector : Z) : outcome Z :=
  ASSERT (vector <? 12);;
  Ok (if negb (Z.land (idelegation (control x)) (Z.shiftl 1 vector) =? 0)
      then PRIVILEGE_LEVEL_SUPERVISOR else PRIVILEGE_LEVEL_MACHINE).

Definition is_interrupt_deliverable (x : cpu) (vector : Z) : outcome bool :=
  target_pl ← interrupt_target_privilege_level x vector;
  let c := control x in
  Ok ((privilege_level c <=? target_pl) &&
      negb (Z.land (ipending c) (Z.shiftl 1 vector) =? 0) &&
      negb (Z.land (ienable c) (Z.shiftl 1 vector) =? 0) &&
      (((target_pl =? PRIVILEGE_LEVEL_MACHINE) && mie (status c)) ||
       ((target_pl =? PRIVILEGE_LEVEL_SUPERVISOR) && sie (status c)))).

Definition deliver_interrupt (vector : Z) (x : cpu) : leaves cpu :=
  match interrupt_target_privilege_level x vector with
  | Err e => Ends e
  | Ok target_pl => raise_trap_raw target_pl (Z.lor 0x80000000 vector) 0 x
  end.

(** ** Return from a trap *)
Definition adjust_pc_upon_mret (x : cpu) : cpu :=
  mk_cpu (set_pc (regs x) (csr_blob (control x) CSR_ADDRESS_MEPC)) (control x) (cache x).

Definition adjust_pc_upon_sret (x : cpu) : cpu :=
  mk_cpu (set_pc (regs x) (csr_blob (control x) CSR_ADDRESS_SEPC)) (control x) (cache x).

Definition adjust_mstatus_upon_mret (x : cpu) : outcome cpu :=
  let c := control x in
  let st := status c in
  ASSERT ((mpp st =? PRIVILEGE_LEVEL_USER) || (mpp st =? PRIVILEGE_LEVEL_SUPERVISOR) ||
          (mpp st =? PRIVILEGE_LEVEL_MACHINE));;
  let st' := mk_status (uie st) (sie st) (mpie st) (upie st) (spie st) true (spp st)
               PRIVILEGE_LEVEL_USER in
  Ok (mk_cpu (regs x) (set_status c st' (mpp st)) (cache x)).

Definition adjust_mstatus_upon_sret (x : cpu) : outcome cpu :=
  let c := control x in
  let st := status c in
  ASSERT ((spp st =? PRIVILEGE_LEVEL_USER) || (spp st =? PRIVILEGE_LEVEL_SUPERVISOR));;
  let st' := mk_status (uie st) (spie st) (mie st) (upie st) true (mpie st) PRIVILEGE_LEVEL_USER
               (mpp st) in
  Ok (mk_cpu (regs x) (set_status c st' (spp st)) (cache x)).

(** [assert_hart_running_in_mmode] and [assert_hart_running_in_smode] before the
    rest [k] of a callback: a wrong mode raises an exception and never returns. *)
Definition assert_hart_running_in (pl : Z) (k : cpu → outcome cpu) (x : cpu) : leaves cpu :=
  if privilege_level (control x) =? pl then
    match k x with Ok x => Return x | Err e => Ends e end
  else raise_exception_internal EXCEPTION_ILLEEGAL_INSTRUCTION 0 x.

Definition mret_callback : cpu → leaves cpu :=
  assert_hart_running_in PRIVILEGE_LEVEL_MACHINE (λ x,
    x ← adjust_mstatus_upon_mret x;
    Ok (flush (adjust_pc_upon_mret x))).

Definition sret_callback : cpu → leaves cpu :=
  assert_hart_running_in PRIVILEGE_LEVEL_SUPERVISOR (λ x,
    x ← adjust_mstatus_upon_sret x;
    Ok (flush (adjust_pc_upon_sret x))).

Definition wfi_callback (x : cpu) : leaves cpu := Ends EAssert.

(** ** The privileged manual *)

(** The vector: BASE is xtvec[31:2] followed by two zero bits; in vectored mode
    an interrupt goes to BASE + 4 * cause. *)
Definition manual_vector (tvec cause : Z) : Z :=
  let base := 4 * (tvec / 4) in
  if Z.odd tvec && (2 ^ 31 <=? cause) then (base + 4 * (cause mod 2 ^ 31)) mod 2 ^ 32 else base.

(** A trap into M-mode, and into S-mode. *)
Record entered_m (cause tval : Z) (x x' : cpu) : Prop := {
  em_cause : csr_blob (control x') CSR_ADDRESS_MCAUSE = cause;
  em_tval : csr_blob (control x') CSR_ADDRESS_MTVAL = tval;
  em_epc : csr_blob (control x') CSR_ADDRESS_MEPC = pc (regs x);
  em_mpp : mpp (status (control x')) = privilege_level (control x);
  em_mpie : mpie (status (control x')) = mie (status (control x));
  em_mie : mie (status (control x')) = false;
  em_pl : privilege_level (control x') = PRIVILEGE_LEVEL_MACHINE;
  em_pc : pc (regs x') = manual_vector (csr_blob (control x) CSR_ADDRESS_MTVEC) cause
}.

Record entered_s (cause tval : Z) (x x' : cpu) : Prop := {
  es_cause : csr_blob (control x') CSR_ADDRESS_SCAUSE = cause;
  es_tval : csr_blob (control x') CSR_ADDRESS_STVAL = tval;
  es_epc : csr_blob (control x') CSR_ADDRESS_SEPC = pc (regs x);
  es_spp : spp (status (control x')) = privilege_level (control x);
  es_spie : spie (status (control x')) = sie (status (control x));
  es_sie : sie (status (control x')) = false;
  es_pl : privilege_level (control x') = PRIVILEGE_LEVEL_SUPERVISOR;
  es_pc : pc (regs x') = manual_vector (csr_blob (control x) CSR_ADDRESS_STVEC) cause
}.

(** The status fields a trap into M-mode, and into S-mode, has no business with. *)
Definition same_outside_m (st st' : status_control_blob) : Prop :=
  uie st' = uie st ∧ sie st' = sie st ∧ upie st' = upie st ∧ spie st' = spie st ∧ spp st' = spp st.

Definition same_outside_s (st st' : status_control_blob) : Prop :=
  uie st' = uie st ∧ mie st' = mie st ∧ upie st' = upie st ∧ mpie st' = mpie st ∧ mpp st' = mpp st.

(** What a trap leaves alone: the registers, all CSRs but those touched, the
    interrupt words, the other status fields; and the translation cache, which is
    emptied. *)
Record trap_frame (touched : list Z) (same : status_control_blob → status_control_blob → Prop) (x x' : cpu) : Prop := {
  tf_registers : registers (regs x') = registers (regs x);
  tf_csrs : ∀ a, a ∉ touched → csr_blob (control x') a = csr_blob (control x) a;
  tf_idelegation : idelegation (control x') = idelegation (control x);
  tf_ienable : ienable (control x') = ienable (control x);
  tf_ipending : ipending (control x') = ipending (control x);
  tf_status : same (status (control x)) (status (control x'));
  tf_cache : nr_translated_instructions (cache x') = 0 ∧ translation_cache_ptr (cache x') = 0 ∧
    pc_mappings (cache x') = pc_mappings (cache x) ∧ translation_cache (cache x') = translation_cache (cache x)
}.

Definition frame_m : cpu → cpu → Prop :=
  trap_frame [CSR_ADDRESS_MCAUSE; CSR_ADDRESS_MTVAL; CSR_ADDRESS_MEPC] same_outside_m.

Definition frame_s : cpu → cpu → Prop :=
  trap_frame [CSR_ADDRESS_SCAUSE; CSR_ADDRESS_STVAL; CSR_ADDRESS_SEPC] same_outside_s.

Definition control_ok (c : hart_control) : Prop :=
  (privilege_level c = PRIVILEGE_LEVEL_USER ∨ privilege_level c = PRIVILEGE_LEVEL_SUPERVISOR ∨
   privilege_level c = PRIVILEGE_LEVEL_MACHINE) ∧ ∀ a, word32 (csr_blob c a).

(** *** Lemmas *)
Lemma csr_set c a v b : csr_blob (set_csr c a v) b = if decide (a = b) then v else csr_blob c b.
Proof. unfold csr_blob, set_csr. simpl. rewrite lookup_insert. by case_decide. Qed.

Lemma csr_set_status c st pl a : csr_blob (set_status c st pl) a = csr_blob c a.
Proof. done. Qed.

Lemma trap_pc_manual tvec cause :
  word32 tvec → word32 cause → trap_pc tvec cause = manual_vector tvec cause.
Proof.
  intros Ht Hc. unfold trap_pc, manual_vector.
  rewrite !(clear_low tvec 2 0xfffffffc) by (done || lia).
  assert (Hodd : (Z.land tvec 1 =? 0) = negb (Z.odd tvec)).
  { change 1 with (Z.ones 1). rewrite Z.land_ones by lia. rewrite Zmod_odd. by destruct (Z.odd tvec). }
  assert (Htop : (Z.land cause 0x80000000 =? 0) = negb (2 ^ 31 <=? cause)).
  { change 0x80000000 with (2 ^ 31). rewrite bit_mask by lia. unfold word32 in Hc.
    destruct (Z.leb_spec (2 ^ 31) cause).
    - by replace (cause / 2 ^ 31) with 1 by lia_div.
    - by replace (cause / 2 ^ 31) with 0 by lia_div. }
  rewrite Hodd, Htop. change (2 ^ 2) with 4.
  destruct (Z.odd tvec), (2 ^ 31 <=? cause); try done. cbn [negb orb andb].
  change 0x7fffffff with (Z.ones 31). rewrite Z.land_ones by lia. rewrite w32_add_r.
  unfold w32. f_equal. lia.
Qed.

(** Registering values of the trap CSRs touches no other. *)
Ltac csr_simpl :=
  repeat (rewrite csr_set_status || rewrite csr_set || rewrite decide_True by done
          || rewrite decide_False by done).

Lemma raise_m_spec cause tval x :
  word32 cause → control_ok (control x) → ∃ x',
    raise_trap_raw PRIVILEGE_LEVEL_MACHINE cause tval x = Trapped x' ∧ entered_m cause tval x x' ∧
    frame_m x x'.
Proof.
  intros Hc [_ Hw]. eexists. split; [done|]. split.
  - split; try done; cbn [setup_mmode_trap flush control regs pc set_pc]; csr_simpl; try done.
    apply trap_pc_manual; [apply Hw|done].
  - split; try done. intros a Ha. cbn [setup_mmode_trap flush control].
    csr_simpl. rewrite !decide_False by set_solver. done.
Qed.

Lemma raise_s_spec cause tval x :
  word32 cause → control_ok (control x) → privilege_level (control x) ≠ PRIVILEGE_LEVEL_MACHINE →
  ∃ x',
    raise_trap_raw PRIVILEGE_LEVEL_SUPERVISOR cause tval x = Trapped x' ∧ entered_s cause tval x x' ∧
    frame_s x x'.
Proof.
  intros Hc [Hpl Hw] Hm. eexists. split; [done|]. split.
  - split; try done; cbn [setup_smode_trap flush control regs pc set_pc status spp]; csr_simpl; try done.
    + simpl. destruct Hpl as [-> | [-> | ?]]; done.
    + apply trap_pc_manual; [apply Hw|done].
  - split; try done. intros a Ha. cbn [setup_smode_trap flush control].
    csr_simpl. rewrite !decide_False by set_solver. done.
Qed.

(** Bit [n] of a word, as the code tests it. *)
Lemma test_bit v n : 0 <= n → negb (Z.land v (Z.shiftl 1 n) =? 0) = Z.testbit v n.
Proof.
  intros Hn. rewrite Z.shiftl_1_l, bit_mask by done. rewrite Z.testbit_odd, Z.shiftr_div_pow2 by done.
  rewrite Zmod_odd. pose proof (Z.pow_pos_nonneg 2 n ltac:(lia) Hn).
  destruct (Z.odd (v / 2 ^ n)); [|done]. destruct (Z.eqb_spec (1 * 2 ^ n) 0); (done || lia).
Qed.

(** ** Theorems *)

(** C36: on a hart in U, S or M-mode whose CSRs are 32-bit words, an exception
    with a cause below 16 is delivered as the privileged manual says: in S-mode
    when it is raised below M-mode and delegated, otherwise in M-mode; the cause,
    the trap value, the pc, the previous mode and the interrupt enable are saved,
    the pc is the trap vector and the translation cache is empty; the registers,
    all other CSRs, the delegation, enable and pending words of the interrupts and
    the status fields of the other modes are as before. *)
Theorem raise_exception_correct cause tval x :
  0 <= cause < 16 → control_ok (control x) →
  let delegated := negb (privilege_level (control x) =? PRIVILEGE_LEVEL_MACHINE) &&
    Z.testbit (csr_blob (control x) CSR_ADDRESS_MEDELEG) cause in
  ∃ x', raise_exception_internal cause tval x = Trapped x' ∧
    if delegated then entered_s cause tval x x' ∧ frame_s x x'
    else entered_m cause tval x x' ∧ frame_m x x'.
Proof.
  intros Hc Hok. cbv zeta. unfold raise_exception_internal, exception_target_privilege_level.
  assert (word32 cause) by (unfold word32; lia).
  destruct (Z.eqb_spec (privilege_level (control x)) PRIVILEGE_LEVEL_MACHINE); cbn [negb andb];
    [|destruct (Z.leb_spec 32 cause); [lia|]; rewrite test_bit by lia];
    (destruct (Z.ltb_spec cause 16); [|lia]).
  - destruct (raise_m_spec cause tval x) as (x' & ? & ? & ?); [done..|]. by exists x'.
  - destruct (Z.testbit _ _).
    + destruct (raise_s_spec cause tval x) as (x' & ? & ? & ?); [done..|]. by exists x'.
    + destruct (raise_m_spec cause tval x) as (x' & ? & ? & ?); [done..|]. by exists x'.
Qed.

(** C37: mret undoes a trap into M-mode, and sret one into S-mode: the
    pc, the registers, the privilege level and the interrupt enable bit are those
    of the interrupted code. *)
Theorem trap_return_roundtrip cause tval x :
  word32 cause → control_ok (control x) →
  (∃ x1 x2, raise_trap_raw PRIVILEGE_LEVEL_MACHINE cause tval x = Trapped x1 ∧
     mret_callback x1 = Return x2 ∧ regs x2 = regs x ∧
     privilege_level (control x2) = privilege_level (control x) ∧
     mie (status (control x2)) = mie (status (control x))) ∧
  (privilege_level (control x) ≠ PRIVILEGE_LEVEL_MACHINE →
   ∃ x1 x2, raise_trap_raw PRIVILEGE_LEVEL_SUPERVISOR cause tval x = Trapped x1 ∧
     sret_callback x1 = Return x2 ∧ regs x2 = regs x ∧
     privilege_level (control x2) = privilege_level (control x) ∧
     sie (status (control x2)) = sie (status (control x))).
Proof.
  intros Hc [Hpl Hw]. destruct x as [g [cs d e p st pl] h]. destruct g as [rs p0].
  cbn [control privilege_level] in *. split; [|intros Hm].
  - destruct Hpl as [-> | [-> | ->]]; eexists _, _; (split; [reflexivity|]);
      (split; [reflexivity|]); cbn; csr_simpl; done.
  - destruct Hpl as [-> | [-> | ->]]; [| |done]; eexists _, _; (split; [reflexivity|]);
      (split; [reflexivity|]); cbn; csr_simpl; done.
Qed.

(** The manual: an interrupt that is pending and enabled is taken in its target
    mode when the hart runs below that mode, or in it with interrupts enabled. *)
Definition manual_deliverable (c : hart_control) (vector : Z) : bool :=
  let target := if Z.testbit (idelegation c) vector then PRIVILEGE_LEVEL_SUPERVISOR
                else PRIVILEGE_LEVEL_MACHINE in
  let enabled := if Z.testbit (idelegation c) vector then sie (status c) else mie (status c) in
  Z.testbit (ipending c) vector && Z.testbit (ienable c) vector &&
  ((privilege_level c <? target) || ((privilege_level c =? target) && enabled)).

(** [is_interrupt_deliverable] never lets an interrupt through that the
    manual masks, and in the target mode itself the two agree. *)
Theorem interrupt_deliverable_sound x vector :
  0 <= vector < 12 →
  ∃ b, is_interrupt_deliverable x vector = Ok b ∧
    (b = true → manual_deliverable (control x) vector = true) ∧
    (interrupt_target_privilege_level x vector = Ok (privilege_level (control x)) →
     b = manual_deliverable (control x) vector).
Proof.
  intros Hv. unfold is_interrupt_deliverable, interrupt_target_privilege_level, manual_deliverable.
  destruct (Z.ltb_spec vector 12); [|lia]. cbn [ASSERT mbind outcome_bind].
  rewrite !test_bit by lia. eexists. split; [done|].
  set (pl := privilege_level (control x)).
  unfold PRIVILEGE_LEVEL_MACHINE, PRIVILEGE_LEVEL_SUPERVISOR in *.
  destruct (Z.testbit (ipending _) _), (Z.testbit (ienable _) _); rewrite ?andb_false_r, ?andb_true_r;
    cbn [andb]; try (by split).
  destruct (Z.testbit (idelegation _) _); simpl; rewrite ?orb_false_r.
  - destruct (Z.leb_spec pl 1), (Z.ltb_spec pl 1), (Z.eqb_spec pl 1), (sie _); simpl;
      (split; intros; simplify_eq; (done || lia)).
  - destruct (Z.leb_spec pl 3), (Z.ltb_spec pl 3), (Z.eqb_spec pl 3), (mie _); simpl;
      (split; intros; simplify_eq; (done || lia)).
Qed.

(** A hart in user mode with the machine timer pending and enabled, and machine
    interrupts disabled. *)
Definition user_cpu : cpu :=
  mk_cpu (mk_guest (replicate 32 0) 0x1000)
    (mk_control ∅ 0 0x80 0x80 (mk_status false false false false false false 0 0) 0)
    empty_hart.

Lemma user_cpu_ok : control_ok (control user_cpu).
Proof. split; [by left|]. intros a. unfold csr_blob. simpl. by rewrite lookup_empty. Qed.

(** The code masks an M-mode interrupt by [mie] in every mode; the
    manual has the interrupts of a more privileged mode always enabled. *)
Theorem interrupt_masked_below :
  is_interrupt_deliverable user_cpu 7 = Ok false ∧ manual_deliverable (control user_cpu) 7 = true.
Proof. done. Qed.

Lemma raise_exception_correct_witness :
  ∃ x', raise_exception_internal 2 0 user_cpu = Trapped x' ∧ entered_m 2 0 user_cpu x' ∧
    frame_m user_cpu x'.
Proof. apply (raise_exception_correct 2 0 user_cpu); [lia|apply user_cpu_ok]. Defined.

Lemma trap_return_roundtrip_witness :
  ∃ x1 x2, raise_trap_raw PRIVILEGE_LEVEL_MACHINE 2 0 user_cpu = Trapped x1 ∧
    mret_callback x1 = Return x2 ∧ regs x2 = regs user_cpu ∧
    privilege_level (control x2) = 0 ∧ mie (status (control x2)) = false.
Proof. apply (trap_return_roundtrip 2 0 user_cpu); [done|apply user_cpu_ok]. Defined.

Lemma interrupt_deliverable_sound_witness :
  ∃ b, is_interrupt_deliverable user_cpu 7 = Ok b ∧
    (b = true → manual_deliverable (control user_cpu) 7 = true) ∧
    (interrupt_target_privilege_level user_cpu 7 = Ok 0 →
     b = manual_deliverable (control user_cpu) 7).
Proof. apply (interrupt_deliverable_sound user_cpu 7). lia. Defined.

End Trap.
