(* ===== verification/Vma.v ===== *)
(** * The memory behind the regions: app.c, and brk, mmap and munmap

    A region's bytes live in a host block ([host_base]); [vma_generic_read] and
    [vma_generic_write] of app.c access them without a bounds check of their own.
    mmu.h's direct accesses search the region of an address and call its
    callback.  The address space changes through [mmap_setup], [do_munmap] and
    [call_brk].  The theorems relate all of them to a partial map from guest
    addresses to bytes. *)
From S2P Require Import Prelude SortSearch PmRegion.
Import Macros PmRegion.

Module Vma.

(** ** Host memory

    Blocks of bytes by number; a host pointer is a block and an offset. *)
Notation host_heap := (gmap Z (list Z)).

(** The host's allocator: the block it hands out ([None] for NULL) and what the
    memory holds before it is written. *)
Class HostAlloc := {
  aligned_alloc : host_heap → Z → option Z;
  uninit : host_heap → Z → nat → list Z
}.

Definition is_byte (z : Z) : Prop := 0 <= z < 256.

(** The C standard: a new block does not overlap a live one; it has the size asked
    for. *)
Class HostAllocOk `{HostAlloc} := {
  alloc_fresh : ∀ h n b, aligned_alloc h n = Some b → h !! b = None;
  uninit_length : ∀ h b n, length (uninit h b n) = n;
  uninit_bytes : ∀ h b n, Forall is_byte (uninit h b n)
}.

Record process := mk_process {
  space : address_space;
  heap : host_heap
}.

(** Little-endian values. *)
Fixpoint le_combine (l : list Z) : Z :=
  match l with [] => 0 | b :: l => b + 256 * le_combine l end.

Fixpoint le_split (n : nat) (v : Z) : list Z :=
  match n with O => [] | S n => v mod 256 :: le_split n (v / 256) end.

(** [*(type * )ptr] on [n] bytes. *)
Definition load (h : host_heap) (ptr : option Z * Z) (n : Z) : outcome Z :=
  b ← deref (fst ptr);
  l ← deref (h !! b);
  if (snd ptr + n <=? Z.of_nat (length l)) && (0 <=? snd ptr)
  then Ok (le_combine (take (Z.to_nat n) (drop (Z.to_nat (snd ptr)) l))) else Err EUndef.

(** [memcpy(ptr, bytes, len)]. *)
Definition store_bytes (h : host_heap) (ptr : option Z * Z) (bytes : list Z) : outcome host_heap :=
  b ← deref (fst ptr);
  l ← deref (h !! b);
  if (snd ptr + Z.of_nat (length bytes) <=? Z.of_nat (length l)) && (0 <=? snd ptr)
  then Ok (<[b := take (Z.to_nat (snd ptr)) l ++ bytes ++
                  drop (Z.to_nat (snd ptr) + length bytes) l]> h)
  else Err EUndef.

Definition store (h : host_heap) (ptr : option Z * Z) (n v : Z) : outcome host_heap :=
  store_bytes h ptr (le_split (Z.to_nat n) v).

(** ** The callbacks of app.c *)
Definition vma_generic_direct (addr : Z) (pmr : pm_region_operation) : option Z * Z :=
  (host_base pmr, w64 (addr - addr_low pmr)).

Definition vma_generic_read (addr access_size : Z) (pmr : pm_region_operation) (h : host_heap)
    : outcome Z :=
  let memory_access_base := vma_generic_direct addr pmr in
  match access_size with
  | 1 | 2 | 4 | 8 => load h memory_access_base access_size
  | _ => not_reach
  end.

Definition vma_generic_write (addr access_size value : Z) (pmr : pm_region_operation)
    (h : host_heap) : outcome host_heap :=
  let memory_access_base := vma_generic_direct addr pmr in
  match access_size with
  | 1 | 2 | 4 | 8 => store h memory_access_base access_size value
  | _ => not_reach
  end.

(** [free(pmr->host_base)]; the region's pointer becomes NULL. *)
Definition vma_generic_reclaim (pmr : pm_region_operation) (h : host_heap)
    : pm_region_operation * host_heap :=
  match host_base pmr with
  | Some b =>
      (mk_region (addr_low pmr) (addr_high pmr) (pmr_read pmr) (pmr_write pmr) (pmr_direct pmr)
         (pmr_reclaim pmr) (pmr_desc pmr) (flags pmr) None, delete b h)
  | None => (pmr, h)
  end.

(** ** Direct accesses of mmu.h

    [direct_read8] to [direct_read64]: [size] is the number of bytes.  The process
    is the one [get_linked_vm] answers. *)
Definition direct_read (size linear_address : Z) (p : process) : outcome Z :=
  pmr ← search_pm_region_callback (space p) linear_address;
  match pmr with
  | None => not_reach
  | Some i =>
      pmr ← ELEM (pmr_ops (space p)) i;
      match pmr_read pmr with
      | Some vma_generic => vma_generic_read linear_address size pmr (heap p)
      | None => Err EUndef
      end
  end.

Definition direct_write (size linear_address value : Z) (p : process) : outcome process :=
  pmr ← search_pm_region_callback (space p) linear_address;
  match pmr with
  | None => not_reach
  | Some i =>
      pmr ← ELEM (pmr_ops (space p)) i;
      match pmr_write pmr with
      | Some vma_generic =>
          h ← vma_generic_write linear_address size value pmr (heap p);
          Ok (mk_process (space p) h)
      | None => Err EUndef
      end
  end.

(** uaccess.h. *)
Definition user_accessible (p : process) (uaddress : Z) : outcome bool :=
  pmr ← search_pm_region_callback (space p) uaddress;
  match pmr with
  | None => Ok false
  | Some i => pmr ← ELEM (pmr_ops (space p)) i; Ok (bool_decide (is_Some (pmr_direct pmr)))
  end.

Definition user_world_pointer (p : process) (uaddress : Z) : outcome (option Z * Z) :=
  pmr ← search_pm_region_callback (space p) uaddress;
  match pmr with
  | None => not_reach
  | Some i =>
      pmr ← ELEM (pmr_ops (space p)) i;
      match pmr_direct pmr with
      | Some vma_generic => Ok (vma_generic_direct uaddress pmr)
      | None => not_reach
      end
  end.

(** ** Setting up and changing the address space *)
Section setup.
Context `{HA : HostAlloc}.

Definition preallocate_physical_memory (nr_bytes : Z) (h : host_heap) : option Z * host_heap :=
  match aligned_alloc h nr_bytes with
  | Some b => (Some b, <[b := replicate (Z.to_nat nr_bytes) 0]> h)
  | None => (None, h)
  end.

Definition realloc (ptr : option Z) (n : Z) (h : host_heap) : option Z * host_heap :=
  match aligned_alloc h n with
  | None => (None, h)
  | Some b =>
      let old := match ptr with Some b0 => default [] (h !! b0) | None => [] end in
      let new := take (Z.to_nat n) old ++ drop (length old) (uninit h b (Z.to_nat n)) in
      (Some b, <[b := new]> (match ptr with Some b0 => delete b0 h | None => h end))
  end.

(** The regions app.c makes; the addresses [sprintf] puts in the description are
    left out. *)
Definition generic_region (low high fl : Z) (desc : string) (base : option Z)
    : pm_region_operation :=
  mk_region low high (Some vma_generic) (Some vma_generic) (Some vma_generic) (Some vma_generic)
    desc fl base.

Definition PROGRAM_EXECUTE : Z := 0x1.

Definition PROGRAM_WRITE : Z := 0x2.

Definition PROGRAM_READ : Z := 0x4.

Definition DEFAULT_STACK_SIZE : Z := 1024 * 1024 * 8.

Definition DEFAULT_STACK_CELIING : Z := 0xE0000000.

(** [stack_init]; the stack pointer it sets is the second result. *)
Definition stack_init (p : process) : outcome (process * Z) :=
  let '(host_stack_base, h) := preallocate_physical_memory DEFAULT_STACK_SIZE (heap p) in
  ASSERT (bool_decide (is_Some host_stack_base));;
  let low := DEFAULT_STACK_CELIING - DEFAULT_STACK_SIZE in
  vm ← register_pm_region_operation (space p)
         (generic_region low DEFAULT_STACK_CELIING (Z.lor PROGRAM_READ PROGRAM_WRITE) "stack"
            host_stack_base);
  s ← search_pm_region_callback vm low;
  ASSERT (bool_decide (is_Some s));;
  Ok (mk_process (mk_space (nr_pmr_ops vm) (pmr_ops vm) (vma_heap vm) s) h,
      DEFAULT_STACK_CELIING - 0x100).

Definition heap_init (proposed_prog_break : Z) (p : process) : outcome process :=
  let prog_break := w32 (proposed_prog_break + 4096 * 16) in
  let prog_break := Z.land prog_break 0xfffff000 in
  vm ← register_pm_region_operation (space p)
         (generic_region (w32 (prog_break - 1)) prog_break (Z.lor PROGRAM_READ PROGRAM_WRITE)
            "heap" None);
  s ← search_pm_region_callback vm (w32 (prog_break - 1));
  ASSERT (bool_decide (is_Some s));;
  Ok (mk_process (mk_space (nr_pmr_ops vm) (pmr_ops vm) s (vma_stack vm)) (heap p)).

(** [mmap_setup] with a null [host_base], as its callers use it. *)
Definition mmap_setup (addr_low len fl : Z) (p : process) : outcome process :=
  let '(host_base, h) := preallocate_physical_memory len (heap p) in
  vm ← register_pm_region_operation (space p)
         (generic_region addr_low (w32 (addr_low + len)) fl "mmap" host_base);
  Ok (mk_process vm h).

(** vfs.c *)
Definition PAGE_ROUNDUP (addr : Z) : Z :=
  if Z.land addr 4095 =? 0 then addr else w32 (Z.land addr 0xfffff000 + 4096).

Definition ENOMEM : Z := 12.

Definition EINVAL : Z := 22.

Definition allocate_mmap_region (proposal_addr len mprot : Z) (p : process)
    : outcome (Z * process) :=
  '(is_eligible, low) ←
    (if proposal_addr =? 0 then Ok (false, 0) else
     let addr_low := PAGE_ROUNDUP proposal_addr in
     ok ← is_range_eligible (space p) addr_low (w32 (addr_low + len));
     Ok (ok, if (ok : bool) then addr_low else 0));
  '(is_eligible, low) ←
    (if (is_eligible : bool) then Ok (true, low) else
     addr_found ← search_free_mmap_region (space p) len;
     Ok (if addr_found =? 0 then (false, low) else (true, PAGE_ROUNDUP addr_found)));
  if (is_eligible : bool) then
    p ← mmap_setup low len mprot p;
    Ok (low, p)
  else Ok (w32 (- ENOMEM), p).

Definition MAP_ANONYMOUS : Z := 0x20.

Definition do_mmap (proposal_addr len prot fl fd offset : Z) (p : process) : outcome (Z * process) :=
  let mprot := Z.lor (Z.lor (if Z.land fl 0x1 =? 0 then 0 else PROGRAM_READ)
                            (if Z.land fl 0x2 =? 0 then 0 else PROGRAM_WRITE))
                     (if Z.land fl 0x4 =? 0 then 0 else PROGRAM_EXECUTE) in
  if len =? 0 then Ok (w32 (- EINVAL), p) else
  if negb (Z.land fl MAP_ANONYMOUS =? 0) then allocate_mmap_region proposal_addr len mprot p
  else not_reach.

(** Overwriting entry [i] of the array. *)
Definition set_region (vm : address_space) (i : Z) (r : pm_region_operation)
    : outcome address_space :=
  ops ← deref (zset (pmr_ops vm) i r);
  Ok (mk_space (nr_pmr_ops vm) ops (vma_heap vm) (vma_stack vm)).

Definition do_munmap (addr len : Z) (p : process) : outcome (Z * process) :=
  pmr ← search_pm_region_callback (space p) addr;
  match pmr with
  | None => Ok (w32 (- EINVAL), p)
  | Some i =>
      r ← ELEM (pmr_ops (space p)) i;
      let region_len := w32 (addr_high r - addr_low r) in
      if negb (region_len =? len) then Ok (w32 (- EINVAL), p) else
      '(vm, h) ← (match pmr_reclaim r with
                  | Some vma_generic =>
                      let '(r, h) := vma_generic_reclaim r (heap p) in
                      vm ← set_region (space p) i r; Ok (vm, h)
                  | None => Ok (space p, heap p)
                  end);
      vm ← unregister_pm_region vm i;
      Ok (0, mk_process vm h)
  end.

Definition with_bounds (r : pm_region_operation) (high : Z) (base : option Z)
    : pm_region_operation :=
  mk_region (addr_low r) high (pmr_read r) (pmr_write r) (pmr_direct r) (pmr_reclaim r)
    (pmr_desc r) (flags r) base.

Definition call_brk (addr : Z) (p : process) : outcome (Z * process) :=
  i ← deref (vma_heap (space p));
  r ← ELEM (pmr_ops (space p)) i;
  if (addr =? 0) || (addr <=? addr_high r) then Ok (addr_high r, p) else
  let r1 := with_bounds r addr (host_base r) in
  vm ← set_region (space p) i r1;
  ok ← is_vma_eligible vm (Some i);
  if negb ok then
    vm ← set_region vm i r;
    Ok (w32 (- ENOMEM), mk_process vm (heap p))
  else
    let '(base, h) := realloc (host_base r) (w32 (addr - addr_low r)) (heap p) in
    vm ← set_region vm i (with_bounds r addr base);
    Ok (if bool_decide (is_Some base) then addr else w32 (- ENOMEM), mk_process vm h).

End setup.

(** ** Little-endian digits *)
Lemma le_combine_range l : Forall is_byte l → 0 <= le_combine l < 256 ^ Z.of_nat (length l).
Proof.
  induction 1 as [|b l Hb _ IH]; cbn [length le_combine]; [done|]. unfold is_byte in Hb.
  rewrite Nat2Z.inj_succ, Z.pow_succ_r by lia. lia.
Qed.

Lemma le_combine_digit l k b :
  Forall is_byte l → l !! k = Some b → (le_combine l / 256 ^ Z.of_nat k) mod 256 = b.
Proof.
  intros Hl. revert k. induction Hl as [|x l Hx Hl IH]; intros k Hk; [done|]. unfold is_byte in Hx.
  destruct k as [|k]; cbn [lookup list_lookup le_combine] in *; simplify_eq.
  - rewrite Z.div_1_r, Z.mul_comm, Z.mod_add by lia. apply Z.mod_small. lia.
  - rewrite Nat2Z.inj_succ, Z.pow_succ_r, <- Z.div_div by lia.
    replace ((x + 256 * le_combine l) / 256) with (le_combine l) by lia_div. by apply IH.
Qed.

Lemma le_split_length n v : length (le_split n v) = n.
Proof. revert v. induction n; intros; simpl; auto. Qed.

Lemma le_split_digit n v k :
  (k < n)%nat → le_split n v !! k = Some ((v / 256 ^ Z.of_nat k) mod 256).
Proof.
  revert v k. induction n as [|n IH]; intros v k Hk; [lia|]. destruct k as [|k]; cbn [lookup list_lookup le_split].
  - by rewrite Z.div_1_r.
  - rewrite IH by lia. rewrite Z.div_div by lia. by rewrite Nat2Z.inj_succ, Z.pow_succ_r by lia.
Qed.

Lemma le_split_bytes n v : Forall is_byte (le_split n v).
Proof.
  revert v. induction n; intros; simpl; constructor; auto. apply Z.mod_pos_bound. lia.
Qed.

Lemma le_combine_split n v : le_combine (le_split n v) = v mod 256 ^ Z.of_nat n.
Proof.
  revert v. induction n as [|n IH]; intros v; [symmetry; apply Z.mod_1_r|].
  cbn [le_split le_combine]. rewrite IH, Nat2Z.inj_succ, Z.pow_succ_r, Z.rem_mul_r by lia. lia.
Qed.

(** ** Guest memory as a map from addresses to bytes *)
Definition region_bytes (p : process) (r : pm_region_operation) : option (list Z) :=
  b ← host_base r; heap p !! b.

Definition byte_at (p : process) (a : Z) : option Z :=
  '(_, r) ← list_find (inside a) (regions (space p));
  l ← region_bytes p r;
  zget l (a - addr_low r).

(** A region's block has its size, and no two regions share a block. *)
Record mem_ok (p : process) : Prop := {
  mo_table : table_ok (space p);
  mo_block : ∀ r b, r ∈ regions (space p) → host_base r = Some b →
    ∃ l, heap p !! b = Some l ∧ Z.of_nat (length l) = addr_high r - addr_low r ∧ Forall is_byte l;
  mo_sep : NoDup (omap host_base (regions (space p)))
}.

(** [n] bytes from [a] lie in one region with memory behind it. *)
Definition accessible (p : process) (a n : Z) : Prop :=
  ∃ r b, r ∈ regions (space p) ∧ addr_low r <= a ∧ a + n <= addr_high r ∧ host_base r = Some b.

Lemma omap_inj {A B} (f : A → option B) l x y b :
  NoDup (omap f l) → x ∈ l → y ∈ l → f x = Some b → f y = Some b → x = y.
Proof.
  induction l as [|z l IH]; intros Hnd Hx Hy Hfx Hfy; [by apply not_elem_of_nil in Hx|].
  assert (Hin : ∀ w, w ∈ l → f w = Some b → b ∈ omap f l)
    by (intros w ? ?; apply list_elem_of_omap; eauto).
  cbn in Hnd. destruct (f z) as [c|] eqn:Hz.
  - apply NoDup_cons in Hnd as [Hn Hnd].
    apply elem_of_cons in Hx as [->|Hx], Hy as [->|Hy]; [done|..|by apply IH];
      simplify_eq; by destruct Hn; eapply Hin.
  - apply elem_of_cons in Hx as [->|Hx], Hy as [->|Hy]; try congruence. by apply IH.
Qed.

Lemma find_region vm r a :
  table_ok vm → r ∈ regions vm → inside a r →
  ∃ i, list_find (inside a) (regions vm) = Some (i, r) ∧ regions vm !! i = Some r.
Proof.
  intros Hok Hr Ha. destruct (list_find_elem_of (inside a) (regions vm) r Hr Ha) as [[i r'] Hf].
  exists i. rewrite Hf. apply list_find_Some in Hf as (Hi & Hin & _).
  destruct (ascending_disjoint _ (ok_ascending _ Hok) r r') as [->|Hap];
    [done|by eapply list_elem_of_lookup_2|done|unfold inside, apart in *; lia].
Qed.

Lemma byte_at_region p r a :
  table_ok (space p) → r ∈ regions (space p) → inside a r →
  byte_at p a = (l ← region_bytes p r; zget l (a - addr_low r)).
Proof.
  intros Hok Hr Ha. destruct (find_region _ _ _ Hok Hr Ha) as (i & Hf & _).
  unfold byte_at. by rewrite Hf.
Qed.

Lemma byte_at_none p a : (∀ r, r ∈ regions (space p) → ¬ inside a r) → byte_at p a = None.
Proof.
  intros Hno. unfold byte_at. destruct (list_find _ _) as [[i r]|] eqn:Hf; [|done].
  apply list_find_Some in Hf as (Hi & Hin & _).
  destruct (Hno r); [by eapply list_elem_of_lookup_2|done].
Qed.

(** An access inside region [r]: the entry the search finds and its block. *)
Lemma access_region p r b a :
  mem_ok p → r ∈ regions (space p) → inside a r → host_base r = Some b →
  ∃ i l, search_pm_region_callback (space p) a = Ok (Some i) ∧
    zget (pmr_ops (space p)) i = Some r ∧ region_ok r ∧ heap p !! b = Some l ∧
    Z.of_nat (length l) = addr_high r - addr_low r ∧ Forall is_byte l ∧
    vma_generic_direct a r = (Some b, a - addr_low r).
Proof.
  intros Hok Hr Ha Hb. pose proof (mo_table _ Hok) as Ht.
  pose proof (proj1 (Forall_forall _ _) (ok_regions _ Ht) r Hr) as Hrok.
  destruct (search_member _ _ a Ht Hr Ha) as (i & Hs & Hi & Hz).
  destruct (mo_block _ Hok r b Hr Hb) as (l & ? & ? & ?).
  exists i, l. split_and!; try done. unfold vma_generic_direct. rewrite Hb. f_equal.
  destruct Hrok as (? & ? & _). unfold inside in Ha. apply Z.mod_small. lia.
Qed.

(** ** Reading and writing *)
Definition access_size_ok (n : Z) : Prop := n = 1 ∨ n = 2 ∨ n = 4 ∨ n = 8.

Lemma generic_read_load a n r h :
  access_size_ok n → vma_generic_read a n r h = load h (vma_generic_direct a r) n.
Proof. by intros [-> | [-> | [-> | ->]]]. Qed.

Lemma generic_write_store a n v r h :
  access_size_ok n → vma_generic_write a n v r h = store h (vma_generic_direct a r) n v.
Proof. by intros [-> | [-> | [-> | ->]]]. Qed.

(** The two direct accesses inside a region with memory, up to the host access. *)
Lemma direct_read_load p r b a n :
  mem_ok p → r ∈ regions (space p) → inside a r → host_base r = Some b → access_size_ok n →
  direct_read n a p = load (heap p) (Some b, a - addr_low r) n.
Proof.
  intros Hok Hr Ha Hb Hn.
  destruct (access_region p r b a Hok Hr Ha Hb) as (i & l & Hs & Hz & (_ & _ & [[] Hrd] & _) & _ & _ & _ & Hd).
  unfold direct_read, ELEM. rewrite Hs. cbn [mbind outcome_bind]. rewrite Hz.
  cbn [deref mbind outcome_bind]. rewrite Hrd. by rewrite generic_read_load, Hd by done.
Qed.

Lemma direct_write_store p r b a n v :
  mem_ok p → r ∈ regions (space p) → inside a r → host_base r = Some b → access_size_ok n →
  direct_write n a v p =
    (h ← store (heap p) (Some b, a - addr_low r) n v; Ok (mk_process (space p) h)).
Proof.
  intros Hok Hr Ha Hb Hn.
  destruct (access_region p r b a Hok Hr Ha Hb) as (i & l & Hs & Hz & (_ & _ & _ & [[] Hwr]) & _ & _ & _ & Hd).
  unfold direct_write, ELEM. rewrite Hs. cbn [mbind outcome_bind]. rewrite Hz.
  cbn [deref mbind outcome_bind]. rewrite Hwr. by rewrite generic_write_store, Hd by done.
Qed.

Lemma read_spec p a n :
  mem_ok p → accessible p a n → access_size_ok n →
  ∃ v, direct_read n a p = Ok v ∧ 0 <= v < 256 ^ n ∧
    ∀ k, 0 <= k < n → byte_at p (a + k) = Some ((v / 256 ^ k) mod 256).
Proof.
  intros Hok (r & b & Hr & Hlo & Hhi & Hb) Hn. assert (0 < n) by (unfold access_size_ok in Hn; lia).
  assert (Ha : inside a r) by (unfold inside; lia).
  destruct (access_region p r b a Hok Hr Ha Hb) as (_ & l & _ & _ & _ & Hl & Hlen & Hbytes & _).
  rewrite (direct_read_load p r b a n) by done. unfold load. cbn [fst snd deref mbind outcome_bind].
  rewrite Hl. cbn [deref mbind outcome_bind]. set (bs := take _ _).
  destruct (Z.leb_spec (a - addr_low r + n) (Z.of_nat (length l))); [|lia].
  destruct (Z.leb_spec 0 (a - addr_low r)); [|lia]. cbn [andb].
  assert (Hbs : Forall is_byte bs) by by apply Forall_take, Forall_drop.
  assert (Hbl : length bs = Z.to_nat n) by (unfold bs; rewrite length_take, length_drop; lia).
  exists (le_combine bs). split; [done|]. split.
  { pose proof (le_combine_range bs Hbs) as Hrange. by rewrite Hbl, Z2Nat.id in Hrange by lia. }
  intros k Hk. rewrite (byte_at_region p r) by (apply Hok || done || (unfold inside; lia)).
  unfold region_bytes. rewrite Hb. cbn. rewrite Hl. cbn.
  destruct (lookup_lt_is_Some_2 bs (Z.to_nat k) ltac:(lia)) as [x Hx].
  pose proof (le_combine_digit bs (Z.to_nat k) x Hbs Hx) as Hd. rewrite Z2Nat.id in Hd by lia.
  rewrite Hd. unfold bs in Hx. apply lookup_take_Some in Hx as [Hx _]. rewrite lookup_drop in Hx.
  apply zget_Some. split; [lia|]. rewrite <- Hx. f_equal. lia.
Qed.

(** A block after a store: the bytes written, the others as before. *)
Lemma store_lookup (l bytes : list Z) o k :
  0 <= o → o + Z.of_nat (length bytes) <= Z.of_nat (length l) →
  zget (take (Z.to_nat o) l ++ bytes ++ drop (Z.to_nat o + length bytes) l) k =
    if decide (o <= k < o + Z.of_nat (length bytes)) then zget bytes (k - o) else zget l k.
Proof.
  intros Ho Hl. unfold zget. destruct (Z.leb_spec 0 k).
  2: { case_decide; [lia|done]. }
  assert (Ht : length (take (Z.to_nat o) l) = Z.to_nat o) by (rewrite length_take; lia).
  case_decide as Hk.
  - destruct (Z.leb_spec 0 (k - o)); [|lia]. rewrite lookup_app_r by lia. rewrite Ht.
    rewrite lookup_app_l by lia. f_equal. lia.
  - destruct (Z.lt_ge_cases k o).
    + rewrite lookup_app_l, lookup_take_lt by lia. done.
    + rewrite lookup_app_r, Ht, lookup_app_r, lookup_drop by lia. f_equal. lia.
Qed.

(** Replacing the block of one region. *)
Lemma byte_at_update p r b l l' :
  mem_ok p → r ∈ regions (space p) → host_base r = Some b → heap p !! b = Some l →
  length l' = length l → Forall is_byte l' →
  let p' := mk_process (space p) (<[b := l']> (heap p)) in
  mem_ok p' ∧
  ∀ x, byte_at p' x = if decide (inside x r) then zget l' (x - addr_low r) else byte_at p x.
Proof.
  intros Hok Hr Hb Hl Hlen Hby p'. pose proof (mo_table _ Hok) as Ht. split.
  - split; [done| |apply Hok]. intros r' b' Hi Hb'. simpl.
    destruct (mo_block _ Hok r' b' Hi Hb') as (l0 & Hl0 & ? & ?).
    destruct (decide (b' = b)) as [->|].
    + rewrite lookup_insert_eq. exists l'. rewrite Hl in Hl0. injection Hl0 as <-.
      split; [done|]. split; [congruence|done].
    + rewrite lookup_insert_ne by done. by exists l0.
  - intros x. case_decide as Hx.
    + rewrite (byte_at_region p' r) by done. unfold region_bytes. rewrite Hb.
      change (heap p') with (<[b := l']> (heap p)). cbn. by rewrite lookup_insert_eq.
    + unfold byte_at. cbn [space p'].
      destruct (list_find (inside x) (regions (space p))) as [[j r']|] eqn:Hf; [|done]. cbn.
      apply list_find_Some in Hf as (Hj & Hin & _). unfold region_bytes.
      destruct (host_base r') as [b'|] eqn:Hb'; [|done].
      change (heap p') with (<[b := l']> (heap p)). cbn. rewrite lookup_insert_ne; [done|].
      intros ->. apply Hx. apply list_elem_of_lookup_2 in Hj.
      by rewrite (omap_inj _ _ _ _ _ (mo_sep _ Hok) Hr Hj Hb Hb').
Qed.

Lemma write_spec p a n v :
  mem_ok p → accessible p a n → access_size_ok n →
  ∃ p', direct_write n a v p = Ok p' ∧ space p' = space p ∧ mem_ok p' ∧
    ∀ x, byte_at p' x = if decide (a <= x < a + n) then Some ((v / 256 ^ (x - a)) mod 256)
                        else byte_at p x.
Proof.
  intros Hok (r & b & Hr & Hlo & Hhi & Hb) Hn. assert (0 < n) by (unfold access_size_ok in Hn; lia).
  assert (Ha : inside a r) by (unfold inside; lia).
  destruct (access_region p r b a Hok Hr Ha Hb) as (_ & l & _ & _ & _ & Hl & Hlen & Hbytes & _).
  rewrite (direct_write_store p r b a n v) by done. unfold store, store_bytes.
  cbn [fst snd deref mbind outcome_bind]. rewrite Hl. cbn [deref mbind outcome_bind].
  set (bs := le_split (Z.to_nat n) v). set (o := a - addr_low r).
  assert (Hbs : length bs = Z.to_nat n) by apply le_split_length.
  destruct (Z.leb_spec (o + Z.of_nat (length bs)) (Z.of_nat (length l))); [|lia].
  destruct (Z.leb_spec 0 o); [|lia]. cbn [andb mbind outcome_bind].
  eexists. split; [done|]. split; [done|].
  destruct (byte_at_update p r b l (take (Z.to_nat o) l ++ bs ++ drop (Z.to_nat o + length bs) l))
    as [Hok' Hby]; try done.
  { rewrite !length_app, length_take, length_drop. lia. }
  { rewrite !Forall_app. split_and!; [by apply Forall_take|apply le_split_bytes|by apply Forall_drop]. }
  split; [done|]. intros x. rewrite Hby. case_decide as Hx.
  - rewrite store_lookup by lia. unfold inside in Hx. destruct (decide (a <= x < a + n)).
    + rewrite decide_True by lia. rewrite zget_lookup by lia.
      replace (x - addr_low r - o) with (x - a) by lia.
      unfold bs. by rewrite le_split_digit, Z2Nat.id by lia.
    + rewrite decide_False by lia. rewrite (byte_at_region p r) by (apply Hok || done).
      unfold region_bytes. rewrite Hb. cbn. by rewrite Hl.
  - rewrite decide_False; [done|]. unfold inside in Hx. lia.
Qed.

(** ** Theorems on accesses *)

(** C28: a read of 1, 2, 4 or 8 bytes inside one region returns the little-endian
    value of the guest's bytes; a write changes exactly the bytes it covers, in
    every region, and keeps the memory well formed. *)
Theorem direct_access_correct p a n v :
  mem_ok p → accessible p a n → access_size_ok n →
  (∃ x, direct_read n a p = Ok x ∧ 0 <= x < 256 ^ n ∧
     ∀ k, 0 <= k < n → byte_at p (a + k) = Some ((x / 256 ^ k) mod 256)) ∧
  (∃ p', direct_write n a v p = Ok p' ∧ mem_ok p' ∧
     ∀ x, byte_at p' x = if decide (a <= x < a + n) then Some ((v / 256 ^ (x - a)) mod 256)
                         else byte_at p x).
Proof.
  intros Hok Ha Hn. split; [by apply read_spec|].
  destruct (write_spec p a n v Hok Ha Hn) as (p' & ? & _ & ? & ?). by exists p'.
Qed.

(** Values below [256 ^ n] with the same digits are equal. *)
Lemma digits_inj n v w :
  0 <= v < 256 ^ Z.of_nat n → 0 <= w < 256 ^ Z.of_nat n →
  (∀ k, 0 <= k < Z.of_nat n → (v / 256 ^ k) mod 256 = (w / 256 ^ k) mod 256) → v = w.
Proof.
  revert v w. induction n as [|n IH]; intros v w Hv Hw Hd; [simpl in *; lia|].
  rewrite Nat2Z.inj_succ, Z.pow_succ_r in Hv, Hw by lia.
  pose proof (Hd 0 ltac:(lia)) as H0. rewrite !Z.pow_0_r, !Z.div_1_r in H0.
  assert (v / 256 = w / 256).
  { apply IH; [lia_div|lia_div|]. intros k Hk. specialize (Hd (Z.succ k) ltac:(lia)).
    rewrite Z.pow_succ_r, <- !Z.div_div in Hd by lia. done. }
  lia_div.
Qed.

Lemma mod_digit v n k :
  0 <= k < n → (v mod 256 ^ n / 256 ^ k) mod 256 = (v / 256 ^ k) mod 256.
Proof.
  intros Hk. replace (256 ^ n) with (256 ^ k * (256 * 256 ^ (n - k - 1))).
  2: { rewrite <- Z.pow_succ_r, <- Z.pow_add_r by lia. f_equal. lia. }
  pose proof (Z.pow_pos_nonneg 256 k). pose proof (Z.pow_pos_nonneg 256 (n - k - 1)).
  rewrite Z.rem_mul_r by lia. rewrite Z.mul_comm, Z.div_add by lia.
  rewrite (Z.div_small (v mod _)) by (apply Z.mod_pos_bound; lia). rewrite Z.add_0_l.
  rewrite Z.rem_mul_r by lia. rewrite Z.mul_comm, Z.mod_add by lia. apply Z.mod_mod. lia.
Qed.

(** The value of a read is determined by the bytes. *)
Lemma read_unique p a n v :
  mem_ok p → accessible p a n → access_size_ok n → 0 <= v < 256 ^ n →
  (∀ k, 0 <= k < n → byte_at p (a + k) = Some ((v / 256 ^ k) mod 256)) → direct_read n a p = Ok v.
Proof.
  intros Hok Ha Hn Hv Hb. destruct (read_spec p a n Hok Ha Hn) as (x & -> & Hx & Hd). f_equal.
  assert (0 < n) by (unfold access_size_ok in Hn; lia).
  apply (digits_inj (Z.to_nat n)); rewrite ?Z2Nat.id by lia; [done|done|].
  intros k Hk. specialize (Hd k Hk). rewrite Hb in Hd by done. by injection Hd.
Qed.

Lemma accessible_space p p' a n : space p' = space p → accessible p a n → accessible p' a n.
Proof. unfold accessible. by intros ->. Qed.

Lemma read_after_write p a n v p' :
  mem_ok p → accessible p a n → access_size_ok n → direct_write n a v p = Ok p' →
  direct_read n a p' = Ok (v mod 256 ^ n).
Proof.
  intros Hok Ha Hn Hw. destruct (write_spec p a n v Hok Ha Hn) as (p1 & Hw' & Hsp & Hok' & Hby).
  rewrite Hw in Hw'. injection Hw' as <-. assert (0 < n) by (unfold access_size_ok in Hn; lia).
  apply read_unique; [done|by eapply accessible_space|done|apply Z.mod_pos_bound; lia|].
  intros k Hk. rewrite Hby, decide_True by lia. f_equal. rewrite mod_digit by done.
  by replace (a + k - a) with k by lia.
Qed.

(** Reading back what was written gives the value, cut to the width of the
    access. *)
Theorem write_read_roundtrip p a n v :
  mem_ok p → accessible p a n → access_size_ok n → 
  ∃ p', direct_write n a v p = Ok p' ∧ direct_read n a p' = Ok (v mod 256 ^ n).
Proof.
  intros Hok Ha Hn. destruct (write_spec p a n v Hok Ha Hn) as (p' & Hw & _).
  exists p'. split; [done|]. by eapply read_after_write.
Qed.

Lemma load_null h o n : load h (None, o) n = Err EUndef.
Proof. done. Qed.

(** The entry an access meets, with or without memory behind it. *)
Lemma access_entry p r a :
  table_ok (space p) → r ∈ regions (space p) → inside a r →
  ∃ i, search_pm_region_callback (space p) a = Ok (Some i) ∧
    zget (pmr_ops (space p)) i = Some r ∧ pmr_read r = Some vma_generic ∧
    pmr_write r = Some vma_generic.
Proof.
  intros Ht Hr Ha. destruct (search_member _ _ a Ht Hr Ha) as (i & Hs & _ & Hz).
  pose proof (proj1 (Forall_forall _ _) (ok_regions _ Ht) r Hr) as (_ & _ & [[] ?] & [[] ?]).
  by exists i.
Qed.

(** An access that does not lie in one region with memory behind it.
    Outside every region the emulator ends by its own check; an access that
    starts in a region and runs over its end, or meets a region without memory,
    leaves the host block unchecked, also when the next address is mapped. *)
Theorem direct_access_error p a n v :
  mem_ok p → 0 <= a < 2 ^ 32 - 1 → access_size_ok n → ¬ accessible p a n →
  let e := if decide (Exists (inside a) (regions (space p))) then EUndef else EAssert in
  direct_read n a p = Err e ∧ direct_write n a v p = Err e.
Proof.
  intros Hok Ha Hn Hno e. subst e. pose proof (mo_table _ Hok) as Ht. case_decide as Hex.
  - apply Exists_exists in Hex as (r & Hr & Hin).
    destruct (host_base r) as [b|] eqn:Hb.
    + rewrite (direct_read_load p r b), (direct_write_store p r b) by done.
      destruct (access_region p r b a Hok Hr Hin Hb) as (_ & l & _ & _ & _ & Hl & Hlen & _).
      assert (Hover : addr_high r < a + n).
      { destruct (Z.lt_ge_cases (addr_high r) (a + n)); [done|]. destruct Hno. exists r, b.
        unfold inside in Hin. split_and!; [done|lia|lia|done]. }
      unfold load, store, store_bytes. cbn [fst snd deref mbind outcome_bind]. rewrite Hl.
      cbn [deref mbind outcome_bind]. rewrite le_split_length.
      assert (0 < n) by (unfold access_size_ok in Hn; lia).
      destruct (Z.leb_spec (a - addr_low r + n) (Z.of_nat (length l))); [lia|].
      destruct (Z.leb_spec (a - addr_low r + Z.of_nat (Z.to_nat n)) (Z.of_nat (length l))); [lia|done].
    + destruct (access_entry p r a Ht Hr Hin) as (i & Hs & Hz & Hrd & Hwr).
      unfold direct_read, direct_write, ELEM. rewrite Hs. cbn [mbind outcome_bind]. rewrite Hz.
      cbn [deref mbind outcome_bind]. rewrite Hrd, Hwr, generic_read_load, generic_write_store by done.
      unfold store, store_bytes, vma_generic_direct. rewrite Hb. done.
  - destruct (search_spec (space p) a Ht Ha) as (s & Hs & Hspec).
    unfold direct_read, direct_write. rewrite Hs. cbn [mbind outcome_bind].
    destruct s as [i|]; [|done]. destruct Hspec as (r & _ & Hr & Hin).
    destruct Hex. apply Exists_exists. exists r. by apply list_elem_of_lookup_2 in Hr.
Qed.

(** ** Adding and removing a region *)
Lemma byte_at_cases p x :
  table_ok (space p) →
  (∃ r, r ∈ regions (space p) ∧ inside x r ∧
     byte_at p x = (l ← region_bytes p r; zget l (x - addr_low r))) ∨
  ((∀ r, r ∈ regions (space p) → ¬ inside x r) ∧ byte_at p x = None).
Proof.
  intros Ht. destruct (decide (Exists (inside x) (regions (space p)))) as [Hex|Hno].
  - apply Exists_exists in Hex as (r & Hr & Hin). left. exists r. split; [done|]. split; [done|].
    by apply byte_at_region.
  - right. assert (Hn : ∀ r, r ∈ regions (space p) → ¬ inside x r).
    { intros r Hr Hin. apply Hno. apply Exists_exists. by exists r. }
    split; [done|]. by apply byte_at_none.
Qed.

(** Two tables that differ by region [r], with the same blocks behind the rest. *)
Lemma byte_at_region_change p p' r :
  table_ok (space p) → table_ok (space p') → regions (space p') ≡ₚ r :: regions (space p) →
  (∀ r0, r0 ∈ regions (space p) → region_bytes p' r0 = region_bytes p r0) →
  ∀ x, byte_at p' x = if decide (inside x r) then l ← region_bytes p' r; zget l (x - addr_low r)
                      else byte_at p x.
Proof.
  intros Ht Ht' Hperm Hsame x. case_decide as Hx.
  - apply byte_at_region; [done|rewrite Hperm; set_solver|done].
  - destruct (byte_at_cases p x Ht) as [(r0 & Hr0 & Hin & ->)|[Hno ->]].
    + rewrite <- Hsame by done. apply byte_at_region; [done|rewrite Hperm; set_solver|done].
    + apply byte_at_none. intros r0. rewrite Hperm. intros [->|?]%elem_of_cons; [done|by apply Hno].
Qed.

Lemma omap_bases p b :
  mem_ok p → b ∈ omap host_base (regions (space p)) → is_Some (heap p !! b).
Proof.
  intros Hok (r & Hr & Hb)%list_elem_of_omap.
  destruct (mo_block _ Hok r b Hr Hb) as (l & -> & _). done.
Qed.

(** Registering a region [r] apart from the others, with a fresh block of its size
    behind it or none: the heap [h] differs in that block only. *)
Definition installs (p : process) (r : pm_region_operation) (h : host_heap) : Prop :=
  match host_base r with
  | Some b => heap p !! b = None ∧
      ∃ l, h = <[b := l]> (heap p) ∧ Z.of_nat (length l) = addr_high r - addr_low r ∧ Forall is_byte l
  | None => h = heap p
  end.

Lemma install_spec p r h :
  mem_ok p → region_ok r → nr_pmr_ops (space p) < MAX_VMA_NR → Forall (apart r) (regions (space p)) →
  installs p r h →
  ∃ vm, register_pm_region_operation (space p) r = Ok vm ∧ mem_ok (mk_process vm h) ∧
    regions vm ≡ₚ r :: regions (space p) ∧ vma_heap vm = vma_heap (space p) ∧
    vma_stack vm = vma_stack (space p) ∧
    ∀ x, byte_at (mk_process vm h) x =
      if decide (inside x r) then b ← host_base r; l ← h !! b; zget l (x - addr_low r) else byte_at p x.
Proof.
  intros Hok Hr Hn Hap Hin. pose proof (mo_table _ Hok) as Ht. unfold installs in Hin.
  destruct (register_apart_Ok (space p) r Ht Hr Hn Hap) as (vm & Hreg & Ht' & Hperm & Hh & Hs).
  exists vm. split; [done|].
  assert (Hsame : ∀ b, is_Some (heap p !! b) → h !! b = heap p !! b).
  { intros b [l Hb]. destruct (host_base r) as [b'|]; [|by rewrite Hin].
    destruct Hin as (Hf & l' & -> & _). rewrite lookup_insert_ne; [done|]. intros ->. congruence. }
  split_and!; [split; cbn [space heap]|done..|].
  - done.
  - intros r0 b. rewrite Hperm. intros [->|Hr0]%elem_of_cons Hb.
    + rewrite Hb in Hin. destruct Hin as (_ & l & -> & ? & ?). exists l. by rewrite lookup_insert_eq.
    + destruct (mo_block _ Hok r0 b Hr0 Hb) as (l & Hl & ?). exists l. rewrite Hsame by done. by split.
  - rewrite Hperm. cbn. pose proof (mo_sep _ Hok). destruct (host_base r) as [b|]; [|done].
    apply NoDup_cons. split; [|done]. intros [l Hl]%omap_bases; [|done]. destruct Hin. congruence.
  - intros x. rewrite (byte_at_region_change p (mk_process vm h) r) by
      (done || (intros r0 Hr0; unfold region_bytes; destruct (host_base r0) as [b|] eqn:Hb; [|done];
        cbn; apply Hsame; destruct (mo_block _ Hok r0 b Hr0 Hb) as (l & -> & _); done)).
    case_decide; [|done]. unfold region_bytes. by destruct (host_base r).
Qed.

Section setup_spec.
Context `{HA : HostAlloc} {HAok : HostAllocOk}.

(** The state after [mmap_setup]: a new zeroed region, or one without memory when
    the host had none. *)
Definition mapped (p p' : process) (low len : Z) : Prop :=
  let got := bool_decide (is_Some (aligned_alloc (heap p) len)) in
  (∃ fl base, bool_decide (is_Some base) = got ∧
     regions (space p') ≡ₚ generic_region low (low + len) fl "mmap" base :: regions (space p)) ∧
  ∀ x, byte_at p' x = if decide (low <= x < low + len) then (if got then Some 0 else None)
                      else byte_at p x.

Lemma replicate_zget (n : nat) k : 0 <= k < Z.of_nat n → zget (replicate n 0) k = Some 0.
Proof. intros. apply zget_Some. split; [lia|]. apply lookup_replicate_2. lia. Qed.

(** The block of a new region. *)
Lemma prealloc_spec len h base h' :
  0 <= len → preallocate_physical_memory len h = (base, h') →
  match base with
  | Some b => h !! b = None ∧ h' = <[b := replicate (Z.to_nat len) 0]> h ∧
      aligned_alloc h len = Some b
  | None => h' = h ∧ aligned_alloc h len = None
  end.
Proof.
  intros Hlen. unfold preallocate_physical_memory. destruct (aligned_alloc h len) as [b|] eqn:Hal;
    intros [= <- <-]; [|done]. split; [by eapply alloc_fresh|done].
Qed.

Lemma mmap_setup_spec p low len fl :
  mem_ok p → 0 <= low → 0 < len → low + len < 2 ^ 32 → nr_pmr_ops (space p) < MAX_VMA_NR →
  (∀ e, e ∈ regions (space p) → addr_high e <= low ∨ low + len <= addr_low e) →
  ∃ p', mmap_setup low len fl p = Ok p' ∧ mem_ok p' ∧ mapped p p' low len.
Proof.
  intros Hok Hlow Hlen Hhi Hn Hfree. unfold mmap_setup.
  destruct (preallocate_physical_memory len (heap p)) as [base h] eqn:Hal.
  apply prealloc_spec in Hal; [|lia]. rewrite w32_small by (unfold word32; lia).
  set (r := generic_region low (low + len) fl "mmap" base).
  destruct (install_spec p r h Hok) as (vm & Hreg & Hok' & Hperm & _ & _ & Hby).
  { split_and!; simpl; (lia || done). }
  { done. }
  { apply Forall_forall. intros e He. unfold apart. simpl. destruct (Hfree e He); [by right|by left]. }
  { unfold installs. cbn. destruct base as [b|]; [|by destruct Hal]. destruct Hal as (? & -> & _). split; [done|].
    eexists. split; [done|]. split; [rewrite length_replicate; lia|by apply Forall_replicate]. }
  rewrite Hreg. cbn [mbind outcome_bind]. eexists. split; [done|]. split; [done|].
  assert (bool_decide (is_Some base) = bool_decide (is_Some (aligned_alloc (heap p) len))) as Hgot.
  { destruct base as [b|]; [destruct Hal as (_ & _ & ->)|destruct Hal as [_ ->]]; done. }
  split; [by exists fl, base|]. rewrite <- Hgot. intros x. rewrite Hby. destruct (decide (inside x r)) as [Hx|Hx], (decide (low <= x < low + len));
    unfold inside in Hx; cbn in Hx; [|lia|lia|done].
  cbn. destruct base as [b|]; [|done]. cbn. destruct Hal as (_ & -> & _).
  rewrite lookup_insert_eq. cbn. apply replicate_zget. lia.
Qed.

End setup_spec.

(** ** A concrete process: a program, its heap and a mapped range *)
Definition demo_regions : list pm_region_operation :=
  [generic_region 0x10000 0x10008 5 "program" (Some 1); generic_region 0x20000 0x20004 6 "heap" (Some 2);
   generic_region 0x30000 0x30004 6 "mmap" (Some 3)].

Definition demo_process : process :=
  let vm := space_of demo_regions in
  mk_process (mk_space (nr_pmr_ops vm) (pmr_ops vm) (Some 1) None)
    {[ 1 := [0x11; 0x22; 0x33; 0x44; 0x55; 0x66; 0x77; 0x88]; 2 := [1; 2; 3; 4]; 3 := [9; 9; 9; 9] ]}.

Lemma demo_process_ok : mem_ok demo_process.
Proof.
  split.
  - split; [done|done|repeat constructor; simpl; try lia; try done|].
    intros [|[|[|[|i]]]] [|[|[|[|j]]]] a b Hij Ha Hb; simplify_eq/=; lia.
  - intros r b Hr Hb. change (regions (space demo_process)) with demo_regions in Hr.
    unfold demo_regions in Hr. rewrite !elem_of_cons, elem_of_nil in Hr.
    destruct Hr as [-> | [-> | [-> | []]]]; injection Hb as <-; eexists; (split; [vm_compute; reflexivity|]);
      (split; [done|repeat constructor; lia]).
  - by vm_compute; repeat (constructor; [set_solver|]); constructor.
Qed.

Lemma demo_accessible : accessible demo_process 0x10002 4.
Proof.
  exists (generic_region 0x10000 0x10008 5 "program" (Some 1)), 1.
  split; [apply elem_of_cons; by left|]. simpl. split_and!; (lia || done).
Qed.

Lemma direct_access_correct_witness :
  (∃ x, direct_read 4 0x10002 demo_process = Ok x ∧ 0 <= x < 256 ^ 4 ∧
     ∀ k, 0 <= k < 4 → byte_at demo_process (0x10002 + k) = Some ((x / 256 ^ k) mod 256)) ∧
  (∃ p', direct_write 4 0x10002 0xdeadbeef demo_process = Ok p' ∧ mem_ok p' ∧
     ∀ x, byte_at p' x = if decide (0x10002 <= x < 0x10002 + 4)
                         then Some ((0xdeadbeef / 256 ^ (x - 0x10002)) mod 256)
                         else byte_at demo_process x).
Proof.
  apply (direct_access_correct demo_process 0x10002 4 0xdeadbeef demo_process_ok demo_accessible).
  unfold access_size_ok. lia.
Defined.

Lemma write_read_roundtrip_witness :
  ∃ p', direct_write 4 0x10002 0xdeadbeef demo_process = Ok p' ∧
    direct_read 4 0x10002 p' = Ok (0xdeadbeef mod 256 ^ 4).
Proof.
  apply (write_read_roundtrip demo_process 0x10002 4 0xdeadbeef demo_process_ok demo_accessible).
  unfold access_size_ok. lia.
Defined.

Lemma direct_access_error_witness :
  let e := if decide (Exists (inside 0x10006) (regions (space demo_process))) then EUndef else EAssert in
  direct_read 4 0x10006 demo_process = Err e ∧ direct_write 4 0x10006 0 demo_process = Err e.
Proof.
  apply (direct_access_error demo_process 0x10006 4 0 demo_process_ok);
    [lia|unfold access_size_ok; lia|].
  intros (r & b & Hr & Hlo & Hhi & _). change (r ∈ demo_regions) in Hr.
  unfold demo_regions in Hr. rewrite !elem_of_cons, elem_of_nil in Hr.
  destruct Hr as [-> | [-> | [-> | []]]]; simpl in *; lia.
Defined.

Example demo_read : direct_read 4 0x10002 demo_process = Ok 0x66554433.
Proof. vm_compute. reflexivity. Qed.

End Vma.
