(* ===== verification/VmaOps.v ===== *)
(** * The system calls on the address space

    Theorems on [do_mmap], [do_munmap] and [call_brk] (defined in Vma) over the
    map from guest addresses to bytes, with examples and the findings. *)
From S2P Require Import Prelude SortSearch PmRegion Vma.
Import Macros PmRegion Vma.

Module VmaOps.

(** ** mmap *)
Lemma PAGE_ROUNDUP_spec a :
  word32 a → a + 4095 < 2 ^ 32 →
  a <= PAGE_ROUNDUP a < a + 4096 ∧ PAGE_ROUNDUP a mod 4096 = 0.
Proof.
  intros Ha Hlt. unfold PAGE_ROUNDUP. change 4095 with (Z.ones 12). rewrite Z.land_ones by lia.
  change (2 ^ 12) with 4096. rewrite (clear_low a 12 0xfffff000) by (done || lia).
  change (2 ^ 12) with 4096. unfold word32 in Ha.
  destruct (Z.eqb_spec (a mod 4096) 0); [split; [lia|done]|].
  rewrite w32_small by (unfold word32; lia_div). split; [lia_div|].
  replace (4096 * (a / 4096) + 4096) with ((a / 4096 + 1) * 4096) by lia. by apply Z.mod_mul.
Qed.

Lemma range_eligible_spec vm low high :
  table_ok vm → ∃ b, is_range_eligible vm low high = Ok b ∧
    (b = true ↔ ∀ e, e ∈ regions vm → addr_high e <= low ∨ high <= addr_low e).
Proof.
  intros Hok. pose proof (ok_nr _ Hok).
  destruct (range_eligible_loop_spec (Z.to_nat (nr_pmr_ops vm)) vm 0 low high) as (b & Hb & Hspec);
    [lia|rewrite (ok_len _ Hok); unfold MAX_VMA_NR in *; lia|].
  exists b. split; [done|]. rewrite Hspec. split.
  - intros Hall e [i Hi]%list_elem_of_lookup. apply regions_lookup in Hi as [? Hi]; [|done].
    apply (Hall (Z.of_nat i)); [lia|by rewrite zget_nat].
  - intros Hall i e Hi He. destruct (regions_zget vm i Hok) as (e' & He' & Hr & _); [lia|].
    rewrite He in He'. injection He' as <-. apply Hall. by eapply list_elem_of_lookup_2.
Qed.

(** ** Overwriting an entry *)
Lemma set_region_spec vm l1 r l2 r' :
  table_ok vm → regions vm = l1 ++ r :: l2 →
  ∃ vm', set_region vm (Z.of_nat (length l1)) r' = Ok vm' ∧ regions vm' = l1 ++ r' :: l2 ∧
    nr_pmr_ops vm' = nr_pmr_ops vm ∧ length (pmr_ops vm') = length (pmr_ops vm) ∧
    pmr_ops vm' = <[length l1 := r']> (pmr_ops vm) ∧
    vma_heap vm' = vma_heap vm ∧ vma_stack vm' = vma_stack vm.
Proof.
  intros Hok Heq. pose proof (regions_length vm Hok) as Hlen. rewrite Heq, length_app in Hlen.
  simpl in Hlen. pose proof (ok_len _ Hok). pose proof (ok_nr _ Hok). unfold MAX_VMA_NR in *.
  unfold set_region. rewrite zset_ok by lia. cbn [deref mbind outcome_bind]. rewrite Nat2Z.id.
  eexists. split; [done|]. split; [|split_and!; cbn; rewrite ?length_insert; done].
  unfold regions in *. cbn [nr_pmr_ops pmr_ops]. rewrite take_insert_lt by lia. rewrite Heq.
  by rewrite insert_app_r_alt, Nat.sub_diag by lia.
Qed.

(** A region may be replaced by one that starts at the same address and ends before
    the next one. *)
Lemma table_replace vm vm' l1 r l2 r' :
  table_ok vm → regions vm = l1 ++ r :: l2 → regions vm' = l1 ++ r' :: l2 →
  nr_pmr_ops vm' = nr_pmr_ops vm → length (pmr_ops vm') = length (pmr_ops vm) →
  region_ok r' → addr_low r' = addr_low r → (∀ e, e ∈ l2 → addr_high r' <= addr_low e) →
  table_ok vm'.
Proof.
  intros Hok Heq Heq' Hnr Hlen Hr' Hlow Hhi. split.
  - rewrite Hnr. apply Hok.
  - rewrite Hlen. apply Hok.
  - rewrite Heq'. pose proof (ok_regions _ Hok) as Hr. rewrite Heq in Hr.
    apply Forall_app in Hr as [? [_ ?]%Forall_cons]. by apply Forall_app; split; [|constructor].
  - rewrite Heq'. pose proof (ok_ascending _ Hok) as Ha. rewrite Heq in Ha.
    apply ascending_middle in Ha as (? & Hl & _). apply ascending_middle. split; [done|].
    split; [|done]. intros e He. rewrite Hlow. by apply Hl.
Qed.

Lemma entry_split vm i r :
  table_ok vm → 0 <= i < nr_pmr_ops vm → zget (pmr_ops vm) i = Some r →
  ∃ l1 l2, regions vm = l1 ++ r :: l2 ∧ i = Z.of_nat (length l1).
Proof.
  intros Hok Hi Hz. destruct (regions_zget vm i Hok Hi) as (r0 & Hz' & Hr & _).
  rewrite Hz in Hz'. injection Hz' as <-.
  apply list_elem_of_split_length in Hr as (l1 & l2 & ? & ?). exists l1, l2. split; [done|]. lia.
Qed.

Section mmap_spec.
Context `{HA : HostAlloc} {HAok : HostAllocOk}.

(** No region meets [low, low + len). *)
Definition range_free (p : process) (low len : Z) : Prop :=
  ∀ e, e ∈ regions (space p) → addr_high e <= low ∨ low + len <= addr_low e.

Lemma map_at p low len mprot :
  mem_ok p → 0 <= low → 0 < len → low + len < 2 ^ 32 → nr_pmr_ops (space p) < MAX_VMA_NR →
  low mod 4096 = 0 → range_free p low len →
  ∃ p', (p' ← mmap_setup low len mprot p; Ok (low, p')) = Ok (low, p') ∧ mem_ok p' ∧
    low mod 4096 = 0 ∧ mapped p p' low len.
Proof.
  intros Hok ? ? ? ? Hal Hfree.
  destruct (mmap_setup_spec p low len mprot) as (p' & -> & ? & ?); [done..|]. by exists p'.
Qed.

(** The hint is used when it is given and its page-aligned range is free. *)
Definition hint_fits (p : process) (proposal len : Z) : Prop :=
  proposal ≠ 0 ∧ range_free p (PAGE_ROUNDUP proposal) len.

(** Some gap below a region is wider than the range and a page. *)
Definition gap_fits (p : process) (len : Z) : Prop :=
  ∃ k e, regions (space p) !! k = Some e ∧ len + 4096 < addr_low e - floor_of (space p) k.

(** The second half of [allocate_mmap_region]: no hint, or an unusable one. *)
Lemma search_and_map p len mprot :
  mem_ok p → 0 < len → len + 4096 < 2 ^ 32 → nr_pmr_ops (space p) < MAX_VMA_NR →
  ∃ ret p', ('(b, low) ← (addr_found ← search_free_mmap_region (space p) len;
      Ok (if addr_found =? 0 then (false, 0) else (true, PAGE_ROUNDUP addr_found)));
      if (b : bool) then p' ← mmap_setup low len mprot p; Ok (low, p') else Ok (w32 (- ENOMEM), p)) =
      Ok (ret, p') ∧ mem_ok p' ∧
    (gap_fits p len → ret mod 4096 = 0 ∧ range_free p ret len ∧ mapped p p' ret len) ∧
    (¬ gap_fits p len → ret = w32 (- ENOMEM) ∧ p' = p).
Proof.
  intros Hok Hlen Hl4 Hn.
  destruct (free_search_spec (space p) len (mo_table _ Hok)) as (a & -> & Ha); [lia..|].
  cbn [mbind outcome_bind]. destruct (Z.eqb_spec a 0) as [->|Hne]; cbn [mbind outcome_bind].
  { rewrite decide_True in Ha by done. exists (w32 (- ENOMEM)), p. split_and!; [done|done| |done].
    intros (k & e & He & Hgap). specialize (Ha k e He). lia. }
  rewrite decide_False in Ha by done. destruct Ha as (Ha1 & Ha2 & (k & e & He & Hgap & _) & Hclear).
  destruct (PAGE_ROUNDUP_spec a) as [Hr1 Hr2]; [unfold word32; lia|lia|].
  assert (Hfree : range_free p (PAGE_ROUNDUP a) len)
    by (intros e' He'; destruct (Hclear e' He'); [left; lia|right; lia]).
  destruct (map_at p (PAGE_ROUNDUP a) len mprot) as (p' & Hrun & ? & ? & ?); try done; [lia..|].
  exists (PAGE_ROUNDUP a), p'. split_and!; [done..|]. intros Hno. destruct Hno. by exists k, e.
Qed.

(** C29: an anonymous mmap of a length whose sum with a page does not wrap, with
    no hint or a hint whose range does not wrap, in a well-formed address space of
    fewer than 128 regions.  When the range at the hint, rounded up to a page, is
    free, it is mapped there; otherwise, when a gap below some region is wider than
    the length and a page, a page-aligned free range is mapped; otherwise, and only
    then, the answer is -ENOMEM and nothing changes.  Mapping registers one region
    for the range and keeps the others; its bytes are zero when the host has memory
    for it (it has none otherwise), and no other byte changes. *)
Theorem mmap_anonymous_correct proposal len prot fl fd off p :
  mem_ok p → word32 proposal → 0 < len → len + 4096 < 2 ^ 32 →
  (proposal ≠ 0 → proposal + 4096 + len < 2 ^ 32) → nr_pmr_ops (space p) < MAX_VMA_NR →
  Z.land fl MAP_ANONYMOUS ≠ 0 →
  ∃ ret p', do_mmap proposal len prot fl fd off p = Ok (ret, p') ∧ mem_ok p' ∧
    (hint_fits p proposal len → ret = PAGE_ROUNDUP proposal ∧ ret mod 4096 = 0 ∧ mapped p p' ret len) ∧
    (¬ hint_fits p proposal len → gap_fits p len →
       ret mod 4096 = 0 ∧ range_free p ret len ∧ mapped p p' ret len) ∧
    (¬ hint_fits p proposal len → ¬ gap_fits p len → ret = w32 (- ENOMEM) ∧ p' = p).
Proof.
  intros Hok Hw Hlen Hl4 Hhint Hn Hanon. pose proof (mo_table _ Hok) as Ht. unfold do_mmap.
  destruct (Z.eqb_spec len 0); [lia|]. destruct (Z.eqb_spec (Z.land fl MAP_ANONYMOUS) 0); [done|].
  cbn [negb]. unfold allocate_mmap_region. set (mprot := Z.lor _ _). clearbody mprot.
  destruct (search_and_map p len mprot Hok Hlen Hl4 Hn) as (ret & p' & Hsearch & Hok' & Hgap & Hnogap).
  destruct (Z.eqb_spec proposal 0) as [->|Hp]; cbn [mbind outcome_bind].
  { exists ret, p'. split_and!; [exact Hsearch|done|by intros []|done|done]. }
  specialize (Hhint Hp). unfold word32 in Hw.
  destruct (PAGE_ROUNDUP_spec proposal) as [Hr1 Hr2]; [done|lia|].
  rewrite (w32_small (PAGE_ROUNDUP proposal + len)) by (unfold word32; lia).
  destruct (range_eligible_spec (space p) (PAGE_ROUNDUP proposal) (PAGE_ROUNDUP proposal + len) Ht)
    as (b & -> & Hb). cbn [mbind outcome_bind]. destruct b; cbn [mbind outcome_bind].
  - pose proof (proj1 Hb eq_refl : range_free p (PAGE_ROUNDUP proposal) len) as Hfree.
    destruct (map_at p (PAGE_ROUNDUP proposal) len mprot) as (p2 & Hrun & ? & ? & ?); try done; [lia..|].
    exists (PAGE_ROUNDUP proposal), p2. split_and!; [done|done|done| |]; intros []; by split.
  - exists ret, p'. split_and!; [exact Hsearch|done| |done|done]. intros [_ Hfree]. by apply Hb in Hfree.
Qed.

End mmap_spec.

(** ** munmap *)

(** Removing the region [r] and its block. *)
Lemma remove_region p p' l1 r l2 :
  mem_ok p → regions (space p) = l1 ++ r :: l2 → table_ok (space p') →
  regions (space p') = l1 ++ l2 →
  heap p' = match host_base r with Some b => delete b (heap p) | None => heap p end →
  mem_ok p' ∧ ∀ x, byte_at p' x = if decide (inside x r) then None else byte_at p x.
Proof.
  intros Hok Heq Ht' Heq' Hh. pose proof (mo_table _ Hok) as Ht.
  pose proof (mo_sep _ Hok) as Hnd. rewrite Heq, omap_app in Hnd. cbn in Hnd.
  assert (Hother : ∀ r0 b, r0 ∈ l1 ++ l2 → host_base r0 = Some b → heap p' !! b = heap p !! b).
  { intros r0 b Hr0 Hb. rewrite Hh. destruct (host_base r) as [b'|] eqn:Hbr; [|done].
    apply lookup_delete_ne. intros ->. rewrite <- (Permutation_middle _ _ b) in Hnd.
    apply NoDup_cons in Hnd as [Hn _]. apply Hn. rewrite <- omap_app. apply list_elem_of_omap. eauto. }
  assert (Hok' : mem_ok p').
  { split; [done|..]; rewrite Heq'.
    - intros r0 b Hr0 Hb. rewrite (Hother r0) by done. apply (mo_block _ Hok r0); [|done].
      rewrite Heq. set_solver.
    - rewrite omap_app. destruct (host_base r); [|done].
      rewrite <- (Permutation_middle _ _ _) in Hnd. by apply NoDup_cons in Hnd as [_ ?]. }
  split; [done|]. intros x. destruct (decide (inside x r)) as [Hx|Hx].
  { apply byte_at_none. rewrite Heq'. intros e He Hin. pose proof (ok_ascending _ Ht) as Ha.
    rewrite Heq in Ha. apply ascending_middle in Ha as (_ & Hl & Hr). unfold inside in *.
    apply elem_of_app in He as [He|He]; [specialize (Hl e He)|specialize (Hr e He)]; lia. }
  rewrite (byte_at_region_change p' p r); [by rewrite decide_False|done|done| |].
  - rewrite Heq, Heq'. by rewrite Permutation_middle.
  - intros r0. rewrite Heq'. intros Hr0. unfold region_bytes.
    destruct (host_base r0) as [b|] eqn:Hb; [|done]. cbn. symmetry. by apply (Hother r0).
Qed.

Lemma reclaim_region r h :
  pmr_reclaim r = Some vma_generic →
  vma_generic_reclaim r h = (with_bounds r (addr_high r) None,
    match host_base r with Some b => delete b h | None => h end).
Proof.
  intros Hrec. unfold vma_generic_reclaim, with_bounds. destruct r as [? ? ? ? ? ? ? ? []]; done.
Qed.

(** [p'] is [p] without region [r]: the other regions are as before, in their
    order; the bytes of [r] are gone, all others as before; its block is freed and
    no other.  The entries behind [r] have moved down by one, while the entry
    numbers of the heap and the stack are what they were. *)
Record unmapped (p : process) (r : pm_region_operation) (p' : process) : Prop := {
  um_ok : mem_ok p';
  um_regions : ∃ l1 l2, regions (space p) = l1 ++ r :: l2 ∧ regions (space p') = l1 ++ l2;
  um_bytes : ∀ x, byte_at p' x = if decide (inside x r) then None else byte_at p x;
  um_heap : heap p' = match host_base r with Some b => delete b (heap p) | None => heap p end;
  um_pointers : vma_heap (space p') = vma_heap (space p) ∧ vma_stack (space p') = vma_stack (space p)
}.

(** [do_munmap] once the region is found. *)
Lemma munmap_hit addr len p r :
  mem_ok p → r ∈ regions (space p) → inside addr r → addr_high r - addr_low r = len →
  pmr_reclaim r = Some vma_generic →
  ∃ p', do_munmap addr len p = Ok (0, p') ∧ unmapped p r p'.
Proof.
  intros Hok Hr Hin Hlen Hrec. pose proof (mo_table _ Hok) as Ht.
  pose proof (proj1 (Forall_forall _ _) (ok_regions _ Ht) r Hr) as Hrok.
  destruct (search_member _ _ addr Ht Hr Hin) as (i & Hs & Hi & Hz).
  destruct (entry_split _ _ _ Ht Hi Hz) as (l1 & l2 & Heq & ->).
  unfold do_munmap, ELEM. rewrite Hs. cbn [mbind outcome_bind]. rewrite Hz.
  cbn [deref mbind outcome_bind]. destruct Hrok as ([? ?] & ? & Hrw).
  rewrite (w32_small (addr_high r - addr_low r)), Hlen, Z.eqb_refl by (unfold word32; lia).
  cbn [negb]. rewrite Hrec, reclaim_region by done.
  destruct (set_region_spec (space p) l1 r l2 (with_bounds r (addr_high r) None) Ht Heq)
    as (vm1 & -> & Heq1 & Hn1 & Hl1 & _ & Hh1 & Hs1). cbn [mbind outcome_bind].
  assert (Ht1 : table_ok vm1).
  { eapply (table_replace _ _ l1 r l2); try done. pose proof (ok_ascending _ Ht) as Ha.
    rewrite Heq in Ha. by apply ascending_middle in Ha as (_ & _ & ?). }
  destruct (unregister_spec vm1 (Z.of_nat (length l1)) Ht1) as (m1 & x & m2 & vm2 & Hm & Hlm & -> & Ht2 & Hreg & Hh2 & Hs2);
    [lia|]. cbn [mbind outcome_bind].
  rewrite Heq1 in Hm. apply app_inj_1 in Hm as [<- [= <- <-]]; [|lia].
  eexists. split; [done|].
  destruct (remove_region p (mk_process vm2 (match host_base r with Some b => delete b (heap p)
    | None => heap p end)) l1 r l2) as [? ?]; try done.
  split; cbn [space heap]; [done|by exists l1, l2|done|done|]. by rewrite Hh2, Hs2, Hh1, Hs1.
Qed.

(** C30: in a well-formed address space, munmap of an address other than the last
    one, 0xffffffff, that lies in a region of exactly the given length whose memory
    the emulator manages, takes that region out of the table, its bytes and its
    block away, and leaves the other regions and bytes as they were; the entries
    behind it move down, but the entry numbers of heap and stack stay.  When no
    region of that length holds the address, it answers -EINVAL and changes nothing.
    At 0xffffffff with a region in the table the emulator stops. *)
Theorem munmap_correct addr len p :
  mem_ok p → 0 <= addr < 2 ^ 32 - 1 →
  (∀ r, r ∈ regions (space p) → inside addr r → addr_high r - addr_low r = len →
     pmr_reclaim r = Some vma_generic →
     ∃ p', do_munmap addr len p = Ok (0, p') ∧ unmapped p r p') ∧
  ((∀ r, r ∈ regions (space p) → inside addr r → addr_high r - addr_low r ≠ len) →
     do_munmap addr len p = Ok (w32 (- EINVAL), p)) ∧
  (0 < nr_pmr_ops (space p) → do_munmap (2 ^ 32 - 1) len p = Err EAssert).
Proof.
  intros Hok Ha. pose proof (mo_table _ Hok) as Ht. split_and!.
  - intros r Hr Hin Hlen Hrec. by apply munmap_hit.
  - intros Hno. unfold do_munmap. destruct (search_spec (space p) addr Ht Ha) as (s & Hs & Hspec).
    rewrite Hs. cbn [mbind outcome_bind]. destruct s as [i|]; [|done].
    destruct Hspec as (r & Hi & Hr & Hin). apply regions_lookup in Hr as Hr'; [|done].
    unfold ELEM. rewrite zget_lookup by done. rewrite (proj2 Hr'). cbn [deref mbind outcome_bind].
    pose proof (Forall_lookup_1 _ _ _ _ (ok_regions _ Ht) Hr) as (? & ? & _).
    rewrite (w32_small (addr_high r - addr_low r)) by (unfold word32; lia).
    destruct (Z.eqb_spec (addr_high r - addr_low r) len); [|done].
    destruct (Hno r); [by eapply list_elem_of_lookup_2|done..].
  - intros Hnr. pose proof (search_last (space p) Ht Hnr) as Hlast. unfold do_munmap. by rewrite Hlast.
Qed.

(** ** brk *)

(** [is_vma_eligible] of the entry between [l1] and [l2], in a table that need not
    be well formed. *)
Lemma eligible_middle vm l1 r l2 :
  regions vm = l1 ++ r :: l2 → nr_pmr_ops vm = Z.of_nat (length (l1 ++ r :: l2)) →
  is_vma_eligible vm (Some (Z.of_nat (length l1))) =
    Ok (negb (bool_decide (Exists (λ e, addr_low r < addr_low e < addr_high r) (l1 ++ l2)))).
Proof.
  intros Heq Hnr. assert (Hops : ∃ rest, pmr_ops vm = l1 ++ r :: l2 ++ rest).
  { exists (drop (Z.to_nat (nr_pmr_ops vm)) (pmr_ops vm)).
    pose proof (take_drop (Z.to_nat (nr_pmr_ops vm)) (pmr_ops vm)) as H. unfold regions in Heq.
    rewrite Heq, <- app_assoc in H. by rewrite <- H at 1. }
  destruct Hops as [rest Hops]. rewrite length_app in Hnr. simpl in Hnr.
  assert (Hv : zget (pmr_ops vm) (Z.of_nat (length l1)) = Some r) by (rewrite Hops; apply zget_middle).
  destruct (vma_eligible_loop_spec (Z.to_nat (nr_pmr_ops vm)) vm 0 _ r false Hv) as (b & Hb & Hspec);
    [lia|rewrite Hops; rewrite length_app; simpl; rewrite length_app; lia|].
  unfold is_vma_eligible. rewrite Hb. f_equal. apply eq_true_iff_eq.
  rewrite Hspec, negb_true_iff, bool_decide_eq_false, <- Forall_Exists_neg, Forall_app, !Forall_lookup. split.
  - intros [_ Hall]. split; intros k x Hk.
    + pose proof (lookup_lt_Some _ _ _ Hk). apply (Hall (Z.of_nat k)); [lia|lia|].
      rewrite zget_nat, Hops. by apply lookup_app_l_Some.
    + pose proof (lookup_lt_Some _ _ _ Hk).
      apply (Hall (Z.of_nat (length l1 + S k))); [lia|lia|]. rewrite zget_nat, Hops.
      rewrite lookup_app_r by lia. replace (length l1 + S k - length l1)%nat with (S k) by lia.
      simpl. by apply lookup_app_l_Some.
  - intros [H1 H2]. split; [right; lia|]. intros k x Hk Hne Hx.
    apply zget_Some in Hx as [_ Hx]. rewrite Hops in Hx.
    apply lookup_app_Some in Hx as [Hx|[Hge Hx]]; [by apply (H1 (Z.to_nat k))|].
    destruct (Z.to_nat k - length l1)%nat as [|k'] eqn:Hk'; [lia|]. simpl in Hx.
    apply (H2 k'). rewrite lookup_app_l in Hx by lia. done.
Qed.

(** Replacing region [r] by the larger [r'], with the blocks of the others kept. *)
Lemma grow_region p p' l1 r l2 r' :
  mem_ok p → regions (space p) = l1 ++ r :: l2 → table_ok (space p') →
  regions (space p') = l1 ++ r' :: l2 →
  addr_low r' = addr_low r → addr_high r <= addr_high r' →
  (∀ r0 b, r0 ∈ l1 ++ l2 → host_base r0 = Some b → heap p' !! b = heap p !! b ∧ host_base r' ≠ Some b) →
  (∀ b, host_base r' = Some b → ∃ l, heap p' !! b = Some l ∧
     Z.of_nat (length l) = addr_high r' - addr_low r' ∧ Forall is_byte l) →
  mem_ok p' ∧ ∀ x, byte_at p' x =
    if decide (inside x r') then l ← region_bytes p' r'; zget l (x - addr_low r') else byte_at p x.
Proof.
  intros Hok Heq Ht' Heq' Hlow Hhigh Hoth Hnew. pose proof (mo_table _ Hok) as Ht.
  assert (Hin : ∀ r0, r0 ∈ regions (space p') ↔ r0 = r' ∨ r0 ∈ l1 ++ l2)
    by (intros; rewrite Heq'; set_solver).
  assert (Hin0 : ∀ r0, r0 ∈ l1 ++ l2 → r0 ∈ regions (space p)) by (intros; rewrite Heq; set_solver).
  split.
  - split; [done|..].
    + intros r0 b [->|Hr0]%Hin Hb; [by apply Hnew|].
      destruct (Hoth r0 b Hr0 Hb) as [-> _]. apply (mo_block _ Hok r0); [by apply Hin0|done].
    + pose proof (mo_sep _ Hok) as Hnd. rewrite Heq, <- Permutation_middle in Hnd.
      rewrite Heq', <- Permutation_middle. cbn in *.
      assert (NoDup (omap host_base (l1 ++ l2)))
        by (destruct (host_base r); [by apply NoDup_cons in Hnd as [_ ?]|done]).
      destruct (host_base r') as [b|] eqn:Hb; [|done]. apply NoDup_cons. split; [|done].
      intros (r0 & Hr0 & Hb0)%list_elem_of_omap. by destruct (Hoth r0 b Hr0 Hb0).
  - intros x. case_decide as Hx; [apply byte_at_region; [done|apply Hin; by left|done]|].
    destruct (byte_at_cases p x Ht) as [(r0 & Hr0 & Hix & ->)|[Hno ->]].
    + assert (Hr0' : r0 ∈ l1 ++ l2).
      { rewrite Heq in Hr0. apply elem_of_app in Hr0 as [?|[->|?]%elem_of_cons]; [set_solver| |set_solver].
        destruct Hx. unfold inside in *. lia. }
      rewrite (byte_at_region p' r0) by (done || (apply Hin; by right)). unfold region_bytes.
      destruct (host_base r0) as [b|] eqn:Hb; [|done]. cbn.
      by destruct (Hoth r0 b Hr0' Hb) as [-> _].
    + apply byte_at_none. intros r0 [->|Hr0]%Hin; [done|]. by apply Hno, Hin0.
Qed.

Section brk_spec.
Context `{HA : HostAlloc} {HAok : HostAllocOk}.

(** The block [realloc] returns: the old bytes, then whatever the memory held. *)
Lemma realloc_spec h b0 old n b h' :
  (∀ b1, b0 = Some b1 → h !! b1 = Some old) → (b0 = None → old = []) → Forall is_byte old →
  Z.of_nat (length old) <= n → realloc b0 n h = (Some b, h') →
  ∃ new, h' !! b = Some new ∧ h !! b = None ∧ Z.of_nat (length new) = n ∧ Forall is_byte new ∧
    (∀ k v, zget old k = Some v → zget new k = Some v) ∧
    ∀ b', b' ≠ b → b0 ≠ Some b' → h' !! b' = h !! b'.
Proof.
  intros Hb0 Hnone Hby Hlen. unfold realloc. destruct (aligned_alloc h n) as [c|] eqn:Hal; [|done].
  intros [= <- <-]. apply alloc_fresh in Hal.
  assert (match b0 with Some b1 => default [] (h !! b1) | None => [] end = old) as ->.
  { destruct b0 as [b1|]; [by rewrite (Hb0 b1 eq_refl)|by rewrite (Hnone eq_refl)]. }
  rewrite lookup_insert_eq. eexists. split; [done|]. split; [done|].
  rewrite take_ge by lia. rewrite length_app, length_drop, uninit_length. split; [lia|].
  split; [apply Forall_app; split; [done|apply Forall_drop, uninit_bytes]|]. split.
  - intros k v Hk. rewrite zget_app_l; [done|]. apply zget_bound in Hk; lia.
  - intros b' Hne Hne0. rewrite lookup_insert_ne by done. destruct b0; [|done].
    apply lookup_delete_ne. congruence.
Qed.

Lemma realloc_got b0 n h :
  bool_decide (is_Some (fst (realloc b0 n h))) = bool_decide (is_Some (aligned_alloc h n)).
Proof. unfold realloc. by destruct (aligned_alloc h n). Qed.

(** What [call_brk] does to the address space when it moves the break of the heap
    [r] to [addr]. *)
Definition break_moved (p p' : process) (l1 : list pm_region_operation) (r : pm_region_operation)
    (l2 : list pm_region_operation) (addr : Z) (got : bool) : Prop :=
  mem_ok p' ∧
  (∃ base, bool_decide (is_Some base) = got ∧ regions (space p') = l1 ++ with_bounds r addr base :: l2 ∧
     vma_heap (space p') = vma_heap (space p)) ∧
  (∀ x, ¬ (addr_low r <= x < addr) → byte_at p' x = byte_at p x) ∧
  ∀ x, addr_low r <= x < addr →
    if got then is_Some (byte_at p' x) ∧ (is_Some (byte_at p x) → byte_at p' x = byte_at p x)
    else byte_at p' x = None.

Lemma inside_with_bounds x r a b : inside x (with_bounds r a b) ↔ addr_low r <= x < a.
Proof. done. Qed.

(** The bytes a region has, none when there is no block behind it. *)
Lemma old_block p r :
  mem_ok p → r ∈ regions (space p) →
  ∃ old, (∀ b, host_base r = Some b → heap p !! b = Some old) ∧ (host_base r = None → old = []) ∧
    Forall is_byte old ∧ Z.of_nat (length old) <= addr_high r - addr_low r ∧
    region_bytes p r = (host_base r ≫= λ _, Some old).
Proof.
  intros Hok Hr. pose proof (proj1 (Forall_forall _ _) (ok_regions _ (mo_table _ Hok)) r Hr) as (? & _).
  unfold region_bytes. destruct (host_base r) as [b|] eqn:Hb.
  - destruct (mo_block _ Hok r b Hr Hb) as (l & Hl & ? & ?). exists l. cbn. rewrite Hl.
    split_and!; try done; [by intros ? [= <-]|lia].
  - exists []. split_and!; try done. simpl. lia.
Qed.

(** The other regions' blocks are live and not [r]'s. *)
Lemma other_blocks p l1 r l2 r0 b :
  mem_ok p → regions (space p) = l1 ++ r :: l2 → r0 ∈ l1 ++ l2 → host_base r0 = Some b →
  host_base r ≠ Some b ∧ is_Some (heap p !! b).
Proof.
  intros Hok Heq Hr0 Hb. split.
  - intros Hb'. pose proof (mo_sep _ Hok) as Hnd. rewrite Heq, <- Permutation_middle in Hnd.
    cbn in Hnd. rewrite Hb' in Hnd. apply NoDup_cons in Hnd as [Hn _]. apply Hn, list_elem_of_omap. eauto.
  - destruct (mo_block _ Hok r0 b) as (l & -> & _); [rewrite Heq; set_solver|done..].
Qed.

(** Only the heap itself has bytes between its start and the first region above. *)
Lemma only_region p l1 r l2 r0 addr x :
  table_ok (space p) → regions (space p) = l1 ++ r :: l2 → (∀ e, e ∈ l2 → addr <= addr_low e) →
  r0 ∈ regions (space p) → inside x r0 → addr_low r <= x < addr → r0 = r.
Proof.
  intros Ht Heq Hl2 Hr0 Hix Hx. rewrite Heq in Hr0. pose proof (ok_ascending _ Ht) as Ha.
  rewrite Heq in Ha. apply ascending_middle in Ha as (_ & Hl & _). unfold inside in Hix.
  apply elem_of_app in Hr0 as [H|[?|H]%elem_of_cons]; [|done|];
    [specialize (Hl _ H)|specialize (Hl2 _ H)]; lia.
Qed.

(** The last step of [call_brk]. *)
Lemma extend_heap p vm l1 r l2 addr base h :
  mem_ok p → regions (space p) = l1 ++ r :: l2 → addr_high r < addr →
  (∀ e, e ∈ l2 → addr <= addr_low e) →
  realloc (host_base r) (addr - addr_low r) (heap p) = (base, h) →
  regions vm = l1 ++ with_bounds r addr base :: l2 → table_ok vm → vma_heap vm = vma_heap (space p) →
  break_moved p (mk_process vm h) l1 r l2 addr (bool_decide (is_Some base)).
Proof.
  intros Hok Heq Hgt Hl2 Hre Heq2 Ht2 Hhp. pose proof (mo_table _ Hok) as Ht.
  assert (Hr : r ∈ regions (space p)) by (rewrite Heq; set_solver).
  destruct (old_block p r Hok Hr) as (old & Hb0 & Hnone & Hby & Hlen & Hrb).
  assert (Hlen' : Z.of_nat (length old) <= addr - addr_low r) by lia.
  destruct base as [b|].
  - destruct (realloc_spec _ _ old _ _ _ Hb0 Hnone Hby Hlen' Hre)
      as (new & Hnew & Hfresh & Hnl & Hnb & Hkeep & Hrest).
    destruct (grow_region p (mk_process vm h) l1 r l2 (with_bounds r addr (Some b))) as [Hok' Hbyte];
      try done; [simpl; lia| |intros ? [= <-]; exists new; by split_and!|].
    { intros r0 b' Hr0 Hb'. destruct (other_blocks p l1 r l2 r0 b' Hok Heq Hr0 Hb') as [? [l ?]].
      assert (b ≠ b') by congruence. split; [by apply Hrest|simpl; congruence]. }
    split; [done|]. split; [by eexists|]. split; intros x Hx; rewrite Hbyte.
    { by rewrite decide_False by by rewrite inside_with_bounds. }
    rewrite decide_True by done. unfold region_bytes. cbn. rewrite Hnew. cbn.
    split; [apply zget_is_Some; lia|]. intros [v Hv]. rewrite Hv. apply Hkeep.
    destruct (byte_at_cases p x Ht) as [(r0 & Hr0 & Hix & He)|[_ He]]; rewrite He in Hv; [|done].
    rewrite (only_region p l1 r l2 r0 addr x), Hrb in Hv by done. by destruct (host_base r).
  - unfold realloc in Hre. destruct (aligned_alloc _ _); [done|]. injection Hre as <-.
    destruct (grow_region p (mk_process vm (heap p)) l1 r l2 (with_bounds r addr None)) as [Hok' Hbyte];
      try done; [simpl; lia|].
    split; [done|]. split; [by eexists|]. split; intros x Hx; rewrite Hbyte.
    + by rewrite decide_False by by rewrite inside_with_bounds.
    + by rewrite decide_True by done.
Qed.

(** The second update of the entry and the result, once the range is free. *)
Lemma move_break p vm1 l1 r l2 addr :
  mem_ok p → word32 addr → regions (space p) = l1 ++ r :: l2 → addr_high r < addr →
  ¬ Exists (λ e, addr_low r < addr_low e < addr) (l1 ++ l2) →
  regions vm1 = l1 ++ with_bounds r addr (host_base r) :: l2 →
  nr_pmr_ops vm1 = nr_pmr_ops (space p) → length (pmr_ops vm1) = length (pmr_ops (space p)) →
  vma_heap vm1 = vma_heap (space p) →
  let '(base, h) := realloc (host_base r) (addr - addr_low r) (heap p) in
  ∃ vm2, set_region vm1 (Z.of_nat (length l1)) (with_bounds r addr base) = Ok vm2 ∧
    break_moved p (mk_process vm2 h) l1 r l2 addr (bool_decide (is_Some base)).
Proof.
  intros Hok Hw Heq Hgt Hno Heq1 Hn1 Hl1 Hh1. pose proof (mo_table _ Hok) as Ht. unfold word32 in Hw.
  pose proof (proj1 (Forall_forall _ _) (ok_regions _ Ht) r ltac:(rewrite Heq; set_solver))
    as (? & ? & Hcb).
  assert (Hl2 : ∀ e, e ∈ l2 → addr <= addr_low e).
  { intros e He. destruct (Z.lt_ge_cases (addr_low e) addr); [|lia]. destruct Hno.
    apply Exists_exists. exists e. split; [set_solver|]. pose proof (ok_ascending _ Ht) as Ha.
    rewrite Heq in Ha. apply ascending_middle in Ha as (_ & _ & Ha). specialize (Ha e He). lia. }
  assert (Hrok : ∀ base, region_ok (with_bounds r addr base)) by (intros; split_and!; simpl; (lia || apply Hcb)).
  assert (Ht1 : table_ok vm1) by (eapply (table_replace (space p) _ l1 r l2); done).
  destruct (realloc _ _ _) as [base h] eqn:Hre.
  destruct (set_region_spec vm1 l1 _ l2 (with_bounds r addr base) Ht1 Heq1)
    as (vm2 & Hset & Heq2 & Hn2 & Hl2' & _ & Hh2 & _).
  exists vm2. split; [done|]. apply (extend_heap p vm2 l1 r l2); try done; [|congruence].
  by eapply (table_replace vm1 _ l1 _ l2).
Qed.

(** A brk of 0 reads the break. *)
Lemma read_break p l1 r l2 :
  table_ok (space p) → regions (space p) = l1 ++ r :: l2 → vma_heap (space p) = Some (Z.of_nat (length l1)) →
  call_brk 0 p = Ok (addr_high r, p).
Proof.
  intros Ht Heq Hheap. unfold call_brk. rewrite Hheap. unfold ELEM. cbn [deref mbind outcome_bind].
  assert (zget (pmr_ops (space p)) (Z.of_nat (length l1)) = Some r) as ->; [|done].
  rewrite zget_nat. apply regions_lookup; [done|]. rewrite Heq. by apply list_lookup_middle.
Qed.

(** C31: when the heap pointer of a well-formed address space names a region, brk
    of an address not above the end of that region answers that end, the current
    break; brk of a higher one answers -ENOMEM, with nothing changed, when another
    region starts between the heap's start and the new break; and otherwise the end
    of the region becomes the new break, which a following brk of 0 answers, the
    other regions staying as they were: with memory from the host the answer is the
    new break, every byte below it exists, the old ones have their values and no
    byte outside changes; without, the answer is -ENOMEM although the break has
    moved, and the heap has no bytes any more. *)
Theorem call_brk_correct addr p l1 r l2 :
  mem_ok p → word32 addr → regions (space p) = l1 ++ r :: l2 →
  vma_heap (space p) = Some (Z.of_nat (length l1)) →
  if decide (addr <= addr_high r) then call_brk addr p = Ok (addr_high r, p)
  else if decide (Exists (λ e, addr_low r < addr_low e < addr) (l1 ++ l2)) then
    call_brk addr p = Ok (w32 (- ENOMEM), p)
  else
    let got := bool_decide (is_Some (aligned_alloc (heap p) (addr - addr_low r))) in
    ∃ p', call_brk addr p = Ok (if got then addr else w32 (- ENOMEM), p') ∧
      break_moved p p' l1 r l2 addr got ∧ call_brk 0 p' = Ok (addr, p').
Proof.
  intros Hok Hw Heq Hheap. pose proof (mo_table _ Hok) as Ht. unfold word32 in Hw.
  assert (Hz : zget (pmr_ops (space p)) (Z.of_nat (length l1)) = Some r).
  { rewrite zget_nat. apply regions_lookup; [done|]. rewrite Heq. by apply list_lookup_middle. }
  pose proof (proj1 (Forall_forall _ _) (ok_regions _ Ht) r ltac:(rewrite Heq; set_solver))
    as (? & ? & Hcb).
  unfold call_brk. rewrite Hheap. unfold ELEM. cbn [deref mbind outcome_bind]. rewrite Hz.
  cbn [deref mbind outcome_bind].
  destruct (decide (addr <= addr_high r)) as [Hle|Hgt].
  { by rewrite (proj2 (Z.leb_le _ _) Hle), orb_true_r. }
  destruct (Z.eqb_spec addr 0); [lia|]. destruct (Z.leb_spec addr (addr_high r)); [lia|]. cbn [orb].
  destruct (set_region_spec (space p) l1 r l2 (with_bounds r addr (host_base r)) Ht Heq)
    as (vm1 & -> & Heq1 & Hn1 & Hl1 & Ho1 & Hh1 & Hs1). cbn [mbind outcome_bind].
  rewrite (eligible_middle vm1 l1 (with_bounds r addr (host_base r)) l2 Heq1) by
    (rewrite Hn1; rewrite <- (regions_length _ Ht), Heq, !length_app; done).
  cbn [mbind outcome_bind]. rewrite negb_involutive.
  change (addr_low (with_bounds r addr (host_base r))) with (addr_low r).
  change (addr_high (with_bounds r addr (host_base r))) with addr.
  case_decide as Hex.
  - rewrite bool_decide_true by done. unfold set_region. rewrite Ho1.
    pose proof (zget_bound _ _ _ Hz). rewrite zset_ok by (rewrite length_insert; done).
    rewrite Nat2Z.id, list_insert_insert_eq, list_insert_id by (by rewrite <- zget_nat).
    cbn [deref mbind outcome_bind]. rewrite Hn1, Hh1, Hs1. destruct p as [[] ?]. done.
  - rewrite bool_decide_false by done. rewrite w32_small by (unfold word32; lia).
    pose proof (move_break p vm1 l1 r l2 addr Hok Hw Heq ltac:(lia) Hex Heq1 Hn1 Hl1 Hh1) as Hmv.
    pose proof (realloc_got (host_base r) (addr - addr_low r) (heap p)) as Hgot.
    destruct (realloc _ _ _) as [base h]. destruct Hmv as (vm2 & -> & Hmv).
    cbn [mbind outcome_bind]. cbn [fst] in Hgot. rewrite <- Hgot. exists (mk_process vm2 h). split; [done|]. split; [done|].
    destruct Hmv as (Hok2 & (base' & _ & Hr2 & Hh2) & _).
    apply (read_break (mk_process vm2 h) l1 _ l2 (mo_table _ Hok2) Hr2). by rewrite Hh2, Hheap.
Qed.

End brk_spec.

(** ** A concrete allocator: the least number above every live block *)
Definition bump_alloc : HostAlloc :=
  {| aligned_alloc h n := Some (fresh (dom h)); uninit h b n := replicate n 0 |}.

Lemma bump_alloc_ok : HostAllocOk (H := bump_alloc).
Proof.
  split; simpl.
  - intros h _ b [= <-]. apply not_elem_of_dom, is_fresh.
  - intros. apply length_replicate.
  - intros. apply Forall_replicate. unfold is_byte. lia.
Qed.

(** Without a hint a gap is found; a range as large as the address space below the
    highest region is refused. *)
Lemma mmap_anonymous_correct_witness :
  (∃ ret p', do_mmap (HA := bump_alloc) 0 0x1000 3 MAP_ANONYMOUS 0 0 demo_process = Ok (ret, p') ∧
     ret mod 4096 = 0 ∧ mapped (HA := bump_alloc) demo_process p' ret 0x1000) ∧
  do_mmap (HA := bump_alloc) 0 0x30000 3 MAP_ANONYMOUS 0 0 demo_process = Ok (w32 (- ENOMEM), demo_process).
Proof.
  assert (∀ len, ¬ hint_fits demo_process 0 len) as Hno by (by intros len [? _]). split.
  - destruct (mmap_anonymous_correct (HA := bump_alloc) (HAok := bump_alloc_ok) 0 0x1000 3 MAP_ANONYMOUS 0 0
      demo_process demo_process_ok) as (ret & p' & Hrun & _ & _ & Hgap & _); [done|lia|lia|done|done|done|].
    exists ret, p'. split; [done|]. destruct Hgap as (? & _ & ?); [apply Hno| |done].
    exists 0%nat, (generic_region 0x10000 0x10008 5 "program" (Some 1)). split; [done|]. simpl. lia.
  - destruct (mmap_anonymous_correct (HA := bump_alloc) (HAok := bump_alloc_ok) 0 0x30000 3 MAP_ANONYMOUS 0 0
      demo_process demo_process_ok) as (ret & p' & Hrun & _ & _ & _ & Hnogap); [done|lia|lia|done|done|done|].
    rewrite Hrun. destruct Hnogap as [-> ->]; [apply Hno| |done].
    intros (k & e & He & Hgap). destruct k as [|[|[|k]]]; [..|done]; injection He as <-; simpl in Hgap; lia.
Defined.

Definition demo_mapping : pm_region_operation := generic_region 0x30000 0x30004 6 "mmap" (Some 3).

Lemma munmap_correct_witness :
  (∀ r, r ∈ regions (space demo_process) → inside 0x30000 r → addr_high r - addr_low r = 4 →
     pmr_reclaim r = Some vma_generic →
     ∃ p', do_munmap 0x30000 4 demo_process = Ok (0, p') ∧ unmapped demo_process r p') ∧
  (demo_mapping ∈ regions (space demo_process) ∧ inside 0x30000 demo_mapping).
Proof.
  split; [|split; [apply (list_elem_of_lookup_2 _ 2); done|done]].
  apply (munmap_correct 0x30000 4 demo_process demo_process_ok). lia.
Defined.

Lemma call_brk_correct_witness :
  ∃ p', call_brk (HA := bump_alloc) 0x21000 demo_process = Ok (0x21000, p') ∧
    call_brk (HA := bump_alloc) 0 p' = Ok (0x21000, p').
Proof.
  destruct (call_brk_correct (HA := bump_alloc) (HAok := bump_alloc_ok) 0x21000 demo_process
    [generic_region 0x10000 0x10008 5 "program" (Some 1)]
    (generic_region 0x20000 0x20004 6 "heap" (Some 2))
    [generic_region 0x30000 0x30004 6 "mmap" (Some 3)] demo_process_ok) as (p' & Hrun & _ & Hbrk); [done..|].
  by exists p'.
Defined.

(** An allocator without memory. *)
Definition exhausted_alloc : HostAlloc :=
  {| aligned_alloc h n := None; uninit h b n := replicate n 0 |}.

(** When the host has no memory for a larger heap, brk answers -ENOMEM but
    leaves the heap without memory behind it: the guest's next access to its old
    heap dereferences a null pointer. *)
Theorem brk_failure_loses_heap :
  ∃ p', call_brk (HA := exhausted_alloc) 0x21000 demo_process = Ok (w32 (- ENOMEM), p') ∧
    direct_read 4 0x20000 demo_process = Ok 0x04030201 ∧
    direct_read 4 0x20000 p' = Err EUndef.
Proof. eexists. split; [vm_compute; reflexivity|]. split; vm_compute; reflexivity. Qed.

(** A hint near the top of the address space passes the eligibility test
    because the end of the range wraps to a small number, and the assertion of the
    table's comparison then ends the emulator: one system call of the guest. *)
Theorem mmap_hint_wraps :
  do_mmap (HA := bump_alloc) 0xfffff000 0x1000 3 MAP_ANONYMOUS 0 0 demo_process = Err EAssert.
Proof. vm_compute. reflexivity. Qed.

(** The heap pointer names an entry of the array, and the entries move when a
    region below the heap is unmapped: here the break is then read from the mapping
    behind the heap. *)
Theorem munmap_moves_heap :
  call_brk (HA := bump_alloc) 0 demo_process = Ok (0x20004, demo_process) ∧
  match do_munmap 0x10000 8 demo_process with
  | Ok (ret, p) => ret = 0 ∧ call_brk (HA := bump_alloc) 0 p = Ok (0x30004, p)
  | Err _ => False
  end.
Proof. vm_compute. done. Qed.

End VmaOps.
