(* ===== verification/Mmu.v ===== *)
(** * Address translation and guest memory accesses: mmu.c, mmu.h, mmu_tlb, mmu_pagewalker.c

    A hart with paging on (a privilege level below machine and the mode bit of
    satp) translates through a direct-mapped TLB that [walk_page_table] fills from
    the Sv32 tables in guest memory; otherwise, and always in an application, an
    address is physical.  The walker is proved against Sv32 as the privileged
    manual defines it, the accesses against the map from addresses to bytes, and
    the aligned accesses discharge the interface the atomic operations use. *)
From S2P Require Import Prelude SortSearch X86 Hart PmRegion Vma Trap TransAmo.
Import Macros X86 Hart PmRegion Vma Trap TransAmo.

Module Mmu.

Definition PAGE_SHIFT_4K : Z := 12.

Definition PAGE_SHIFT_4M : Z := 22.

Definition PAGE_MASK_4K : Z := 0xfffff000.

Definition PAGE_MASK_4M : Z := 0xffc00000.

(** The two pte fields are host pointers, [pmr] an entry of the region table. *)
Record tlb_entry := mk_tlb {
  va_tag : Z;
  pa_tag : Z;
  page_mask : Z;
  entry_valid : bool;
  level1_pte : option Z * Z;
  level2_pte : option Z * Z;
  pmr : option Z
}.

(** The state an access reads and changes beside the guest's registers. *)
Record machine := mk_machine {
  ctl : hart_control;
  tcache : hart;
  mem : process;
  itlb : list tlb_entry;
  dtlb : list tlb_entry;
  itlb_cap : Z;
  dtlb_cap : Z
}.

Definition set_itlb (m : machine) (t : list tlb_entry) : machine :=
  mk_machine (ctl m) (tcache m) (mem m) t (dtlb m) (itlb_cap m) (dtlb_cap m).

Definition set_dtlb (m : machine) (t : list tlb_entry) : machine :=
  mk_machine (ctl m) (tcache m) (mem m) (itlb m) t (itlb_cap m) (dtlb_cap m).

Definition set_mem (m : machine) (p : process) : machine :=
  mk_machine (ctl m) (tcache m) p (itlb m) (dtlb m) (itlb_cap m) (dtlb_cap m).

(** ** mmu_tlb.h *)
Definition VA_TO_4K_TLB_ENTRY (tlb_cap va : Z) : Z :=
  Z.land (Z.shiftr va PAGE_SHIFT_4K) (w32 (tlb_cap - 1)).

Definition VA_TO_4M_TLB_ENTRY (tlb_cap va : Z) : Z :=
  Z.land (Z.shiftr va PAGE_SHIFT_4M) (w32 (tlb_cap - 1)).

Definition VA_TO_TLB_ENTRY (tlb : list tlb_entry) (tlb_cap va : Z) : outcome (option tlb_entry) :=
  entry ← deref (zget tlb (VA_TO_4K_TLB_ENTRY tlb_cap va));
  entry ← (if entry_valid entry then Ok entry
           else deref (zget tlb (VA_TO_4M_TLB_ENTRY tlb_cap va)));
  Ok (if entry_valid entry then Some entry else None).

(** [n] iterations of the loop of [invalidate_tlb] from [idx]. *)
Fixpoint invalidate_loop (n : nat) (idx : Z) (tlb : list tlb_entry) : outcome (list tlb_entry) :=
  match n with
  | O => Ok tlb
  | S n =>
      e ← deref (zget tlb idx);
      tlb ← deref (zset tlb idx (mk_tlb (va_tag e) (pa_tag e) (page_mask e) false
                                   (level1_pte e) (level2_pte e) (pmr e)));
      invalidate_loop n (idx + 1) tlb
  end.

Definition invalidate_tlb (tlb : list tlb_entry) (tlb_cap : Z) : outcome (list tlb_entry) :=
  invalidate_loop (Z.to_nat tlb_cap) 0 tlb.

(** [sfence_vma_callback] of translate_privileged_instr.c. *)
Definition sfence_vma_callback (m : machine) : outcome machine :=
  it ← invalidate_tlb (itlb m) (itlb_cap m);
  dt ← invalidate_tlb (dtlb m) (dtlb_cap m);
  Ok (mk_machine (ctl m) (flush_translation_cache (tcache m)) (mem m) it dt (itlb_cap m) (dtlb_cap m)).

(** ** mmu_pagewalker.c *)
Definition MAX_PTES : Z := 1024.

(** The page table entry at a physical address: [search_pm_region_callback],
    [pmr_direct] and the load through the pointer, which is kept too. *)
Definition pte_at (addr : Z) (p : process) : outcome (Z * (option Z * Z)) :=
  s ← search_pm_region_callback (space p) addr;
  ASSERT (bool_decide (is_Some s));;
  i ← deref s;
  r ← ELEM (pmr_ops (space p)) i;
  match pmr_direct r with
  | Some vma_generic =>
      let ptr := vma_generic_direct addr r in
      v ← load (heap p) ptr 4;
      Ok (v, ptr)
  | None => Err EUndef
  end.

(** The bits of [struct sv32_pte]. *)
Definition pte_valid (pte : Z) : bool := Z.testbit pte 0.

Definition pte_leaf (pte : Z) : bool := Z.testbit pte 1 || Z.testbit pte 2 || Z.testbit pte 3.

Definition walk_page_table (va : Z) (tlb : list tlb_entry) (tlb_cap : Z) (m : machine)
    : outcome (Z * list tlb_entry) :=
  let satp := csr_blob (ctl m) CSR_ADDRESS_SATP in
  ASSERT (negb (Z.land satp 0x80000000 =? 0));;
  let level1_base := w32 (Z.shiftl satp 12) in
  let level1_entry_offset := Z.land (Z.shiftr va 22) 0x3ff * 4 in
  '(level1, level1_ptr) ← pte_at (w32 (level1_base + level1_entry_offset)) (mem m);
  if negb (pte_valid level1) then Ok (-1, tlb) else
  let level1_ppn := Z.shiftr level1 10 in
  if pte_leaf level1 then
    let pa := Z.land (w32 (Z.shiftl level1_ppn 12)) PAGE_MASK_4M in
    s ← search_pm_region_callback (space (mem m)) pa;
    tlb ← deref (zset tlb (VA_TO_4M_TLB_ENTRY tlb_cap va)
                   (mk_tlb (Z.land va PAGE_MASK_4M) pa PAGE_MASK_4M true level1_ptr (None, 0) s));
    ASSERT (bool_decide (is_Some s));;
    Ok (0, tlb)
  else
    let level2_base := w32 (Z.shiftl level1_ppn 12) in
    let level2_entry_offset := Z.land (Z.shiftr va 12) 0x3ff * 4 in
    '(level2, level2_ptr) ← pte_at (w32 (level2_base + level2_entry_offset)) (mem m);
    if negb (pte_valid level2) then Ok (-2, tlb) else
    let level2_ppn := Z.shiftr level2 10 in
    let pa := Z.land (w32 (Z.shiftl level2_ppn 12)) PAGE_MASK_4K in
    s ← search_pm_region_callback (space (mem m)) pa;
    tlb ← deref (zset tlb (VA_TO_4K_TLB_ENTRY tlb_cap va)
                   (mk_tlb (Z.land va PAGE_MASK_4K) pa PAGE_MASK_4K true level1_ptr level2_ptr s));
    ASSERT (bool_decide (is_Some s));;
    Ok (0, tlb).

(** [n] iterations of the loop of [pa_to_va] from [idx]; [base] is the host pointer
    to the first level.  [Some va] is the return value 0, [None] is -1. *)
Fixpoint pa_to_va_loop (n : nat) (idx pa : Z) (base : option Z * Z) (h : host_heap)
    : outcome (option Z) :=
  match n with
  | O => Ok None
  | S n =>
      pte ← load h (fst base, snd base + 4 * idx) 4;
      if negb (pte_valid pte) then pa_to_va_loop n (idx + 1) pa base h else
      if pte_leaf pte then
        let ppn_4m := w32 (Z.shiftl (Z.shiftr pte 10) 12) in
        if Z.land ppn_4m PAGE_MASK_4M =? Z.land pa PAGE_MASK_4M
        then Ok (Some (Z.lor (Z.land pa 0x003fffff) (w32 (Z.shiftl idx 22))))
        else pa_to_va_loop n (idx + 1) pa base h
      else not_reach
  end.

Definition pa_to_va (pa : Z) (m : machine) : outcome (option Z) :=
  let satp := csr_blob (ctl m) CSR_ADDRESS_SATP in
  ASSERT (negb (Z.land satp 0x80000000 =? 0));;
  let level1_base := w32 (Z.shiftl satp 12) in
  s ← search_pm_region_callback (space (mem m)) level1_base;
  ASSERT (bool_decide (is_Some s));;
  i ← deref s;
  r ← ELEM (pmr_ops (space (mem m))) i;
  match pmr_direct r with
  | Some vma_generic =>
      pa_to_va_loop (Z.to_nat MAX_PTES) 0 pa (vma_generic_direct level1_base r) (heap (mem m))
  | None => Err EUndef
  end.

(** ** mmu.h: accesses by virtual address *)
Definition paging (m : machine) : bool :=
  (privilege_level (ctl m) <? PRIVILEGE_LEVEL_MACHINE) &&
  negb (Z.land (csr_blob (ctl m) CSR_ADDRESS_SATP) 0x80000000 =? 0).

(** The lookup, the walk on a miss and the second lookup. *)
Definition tlb_translate (va : Z) (tlb : list tlb_entry) (tlb_cap : Z) (m : machine)
    : outcome (option tlb_entry * list tlb_entry) :=
  e ← VA_TO_TLB_ENTRY tlb tlb_cap va;
  match e with
  | Some e => Ok (Some e, tlb)
  | None =>
      '(_, tlb) ← walk_page_table va tlb tlb_cap m;
      e ← VA_TO_TLB_ENTRY tlb tlb_cap va;
      Ok (e, tlb)
  end.

(** [raise_exception_with_tvalue]; it does not return. *)
Definition raise_exception_with_tvalue (cause tval : Z) (g : guest) (m : machine) : callres machine :=
  match raise_exception_internal cause tval (mk_cpu g (ctl m) (tcache m)) with
  | Trapped x =>
      Traps (regs x)
        (mk_machine (control x) (cache x) (mem m) (itlb m) (dtlb m) (itlb_cap m) (dtlb_cap m))
  | Return _ => Dies EAssert
  | Ends e => Dies e
  end.

Definition entry_pa (e : tlb_entry) (va : Z) : Z :=
  Z.lor (pa_tag e) (Z.land va (w32 (Z.lnot (page_mask e)))).

(** [entry->pmr->pmr_read(...)] and [entry->pmr->pmr_write(...)]. *)
Definition entry_read (size va : Z) (e : tlb_entry) (p : process) : outcome Z :=
  i ← deref (pmr e);
  r ← ELEM (pmr_ops (space p)) i;
  match pmr_read r with
  | Some vma_generic => vma_generic_read (entry_pa e va) size r (heap p)
  | None => Err EUndef
  end.

Definition entry_write (size va value : Z) (e : tlb_entry) (p : process) : outcome process :=
  i ← deref (pmr e);
  r ← ELEM (pmr_ops (space p)) i;
  match pmr_write r with
  | Some vma_generic =>
      h ← vma_generic_write (entry_pa e va) size value r (heap p);
      Ok (mk_process (space p) h)
  | None => Err EUndef
  end.

(** A C call that returns a value or ends the emulator. *)
Definition ret_read (o : outcome Z) (g : guest) (m : machine) : callres machine :=
  match o with Ok v => Returns v g m | Err e => Dies e end.

Definition ret_write (o : outcome process) (g : guest) (m : machine) : callres machine :=
  match o with Ok p => Returns 0 g (set_mem m p) | Err e => Dies e end.

(** [vmread8] to [vmread64]: [size] is the number of bytes. *)
Definition vmread (size linear_address : Z) (g : guest) (m : machine) : callres machine :=
  if paging m then
    match tlb_translate linear_address (dtlb m) (dtlb_cap m) m with
    | Err e => Dies e
    | Ok (None, t) =>
        raise_exception_with_tvalue EXCEPTION_LOAD_PAGE_FAULT linear_address g (set_dtlb m t)
    | Ok (Some e, t) => ret_read (entry_read size linear_address e (mem m)) g (set_dtlb m t)
    end
  else ret_read (direct_read size linear_address (mem m)) g m.

Definition vmwrite (size linear_address value : Z) (g : guest) (m : machine) : callres machine :=
  if paging m then
    match tlb_translate linear_address (dtlb m) (dtlb_cap m) m with
    | Err e => Dies e
    | Ok (None, t) =>
        raise_exception_with_tvalue EXCEPTION_STORE_PAGE_FAULT linear_address g (set_dtlb m t)
    | Ok (Some e, t) =>
        ret_write (entry_write size linear_address value e (mem m)) g (set_dtlb m t)
    end
  else ret_write (direct_write size linear_address value (mem m)) g m.

(** ** mmu.c *)
Definition mmu_read8 : Z → guest → machine → callres machine := vmread 1.

Definition mmu_read16 : Z → guest → machine → callres machine := vmread 2.

Definition mmu_read32 : Z → guest → machine → callres machine := vmread 4.

Definition mmu_write8 : Z → Z → guest → machine → callres machine := vmwrite 1.

Definition mmu_write16 : Z → Z → guest → machine → callres machine := vmwrite 2.

Definition mmu_write32 : Z → Z → guest → machine → callres machine := vmwrite 4.

(** A misaligned store is reported as a misaligned load. *)
#[export] Instance machine_mmu : AlignedMmu machine := {|
  mmu_read32_aligned location g m :=
    if negb (Z.land location 0x3 =? 0)
    then raise_exception_with_tvalue EXCEPTION_LOAD_ADDRESS_MISALIGN location g m
    else vmread 4 location g m;
  mmu_write32_aligned location value g m :=
    if negb (Z.land location 0x3 =? 0)
    then raise_exception_with_tvalue EXCEPTION_LOAD_ADDRESS_MISALIGN location g m
    else vmwrite 4 location value g m
|}.

Definition mmu_instruction_read32 (instruction_va : Z) (g : guest) (m : machine) : callres machine :=
  if paging m then
    match tlb_translate instruction_va (itlb m) (itlb_cap m) m with
    | Err e => Dies e
    | Ok (None, t) =>
        raise_exception_with_tvalue EXCEPTION_INSTRUCTION_PAGE_FAULT instruction_va g (set_itlb m t)
    | Ok (Some e, t) => ret_read (entry_read 4 instruction_va e (mem m)) g (set_itlb m t)
    end
  else ret_read (direct_read 4 instruction_va (mem m)) g m.

(** ** Sv32, from the privileged manual

    Physical addresses are 32 bits wide here (the comment on [ppn2]).  [word] is
    the memory the walk reads.  Permissions are left out: the code has none. *)
Inductive sv32_result :=
| PageFault
| Mapped (base size : Z).

Definition pte_ppn (pte : Z) : Z := (pte / 2 ^ 10) mod 2 ^ 20.

(** V = 0, or R = 0 and W = 1. *)
Definition pte_bad (pte : Z) : bool :=
  negb (Z.testbit pte 0) || (negb (Z.testbit pte 1) && Z.testbit pte 2).

Definition sv32 (word : Z → option Z) (satp va : Z) : option sv32_result :=
  pte ← word (satp mod 2 ^ 20 * 2 ^ 12 + va / 2 ^ 22 * 4);
  if pte_bad pte then Some PageFault
  else if Z.testbit pte 1 || Z.testbit pte 3 then
    Some (if pte_ppn pte mod 2 ^ 10 =? 0 then Mapped (pte_ppn pte * 2 ^ 12) (2 ^ 22) else PageFault)
  else
    pte ← word (pte_ppn pte * 2 ^ 12 + va / 2 ^ 12 mod 2 ^ 10 * 4);
    if pte_bad pte then Some PageFault
    else Some (if Z.testbit pte 1 || Z.testbit pte 3 then Mapped (pte_ppn pte * 2 ^ 12) (2 ^ 12)
               else PageFault).

(** The words of guest memory. *)
Definition word_at (p : process) (a : Z) : option Z :=
  match direct_read 4 a p with Ok v => Some v | Err _ => None end.

(** Every region can be accessed through a host pointer. *)
Definition direct_ok (p : process) : Prop :=
  Forall (λ r, pmr_direct r = Some vma_generic) (regions (space p)).

(** ** The walker's arithmetic *)
Lemma level1_address satp va :
  word32 va →
  w32 (w32 (Z.shiftl satp 12) + Z.land (Z.shiftr va 22) 0x3ff * 4) =
    satp mod 2 ^ 20 * 2 ^ 12 + va / 2 ^ 22 * 4.
Proof.
  intros Hva. change 0x3ff with (Z.ones 10). rewrite Z.land_ones by lia.
  rewrite Z.shiftl_mul_pow2, Z.shiftr_div_pow2 by lia. unfold word32 in Hva.
  rewrite (Z.mod_small (va / 2 ^ 22)) by lia_div. unfold w32.
  replace (satp * 2 ^ 12 mod 2 ^ 32) with (satp mod 2 ^ 20 * 2 ^ 12)
    by (rewrite <- Z.mul_mod_distr_r by lia; done).
  apply Z.mod_small. pose proof (Z.mod_pos_bound satp (2 ^ 20) eq_refl). lia_div.
Qed.

Lemma ppn_address pte : w32 (Z.shiftl (Z.shiftr pte 10) 12) = pte_ppn pte * 2 ^ 12.
Proof.
  rewrite Z.shiftl_mul_pow2, Z.shiftr_div_pow2 by lia. unfold w32, pte_ppn.
  rewrite <- Z.mul_mod_distr_r by lia. done.
Qed.

Lemma ppn_range pte : 0 <= pte_ppn pte < 2 ^ 20.
Proof. unfold pte_ppn. by apply Z.mod_pos_bound. Qed.

Lemma level2_address pte va :
  w32 (w32 (Z.shiftl (Z.shiftr pte 10) 12) + Z.land (Z.shiftr va 12) 0x3ff * 4) =
    pte_ppn pte * 2 ^ 12 + va / 2 ^ 12 mod 2 ^ 10 * 4.
Proof.
  change 0x3ff with (Z.ones 10). rewrite Z.land_ones by lia. rewrite ppn_address.
  rewrite Z.shiftr_div_pow2 by lia. apply w32_small. unfold word32.
  pose proof (ppn_range pte). pose proof (Z.mod_pos_bound (va / 2 ^ 12) (2 ^ 10) eq_refl). lia.
Qed.

Lemma page_4K a : word32 a → Z.land a PAGE_MASK_4K = 2 ^ 12 * (a / 2 ^ 12).
Proof. intros. by apply clear_low. Qed.

Lemma page_4M a : word32 a → Z.land a PAGE_MASK_4M = 2 ^ 22 * (a / 2 ^ 22).
Proof. intros. by apply clear_low. Qed.

(** The physical address an entry for a page of [2 ^ n] bytes gives. *)
Lemma entry_pa_add e va n :
  word32 va → 0 <= n <= 32 → page_mask e = 2 ^ 32 - 2 ^ n → word32 (pa_tag e) → pa_tag e mod 2 ^ n = 0 →
  entry_pa e va = pa_tag e + va mod 2 ^ n.
Proof.
  intros Hva Hn Hm Hpa Hal. unfold entry_pa. rewrite Hm.
  assert (2 ^ 32 = 2 ^ n * 2 ^ (32 - n)) as Hsplit by (rewrite <- Z.pow_add_r by lia; f_equal; lia).
  assert (0 < 2 ^ n <= 2 ^ 32) by (split; [apply Z.pow_pos_nonneg; lia|apply Z.pow_le_mono_r; lia]).
  replace (w32 (Z.lnot (2 ^ 32 - 2 ^ n))) with (Z.ones n).
  2: { rewrite Z.ones_equiv. unfold w32, Z.lnot. rewrite <- (Z.mod_add _ 1) by lia.
       rewrite Z.mod_small; lia. }
  rewrite Z.land_ones by lia.
  assert (Hland : Z.land (pa_tag e) (va mod 2 ^ n) = 0).
  { apply Z.bits_inj'. intros i Hi. rewrite Z.land_spec, Z.bits_0.
    destruct (Z.lt_ge_cases i n); [|by rewrite Z.mod_pow2_bits_high, andb_false_r by lia].
    rewrite (Z.div_mod (pa_tag e) (2 ^ n)), Hal, Z.add_0_r, Z.mul_comm by lia.
    by rewrite Z.mul_pow2_bits_low. }
  by rewrite <- Z.lxor_lor, <- Z.add_nocarry_lxor by done.
Qed.

(** ** The memory accesses of the walk *)
Lemma direct_lookup p a i r :
  mem_ok p → 0 <= a < 2 ^ 32 - 1 → search_pm_region_callback (space p) a = Ok (Some i) →
  zget (pmr_ops (space p)) i = Some r → r ∈ regions (space p) ∧ inside a r.
Proof.
  intros Hok Ha Hs Hz. pose proof (mo_table _ Hok) as Ht.
  destruct (search_spec (space p) a Ht Ha) as (s & Hs' & Hspec). rewrite Hs in Hs'.
  injection Hs' as <-. destruct Hspec as (r' & Hi & Hr & Hin).
  apply regions_lookup in Hr as Hr'; [|done]. destruct Hr' as [_ Hz']. rewrite zget_lookup in Hz by done.
  rewrite Hz in Hz'. injection Hz' as <-. split; [by eapply list_elem_of_lookup_2|done].
Qed.

Lemma pte_at_word p a v :
  mem_ok p → direct_ok p → 0 <= a < 2 ^ 32 - 1 → word_at p a = Some v → ∃ ptr, pte_at a p = Ok (v, ptr).
Proof.
  intros Hok Hd Ha. unfold word_at, direct_read, pte_at, ELEM.
  destruct (search_pm_region_callback (space p) a) as [s|] eqn:Hs; [|done]. cbn [mbind outcome_bind].
  destruct s as [i|]; [|done]. rewrite bool_decide_true by done.
  cbn [ASSERT deref mbind outcome_bind]. destruct (zget (pmr_ops (space p)) i) as [r|] eqn:Hz; [|done].
  cbn [deref mbind outcome_bind]. destruct (pmr_read r) as [[]|]; [|done].
  rewrite generic_read_load by (unfold access_size_ok; lia).
  destruct (direct_lookup p a i r Hok Ha Hs Hz) as [Hr _].
  rewrite (proj1 (Forall_forall _ _) Hd r Hr).
  destruct (load _ _ _) as [w|]; [|done]. intros [= ->]. by eexists.
Qed.

(** ** TLB slots *)
Lemma slot_bound x cap : 0 <= x → 0 < cap <= 2 ^ 31 → 0 <= Z.land x (w32 (cap - 1)) < cap.
Proof.
  intros Hx Hc. rewrite w32_small by (unfold word32; lia).
  destruct (Z_of_nat_complete_inf (cap - 1)) as [c Hcap]; [lia|].
  destruct (Z_of_nat_complete_inf x Hx) as [y ->]. rewrite Hcap, <- !nat_N_Z, <- N2Z.inj_land.
  pose proof (N.land_le_r (N.of_nat y) (N.of_nat c)). lia.
Qed.

Lemma slot_4K cap va : word32 va → 0 < cap <= 2 ^ 31 → 0 <= VA_TO_4K_TLB_ENTRY cap va < cap.
Proof. intros [? _] ?. apply slot_bound; [by apply Z.shiftr_nonneg|done]. Qed.

Lemma slot_4M cap va : word32 va → 0 < cap <= 2 ^ 31 → 0 <= VA_TO_4M_TLB_ENTRY cap va < cap.
Proof. intros [? _] ?. apply slot_bound; [by apply Z.shiftr_nonneg|done]. Qed.

(** ** The walk *)

(** An entry for the page of [size] bytes at [base], in region [r]. *)
Definition entry_for (p : process) (e : tlb_entry) (base size : Z) (r : pm_region_operation) : Prop :=
  entry_valid e = true ∧ pa_tag e = base ∧ page_mask e = 2 ^ 32 - size ∧
  ∃ i, pmr e = Some i ∧ zget (pmr_ops (space p)) i = Some r.

Definition page_slot (cap va size : Z) : Z :=
  if size =? 2 ^ 12 then VA_TO_4K_TLB_ENTRY cap va else VA_TO_4M_TLB_ENTRY cap va.

Definition satp_of (m : machine) : Z := csr_blob (ctl m) CSR_ADDRESS_SATP.

(** A machine whose paging structures can be walked into the TLB [tlb]. *)
Record walkable (tlb : list tlb_entry) (cap : Z) (m : machine) : Prop := {
  wk_mem : mem_ok (mem m);
  wk_direct : direct_ok (mem m);
  wk_mode : Z.land (satp_of m) 0x80000000 ≠ 0;
  wk_cap : 0 < cap <= 2 ^ 31;
  wk_len : Z.of_nat (length tlb) = cap
}.

(** The last steps of both kinds of page: search the region and fill the slot. *)
Lemma fill_slot p (tlb : list tlb_entry) slot pa r (mk : option Z → tlb_entry) :
  mem_ok p → r ∈ regions (space p) → inside pa r → 0 <= slot < Z.of_nat (length tlb) →
  ∃ i, zget (pmr_ops (space p)) i = Some r ∧
    (s ← search_pm_region_callback (space p) pa;
     tlb ← deref (zset tlb slot (mk s));
     ASSERT (bool_decide (is_Some s));; Ok (0, tlb)) = Ok (0, <[Z.to_nat slot := mk (Some i)]> tlb).
Proof.
  intros Hok Hr Hin Hs. destruct (search_member _ _ pa (mo_table _ Hok) Hr Hin) as (i & Hsr & _ & Hz).
  exists i. split; [done|]. rewrite Hsr. cbn [mbind outcome_bind]. rewrite zset_ok by done. done.
Qed.

Lemma bad_valid pte : pte_bad pte = false → pte_valid pte = true.
Proof. unfold pte_bad, pte_valid. by destruct (Z.testbit pte 0). Qed.

(** The manual's test for a leaf and the code's, on an entry that is not reserved. *)
Lemma leaf_bits pte : pte_bad pte = false → pte_leaf pte = Z.testbit pte 1 || Z.testbit pte 3.
Proof.
  unfold pte_bad, pte_leaf.
  by destruct (Z.testbit pte 0), (Z.testbit pte 1), (Z.testbit pte 2), (Z.testbit pte 3).
Qed.

Lemma walk_mapped va tlb cap m base size r :
  walkable tlb cap m → word32 va → sv32 (word_at (mem m)) (satp_of m) va = Some (Mapped base size) →
  r ∈ regions (space (mem m)) → inside base r →
  ∃ e, walk_page_table va tlb cap m = Ok (0, <[Z.to_nat (page_slot cap va size) := e]> tlb) ∧
    entry_for (mem m) e base size r.
Proof.
  intros [Hok Hd Hmode Hcap Hlen] Hva Hsv Hr Hin. unfold walk_page_table. fold (satp_of m).
  destruct (Z.eqb_spec (Z.land (satp_of m) 0x80000000) 0); [done|]. cbn [negb ASSERT mbind outcome_bind].
  unfold word32 in Hva. unfold sv32 in Hsv. rewrite level1_address by done.
  destruct (word_at _ _) as [pte1|] eqn:Hw1; [|done]. cbn [mbind option_bind] in Hsv.
  destruct (pte_bad pte1) eqn:Hbad1; [done|].
  pose proof (Z.mod_pos_bound (satp_of m) (2 ^ 20) eq_refl).
  apply pte_at_word in Hw1 as [ptr1 ->]; [|done|done|split; [|]; lia_div]. cbn [mbind outcome_bind].
  rewrite (bad_valid _ Hbad1), (leaf_bits _ Hbad1). cbn [negb].
  destruct (Z.testbit pte1 1 || Z.testbit pte1 3).
  - destruct (Z.eqb_spec (pte_ppn pte1 mod 2 ^ 10) 0); [|done]. injection Hsv as <- <-.
    rewrite ppn_address. pose proof (ppn_range pte1).
    rewrite (page_4M (pte_ppn pte1 * 2 ^ 12)) by (unfold word32; lia).
    replace (2 ^ 22 * (pte_ppn pte1 * 2 ^ 12 / 2 ^ 22)) with (pte_ppn pte1 * 2 ^ 12) by lia_div.
    destruct (fill_slot (mem m) tlb (VA_TO_4M_TLB_ENTRY cap va) (pte_ppn pte1 * 2 ^ 12) r
      (mk_tlb (Z.land va PAGE_MASK_4M) (pte_ppn pte1 * 2 ^ 12) PAGE_MASK_4M true ptr1 (None, 0)))
      as (i & Hi & ->); [done..|rewrite Hlen; by apply slot_4M|].
    eexists. split; [done|]. split_and!; try done. by exists i.
  - rewrite level2_address.
    destruct (word_at _ (pte_ppn pte1 * _ + _)) as [pte2|] eqn:Hw2; [|done]. cbn [mbind option_bind] in Hsv.
    destruct (pte_bad pte2) eqn:Hbad2; [done|].
    pose proof (ppn_range pte1). pose proof (Z.mod_pos_bound (va / 2 ^ 12) (2 ^ 10) eq_refl).
    apply pte_at_word in Hw2 as [ptr2 ->]; [|done|done|lia]. cbn [mbind outcome_bind].
    rewrite (bad_valid _ Hbad2). cbn [negb]. destruct (Z.testbit pte2 1 || Z.testbit pte2 3); [|done].
    injection Hsv as <- <-. rewrite ppn_address. pose proof (ppn_range pte2).
    rewrite (page_4K (pte_ppn pte2 * 2 ^ 12)) by (unfold word32; lia).
    replace (2 ^ 12 * (pte_ppn pte2 * 2 ^ 12 / 2 ^ 12)) with (pte_ppn pte2 * 2 ^ 12) by lia_div.
    destruct (fill_slot (mem m) tlb (VA_TO_4K_TLB_ENTRY cap va) (pte_ppn pte2 * 2 ^ 12) r
      (mk_tlb (Z.land va PAGE_MASK_4K) (pte_ppn pte2 * 2 ^ 12) PAGE_MASK_4K true ptr1 ptr2))
      as (i & Hi & ->); [done..|rewrite Hlen; by apply slot_4K|].
    eexists. split; [done|]. split_and!; try done. by exists i.
Qed.

Lemma sv32_page word satp va base size :
  sv32 word satp va = Some (Mapped base size) →
  (size = 2 ^ 12 ∨ size = 2 ^ 22) ∧ base mod size = 0 ∧ 0 <= base ∧ base + size <= 2 ^ 32.
Proof.
  unfold sv32. intros Hsv. destruct (word _) as [pte1|]; [|done]. cbn [mbind option_bind] in Hsv.
  destruct (pte_bad pte1); [done|]. pose proof (ppn_range pte1).
  destruct (Z.testbit pte1 1 || Z.testbit pte1 3).
  - destruct (Z.eqb_spec (pte_ppn pte1 mod 2 ^ 10) 0); [|done]. injection Hsv as <- <-.
    split; [by right|]. change (2 ^ 22) with (2 ^ 10 * 2 ^ 12). rewrite Z.mul_mod_distr_r by lia. lia_div.
  - destruct (word _) as [pte2|]; [|done]. cbn [mbind option_bind] in Hsv.
    destruct (pte_bad pte2); [done|]. pose proof (ppn_range pte2).
    destruct (Z.testbit pte2 1 || Z.testbit pte2 3); [|done]. injection Hsv as <- <-.
    split; [by left|]. rewrite Z.mod_mul by lia. lia.
Qed.

(** ** Lookups *)
Lemma page_slot_bound cap va size : word32 va → 0 < cap <= 2 ^ 31 → 0 <= page_slot cap va size < cap.
Proof. intros. unfold page_slot. destruct (size =? 2 ^ 12); [by apply slot_4K|by apply slot_4M]. Qed.

Lemma lookup_filled tlb cap va size e :
  VA_TO_TLB_ENTRY tlb cap va = Ok None → entry_valid e = true →
  0 <= page_slot cap va size < Z.of_nat (length tlb) →
  VA_TO_TLB_ENTRY (<[Z.to_nat (page_slot cap va size) := e]> tlb) cap va = Ok (Some e).
Proof.
  unfold VA_TO_TLB_ENTRY. intros Hmiss He Hs.
  destruct (zget tlb (VA_TO_4K_TLB_ENTRY cap va)) as [e1|] eqn:H1; [|done]. cbn [deref mbind outcome_bind] in Hmiss.
  destruct (entry_valid e1) eqn:Hv1; cbn [mbind outcome_bind] in Hmiss; [by rewrite Hv1 in Hmiss|].
  destruct (zget tlb (VA_TO_4M_TLB_ENTRY cap va)) as [e2|] eqn:H2; [|done].
  apply zget_Some in H1 as [? H1], H2 as [? H2]. rewrite !zget_lookup by done.
  unfold page_slot in *. destruct (size =? 2 ^ 12).
  - rewrite list_lookup_insert_eq by lia. cbn [deref mbind outcome_bind]. rewrite He.
    cbn [mbind outcome_bind]. by rewrite He.
  - destruct (decide (VA_TO_4M_TLB_ENTRY cap va = VA_TO_4K_TLB_ENTRY cap va)) as [Heq|Hne].
    + rewrite Heq, list_lookup_insert_eq by (rewrite Heq in Hs; lia). cbn [deref mbind outcome_bind]. rewrite He.
      cbn [mbind outcome_bind]. by rewrite He.
    + assert (Z.to_nat (VA_TO_4M_TLB_ENTRY cap va) ≠ Z.to_nat (VA_TO_4K_TLB_ENTRY cap va)) by lia.
      rewrite (list_lookup_insert_ne _ _ (Z.to_nat (VA_TO_4K_TLB_ENTRY cap va))) by done. rewrite H1. cbn [deref mbind outcome_bind]. rewrite Hv1.
      rewrite list_lookup_insert_eq by lia. cbn [deref mbind outcome_bind]. by rewrite He.
Qed.

(** The page lies in one region with memory behind it. *)
Definition page_in (p : process) (base size : Z) (r : pm_region_operation) : Prop :=
  r ∈ regions (space p) ∧ is_Some (host_base r) ∧ addr_low r <= base ∧ base + size <= addr_high r.

(** The TLB has nothing wrong to say about [va]: a lookup misses, or it hits the
    entry of the page Sv32 maps [va] to. *)
Definition tlb_right (tlb : list tlb_entry) (cap : Z) (m : machine) (va : Z) : Prop :=
  ∃ oe, VA_TO_TLB_ENTRY tlb cap va = Ok oe ∧
    match oe with
    | None => True
    | Some e => ∃ base size r, sv32 (word_at (mem m)) (satp_of m) va = Some (Mapped base size) ∧
        entry_for (mem m) e base size r ∧ page_in (mem m) base size r
    end.

Lemma translate_right va tlb cap m base size r :
  walkable tlb cap m → word32 va → sv32 (word_at (mem m)) (satp_of m) va = Some (Mapped base size) →
  page_in (mem m) base size r → tlb_right tlb cap m va →
  ∃ e t r', tlb_translate va tlb cap m = Ok (Some e, t) ∧ entry_for (mem m) e base size r' ∧
    page_in (mem m) base size r' ∧ tlb_right t cap m va.
Proof.
  intros Hw Hva Hsv Hp (oe & Hl & Hoe). unfold tlb_translate. rewrite Hl. cbn [mbind outcome_bind].
  destruct oe as [e|].
  - destruct Hoe as (base' & size' & r' & Hsv' & He & Hp'). rewrite Hsv in Hsv'. injection Hsv' as <- <-.
    exists e, tlb, r'. split_and!; try done. exists (Some e). split; [done|]. by exists base, size, r'.
  - destruct (sv32_page _ _ _ _ _ Hsv) as (Hsz & _). destruct (Hp) as (Hr & _ & Hlo & Hhi).
    destruct (walk_mapped va tlb cap m base size r Hw Hva Hsv Hr) as (e & -> & He);
      [unfold inside; lia|]. cbn [mbind outcome_bind].
    rewrite (lookup_filled tlb cap va size e Hl); [|apply He|].
    2: { rewrite (wk_len _ _ _ Hw). apply page_slot_bound; [done|apply Hw]. }
    eexists e, _, r. split; [done|]. split_and!; try done. exists (Some e).
    split; [|by exists base, size, r].
    apply lookup_filled; [done|apply He|]. rewrite (wk_len _ _ _ Hw).
    apply page_slot_bound; [done|apply Hw].
Qed.

(** ** Accesses through an entry *)
Lemma entry_pa_page word satp e p va base size r :
  sv32 word satp va = Some (Mapped base size) → word32 va → entry_for p e base size r →
  page_in p base size r → region_ok r → entry_pa e va = base + va mod size.
Proof.
  intros Hsv Hva (_ & Hpa & Hm & _) (_ & _ & Hlo & Hhi) (? & ? & _).
  destruct (sv32_page _ _ _ _ _ Hsv) as (Hsz & Hal & ? & ?). subst base.
  assert (word32 (pa_tag e)) by (unfold word32; destruct Hsz; subst; lia).
  destruct Hsz as [-> | ->]; [apply (entry_pa_add e va 12)|apply (entry_pa_add e va 22)]; (done || lia).
Qed.

(** An access through the right entry is the direct access at the translation. *)
Lemma entry_access word satp e p va base size r n v :
  mem_ok p → sv32 word satp va = Some (Mapped base size) → word32 va → entry_for p e base size r →
  page_in p base size r → access_size_ok n → va mod size + n <= size →
  entry_read n va e p = direct_read n (base + va mod size) p ∧
  entry_write n va v e p = direct_write n (base + va mod size) v p.
Proof.
  intros Hok Hsv Hva He Hp Hn Hfit. pose proof Hp as (Hr & [b Hb] & Hlo & Hhi).
  pose proof (proj1 (Forall_forall _ _) (ok_regions _ (mo_table _ Hok)) r Hr) as Hrok.
  destruct (sv32_page _ _ _ _ _ Hsv) as (Hsz & _).
  assert (Hm : 0 <= va mod size < size) by (apply Z.mod_pos_bound; lia).
  assert (Hin : inside (base + va mod size) r) by (unfold inside, access_size_ok in *; lia).
  destruct (access_region p r b _ Hok Hr Hin Hb) as (_ & l & _ & _ & _ & _ & _ & _ & Hdir).
  rewrite (direct_read_load p r b), (direct_write_store p r b) by done.
  unfold entry_read, entry_write, ELEM. rewrite (entry_pa_page _ _ _ _ _ _ _ _ Hsv Hva He Hp Hrok).
  destruct He as (_ & _ & _ & i & -> & Hz). destruct Hrok as (_ & _ & [[] Hrd] & [[] Hwr]).
  cbn [deref mbind outcome_bind]. rewrite Hz. cbn [deref mbind outcome_bind].
  by rewrite Hrd, Hwr, generic_read_load, generic_write_store, Hdir by done.
Qed.

(** Loads and stores with paging on, up to the access itself. *)
Lemma vm_access n va g m base size r :
  walkable (dtlb m) (dtlb_cap m) m → paging m = true → word32 va → access_size_ok n →
  sv32 (word_at (mem m)) (satp_of m) va = Some (Mapped base size) → page_in (mem m) base size r →
  va mod size + n <= size → tlb_right (dtlb m) (dtlb_cap m) m va →
  accessible (mem m) (base + va mod size) n ∧ ∃ t, tlb_right t (dtlb_cap m) m va ∧
    vmread n va g m = ret_read (direct_read n (base + va mod size) (mem m)) g (set_dtlb m t) ∧
    ∀ v, vmwrite n va v g m = ret_write (direct_write n (base + va mod size) v (mem m)) g (set_dtlb m t).
Proof.
  intros Hw Hpg Hva Hn Hsv Hp Hfit Ht.
  destruct (translate_right va _ _ m base size r Hw Hva Hsv Hp Ht) as (e & t & r' & Htr & He & Hp' & Ht').
  pose proof (wk_mem _ _ _ Hw) as Hok. destruct (sv32_page _ _ _ _ _ Hsv) as (Hsz & _).
  assert (0 <= va mod size < size) by (apply Z.mod_pos_bound; lia). split.
  { destruct Hp' as (Hr' & [b Hb] & ? & ?). exists r', b. split_and!; (done || lia). }
  exists t. split; [done|]. unfold vmread, vmwrite. rewrite Hpg, Htr. split; [|intros v];
    by (rewrite (proj1 (entry_access _ _ e _ va base size r' n 0 Hok Hsv Hva He Hp' Hn Hfit)) ||
        rewrite (proj2 (entry_access _ _ e _ va base size r' n v Hok Hsv Hva He Hp' Hn Hfit))).
Qed.

(** C24: with paging on and a TLB that is not wrong about [va], a load and a
    store inside a page are the load and the store at the physical address Sv32
    maps [va] to, and the TLB the load leaves is right about [va] too. *)
Theorem vm_access_correct n va v g m base size r :
  walkable (dtlb m) (dtlb_cap m) m → paging m = true → word32 va → access_size_ok n →
  sv32 (word_at (mem m)) (satp_of m) va = Some (Mapped base size) → page_in (mem m) base size r →
  va mod size + n <= size → tlb_right (dtlb m) (dtlb_cap m) m va →
  ∃ t x p', tlb_right t (dtlb_cap m) m va ∧
    vmread n va g m = Returns x g (set_dtlb m t) ∧
    direct_read n (base + va mod size) (mem m) = Ok x ∧
    vmwrite n va v g m = Returns 0 g (set_mem (set_dtlb m t) p') ∧
    direct_write n (base + va mod size) v (mem m) = Ok p' ∧ mem_ok p'.
Proof.
  intros Hw Hpg Hva Hn Hsv Hp Hfit Ht.
  destruct (vm_access n va g m base size r Hw Hpg Hva Hn Hsv Hp Hfit Ht) as (Ha & t & Ht' & Hrd & Hwr).
  pose proof (wk_mem _ _ _ Hw) as Hok.
  destruct (read_spec _ _ n Hok Ha Hn) as (x & Hx & _).
  destruct (write_spec _ _ n v Hok Ha Hn) as (p' & Hp' & _ & Hok' & _).
  exists t, x, p'. rewrite Hrd, (Hwr v), Hx, Hp'. done.
Qed.

(** ** Page faults *)

(** A page table entry on the path of [va] has V = 0. *)
Definition not_present (word : Z → option Z) (satp va : Z) : Prop :=
  ∃ pte, word (satp mod 2 ^ 20 * 2 ^ 12 + va / 2 ^ 22 * 4) = Some pte ∧
    (pte_valid pte = false ∨
     pte_valid pte = true ∧ pte_leaf pte = false ∧
     ∃ pte2, word (pte_ppn pte * 2 ^ 12 + va / 2 ^ 12 mod 2 ^ 10 * 4) = Some pte2 ∧
       pte_valid pte2 = false).

Lemma walk_absent va tlb cap m :
  walkable tlb cap m → word32 va → not_present (word_at (mem m)) (satp_of m) va →
  ∃ rc, walk_page_table va tlb cap m = Ok (rc, tlb).
Proof.
  intros [Hok Hd Hmode Hcap Hlen] Hva (pte & Hw1 & Hcase). unfold walk_page_table. fold (satp_of m).
  destruct (Z.eqb_spec (Z.land (satp_of m) 0x80000000) 0); [done|]. cbn [negb ASSERT mbind outcome_bind].
  unfold word32 in Hva. rewrite level1_address by done.
  pose proof (Z.mod_pos_bound (satp_of m) (2 ^ 20) eq_refl).
  apply pte_at_word in Hw1 as [ptr1 ->]; [|done|done|split; [|]; lia_div]. cbn [mbind outcome_bind].
  destruct Hcase as [-> | (-> & -> & pte2 & Hw2 & Hv2)]; [by exists (-1)|]. cbn [negb].
  rewrite level2_address. pose proof (ppn_range pte).
  pose proof (Z.mod_pos_bound (va / 2 ^ 12) (2 ^ 10) eq_refl).
  apply pte_at_word in Hw2 as [ptr2 ->]; [|done|done|lia]. cbn [mbind outcome_bind].
  rewrite Hv2. by exists (-2).
Qed.

Lemma translate_absent va tlb cap m :
  walkable tlb cap m → word32 va → not_present (word_at (mem m)) (satp_of m) va →
  VA_TO_TLB_ENTRY tlb cap va = Ok None → tlb_translate va tlb cap m = Ok (None, tlb).
Proof.
  intros Hw Hva Hno Hmiss. unfold tlb_translate. rewrite Hmiss. cbn [mbind outcome_bind].
  destruct (walk_absent va tlb cap m Hw Hva Hno) as [rc ->]. cbn [mbind outcome_bind].
  by rewrite Hmiss.
Qed.

Lemma set_dtlb_same m : set_dtlb m (dtlb m) = m.
Proof. by destruct m. Qed.

Lemma set_itlb_same m : set_itlb m (itlb m) = m.
Proof. by destruct m. Qed.

(** C25: an access to a page that is not present and not in the TLB changes
    nothing and raises the page fault of its kind (load, store or instruction) with
    the virtual address as trap value. *)
Theorem page_fault_correct n va v g m :
  word32 va → paging m = true → not_present (word_at (mem m)) (satp_of m) va →
  (walkable (dtlb m) (dtlb_cap m) m → VA_TO_TLB_ENTRY (dtlb m) (dtlb_cap m) va = Ok None →
     vmread n va g m = raise_exception_with_tvalue EXCEPTION_LOAD_PAGE_FAULT va g m ∧
     vmwrite n va v g m = raise_exception_with_tvalue EXCEPTION_STORE_PAGE_FAULT va g m) ∧
  (walkable (itlb m) (itlb_cap m) m → VA_TO_TLB_ENTRY (itlb m) (itlb_cap m) va = Ok None →
     mmu_instruction_read32 va g m =
       raise_exception_with_tvalue EXCEPTION_INSTRUCTION_PAGE_FAULT va g m).
Proof.
  intros Hva Hpg Hno. split; intros Hw Hmiss; unfold vmread, vmwrite, mmu_instruction_read32;
    rewrite Hpg, (translate_absent va _ _ m Hw Hva Hno Hmiss), ?set_dtlb_same, ?set_itlb_same; done.
Qed.

(** ** sfence.vma *)
Definition invalidated (e : tlb_entry) : tlb_entry :=
  mk_tlb (va_tag e) (pa_tag e) (page_mask e) false (level1_pte e) (level2_pte e) (pmr e).

Lemma invalidate_loop_spec l1 l2 :
  invalidate_loop (length l2) (Z.of_nat (length l1)) (l1 ++ l2) = Ok (l1 ++ (invalidated <$> l2)).
Proof.
  revert l1. induction l2 as [|e l2 IH]; intros l1; [done|]. cbn [length invalidate_loop].
  rewrite zget_middle. cbn [deref mbind outcome_bind]. rewrite zset_middle.
  cbn [deref mbind outcome_bind]. fold (invalidated e).
  rewrite <- (length_snoc_Z l1 (invalidated e)), (cons_middle (invalidated e) l1 l2), app_assoc, IH.
  by rewrite <- app_assoc.
Qed.

Lemma invalidate_tlb_spec tlb cap :
  Z.of_nat (length tlb) = cap → invalidate_tlb tlb cap = Ok (invalidated <$> tlb).
Proof. intros <-. unfold invalidate_tlb. rewrite Nat2Z.id. apply (invalidate_loop_spec [] tlb). Qed.

Lemma invalidated_miss tlb cap va :
  word32 va → 0 < cap <= 2 ^ 31 → Z.of_nat (length tlb) = cap →
  VA_TO_TLB_ENTRY (invalidated <$> tlb) cap va = Ok None.
Proof.
  intros Hva Hc Hl. unfold VA_TO_TLB_ENTRY.
  assert (Hz : ∀ i, 0 <= i < cap → ∃ e, zget (invalidated <$> tlb) i = Some e ∧ entry_valid e = false).
  { intros i Hi. destruct (zget_is_Some tlb i) as [e He]; [lia|]. exists (invalidated e).
    apply zget_Some in He as [? He]. rewrite zget_lookup, list_lookup_fmap, He by done. done. }
  destruct (Hz _ (slot_4K cap va Hva Hc)) as (e1 & -> & H1).
  destruct (Hz _ (slot_4M cap va Hva Hc)) as (e2 & He2 & H2).
  cbn [deref mbind outcome_bind]. rewrite H1, He2. cbn [deref mbind outcome_bind]. by rewrite H2.
Qed.

(** Sfence.vma empties both TLBs (every lookup misses) and the translation
    cache, and changes nothing else: afterwards the TLBs are right about every
    address, whatever the page tables are. *)
Theorem sfence_vma_correct m :
  Z.of_nat (length (itlb m)) = itlb_cap m → Z.of_nat (length (dtlb m)) = dtlb_cap m →
  0 < itlb_cap m <= 2 ^ 31 → 0 < dtlb_cap m <= 2 ^ 31 →
  ∃ m', sfence_vma_callback m = Ok m' ∧ mem m' = mem m ∧ ctl m' = ctl m ∧
    tcache m' = flush_translation_cache (tcache m) ∧
    ∀ va, word32 va → VA_TO_TLB_ENTRY (itlb m') (itlb_cap m') va = Ok None ∧
      VA_TO_TLB_ENTRY (dtlb m') (dtlb_cap m') va = Ok None ∧
      tlb_right (dtlb m') (dtlb_cap m') m' va.
Proof.
  intros Hi Hd Hci Hcd. unfold sfence_vma_callback.
  rewrite (invalidate_tlb_spec _ _ Hi), (invalidate_tlb_spec _ _ Hd). cbn [mbind outcome_bind].
  eexists. split; [done|]. split_and!; [done..|]. intros va Hva. cbn [itlb itlb_cap dtlb dtlb_cap].
  split; [by apply invalidated_miss|]. split; [by apply invalidated_miss|].
  exists None. split; [by apply invalidated_miss|done].
Qed.

(** ** Without paging: the memory of an application *)

(** [v] is the word at the aligned address [a] of a machine without paging. *)
Definition machine_holds (m : machine) (a v : Z) : Prop :=
  mem_ok (mem m) ∧ paging m = false ∧ a mod 4 = 0 ∧ accessible (mem m) a 4 ∧
  direct_read 4 a (mem m) = Ok v.

Lemma aligned_test a : a mod 4 = 0 → Z.land a 0x3 = 0.
Proof. intros Ha. change 0x3 with (Z.ones 2). by rewrite Z.land_ones by lia. Qed.

(** A write of four bytes leaves the other aligned words alone. *)
Lemma write_other_word p a b x p' w :
  mem_ok p → accessible p a 4 → accessible p b 4 → a mod 4 = 0 → b mod 4 = 0 → b ≠ a →
  direct_write 4 a x p = Ok p' → (direct_read 4 b p' = Ok w ↔ direct_read 4 b p = Ok w).
Proof.
  intros Hok Ha Hb Ha4 Hb4 Hne Hw. assert (Hn : access_size_ok 4) by (unfold access_size_ok; lia).
  destruct (write_spec p a 4 x Hok Ha Hn) as (p1 & Hw' & Hsp & Hok' & Hby).
  rewrite Hw in Hw'. injection Hw' as <-.
  destruct (read_spec p b 4 Hok Hb Hn) as (v & Hv & Hr & Hd). rewrite Hv.
  rewrite (read_unique p' b 4 v); [done|done|by eapply accessible_space|done|done|].
  intros k Hk. rewrite Hby, decide_False by lia_div. by apply Hd.
Qed.

(** The aligned accesses keep the promise the atomic operations rely on. *)
#[export] Instance machine_mmu_ok : AlignedMmuOk machine machine_holds.
Proof.
  assert (Hn : access_size_ok 4) by (unfold access_size_ok; lia). split.
  - intros m a v (Hok & _ & _ & Ha & Hr). destruct (read_spec _ a 4 Hok Ha Hn) as (x & Hx & Hb & _).
    rewrite Hr in Hx. injection Hx as ->. exact Hb.
  - intros m a v g (Hok & Hpg & Hal & _ & Hr). cbn. rewrite aligned_test by done.
    cbn. unfold vmread. by rewrite Hpg, Hr.
  - intros m a v x g (Hok & Hpg & Hal & Ha & _) Hx. cbn. rewrite aligned_test by done. cbn.
    unfold vmwrite. rewrite Hpg.
    destruct (write_spec _ a 4 x Hok Ha Hn) as (p' & Hw & Hsp & Hok' & _). rewrite Hw. cbn.
    eexists _, _. split; [done|]. intros b w. unfold machine_holds. cbn [mem set_mem].
    assert (Hacc : ∀ b, accessible p' b 4 ↔ accessible (mem m) b 4)
      by (intros; split; by apply accessible_space).
    change (paging (set_mem m p')) with (paging m). case_decide as Hb.
    + subst b. rewrite (read_after_write _ a 4 x p' Hok Ha Hn Hw), (Z.mod_small x) by exact Hx.
      rewrite Hacc. split; [by intros (_ & _ & _ & _ & [= <-])|by intros ->].
    + split; intros (_ & _ & ? & Hb' & Hr); [apply Hacc in Hb'|]; split_and!; try done;
        try (by apply Hacc); by apply (write_other_word (mem m) a b x p' w).
Qed.

(** ** A machine with two pages

    The first level at 0x1000 has one entry, the second at 0x2000 maps the page at
    virtual address 0 to 0x3000 (bytes 0xaa) and the one at 0x40000 to 0x4000
    (bytes 0xbb); the TLBs have 64 entries. *)
Definition paged_process : process :=
  mk_process
    (space_of [generic_region 0x1000 0x1004 6 "" (Some 1); generic_region 0x2000 0x2104 6 "" (Some 2);
               generic_region 0x3000 0x5000 6 "" (Some 3)])
    {[ 1 := le_split 4 0x801;
       2 := le_split 4 0xc0f ++ replicate 252 0 ++ le_split 4 0x100f;
       3 := replicate 4096 0xaa ++ replicate 4096 0xbb ]}.

Definition no_entry : tlb_entry := mk_tlb 0 0 0 false (None, 0) (None, 0) None.

Definition paged_machine : machine :=
  mk_machine (mk_control {[ CSR_ADDRESS_SATP := 0x80000001 ]} 0 0 0
                (mk_status false false false false false false 0 0) PRIVILEGE_LEVEL_SUPERVISOR)
    (mk_hart 0 [] ∅ 0) paged_process (replicate 64 no_entry) (replicate 64 no_entry) 64 64.

Lemma paged_process_ok : mem_ok paged_process.
Proof.
  split.
  - split; [done|done|repeat constructor; simpl; try lia; try done|].
    intros [|[|[|[|i]]]] [|[|[|[|j]]]] a b Hij Ha Hb; simplify_eq/=; lia.
  - intros r b Hr Hb. change (regions _) with (take 3 (pmr_ops (space paged_process))) in Hr.
    cbn [take pmr_ops space paged_process space_of app] in Hr. rewrite !elem_of_cons, elem_of_nil in Hr.
    destruct Hr as [-> | [-> | [-> | []]]]; injection Hb as <-; eexists;
      (split; [reflexivity|]); rewrite ?length_app, ?length_replicate, ?le_split_length;
      (split; [done|]); rewrite ?Forall_app; split_and?;
      first [apply le_split_bytes | apply Forall_replicate; unfold is_byte; lia].
  - by vm_compute; repeat (constructor; [set_solver|]); constructor.
Qed.

Lemma paged_walkable : walkable (dtlb paged_machine) (dtlb_cap paged_machine) paged_machine.
Proof.
  split; [apply paged_process_ok|repeat constructor|by vm_compute|simpl; lia|done].
Qed.

Lemma vm_access_correct_witness :
  ∃ t x p', tlb_right t 64 paged_machine 0x40010 ∧
    vmread 4 0x40010 (mk_guest (replicate 32 0) 0) paged_machine =
      Returns x (mk_guest (replicate 32 0) 0) (set_dtlb paged_machine t) ∧
    direct_read 4 (0x4000 + 0x40010 mod 2 ^ 12) paged_process = Ok x ∧
    vmwrite 4 0x40010 7 (mk_guest (replicate 32 0) 0) paged_machine =
      Returns 0 (mk_guest (replicate 32 0) 0) (set_mem (set_dtlb paged_machine t) p') ∧
    direct_write 4 (0x4000 + 0x40010 mod 2 ^ 12) 7 paged_process = Ok p' ∧ mem_ok p'.
Proof.
  apply (vm_access_correct 4 0x40010 7 (mk_guest (replicate 32 0) 0) paged_machine 0x4000 (2 ^ 12)
    (generic_region 0x3000 0x5000 6 "" (Some 3)) paged_walkable).
  - reflexivity.
  - done.
  - unfold access_size_ok. lia.
  - vm_compute. reflexivity.
  - split_and!; [apply (list_elem_of_lookup_2 _ 2); reflexivity|done|simpl; lia|simpl; lia].
  - vm_compute. done.
  - exists None. split; [vm_compute; reflexivity|done].
Defined.

Lemma page_fault_correct_witness :
  (vmread 4 0x1000 (mk_guest (replicate 32 0) 0) paged_machine =
     raise_exception_with_tvalue EXCEPTION_LOAD_PAGE_FAULT 0x1000 (mk_guest (replicate 32 0) 0) paged_machine ∧
   vmwrite 4 0x1000 7 (mk_guest (replicate 32 0) 0) paged_machine =
     raise_exception_with_tvalue EXCEPTION_STORE_PAGE_FAULT 0x1000 (mk_guest (replicate 32 0) 0) paged_machine) ∧
  mmu_instruction_read32 0x1000 (mk_guest (replicate 32 0) 0) paged_machine =
    raise_exception_with_tvalue EXCEPTION_INSTRUCTION_PAGE_FAULT 0x1000 (mk_guest (replicate 32 0) 0)
      paged_machine.
Proof.
  destruct (page_fault_correct 4 0x1000 7 (mk_guest (replicate 32 0) 0) paged_machine) as [Hd Hi].
  - done.
  - reflexivity.
  - exists 0x801. split; [vm_compute; reflexivity|]. right. split; [done|]. split; [done|].
    exists 0. split; [vm_compute; reflexivity|done].
  - split; [apply Hd; [apply paged_walkable|vm_compute; reflexivity]|].
    apply Hi; [apply paged_walkable|vm_compute; reflexivity].
Defined.

Lemma sfence_vma_correct_witness :
  ∃ m', sfence_vma_callback paged_machine = Ok m' ∧ mem m' = paged_process ∧ ctl m' = ctl paged_machine ∧
    tcache m' = flush_translation_cache (tcache paged_machine) ∧
    ∀ va, word32 va → VA_TO_TLB_ENTRY (itlb m') (itlb_cap m') va = Ok None ∧
      VA_TO_TLB_ENTRY (dtlb m') (dtlb_cap m') va = Ok None ∧
      tlb_right (dtlb m') (dtlb_cap m') m' va.
Proof. apply (sfence_vma_correct paged_machine); (done || (simpl; lia)). Defined.

(** The value of an access that returned. *)
Definition loaded (r : callres machine) : option Z :=
  match r with Returns v _ _ => Some v | _ => None end.

(** A lookup compares no tag: after a load from virtual address 0 the load from
    0x40000, whose page shares the slot, answers the byte of the first page instead
    of its own. *)
Theorem tlb_ignores_tags :
  let g := mk_guest (replicate 32 0) 0 in
  match vmread 1 0 g paged_machine with
  | Returns v _ m' => v = 0xaa ∧ loaded (vmread 1 0x40000 g m') = Some 0xaa
  | _ => False
  end ∧ loaded (vmread 1 0x40000 g paged_machine) = Some 0xbb.
Proof. vm_compute. done. Qed.

(** The walker takes any valid second-level entry for a page, also one that is not a
    leaf (R = W = X = 0), where the manual demands a page fault. *)
Theorem walk_accepts_pointer :
  let p := mk_process (space paged_process) (<[2 := le_split 4 0xc01 ++ replicate 256 0]> (heap paged_process)) in
  let m := set_mem paged_machine p in
  sv32 (word_at p) 0x80000001 0 = Some PageFault ∧
  loaded (vmread 1 0 (mk_guest (replicate 32 0) 0) m) = Some 0xaa.
Proof. vm_compute. done. Qed.

End Mmu.
