(* ===== verification/Csr.v ===== *)
(** * Control and status registers (csr.h, csr_*.c)

    A CSR is an entry with a value, a mask and up to three callbacks.  Most
    registers keep their value in the entry; the status and interrupt registers
    are views of fields of the hart, the supervisor's being restricted views of
    the machine's; writing satp empties the TLBs and the translation cache.
    [riscv_generic_csr_callback] executes the six CSR instructions.  Theorems: the
    instructions behave as the manual says, and the entries together are a register
    file whose cells are read, replaced and reset as their views say.

    In this version [register_csr_entry] has an empty body (the application
    emulator has no privileged CSRs): the tables the files would register are
    modelled as lists, and [registered] is what the build ends up with. *)
From Stdlib Require Import Btauto.
From S2P Require Import Prelude Decode X86 Rv32 Hart Sim Trap PmRegion Vma Mmu.
Import Decode X86 Rv32 Hart Sim Trap PmRegion Vma Mmu.

Module Csr.

Definition WPRI_MASK_ALL : Z := 0xffffffff.

(** What the callbacks read and change; [tsc] is the last host time stamp read. *)
Record csr_hart := mk_csr_hart {
  mach : machine;
  hart_id : Z;
  tsc : Z
}.

Definition set_ctl (h : csr_hart) (c : hart_control) : csr_hart :=
  let m := mach h in
  mk_csr_hart (mk_machine c (tcache m) (mem m) (itlb m) (dtlb m) (itlb_cap m) (dtlb_cap m)) (hart_id h) (tsc h).

(** [struct csr_entry], without its value; the callbacks get its address. *)
Record csr_entry := mk_entry {
  csr_addr : Z;
  wpri_mask : Z;
  csr_write : option (Z → Z → csr_hart → outcome csr_hart);
  csr_read : option (Z → csr_hart → Z * csr_hart);
  csr_reset : option (Z → csr_hart → csr_hart)
}.

(** The callbacks that use the entry's value: [csr->csr_blob = value],
    [return csr->csr_blob] and [csr->csr_blob = v] on reset. *)
Definition blob_write (a v : Z) (h : csr_hart) : outcome csr_hart := Ok (set_ctl h (set_csr (ctl (mach h)) a v)).

Definition blob_read (a : Z) (h : csr_hart) : Z * csr_hart := (csr_blob (ctl (mach h)) a, h).

Definition blob_reset (v a : Z) (h : csr_hart) : csr_hart := set_ctl h (set_csr (ctl (mach h)) a v).

Definition blob_entry (a mask : Z) : csr_entry :=
  mk_entry a mask (Some blob_write) (Some blob_read) (Some (blob_reset 0)).

(** ** csr_machine_level.c *)
Definition mscratch_csr_entry : csr_entry :=
  mk_entry 0x340 WPRI_MASK_ALL (Some blob_write) (Some blob_read) None.

Definition csr_misa_reset : Z → csr_hart → csr_hart :=
  blob_reset (Z.lor (Z.shiftl 1 0) (Z.lor (Z.shiftl 1 8) (Z.lor (Z.shiftl 1 12)
               (Z.lor (Z.shiftl 1 18) (Z.lor (Z.shiftl 1 20) (Z.shiftl 1 30)))))).

Definition misa_csr_entry : csr_entry :=
  mk_entry 0x301 WPRI_MASK_ALL (Some (λ _ _ h, Ok h)) (Some blob_read) (Some csr_misa_reset).

Definition mvendorid_csr_entry : csr_entry :=
  mk_entry 0xf11 WPRI_MASK_ALL None (Some blob_read) (Some (blob_reset 0x60a)).

Definition mhartid_csr_entry : csr_entry :=
  mk_entry 0xf14 WPRI_MASK_ALL None (Some (λ _ h, (hart_id h, h))) None.

Definition mtvec_csr_entry : csr_entry := blob_entry CSR_ADDRESS_MTVEC 0xfffffffd.

Definition mcounteren_csr_entry : csr_entry := blob_entry 0x306 WPRI_MASK_ALL.

Definition with_ienable (h : csr_hart) (v : Z) : csr_hart :=
  let c := ctl (mach h) in
  set_ctl h (mk_control (csrs c) (idelegation c) v (ipending c) (status c) (privilege_level c)).

Definition with_ipending (h : csr_hart) (v : Z) : csr_hart :=
  let c := ctl (mach h) in
  set_ctl h (mk_control (csrs c) (idelegation c) (ienable c) v (status c) (privilege_level c)).

Definition with_idelegation (h : csr_hart) (v : Z) : csr_hart :=
  let c := ctl (mach h) in
  set_ctl h (mk_control (csrs c) v (ienable c) (ipending c) (status c) (privilege_level c)).

Definition with_status (h : csr_hart) (st : status_control_blob) : csr_hart :=
  let c := ctl (mach h) in set_ctl h (set_status c st (privilege_level c)).

Definition mie_csr_entry : csr_entry :=
  mk_entry 0x304 0x00000aaa (Some (λ _ v h, Ok (with_ienable h v)))
    (Some (λ _ h, (ienable (ctl (mach h)), h))) (Some (λ _ h, with_ienable h 0)).

Definition csr_mip_write (a v : Z) (h : csr_hart) : outcome csr_hart :=
  let mip_mask := Z.land (ipending (ctl (mach h))) 0x888 in
  Ok (with_ipending h (Z.lor (Z.land v (w32 (Z.lnot 0x888))) mip_mask)).

Definition mip_csr_entry : csr_entry :=
  mk_entry 0x344 0x00000aaa (Some csr_mip_write)
    (Some (λ _ h, (ipending (ctl (mach h)), h))) (Some (λ _ h, with_ipending h 0)).

Definition medeleg_csr_entry : csr_entry := blob_entry CSR_ADDRESS_MEDELEG 0xfffff7ff.

Definition mideleg_csr_entry : csr_entry :=
  mk_entry 0x303 0x00000222 (Some (λ _ v h, Ok (with_idelegation h v)))
    (Some (λ _ h, (idelegation (ctl (mach h)), h))) (Some (λ _ h, with_idelegation h 0)).

(** [(value >> n) & 0x1] as a one-bit field, and a one-bit field as a number. *)
Definition bit_field (v n : Z) : bool := negb (Z.land (Z.shiftr v n) 0x1 =? 0).

Definition at_bit (b : bool) (n : Z) : Z := Z.shiftl (Z.b2z b) n.

Definition csr_mstatus_write (a v : Z) (h : csr_hart) : outcome csr_hart :=
  Ok (with_status h
        (mk_status (bit_field v 0) (bit_field v 1) (bit_field v 3) (bit_field v 4) (bit_field v 5) (bit_field v 7)
           (Z.land (Z.shiftr v 8) 0x1) (Z.land (Z.shiftr v 11) 0x3))).

Definition csr_mstatus_read (a : Z) (h : csr_hart) : Z * csr_hart :=
  let st := status (ctl (mach h)) in
  (Z.lor (at_bit (uie st) 0) (Z.lor (at_bit (sie st) 1) (Z.lor (at_bit (mie st) 3)
     (Z.lor (at_bit (upie st) 4) (Z.lor (at_bit (spie st) 5) (Z.lor (at_bit (mpie st) 7)
        (Z.lor (Z.shiftl (spp st) 8) (Z.shiftl (mpp st) 11))))))), h).

Definition mstatus_csr_entry : csr_entry :=
  mk_entry 0x300 0x000019aa (Some csr_mstatus_write) (Some csr_mstatus_read) (Some (blob_reset 0)).

Definition mepc_csr_entry : csr_entry := blob_entry CSR_ADDRESS_MEPC WPRI_MASK_ALL.

Definition mcause_csr_entry : csr_entry := blob_entry CSR_ADDRESS_MCAUSE WPRI_MASK_ALL.

Definition mtval_csr_entry : csr_entry := blob_entry CSR_ADDRESS_MTVAL WPRI_MASK_ALL.

Definition csr_machine_level_entries : list csr_entry :=
  [misa_csr_entry; mscratch_csr_entry; mvendorid_csr_entry; mhartid_csr_entry; mtvec_csr_entry;
   mcounteren_csr_entry; mie_csr_entry; mip_csr_entry; medeleg_csr_entry; mideleg_csr_entry;
   mstatus_csr_entry; mepc_csr_entry; mcause_csr_entry; mtval_csr_entry].

(** ** csr_machine_level_pmp.c *)
Definition PMPADDR_BASE : Z := 0x3b0.

Definition PMPCFG_BASE : Z := 0x3a0.

Definition pmpaddr_csr_entry (idx : Z) : csr_entry := blob_entry (PMPADDR_BASE + idx) WPRI_MASK_ALL.

Definition pmpcfg_csr_entry (idx : Z) : csr_entry := blob_entry (PMPCFG_BASE + idx) WPRI_MASK_ALL.

Definition csr_pmp_entries : list csr_entry :=
  (pmpaddr_csr_entry <$> [0; 1; 2; 3; 4; 5; 6; 7; 8; 9; 10; 11; 12; 13; 14; 15])
  ++ (pmpcfg_csr_entry <$> [0; 1; 2; 3]).

(** ** csr_misc.c; [now] is what [get_host_tsc] reads *)
Definition csr_time_read (now a : Z) (h : csr_hart) : Z * csr_hart :=
  (w32 now, mk_csr_hart (mach h) (hart_id h) now).

Definition time_csr_entry (now : Z) : csr_entry :=
  mk_entry 0xC01 WPRI_MASK_ALL (Some (λ _ _ h, Ok h)) (Some (csr_time_read now)) None.

Definition csr_timeh_read (a : Z) (h : csr_hart) : Z * csr_hart := (w32 (Z.shiftr (tsc h) 32), h).

Definition timeh_csr_entry : csr_entry :=
  mk_entry 0xC81 WPRI_MASK_ALL (Some (λ _ _ h, Ok h)) (Some csr_timeh_read) None.

(** ** csr_supervisor_level.c *)
Definition scounteren_csr_entry : csr_entry := blob_entry 0x106 WPRI_MASK_ALL.

Definition csr_satp_write (a v : Z) (h : csr_hart) : outcome csr_hart :=
  h ← blob_write a v h;
  let m := mach h in
  i ← invalidate_tlb (itlb m) (itlb_cap m);
  d ← invalidate_tlb (dtlb m) (dtlb_cap m);
  Ok (mk_csr_hart (mk_machine (ctl m) (flush_translation_cache (tcache m)) (mem m) i d (itlb_cap m) (dtlb_cap m))
        (hart_id h) (tsc h)).

Definition satp_csr_entry : csr_entry :=
  mk_entry CSR_ADDRESS_SATP WPRI_MASK_ALL (Some csr_satp_write) (Some blob_read) (Some (blob_reset 0)).

(** An assignment to a one-bit field of an interrupt word. *)
Definition put_bit (w n : Z) (b : bool) : Z := if b then Z.setbit w n else Z.clearbit w n.

Definition csr_sie_write (a v : Z) (h : csr_hart) : outcome csr_hart :=
  Ok (with_ienable h
        (put_bit (put_bit (put_bit (ienable (ctl (mach h))) 1 (bit_field v 1)) 5 (bit_field v 5)) 9 (bit_field v 9))).

Definition word_bit (w n : Z) : Z := at_bit (Z.testbit w n) n.

Definition csr_sie_read (a : Z) (h : csr_hart) : Z * csr_hart :=
  let w := ienable (ctl (mach h)) in
  (Z.lor (word_bit w 0) (Z.lor (word_bit w 1) (Z.lor (word_bit w 4) (Z.lor (word_bit w 5)
     (Z.lor (word_bit w 8) (word_bit w 9))))), h).

Definition sie_csr_entry : csr_entry := mk_entry 0x104 0x00000222 (Some csr_sie_write) (Some csr_sie_read) None.

Definition csr_sip_write (a v : Z) (h : csr_hart) : outcome csr_hart :=
  Ok (with_ipending h (put_bit (ipending (ctl (mach h))) 1 (bit_field v 1))).

Definition csr_sip_read (a : Z) (h : csr_hart) : Z * csr_hart :=
  let w := ipending (ctl (mach h)) in
  (Z.lor (word_bit w 1) (Z.lor (word_bit w 5) (word_bit w 9)), h).

Definition sip_csr_entry : csr_entry := mk_entry 0x144 0x00000222 (Some csr_sip_write) (Some csr_sip_read) None.

Definition csr_sstatus_write (a v : Z) (h : csr_hart) : outcome csr_hart :=
  let st := status (ctl (mach h)) in
  Ok (with_status h
        (mk_status (bit_field v 0) (bit_field v 1) (mie st) (bit_field v 4) (bit_field v 5) (mpie st)
           (Z.land (Z.shiftr v 8) 0x1) (mpp st))).

Definition csr_sstatus_read (a : Z) (h : csr_hart) : Z * csr_hart :=
  let st := status (ctl (mach h)) in
  (Z.lor (at_bit (uie st) 0) (Z.lor (at_bit (sie st) 1) (Z.lor (at_bit (upie st) 4)
     (Z.lor (at_bit (spie st) 5) (Z.shiftl (spp st) 8)))), h).

Definition sstatus_csr_entry : csr_entry :=
  mk_entry 0x100 0x00000133 (Some csr_sstatus_write) (Some csr_sstatus_read) None.

Definition stvec_csr_entry : csr_entry := blob_entry CSR_ADDRESS_STVEC WPRI_MASK_ALL.

Definition sscratch_csr_entry : csr_entry := blob_entry 0x140 WPRI_MASK_ALL.

Definition sepc_csr_entry : csr_entry := blob_entry CSR_ADDRESS_SEPC WPRI_MASK_ALL.

Definition stval_csr_entry : csr_entry := blob_entry CSR_ADDRESS_STVAL WPRI_MASK_ALL.

Definition scause_csr_entry : csr_entry := blob_entry CSR_ADDRESS_SCAUSE WPRI_MASK_ALL.

Definition csr_supervisor_level_entries : list csr_entry :=
  [scounteren_csr_entry; satp_csr_entry; sie_csr_entry; sip_csr_entry; sstatus_csr_entry;
   stvec_csr_entry; sscratch_csr_entry; sepc_csr_entry; stval_csr_entry; scause_csr_entry].

Definition all_entries (now : Z) : list csr_entry :=
  csr_machine_level_entries ++ csr_pmp_entries ++ [time_csr_entry now; timeh_csr_entry]
  ++ csr_supervisor_level_entries.

(** ** csr.h and hart.c: the registry *)

(** Its body is compiled out. *)
Definition register_csr_entry (e : csr_entry) (head : list csr_entry) : list csr_entry := head.

Definition registered (now : Z) : list csr_entry := foldr register_csr_entry [] (all_entries now).

(** [csr_registery_init]: the valid entries of a hart, reset. *)
Fixpoint csr_registery_init (l : list csr_entry) (t : gmap Z csr_entry) (h : csr_hart)
    : outcome (gmap Z csr_entry * csr_hart) :=
  match l with
  | [] => Ok (t, h)
  | e :: l =>
      ASSERT (Z.land (csr_addr e) 0xfffff000 =? 0);;
      let a := Z.land (csr_addr e) 0xfff in
      let h := set_ctl h (set_csr (ctl (mach h)) a 0) in
      let h := match csr_reset e with Some f => f a h | None => h end in
      csr_registery_init l (<[a := e]> t) h
  end.

(** ** csr_representation.c *)
Definition masked_read (e : csr_entry) (a : Z) (h : csr_hart) : Z * csr_hart :=
  let '(v, h) := match csr_read e with Some f => f a h | None => (0, h) end in
  (Z.land v (wpri_mask e), h).

Definition entry_write_back (e : csr_entry) (a v : Z) (h : csr_hart) : outcome csr_hart :=
  match csr_write e with Some f => f a v h | None => Ok h end.

(** [set] and [clear] share their shape: [f] combines the old value and the
    operand. *)
Definition csr_modify (e : csr_entry) (a funct3 imm_funct3 rd rs1 : Z) (f : Z → Z → Z) (g : guest) (h : csr_hart)
    : outcome (guest * csr_hart) :=
  let rs1_reg := gpr g rs1 in
  let '(value_to_read, h) := masked_read e a h in
  let g := set_gpr g rd value_to_read in
  if rs1 =? 0 then Ok (g, h)
  else
    let operand := if funct3 =? imm_funct3 then Z.land rs1 0x1f else rs1_reg in
    h ← entry_write_back e a (Z.land (f value_to_read operand) (wpri_mask e)) h;
    Ok (g, h).

Definition riscv_generic_csr_callback (t : gmap Z csr_entry) (instruction : Z) (g : guest) (h : csr_hart)
    : outcome (guest * csr_hart) :=
  ASSERT (Z.land instruction 0x7f =? 0x73);;
  dec ← instruction_decoding_per_type instruction ENCODING_TYPE_I;
  let a := Z.land (imm dec) 0xfff in
  match t !! a with
  | None => not_reach
  | Some e =>
      let rd := rd_index dec in
      let rs1 := rs1_index dec in
      if (funct3 dec =? 0x1) || (funct3 dec =? 0x5) then
        let rs1_reg := gpr g rs1 in
        let '(g, h) :=
          if rd =? 0 then (g, h)
          else let '(v, h) := masked_read e a h in (set_gpr g rd v, h) in
        let value_to_write := if funct3 dec =? 0x1 then rs1_reg else rs1 in
        h ← entry_write_back e a (Z.land value_to_write (wpri_mask e)) h;
        Ok (g, h)
      else if (funct3 dec =? 0x2) || (funct3 dec =? 0x6) then
        csr_modify e a (funct3 dec) 0x6 rd rs1 Z.lor g h
      else if (funct3 dec =? 0x3) || (funct3 dec =? 0x7) then
        csr_modify e a (funct3 dec) 0x7 rd rs1 (λ v c, Z.land v (w32 (Z.lnot c))) g h
      else not_reach
  end.

(** Its translator, which leaves the translation cache after each instruction. *)
Definition csr_instructions : template := mk_template "csr_instructions" (
  BEGIN_TRANSLATION ++
  [movq (Reg R12) RDI; movl (Param 0) (Reg RSI); movabs sym_riscv_generic_csr_callback RAX] ++
  SAVE_GUEST_CONTEXT_SWITCH_REGS ++
  [callq RAX] ++
  RESTORE_GUEST_CONTEXT_SWITCH_REGS ++
  RESET_ZERO_REGISTER ++
  PROCEED_TO_NEXT_INSTRUCTION ++
  TRAP_TO_VMM) 1.

Definition riscv_generic_csr_instructions_translator (TRANSLATION_SIZE : string → Z) (jumper_size : Z)
    (dec : decoding) (blob : prefetch_blob) (instruction : Z) (h : hart) : outcome (prefetch_blob * hart) :=
  let instruction_linear_address := next_instruction_to_fetch blob in
  PRECHECK_TRANSLATION_CACHE TRANSLATION_SIZE jumper_size csr_instructions blob h (λ blob h,
    h ← COMMIT_TRANSLATION TRANSLATION_SIZE jumper_size csr_instructions [instruction] h
          instruction_linear_address;
    Ok (stop_fetch blob, h)).

(** ** The CSR instructions of the manual

    [op] is 1 for write, 2 for set, 3 for clear; with bit 2 of funct3 the operand
    is the rs1 field itself.  A write with rd = x0 does not read, a set or clear
    with rs1 = x0 (or 0) does not write. *)
Definition csr_operand (f3 rs1 : Z) (g : guest) : Z := if 4 <=? f3 then rs1 else gpr g rs1.

Definition csr_new (op old v : Z) : Z :=
  if op =? 1 then v else if op =? 2 then Z.lor old v else Z.ldiff old v.

Definition csr_manual (e : csr_entry) (a f3 rd rs1 : Z) (g : guest) (h : csr_hart) : outcome (guest * csr_hart) :=
  let op := f3 mod 4 in
  let reads := negb ((op =? 1) && (rd =? 0)) in
  let writes := (op =? 1) || negb (rs1 =? 0) in
  let '(old, h1) := if reads then masked_read e a h else (0, h) in
  let g1 := if reads then set_gpr g rd old else g in
  h2 ← (if writes then entry_write_back e a (Z.land (csr_new op old (csr_operand f3 rs1 g)) (wpri_mask e)) h1
        else Ok h1);
  Ok (g1, h2).

Lemma clear_bits old c m : word32 m → Z.land (Z.land old m) (w32 (Z.lnot c)) = Z.ldiff (Z.land old m) c.
Proof.
  intros Hm. apply Z.bits_inj'. intros i Hi. unfold w32. rewrite Z.ldiff_spec, !Z.land_spec.
  destruct (Z.lt_ge_cases i 32).
  - by rewrite Z.mod_pow2_bits_low, Z.lnot_spec by lia.
  - apply word32_bits in Hm as [_ Hm]. by rewrite (Hm i), !andb_false_r by lia.
Qed.

Lemma csr_decode rd f3 rs1 a :
  0 <= rd < 32 → 0 <= f3 < 8 → 0 <= rs1 < 32 → 0 <= a < 4096 →
  Z.land (enc_I 0x73 rd f3 rs1 a) 0x7f = 0x73 ∧
  instruction_decoding_per_type (enc_I 0x73 rd f3 rs1 a) ENCODING_TYPE_I =
    Ok (mk_decoding ENCODING_TYPE_I 0x73 f3 rd rs1 0 0 a).
Proof.
  intros. rewrite decode_I by lia. rewrite (Z.mod_small a) by lia. split; [|done].
  unfold enc_I. change 0x7f with (Z.ones 7). rewrite Z.land_ones by lia. lia_div.
Qed.

Lemma masked_read_word e a h v h' : word32 (wpri_mask e) → masked_read e a h = (v, h') → Z.land v (wpri_mask e) = v.
Proof.
  intros _. unfold masked_read. destruct (match csr_read e with Some f => _ | None => _ end) as [x ?].
  intros [= <- _]. by rewrite <- Z.land_assoc, Z.land_diag.
Qed.

Lemma csr_callback_manual t e a f3 rd rs1 g h :
  t !! a = Some e → word32 (wpri_mask e) → 0 <= a < 4096 → 0 <= rd < 32 → 0 <= rs1 < 32 →
  f3 ∈ [1; 2; 3; 5; 6; 7] →
  riscv_generic_csr_callback t (enc_I 0x73 rd f3 rs1 a) g h = csr_manual e a f3 rd rs1 g h.
Proof.
  intros He Hm Ha Hrd Hrs Hf.
  assert (0 <= f3 < 8) as Hf8 by (repeat (apply elem_of_cons in Hf as [-> | Hf]; [lia|]); by apply elem_of_nil in Hf).
  destruct (csr_decode rd f3 rs1 a Hrd Hf8 Hrs Ha) as [Hop Hdec].
  unfold riscv_generic_csr_callback. rewrite Hop, Hdec. cbn [ASSERT Z.eqb Pos.eqb mbind outcome_bind imm rd_index rs1_index funct3].
  change 0xfff with (Z.ones 12). rewrite Z.land_ones, Z.mod_small, He by lia.
  unfold csr_manual, csr_modify, csr_operand.
  assert (Z.land rs1 0x1f = rs1) as Hr5 by (change 0x1f with (Z.ones 5); rewrite Z.land_ones, Z.mod_small by lia; done).
  rewrite Hr5.
  repeat (apply elem_of_cons in Hf as [-> | Hf]); [..|by apply elem_of_nil in Hf];
    cbn [Z.eqb Pos.eqb orb andb negb Z.modulo Z.div_eucl Z.pos_div_eucl Z.leb Z.compare Pos.compare Pos.compare_cont].
  all: destruct (masked_read e a h) as [v h1] eqn:Hv; destruct (Z.eqb_spec rs1 0), (Z.eqb_spec rd 0); try done.
  all: unfold csr_new; cbn [Z.eqb Pos.eqb]; rewrite <- (masked_read_word _ _ _ _ _ Hm Hv), clear_bits by done; done.
Qed.

(** ** The block of a CSR instruction *)

(** [riscv_generic_csr_callback] as a callee of the translated code. *)
Definition csr_call (t : gmap Z csr_entry) (i : Z) (g : guest) (h : csr_hart) : callres csr_hart :=
  match riscv_generic_csr_callback t i g h with
  | Ok (g, h) => Returns 0 g h
  | Err e => Dies e
  end.

(** The manual's instruction as a step of the hart. *)
Definition csr_step (e : csr_entry) (a f3 rd rs1 : Z) (g : guest) (h : csr_hart) : rvres csr_hart :=
  match csr_manual e a f3 rd rs1 g h with
  | Ok (g, h) => RvOk true (next (set_gpr g 0 0)) h
  | Err x => RvErr x
  end.

Section block.
Context `{HC : HostCalls csr_hart} {HCok : HostCallsOk csr_hart} (H : Z) (HH : hart_addr H).

Lemma csr_template_runs i (s : xstate csr_hart) :
  entry H s → wf_guest (hart_guest s) → x0_zero (hart_guest s) → hc_good (host s) →
  no_breakpoint (hart_guest s) (host s) → word32 i →
  agrees H s (exec H (code csr_instructions) [i] None s)
    (after_call (hc_call sym_riscv_generic_csr_callback [i] (hart_guest s) (host s)) (λ _ g w,
       RvOk true (next (set_gpr g 0 0)) w)).
Proof.
  intros He Hwf Hx0 Hgood [v Hv] Hi. unfold agrees. unfold csr_instructions, code.
  rewrite (exec_BEGIN _ _ _ s v He Hv); destruct s as [q fl st g w];
    cbn [hart_guest host] in Hwf, Hx0, Hgood, Hv |- *; clear He; unfold body_state;
    cbn [hart_guest host stack rf]; xrun.
  assert (@Ok (list Z) [w32 i] = Ok [i]) as Hargs by by rewrite w32_small.
  sim_call sym_riscv_generic_csr_callback [i]. xrun. sim_next. done.
Qed.

(** C26: the block of csrrw, csrrs, csrrc or an immediate form, run in a process
    whose [riscv_generic_csr_callback] is the one modelled, has the effect the
    manual gives the instruction on a valid CSR, for all registers, also when rd
    and rs1 are the same: the old value, masked, goes to rd; the new value,
    masked, is written; a read or write the manual excludes is not made; x0 stays
    zero, the pc advances by 4 and control leaves the translation cache. *)
Theorem csr_block_correct t e a f3 rd rs1 s :
  (∀ i g h, hc_call sym_riscv_generic_csr_callback [i] g h = csr_call t i g h) →
  entry H s → wf_guest (hart_guest s) → x0_zero (hart_guest s) → hc_good (host s) →
  no_breakpoint (hart_guest s) (host s) →
  t !! a = Some e → word32 (wpri_mask e) → 0 <= a < 4096 → 0 <= rd < 32 → 0 <= rs1 < 32 →
  f3 ∈ [1; 2; 3; 5; 6; 7] →
  agrees H s (exec H (code csr_instructions) [enc_I 0x73 rd f3 rs1 a] None s)
    (csr_step e a f3 rd rs1 (hart_guest s) (host s)).
Proof.
  intros Hc He Hwf Hx0 Hgood Hnb Ht Hm Ha Hrd Hrs Hf.
  assert (0 <= f3 < 8) as Hf8 by (repeat (apply elem_of_cons in Hf as [-> | Hf]; [lia|]); by apply elem_of_nil in Hf).
  pose proof (csr_template_runs (enc_I 0x73 rd f3 rs1 a) s He Hwf Hx0 Hgood Hnb) as Hrun.
  rewrite Hc in Hrun. unfold csr_call in Hrun.
  rewrite (csr_callback_manual t e a f3 rd rs1) in Hrun by done.
  unfold csr_step. destruct (csr_manual e a f3 rd rs1 _ _) as [[g h]|x]; apply Hrun; unfold word32, enc_I; rewrite Z.mod_small; lia.
Qed.

End block.

(** ** Bits of the views *)
Lemma b2z_testbit b i : 0 <= i → Z.testbit (Z.b2z b) i = b && (i =? 0).
Proof. intros Hi. destruct b; [|by rewrite Z.bits_0]. change (Z.b2z true) with (2 ^ 0). rewrite Z.pow2_bits_eqb by lia. by rewrite Z.eqb_sym. Qed.

Lemma at_bit_spec b n i : 0 <= n → 0 <= i → Z.testbit (at_bit b n) i = b && (i =? n).
Proof.
  intros Hn Hi. unfold at_bit. rewrite Z.shiftl_spec by done. destruct (Z.lt_ge_cases i n).
  - rewrite Z.testbit_neg_r by lia. destruct (Z.eqb_spec i n); [lia|]. by rewrite andb_false_r.
  - rewrite b2z_testbit by lia. f_equal. destruct (Z.eqb_spec i n), (Z.eqb_spec (i - n) 0); (done || lia).
Qed.

Lemma bit_field_spec v n : 0 <= n → bit_field v n = Z.testbit v n.
Proof.
  intros Hn. unfold bit_field. change 0x1 with (Z.ones 1). rewrite Z.land_ones by lia. change (2 ^ 1) with 2.
  rewrite <- Z.bit0_mod, Z.shiftr_spec, Z.add_0_l by lia. by destruct (Z.testbit v n).
Qed.

Lemma put_bit_spec w n b i : 0 <= n → 0 <= i → Z.testbit (put_bit w n b) i = if i =? n then b else Z.testbit w i.
Proof.
  intros Hn Hi. unfold put_bit. destruct b.
  - rewrite Z.setbit_eqb by done. rewrite Z.eqb_sym. by destruct (i =? n).
  - rewrite Z.clearbit_eqb. rewrite (Z.eqb_sym n). destruct (i =? n); simpl; [by rewrite andb_false_r|by rewrite andb_true_r].
Qed.

(** A field of [k] bits at [n], read from a value and put back. *)
Lemma span_spec v n k i : 0 <= n → 0 <= k → 0 <= i →
  Z.testbit (Z.shiftl (Z.land (Z.shiftr v n) (Z.ones k)) n) i = Z.testbit v i && (n <=? i) && (i <? n + k).
Proof.
  intros Hn Hk Hi. rewrite Z.shiftl_spec by done. destruct (Z.leb_spec n i).
  - rewrite Z.land_spec, Z.shiftr_spec, Z.testbit_ones_nonneg by lia.
    replace (i - n + n) with i by lia. rewrite andb_true_r. f_equal.
    destruct (Z.ltb_spec (i - n) k), (Z.ltb_spec i (n + k)); (done || lia).
  - rewrite Z.testbit_neg_r by lia. by rewrite andb_false_r.
Qed.

(** A narrow field put at [n]. *)
Lemma narrow_spec f k n i : 0 <= f < 2 ^ k → 0 <= n → 0 <= k → 0 <= i →
  Z.testbit (Z.shiftl f n) i = Z.testbit (Z.shiftl f n) i && (n <=? i) && (i <? n + k).
Proof.
  intros Hf Hn Hk Hi. rewrite <- (Z.mod_small f (2 ^ k)) at 1 by done.
  rewrite !Z.shiftl_spec by done. destruct (Z.leb_spec n i); [|by rewrite !Z.testbit_neg_r by lia].
  destruct (Z.ltb_spec i (n + k)); [rewrite Z.mod_pow2_bits_low by lia; by rewrite !andb_true_r|].
  rewrite Z.mod_pow2_bits_high by lia. by rewrite andb_false_r.
Qed.

(** The masks of the views. *)
Definition mask_of (ns : list Z) : Z := foldr (λ n m, Z.lor (at_bit true n) m) 0 ns.

Lemma mask_of_spec ns i : 0 <= i → Forall (λ n, 0 <= n) ns → Z.testbit (mask_of ns) i = existsb (Z.eqb i) ns.
Proof.
  intros Hi. induction 1 as [|n ns Hn _ IH]; simpl; [apply Z.bits_0|].
  by rewrite Z.lor_spec, at_bit_spec, IH by done.
Qed.

Definition status_ok (st : status_control_blob) : Prop := 0 <= spp st < 2 ∧ 0 <= mpp st < 4.

Definition mstatus (h : csr_hart) : Z := (csr_mstatus_read 0x300 h).1.

Lemma mstatus_bits h i :
  status_ok (status (ctl (mach h))) → 0 <= i →
  Z.testbit (mstatus h) i =
  let st := status (ctl (mach h)) in
  uie st && (i =? 0) || (sie st && (i =? 1) || (mie st && (i =? 3) || (upie st && (i =? 4) ||
    (spie st && (i =? 5) || (mpie st && (i =? 7) ||
      (Z.testbit (Z.shiftl (spp st) 8) i && (8 <=? i) && (i <? 8 + 1) ||
       Z.testbit (Z.shiftl (mpp st) 11) i && (11 <=? i) && (i <? 11 + 2))))))).
Proof.
  intros [Hs Hm] Hi. unfold mstatus, csr_mstatus_read. cbn [fst]. rewrite !Z.lor_spec, !at_bit_spec by lia.
  cbv zeta. by rewrite <- (narrow_spec (spp _) 1 8), <- (narrow_spec (mpp _) 2 11) by lia.
Qed.

Lemma sstatus_bits h i :
  status_ok (status (ctl (mach h))) → 0 <= i →
  Z.testbit (csr_sstatus_read 0x100 h).1 i =
  let st := status (ctl (mach h)) in
  uie st && (i =? 0) || (sie st && (i =? 1) || (upie st && (i =? 4) || (spie st && (i =? 5) ||
    Z.testbit (Z.shiftl (spp st) 8) i && (8 <=? i) && (i <? 8 + 1)))).
Proof.
  intros [Hs _] Hi. unfold csr_sstatus_read. cbn [fst]. rewrite !Z.lor_spec, !at_bit_spec by lia.
  cbv zeta. by rewrite <- (narrow_spec (spp _) 1 8) by lia.
Qed.

Lemma narrow_ok v n k : 0 <= k → 0 <= Z.land (Z.shiftr v n) (Z.ones k) < 2 ^ k.
Proof. intros Hk. rewrite Z.land_ones by done. apply Z.mod_pos_bound. lia. Qed.

(** Compare two words bit by bit, once their bits are rewritten to comparisons of
    the position. *)
Ltac bit_cases :=
  repeat match goal with
  | |- context [?a =? ?b] => destruct (Z.eqb_spec a b); try subst; try lia
  | |- context [?a <=? ?b] => destruct (Z.leb_spec a b); try lia
  | |- context [?a <? ?b] => destruct (Z.ltb_spec a b); try lia
  end; try reflexivity; btauto.

Ltac bit_side := solve [done | lia | repeat constructor; lia].

(** The supervisor's status and interrupt registers are views of the
    machine's.  Reading sstatus, sie or sip gives the bits of mstatus, mie or mip
    in their masks; writing them replaces exactly the writable bits; mip keeps
    the machine-level pending bits, which only devices may clear; and reading
    mstatus back after a write gives the written value in the implemented bits. *)
Theorem csr_views v h :
  status_ok (status (ctl (mach h))) →
  let st' f := match f with Ok h' => mstatus h' | Err _ => -1 end in
  let ie' f := match f with Ok h' => ienable (ctl (mach h')) | Err _ => -1 end in
  let ip' f := match f with Ok h' => ipending (ctl (mach h')) | Err _ => -1 end in
  (csr_sstatus_read 0x100 h).1 = Z.land (mstatus h) 0x133 ∧
  st' (csr_sstatus_write 0x100 v h) = Z.lor (Z.ldiff (mstatus h) 0x133) (Z.land v 0x133) ∧
  st' (csr_mstatus_write 0x300 v h) = Z.land v 0x19bb ∧
  (csr_sie_read 0x104 h).1 = Z.land (ienable (ctl (mach h))) 0x333 ∧
  ie' (csr_sie_write 0x104 v h) = Z.lor (Z.ldiff (ienable (ctl (mach h))) 0x222) (Z.land v 0x222) ∧
  (csr_sip_read 0x144 h).1 = Z.land (ipending (ctl (mach h))) 0x222 ∧
  ip' (csr_sip_write 0x144 v h) = Z.lor (Z.ldiff (ipending (ctl (mach h))) 0x2) (Z.land v 0x2) ∧
  Z.land (ip' (csr_mip_write 0x344 v h)) 0x888 = Z.land (ipending (ctl (mach h))) 0x888.
Proof.
  intros Hst st' ie' ip'. change 0x133 with (mask_of [0; 1; 4; 5; 8]).
  change 0x19bb with (mask_of [0; 1; 3; 4; 5; 7; 8; 11; 12]). change 0x333 with (mask_of [0; 1; 4; 5; 8; 9]).
  change 0x222 with (mask_of [1; 5; 9]). change 0x2 with (mask_of [1]). change 0x888 with (mask_of [3; 7; 11]).
  split_and!; apply Z.bits_inj'; intros i Hi.
  - rewrite Z.land_spec, sstatus_bits, mstatus_bits, mask_of_spec by bit_side.
    cbn [existsb]. cbv zeta. bit_cases.
  - unfold st', csr_sstatus_write. rewrite mstatus_bits by (done || (split; [apply (narrow_ok v 8 1); lia|apply Hst])).
    cbn [status ctl mach with_status set_ctl set_status uie sie mie upie spie mpie spp mpp]. cbv zeta.
    rewrite Z.lor_spec, Z.ldiff_spec, Z.land_spec, mstatus_bits, mask_of_spec by bit_side.
    change (Z.land (Z.shiftr v 8) 1) with (Z.land (Z.shiftr v 8) (Z.ones 1)). rewrite (span_spec v 8 1), !bit_field_spec by lia. cbn [existsb]. cbv zeta. bit_cases.
  - unfold st', csr_mstatus_write.
    rewrite mstatus_bits by (done || (split; [apply (narrow_ok v 8 1); lia|apply (narrow_ok v 11 2); lia])).
    cbn [status ctl mach with_status set_ctl set_status uie sie mie upie spie mpie spp mpp]. cbv zeta.
    rewrite Z.land_spec, mask_of_spec by bit_side. 
    change (Z.land (Z.shiftr v 8) 1) with (Z.land (Z.shiftr v 8) (Z.ones 1)).
    change (Z.land (Z.shiftr v 11) 3) with (Z.land (Z.shiftr v 11) (Z.ones 2)).
    rewrite (span_spec v 8 1), (span_spec v 11 2), !bit_field_spec by lia. cbn [existsb]. bit_cases.
  - unfold csr_sie_read, word_bit. cbn [fst]. rewrite !Z.lor_spec, Z.land_spec, !at_bit_spec, mask_of_spec by bit_side.
    cbn [existsb]. bit_cases.
  - unfold ie', csr_sie_write. cbn [ienable ctl mach with_ienable set_ctl].
    rewrite !put_bit_spec, !bit_field_spec, Z.lor_spec, Z.ldiff_spec, Z.land_spec, mask_of_spec by bit_side.
    cbn [existsb]. bit_cases.
  - unfold csr_sip_read, word_bit. cbn [fst]. rewrite !Z.lor_spec, Z.land_spec, !at_bit_spec, mask_of_spec by bit_side.
    cbn [existsb]. bit_cases.
  - unfold ip', csr_sip_write. cbn [ipending ctl mach with_ipending set_ctl].
    rewrite !put_bit_spec, !bit_field_spec, Z.lor_spec, Z.ldiff_spec, Z.land_spec, mask_of_spec by bit_side.
    cbn [existsb]. bit_cases.
  - unfold ip', csr_mip_write. change 0x888 with (mask_of [3; 7; 11]). cbn [ipending ctl mach with_ipending set_ctl].
    rewrite !Z.land_spec, Z.lor_spec, !Z.land_spec.
    assert (Z.testbit (mask_of [3; 7; 11]) i = true → Z.testbit (w32 (Z.lnot (mask_of [3; 7; 11]))) i = false) as Hoff.
    { rewrite mask_of_spec by bit_side. cbn [existsb]. rewrite !orb_true_iff, !Z.eqb_eq.
      intros [-> | [-> | [-> | Hf]]]; [reflexivity..|done]. }
    destruct (Z.testbit (mask_of [3; 7; 11]) i); [|by rewrite !andb_false_r].
    rewrite Hoff by done. btauto.
Qed.

(** ** Widths *)

(** Every field of the hart that a CSR shows fits its C type. *)
Record csr_ok (h : csr_hart) : Prop := {
  ck_blob : ∀ a, word32 (csr_blob (ctl (mach h)) a);
  ck_deleg : word32 (idelegation (ctl (mach h)));
  ck_enable : word32 (ienable (ctl (mach h)));
  ck_pending : word32 (ipending (ctl (mach h)));
  ck_status : status_ok (status (ctl (mach h)));
  ck_id : word32 (hart_id h);
  ck_tlbs : Z.of_nat (length (itlb (mach h))) = itlb_cap (mach h) ∧
            Z.of_nat (length (dtlb (mach h))) = dtlb_cap (mach h);
}.

(** A callback keeps the widths. *)
Definition entry_typed (e : csr_entry) : Prop :=
  word32 (wpri_mask e) ∧
  (∀ f a h v h', csr_read e = Some f → csr_ok h → f a h = (v, h') → word32 v ∧ csr_ok h') ∧
  (∀ f a v h, csr_write e = Some f → csr_ok h → word32 v → ∃ h', f a v h = Ok h' ∧ csr_ok h') ∧
  (∀ f a h, csr_reset e = Some f → csr_ok h → csr_ok (f a h)).

Lemma word32_mask z m : 0 <= m < 2 ^ 32 → word32 (Z.land z m).
Proof.
  intros Hm. apply word32_bits. split; [apply Z.land_nonneg; lia|]. intros i Hi.
  rewrite Z.land_spec. assert (word32 m) as Hw by done. apply word32_bits in Hw as [_ Hw].
  by rewrite Hw, andb_false_r.
Qed.

Lemma blob_write_ok a v h : csr_ok h → word32 v → ∃ h', blob_write a v h = Ok h' ∧ csr_ok h'.
Proof.
  intros [] Hv. eexists. split; [done|]. split; try done. intros b. cbn [ctl mach set_ctl].
  rewrite csr_set. by case_decide.
Qed.

Lemma blob_reset_ok v a h : csr_ok h → word32 v → csr_ok (blob_reset v a h).
Proof. intros Hok Hv. by destruct (blob_write_ok a v h Hok Hv) as (h' & [= <-] & Hok'). Qed.

Lemma blob_read_ok a h v h' : csr_ok h → blob_read a h = (v, h') → word32 v ∧ csr_ok h'.
Proof. intros Hok [= <- <-]. split; [apply Hok|done]. Qed.

Lemma with_status_ok h st : csr_ok h → status_ok st → csr_ok (with_status h st).
Proof. by intros [] ?; split. Qed.

Lemma with_ienable_ok h v : csr_ok h → word32 v → csr_ok (with_ienable h v).
Proof. by intros [] ?; split. Qed.

Lemma with_ipending_ok h v : csr_ok h → word32 v → csr_ok (with_ipending h v).
Proof. by intros [] ?; split. Qed.

Lemma with_idelegation_ok h v : csr_ok h → word32 v → csr_ok (with_idelegation h v).
Proof. by intros [] ?; split. Qed.

Lemma at_bit_word b n : 0 <= n < 32 → word32 (at_bit b n).
Proof.
  intros Hn. apply word32_bits. split; [unfold at_bit; apply Z.shiftl_nonneg; by destruct b|].
  intros i Hi. rewrite at_bit_spec by lia. destruct (Z.eqb_spec i n); [lia|]. apply andb_false_r.
Qed.

Lemma put_bit_word w n b : word32 w → 0 <= n < 32 → word32 (put_bit w n b).
Proof.
  intros [Hw Hb]%word32_bits Hn. apply word32_bits. split.
  - unfold put_bit. destruct b; [apply Z.lor_nonneg; split; [done|by apply Z.shiftl_nonneg]|by apply Z.ldiff_nonneg; left].
  - intros i Hi. rewrite put_bit_spec by lia. destruct (Z.eqb_spec i n); [lia|]. by apply Hb.
Qed.

Lemma shift_field_word f n : 0 <= f < 4 → 0 <= n < 30 → word32 (Z.shiftl f n).
Proof.
  intros Hf Hn. unfold word32. rewrite Z.shiftl_mul_pow2 by lia.
  assert (0 < 2 ^ n) by lia. assert (2 ^ n <= 2 ^ 29) by (apply Z.pow_le_mono_r; lia).
  change (2 ^ 29) with 536870912 in *. change (2 ^ 32) with 4294967296. nia.
Qed.

(** Split an [entry_typed] goal and name what its callbacks get. *)
Ltac typed_entry :=
  split_and!; [vm_compute; intuition congruence
              |intros f a h v h' [= <-] Hok; intros [= <- <-]; split; [|done]
              |intros f a v h [= <-] Hok Hv; (eexists; split; [reflexivity|])
              |intros f a h [= <-] Hok; try (by apply blob_reset_ok)].

Lemma blob_entry_typed a m : word32 m → entry_typed (blob_entry a m).
Proof.
  intros Hm. split_and!; [done| | |].
  - intros f b h v h' [= <-] Hok Hf. by eapply blob_read_ok.
  - intros f b v h [= <-] Hok Hv. by apply blob_write_ok.
  - intros f b h [= <-] Hok. by apply blob_reset_ok.
Qed.

Lemma word_bit_word w n : 0 <= n < 32 → word32 (word_bit w n).
Proof. apply at_bit_word. Qed.

Ltac union_word :=
  repeat match goal with |- word32 (Z.lor _ _) => apply word32_lor end;
  first [apply word_bit_word; lia|apply at_bit_word; lia|apply shift_field_word; lia].

Lemma mstatus_typed : entry_typed mstatus_csr_entry.
Proof.
  typed_entry.
  - destruct (ck_status _ Hok) as [Hs Hm]. union_word.
  - apply with_status_ok; [done|]. split; [apply (narrow_ok v 8 1)|apply (narrow_ok v 11 2)]; lia.
Qed.

Lemma sstatus_typed : entry_typed sstatus_csr_entry.
Proof.
  typed_entry.
  - destruct (ck_status _ Hok) as [Hs Hm]. union_word.
  - apply with_status_ok; [done|]. destruct (ck_status _ Hok). split; [apply (narrow_ok v 8 1); lia|done].
Qed.

Lemma mie_typed : entry_typed mie_csr_entry.
Proof. typed_entry; [apply Hok|by apply with_ienable_ok..]. Qed.

Lemma mip_typed : entry_typed mip_csr_entry.
Proof. typed_entry; [apply Hok| |by apply with_ipending_ok]. apply with_ipending_ok; [done|]. by apply word32_lor; apply word32_mask. Qed.

Lemma mideleg_typed : entry_typed mideleg_csr_entry.
Proof. typed_entry; [apply Hok|by apply with_idelegation_ok..]. Qed.

Lemma sie_typed : entry_typed sie_csr_entry.
Proof.
  typed_entry; [union_word|]. apply with_ienable_ok; [done|].
  repeat (apply put_bit_word; [|lia]). apply Hok.
Qed.

Lemma sip_typed : entry_typed sip_csr_entry.
Proof. typed_entry; [union_word|]. apply with_ipending_ok; [done|]. apply put_bit_word; [apply Hok|lia]. Qed.

Lemma satp_typed : entry_typed satp_csr_entry.
Proof.
  split_and!; [done|intros f a h v h' [= <-]; apply blob_read_ok| |intros f a h [= <-] Hok; by apply blob_reset_ok].
  intros f a v h [= <-] Hok Hv. unfold csr_satp_write.
  destruct (blob_write_ok a v h Hok Hv) as (h1 & -> & [? ? ? ? ? ? [Hi Hd]]). cbn [mbind outcome_bind].
  rewrite (invalidate_tlb_spec _ _ Hi), (invalidate_tlb_spec _ _ Hd). cbn [mbind outcome_bind].
  eexists. split; [done|]. split; try done. cbn [mach itlb dtlb itlb_cap dtlb_cap]. by rewrite !length_fmap.
Qed.

(** Registers whose writes are ignored, or that have no write callback. *)
Lemma constant_entries_typed now :
  Forall entry_typed [misa_csr_entry; mvendorid_csr_entry; mhartid_csr_entry; mscratch_csr_entry;
                      time_csr_entry now; timeh_csr_entry].
Proof.
  repeat apply Forall_cons_2; [..|apply Forall_nil_2].
  - typed_entry; [apply Hok|done].
  - typed_entry; apply Hok.
  - typed_entry; apply Hok.
  - typed_entry; [apply Hok|]. by apply blob_reset_ok.
  - split_and!; [done| |intros f a v h [= <-] Hok Hv; by eexists|done].
    intros f a h v h' [= <-] [] [= <- <-]. split; [apply w32_word|by split].
  - typed_entry; [apply w32_word|done].
Qed.

Lemma all_entries_typed now : Forall entry_typed (all_entries now).
Proof.
  pose proof (constant_entries_typed now) as Hc. rewrite !Forall_cons in Hc. destruct Hc as (? & ? & ? & ? & ? & ? & _).
  unfold all_entries, csr_machine_level_entries, csr_pmp_entries, csr_supervisor_level_entries.
  repeat apply Forall_app_2; try (apply Forall_fmap, Forall_forall; intros i _; by apply blob_entry_typed);
    repeat apply Forall_cons_2; try apply Forall_nil_2; try done;
    first [by apply blob_entry_typed | apply mie_typed | apply mip_typed | apply mideleg_typed | apply mstatus_typed
          | apply satp_typed | apply sie_typed | apply sip_typed | apply sstatus_typed].
Qed.

Lemma masked_read_typed e a h v h' :
  entry_typed e → csr_ok h → masked_read e a h = (v, h') → word32 v ∧ csr_ok h'.
Proof.
  intros (Hm & Hr & _ & _) Hok. unfold masked_read. destruct (csr_read e) as [f|].
  - destruct (f a h) as [x h1] eqn:Hf. intros [= <- <-]. destruct (Hr f a h x h1) as [Hx ?]; [done..|].
    split; [by apply word32_mask|done].
  - intros [= <- <-]. split; [by apply word32_mask|done].
Qed.

Lemma entry_write_back_typed e a v h :
  entry_typed e → csr_ok h → word32 v → ∃ h', entry_write_back e a v h = Ok h' ∧ csr_ok h'.
Proof. intros (_ & _ & Hw & _) Hok Hv. unfold entry_write_back. destruct (csr_write e); [by eapply Hw|by exists h]. Qed.

Lemma csr_new_word op old v : word32 old → word32 v → word32 (csr_new op old v).
Proof.
  intros Ho Hv. unfold csr_new. destruct (op =? 1), (op =? 2); [done..|by apply word32_lor|].
  apply word32_bits in Ho as [Ho Hb]. apply word32_bits. split; [apply Z.ldiff_nonneg; by left|].
  intros i Hi. by rewrite Z.ldiff_spec, Hb.
Qed.

Lemma csr_operand_word f3 rs1 g : wf_guest g → 0 <= rs1 < 32 → word32 (csr_operand f3 rs1 g).
Proof. intros Hg Hrs. unfold csr_operand. destruct (4 <=? f3); [unfold word32; lia|by apply gpr_word]. Qed.

(** The manual's instruction on a typed entry. *)
Lemma csr_manual_typed e a f3 rd rs1 g h :
  entry_typed e → csr_ok h → wf_guest g → 0 <= rs1 < 32 →
  ∃ g' h', csr_manual e a f3 rd rs1 g h = Ok (g', h') ∧ csr_ok h' ∧ wf_guest g'.
Proof.
  intros He Hok Hg Hrs. unfold csr_manual.
  assert (word32 (csr_operand f3 rs1 g)) as Hop by by apply csr_operand_word.
  set (reads := negb _). set (writes := orb _ _).
  assert (∃ old h1, (if reads then masked_read e a h else (0, h)) = (old, h1) ∧ word32 old ∧ csr_ok h1)
    as (old & h1 & -> & Hold & Hok1).
  { destruct reads; [|by exists 0, h]. destruct (masked_read e a h) as [v h1] eqn:Hr.
    exists v, h1. split; [done|]. by eapply masked_read_typed. }
  assert (wf_guest (if reads then set_gpr g rd old else g)) as Hg' by (destruct reads; [by apply set_gpr_wf|done]).
  destruct writes; [|by eexists _, h1].
  edestruct (entry_write_back_typed e a) as (h2 & -> & Hok2); [done|exact Hok1| |by eexists _, h2].
  apply word32_mask, He.
Qed.

(** ** The register file

    What the CSRs show: a cell per stored value, and per address the cell it shows,
    the bits of it that are read, the bits a write replaces, and among these the
    ones that take the written value (the others become 0). *)
Inductive cell := Blob (a : Z) | Status | Enable | Pending | Delegation | HartId | Now | High.

#[global] Instance cell_eq_dec : EqDecision cell.
Proof. solve_decision. Defined.

Definition content (now : Z) (h : csr_hart) (c : cell) : Z :=
  let k := ctl (mach h) in
  match c with
  | Blob a => csr_blob k a
  | Status => mstatus h
  | Enable => ienable k
  | Pending => ipending k
  | Delegation => idelegation k
  | HartId => hart_id h
  | Now => now
  | High => Z.shiftr (tsc h) 32
  end.

Record view := mk_view { shown : cell; visible : Z; replaced : Z; kept : Z }.

Definition WORD : Z := 0xffffffff.

Definition csr_view (a : Z) : view :=
  if a =? 0x300 then mk_view Status 0x19aa 0x19bb 0x19aa
  else if a =? 0x100 then mk_view Status 0x133 0x133 0x133
  else if a =? 0x304 then mk_view Enable 0xaaa WORD 0xaaa
  else if a =? 0x104 then mk_view Enable 0x222 0x222 0x222
  else if a =? 0x344 then mk_view Pending 0xaaa 0xfffff777 0x222
  else if a =? 0x144 then mk_view Pending 0x222 0x2 0x2
  else if a =? 0x303 then mk_view Delegation 0x222 WORD 0x222
  else if a =? 0x302 then mk_view (Blob a) 0xfffff7ff WORD 0xfffff7ff
  else if a =? 0x305 then mk_view (Blob a) 0xfffffffd WORD 0xfffffffd
  else if a =? 0xf14 then mk_view HartId WORD 0 0
  else if a =? 0xC01 then mk_view Now WORD 0 0
  else if a =? 0xC81 then mk_view High WORD 0 0
  else if (a =? 0x301) || (a =? 0xf11) then mk_view (Blob a) WORD 0 0
  else mk_view (Blob a) WORD WORD WORD.

(** The value a read gives, and a cell after a write of [v]. *)
Definition seen (now a : Z) (h : csr_hart) : Z := Z.land (content now h (shown (csr_view a))) (visible (csr_view a)).

Definition stored (a v old : Z) : Z := Z.lor (Z.ldiff old (replaced (csr_view a))) (Z.land v (kept (csr_view a))).

(** What is not a cell: only a write of satp touches it. *)
Definition beside (flushed : bool) (h h' : csr_hart) : Prop :=
  let m := mach h in let m' := mach h' in
  mem m' = mem m ∧ privilege_level (ctl m') = privilege_level (ctl m) ∧
  itlb_cap m' = itlb_cap m ∧ dtlb_cap m' = dtlb_cap m ∧
  if flushed then
    tcache m' = flush_translation_cache (tcache m) ∧
    itlb m' = invalidated <$> itlb m ∧ dtlb m' = invalidated <$> dtlb m
  else tcache m' = tcache m ∧ itlb m' = itlb m ∧ dtlb m' = dtlb m.

(** Reading time also notes the time stamp, whose upper half timeh shows. *)
Definition noted (now a : Z) (h : csr_hart) : csr_hart :=
  if a =? 0xC01 then mk_csr_hart (mach h) (hart_id h) now else h.

(** An entry does what the view of its address says. *)
Record meets (now : Z) (e : csr_entry) : Prop := {
  mt_read : ∀ h, csr_ok h → masked_read e (csr_addr e) h = (seen now (csr_addr e) h, noted now (csr_addr e) h);
  mt_write : ∀ v h, csr_ok h → word32 v →
    ∃ h', entry_write_back e (csr_addr e) (Z.land v (wpri_mask e)) h = Ok h' ∧
      (∀ c, content now h' c = if decide (c = shown (csr_view (csr_addr e)))
                               then stored (csr_addr e) v (content now h c) else content now h c) ∧
      tsc h' = tsc h ∧ beside (bool_decide (csr_addr e = CSR_ADDRESS_SATP)) h h'
}.

Lemma land_word x : Z.land x WORD = w32 x.
Proof. change WORD with (Z.ones 32). by rewrite Z.land_ones. Qed.

Lemma land_word_small x : word32 x → Z.land x WORD = x.
Proof. intros Hx. rewrite land_word. by apply w32_small. Qed.

Lemma ldiff_word x : word32 x → Z.ldiff x WORD = 0.
Proof. intros Hx. change WORD with (Z.ones 32). rewrite Z.ldiff_ones_r by done. by rewrite Z.shiftr_div_pow2, Z.div_small. Qed.

(** A write that replaces the whole word. *)
Lemma stored_word a v old m :
  replaced (csr_view a) = WORD → kept (csr_view a) = m → word32 old → stored a v old = Z.land v m.
Proof. intros Hr Hk Ho. unfold stored. by rewrite Hr, Hk, ldiff_word. Qed.

(** A read-only register. *)
Lemma stored_none a v old : replaced (csr_view a) = 0 → kept (csr_view a) = 0 → stored a v old = old.
Proof. intros Hr Hk. unfold stored. by rewrite Hr, Hk, Z.ldiff_0_r, Z.land_0_r, Z.lor_0_r. Qed.

Lemma beside_same h : beside false h h.
Proof. by split_and!. Qed.

Lemma blob_write_content now a v h c :
  content now (set_ctl h (set_csr (ctl (mach h)) a v)) c = if decide (c = Blob a) then v else content now h c.
Proof.
  destruct c; try done. cbn [content mach ctl set_ctl]. rewrite csr_set.
  destruct (decide (a = a0)) as [-> | Hne]; [by rewrite decide_True|]. by rewrite decide_False by congruence.
Qed.

Lemma blob_meets now e m :
  csr_write e = Some blob_write → csr_read e = Some blob_read → wpri_mask e = m →
  csr_view (csr_addr e) = mk_view (Blob (csr_addr e)) m WORD m →
  csr_addr e ≠ 0xC01 → csr_addr e ≠ CSR_ADDRESS_SATP → meets now e.
Proof.
  intros Hw Hr Hm Hv Ht Hs. split.
  - intros h _. unfold masked_read, seen, noted. rewrite Hr, Hm, Hv. by destruct (Z.eqb_spec (csr_addr e) 0xC01).
  - intros v h Hok Hwv. unfold entry_write_back. rewrite Hw, Hm. eexists. split; [done|].
    rewrite bool_decide_false by done. split; [|by split_and!]. intros c. rewrite blob_write_content, Hv. cbn [shown].
    case_decide as Hc; [|done]. subst c. rewrite (stored_word _ _ _ m); [done|by rewrite Hv..|apply Hok].
Qed.

(** Registers whose writes change nothing. *)
Lemma constant_meets now e :
  (∀ v h, entry_write_back e (csr_addr e) v h = Ok h) →
  replaced (csr_view (csr_addr e)) = 0 → kept (csr_view (csr_addr e)) = 0 → csr_addr e ≠ CSR_ADDRESS_SATP →
  (∀ h, csr_ok h → masked_read e (csr_addr e) h = (seen now (csr_addr e) h, noted now (csr_addr e) h)) → meets now e.
Proof.
  intros Hw Hr Hk Hs Hrd. split; [done|]. intros v h _ _. rewrite Hw. exists h. split; [done|].
  rewrite bool_decide_false by done. split; [|by split; [|apply beside_same]].
  intros c. rewrite stored_none by done. by case_decide.
Qed.

Lemma constants_meet now :
  Forall (meets now) [misa_csr_entry; mvendorid_csr_entry; mhartid_csr_entry; time_csr_entry now; timeh_csr_entry].
Proof.
  repeat apply Forall_cons_2; [..|apply Forall_nil_2]; apply constant_meets; try done;
    intros h _; unfold masked_read, seen, noted; cbn -[Z.land w32 Z.shiftr]; try done;
    change WPRI_MASK_ALL with WORD; by rewrite ?land_word, ?w32_idem.
Qed.

Lemma satp_meets now : meets now satp_csr_entry.
Proof.
  split; [done|]. intros v h [Hb ? ? ? ? ? [Hi Hd]] Hv. cbn [entry_write_back satp_csr_entry csr_write].
  unfold csr_satp_write, blob_write. cbn [mbind outcome_bind]. cbn [mach set_ctl itlb dtlb itlb_cap dtlb_cap].
  rewrite (invalidate_tlb_spec _ _ Hi), (invalidate_tlb_spec _ _ Hd). cbn [mbind outcome_bind].
  eexists. split; [done|]. split; [|by split_and!]. intros c. etrans; [apply (blob_write_content now CSR_ADDRESS_SATP)|].
  cbn [wpri_mask satp_csr_entry csr_addr]. change (shown (csr_view CSR_ADDRESS_SATP)) with (Blob CSR_ADDRESS_SATP).
  case_decide as Hc; [|done]. subst c. rewrite (stored_word _ _ _ WORD); [done|done|done|apply Hb].
Qed.

(** The registers that show fields of the hart. *)
Lemma field_meets now e f r :
  csr_write e = Some f → csr_read e = Some r → csr_addr e ≠ 0xC01 → csr_addr e ≠ CSR_ADDRESS_SATP →
  (∀ h, csr_ok h → r (csr_addr e) h = ((r (csr_addr e) h).1, h) ∧
     Z.land (r (csr_addr e) h).1 (wpri_mask e) = seen now (csr_addr e) h) →
  (∀ v h, csr_ok h → word32 v → ∃ h', f (csr_addr e) (Z.land v (wpri_mask e)) h = Ok h' ∧ tsc h' = tsc h ∧
     beside false h h' ∧ content now h' (shown (csr_view (csr_addr e))) =
       stored (csr_addr e) v (content now h (shown (csr_view (csr_addr e)))) ∧
     ∀ c, c ≠ shown (csr_view (csr_addr e)) → content now h' c = content now h c) →
  meets now e.
Proof.
  intros Hf Hr Ht Hs Hread Hwrite. split.
  - intros h Hok. unfold masked_read, noted. rewrite Hr. destruct (Hread h Hok) as [-> <-]. cbn [fst].
    by destruct (Z.eqb_spec (csr_addr e) 0xC01).
  - intros v h Hok Hv. unfold entry_write_back. rewrite Hf. destruct (Hwrite v h Hok Hv) as (h' & -> & Ht' & Hb & Hc & Ho).
    exists h'. split; [done|]. rewrite bool_decide_false by done. split; [|done]. intros c. case_decide as Hd; [by subst|by apply Ho].
Qed.

Lemma within_mstatus h : status_ok (status (ctl (mach h))) → Z.ldiff (mstatus h) 0x19bb = 0.
Proof.
  intros Hst. apply Z.bits_inj'. intros i Hi. change 0x19bb with (mask_of [0; 1; 3; 4; 5; 7; 8; 11; 12]).
  rewrite Z.ldiff_spec, mstatus_bits, mask_of_spec, Z.bits_0 by bit_side. cbn [existsb]. cbv zeta. bit_cases.
Qed.

Lemma pending_kept p : word32 p → Z.land p 0x888 = Z.ldiff p 0xfffff777.
Proof.
  intros Hp. apply Z.bits_inj'. intros i Hi. rewrite Z.land_spec, Z.ldiff_spec.
  destruct (Z.lt_ge_cases i 32) as [Hl | Hg]; [|by rewrite (proj2 (proj1 (word32_bits p) Hp)) by lia].
  f_equal. change 0xfffff777 with (Z.lxor 0x888 (Z.ones 32)). rewrite Z.lxor_spec, Z.testbit_ones_nonneg by lia.
  destruct (Z.ltb_spec i 32); [|lia]. by destruct (Z.testbit 0x888 i).
Qed.

(** The cells other than the one written are not touched. *)
Ltac other_cells := intros [] Hc; first [reflexivity | by destruct Hc].

Ltac land_masks := rewrite <- ?Z.land_assoc; reflexivity.

Lemma masked_view x y m n : x = Z.land y n → Z.land n m = m → Z.land x m = Z.land y m.
Proof. intros -> Hm. by rewrite <- Z.land_assoc, Hm. Qed.

Lemma fields_meet now :
  Forall (meets now) [mie_csr_entry; mip_csr_entry; mideleg_csr_entry; mstatus_csr_entry;
                      sie_csr_entry; sip_csr_entry; sstatus_csr_entry].
Proof.
  repeat apply Forall_cons_2; [..|apply Forall_nil_2];
    (eapply field_meets; [done..| |]; [intros h Hok; split; [done|]|intros v h Hok Hv; eexists; split; [done|];
       split; [done|]; split; [by split_and!|]; split; [|other_cells]]).
  - done.
  - symmetry. apply stored_word; [done|done|apply Hok].
  - done.
  - unfold stored. cbn -[Z.land Z.lor Z.ldiff w32]. rewrite pending_kept, Z.lor_comm by apply Hok. f_equal. land_masks.
  - done.
  - symmetry. apply stored_word; [done|done|apply Hok].
  - done.
  - destruct (csr_views (Z.land v 0x19aa) h (ck_status _ Hok)) as (_ & _ & Hm & _). etrans; [exact Hm|].
    unfold stored. cbn -[Z.land Z.lor Z.ldiff mstatus].
    rewrite within_mstatus by apply Hok. land_masks.
  - destruct (csr_views 0 h (ck_status _ Hok)) as (_ & _ & _ & Hm & _). by apply (masked_view _ _ _ _ Hm).
  - destruct (csr_views (Z.land v 0x222) h (ck_status _ Hok)) as (_ & _ & _ & _ & Hm & _). etrans; [exact Hm|].
    unfold stored. f_equal. land_masks.
  - destruct (csr_views 0 h (ck_status _ Hok)) as (_ & _ & _ & _ & _ & Hm & _). by apply (masked_view _ _ _ _ Hm).
  - destruct (csr_views (Z.land v 0x222) h (ck_status _ Hok)) as (_ & _ & _ & _ & _ & _ & Hm & _). etrans; [exact Hm|].
    unfold stored. f_equal. land_masks.
  - destruct (csr_views 0 h (ck_status _ Hok)) as (Hm & _). by apply (masked_view _ _ _ _ Hm).
  - destruct (csr_views (Z.land v 0x133) h (ck_status _ Hok)) as (_ & Hm & _). etrans; [exact Hm|].
    unfold stored. f_equal. land_masks.
Qed.

Lemma all_entries_meet now : Forall (meets now) (all_entries now).
Proof.
  pose proof (constants_meet now) as Hc. pose proof (fields_meet now) as Hf. pose proof (satp_meets now) as Hs.
  rewrite !Forall_cons in Hc. rewrite !Forall_cons in Hf. destruct Hc as (? & ? & ? & ? & ? & _), Hf as (? & ? & ? & ? & ? & ? & ? & _).
  unfold all_entries, csr_machine_level_entries, csr_pmp_entries, csr_supervisor_level_entries. cbn [fmap list_fmap app].
  repeat (apply Forall_cons_2; [first [assumption | by eapply blob_meets]|]). apply Forall_nil_2.
Qed.

(** ** The registry

    The address whose registration resets a cell, and its value then. *)
Definition owner (c : cell) : option Z :=
  match c with
  | Blob a => Some a
  | Enable => Some 0x304
  | Pending => Some 0x344
  | Delegation => Some 0x303
  | _ => None
  end.

Definition reset_value (c : cell) : Z :=
  if decide (c = Blob 0x301) then 0x40141101 else if decide (c = Blob 0xf11) then 0x60a else 0.

Definition registered_reset (e : csr_entry) (h : csr_hart) : csr_hart :=
  let h := set_ctl h (set_csr (ctl (mach h)) (csr_addr e) 0) in
  match csr_reset e with Some f => f (csr_addr e) h | None => h end.

Definition resets (now : Z) (e : csr_entry) : Prop :=
  ∀ h, tsc (registered_reset e h) = tsc h ∧ beside false h (registered_reset e h) ∧
    ∀ c, content now (registered_reset e h) c =
         if decide (owner c = Some (csr_addr e)) then reset_value c else content now h c.

Lemma blob_resets now e v :
  csr_reset e = None ∧ v = 0 ∨ csr_reset e = Some (blob_reset v) → reset_value (Blob (csr_addr e)) = v →
  csr_addr e ∉ [0x303; 0x304; 0x344] → resets now e.
Proof.
  intros He Hv Ha h. unfold registered_reset.
  assert (∀ c, owner c = Some (csr_addr e) ↔ c = Blob (csr_addr e)) as Ho.
  { intros c. split; [|by intros ->]. destruct c; simpl; intros [=]; try congruence; set_solver. }
  destruct He as [[-> ->] | ->]; (split; [done|]; split; [by split_and!|]); intros c; rewrite (decide_ext _ _ _ _ (Ho c)).
  - rewrite blob_write_content. by case_decide; subst.
  - unfold blob_reset. rewrite !blob_write_content. by repeat case_decide; subst.
Qed.

Lemma field_resets now : Forall (resets now) [mie_csr_entry; mip_csr_entry; mideleg_csr_entry].
Proof.
  repeat apply Forall_cons_2; [..|apply Forall_nil_2]; intros h; (split; [done|]; split; [by split_and!|]);
    intros [a| | | | | | |]; try done; cbn [owner]; etrans; try apply (blob_write_content now _ 0 h (Blob a));
    repeat case_decide; simplify_eq/=; try done; congruence.
Qed.

Lemma all_entries_reset now : Forall (resets now) (all_entries now).
Proof.
  pose proof (field_resets now) as Hf. rewrite !Forall_cons in Hf. destruct Hf as (? & ? & ? & _).
  unfold all_entries, csr_machine_level_entries, csr_pmp_entries, csr_supervisor_level_entries. cbn [fmap list_fmap app].
  repeat (apply Forall_cons_2; [first [assumption
    | eapply blob_resets; [right; reflexivity|reflexivity|vm_compute; set_solver]
    | eapply blob_resets; [by left|reflexivity|vm_compute; set_solver]]|]). apply Forall_nil_2.
Qed.

Lemma all_entries_addr now : Forall (λ e, 0 <= csr_addr e < 4096) (all_entries now).
Proof. apply Forall_forall. intros e He. unfold all_entries in He. cbn in He. repeat (apply elem_of_cons in He as [-> | He]; [done|]). by apply elem_of_nil in He. Qed.

Lemma beside_trans h1 h2 h3 : beside false h1 h2 → beside false h2 h3 → beside false h1 h3.
Proof. intros (? & ? & ? & ? & ? & ? & ?) (? & ? & ? & ? & ? & ? & ?). split_and!; congruence. Qed.

(** What the registry needs of an entry. *)
Record sound (now : Z) (e : csr_entry) : Prop := {
  sd_addr : 0 <= csr_addr e < 4096;
  sd_typed : entry_typed e;
  sd_meets : meets now e;
  sd_resets : resets now e
}.

Lemma all_entries_sound now : Forall (sound now) (all_entries now).
Proof.
  pose proof (all_entries_addr now) as Ha. pose proof (all_entries_typed now) as Ht.
  pose proof (all_entries_meet now) as Hm. pose proof (all_entries_reset now) as Hr.
  rewrite Forall_forall in Ha, Ht, Hm, Hr. apply Forall_forall. intros e He. split; auto.
Qed.

(** A 12-bit address passes the assertion and the mask. *)
Lemma csr_addr_bits a : 0 <= a < 4096 → Z.land a 0xfffff000 = 0 ∧ Z.land a 0xfff = a.
Proof.
  intros Ha. split; [|change 0xfff with (Z.ones 12); by rewrite Z.land_ones, Z.mod_small by lia].
  apply Z.bits_inj'. intros i Hi. rewrite Z.land_spec, Z.bits_0. destruct (Z.lt_ge_cases i 12).
  - change 0xfffff000 with (Z.shiftl 0xfffff 12). by rewrite Z.shiftl_spec_low, andb_false_r by lia.
  - rewrite <- (Z.mod_small a (2 ^ 12)) by lia. by rewrite Z.mod_pow2_bits_high by lia.
Qed.

Lemma registered_reset_ok e h : entry_typed e → csr_ok h → csr_ok (registered_reset e h).
Proof.
  intros (_ & _ & _ & Hre) Hok. unfold registered_reset.
  assert (csr_ok (blob_reset 0 (csr_addr e) h)) as Hok0 by (by apply blob_reset_ok).
  destruct (csr_reset e) as [f|] eqn:Hf; [by apply (Hre f)|exact Hok0].
Qed.

Lemma csr_registery_init_sound now l t h :
  Forall (sound now) l → csr_ok h → map_Forall (λ a e, a = csr_addr e ∧ sound now e) t →
  ∃ t' h', csr_registery_init l t h = Ok (t', h') ∧ csr_ok h' ∧ map_Forall (λ a e, a = csr_addr e ∧ sound now e) t' ∧
    dom t' = dom t ∪ list_to_set (csr_addr <$> l) ∧ beside false h h' ∧ tsc h' = tsc h ∧
    ∀ c, content now h' c = if decide (owner c ∈ Some <$> (csr_addr <$> l)) then reset_value c else content now h c.
Proof.
  intros Hl. revert t h. induction Hl as [|e l He _ IH]; intros t h Hok Ht; cbn [csr_registery_init].
  { exists t, h. split_and!; try done. set_solver. }
  destruct (csr_addr_bits _ (sd_addr _ _ He)) as [-> ->]. cbn [Z.eqb ASSERT mbind outcome_bind].
  destruct (sd_resets _ _ He h) as (Htsc & Hb & Hc).
  destruct (IH (<[csr_addr e := e]> t) (registered_reset e h)) as (t' & h' & Hi & Hok' & Ht' & Hdom & Hb' & Htsc' & Hc').
  { apply registered_reset_ok; [apply He|done]. }
  { by apply map_Forall_insert_2. }
  exists t', h'. split; [exact Hi|]. split_and!; try done.
  - rewrite Hdom. set_solver.
  - by eapply beside_trans.
  - by rewrite Htsc'.
  - intros c. rewrite Hc', Hc. rewrite !fmap_cons, (decide_ext _ _ _ _ (elem_of_cons _ _ _)).
    repeat case_decide; naive_solver.
Qed.

(** What one CSR instruction does to the register file: rd gets the value seen, if
    the instruction reads; the cell shown takes the new value, if it writes. *)
Definition csr_reads (f3 rd : Z) : bool := negb ((f3 mod 4 =? 1) && (rd =? 0)).

Definition csr_writes (f3 rs1 : Z) : bool := (f3 mod 4 =? 1) || negb (rs1 =? 0).

Definition csr_effect (now a f3 rd rs1 : Z) (g : guest) (h : csr_hart) (g' : guest) (h' : csr_hart) : Prop :=
  let old := seen now a h in
  let new := csr_new (f3 mod 4) old (csr_operand f3 rs1 g) in
  g' = (if csr_reads f3 rd then set_gpr g rd old else g) ∧
  (∀ c, c ≠ High → content now h' c =
     if decide (c = shown (csr_view a) ∧ csr_writes f3 rs1 = true) then stored a new (content now h c)
     else content now h c) ∧
  tsc h' = (if (a =? 0xC01) && csr_reads f3 rd then now else tsc h) ∧
  beside (bool_decide (a = CSR_ADDRESS_SATP ∧ csr_writes f3 rs1 = true)) h h'.

(** Reading time notes the time stamp and changes nothing else. *)
Lemma noted_spec now a h c :
  csr_ok h → csr_ok (noted now a h) ∧ mach (noted now a h) = mach h ∧
  tsc (noted now a h) = (if a =? 0xC01 then now else tsc h) ∧
  (c ≠ High → content now (noted now a h) c = content now h c).
Proof. intros []. unfold noted. destruct (a =? 0xC01); split_and!; try done. by destruct c. Qed.

(** The manual's instruction on a sound entry. *)
Lemma csr_manual_effect now e f3 rd rs1 g h g' h' :
  sound now e → csr_ok h → wf_guest g → 0 <= rs1 < 32 →
  csr_manual e (csr_addr e) f3 rd rs1 g h = Ok (g', h') → csr_effect now (csr_addr e) f3 rd rs1 g h g' h'.
Proof.
  intros [_ Ht [Hr Hw] _] Hok Hg Hrs. unfold csr_manual, csr_effect.
  fold (csr_reads f3 rd). fold (csr_writes f3 rs1). set (a := csr_addr e) in *.
  assert (word32 (seen now a h)) as Hold by (eapply (masked_read_typed e); [done|done|by apply Hr]).
  assert (csr_reads f3 rd = false → ∀ x, csr_new (f3 mod 4) 0 x = csr_new (f3 mod 4) (seen now a h) x) as Hnew.
  { unfold csr_reads, csr_new. by destruct (f3 mod 4 =? 1). }
  set (new := csr_new (f3 mod 4) (seen now a h) (csr_operand f3 rs1 g)).
  assert (word32 new) as Hwn by (apply csr_new_word; [done|by apply csr_operand_word]).
  set (h1 := if csr_reads f3 rd then noted now a h else h).
  assert (∀ c, csr_ok h1 ∧ mach h1 = mach h ∧ tsc h1 = (if (a =? 0xC01) && csr_reads f3 rd then now else tsc h) ∧
               (c ≠ High → content now h1 c = content now h c)) as H1.
  { intros c. unfold h1. destruct (csr_reads f3 rd); [rewrite andb_true_r; by apply noted_spec|by rewrite andb_false_r]. }
  destruct (H1 High) as (Hok1 & Hm1 & Ht1 & _).
  assert ((if csr_reads f3 rd then masked_read e a h else (0, h)) =
          (if csr_reads f3 rd then seen now a h else 0, h1)) as ->.
  { unfold h1. destruct (csr_reads f3 rd); [by apply Hr|done]. }
  assert (csr_new (f3 mod 4) (if csr_reads f3 rd then seen now a h else 0) (csr_operand f3 rs1 g) = new) as ->.
  { destruct (csr_reads f3 rd); [done|by apply Hnew]. }
  destruct (csr_writes f3 rs1).
  - destruct (Hw new h1 Hok1 Hwn) as (h2 & -> & Hc2 & Ht2 & Hb2). intros [= <- <-].
    split; [by destruct (csr_reads f3 rd)|]. split; [|split; [by rewrite Ht2|]].
    + intros c Hc. rewrite Hc2, (proj2 (proj2 (proj2 (H1 c)))) by done. repeat case_decide; naive_solver.
    + unfold beside in *. rewrite Hm1 in Hb2. rewrite (bool_decide_ext _ (a = CSR_ADDRESS_SATP)) by naive_solver. done.
  - intros [= <- <-]. split; [by destruct (csr_reads f3 rd)|]. split; [|split; [done|]].
    + intros c Hc. rewrite decide_False by (by intros []). by apply H1.
    + rewrite bool_decide_false by (by intros []). unfold beside. by rewrite Hm1.
Qed.

(** C27: the CSR files as a register file.  [csr_registery_init] on their entries
    returns with a valid entry for exactly their addresses and every cell at its
    reset value: misa 0x40141101, mvendorid 0x60a, the others zero; status, hart id and
    clock are not touched.  On that table each of the six CSR instructions, for
    every register and CSR address of the table, returns; rd gets the bits visible
    at the address (mstatus and sstatus, mie and sie, mip and sip show the same
    cells); the cell shown takes the new value in its writable bits and every other
    CSR is unchanged; misa, mvendorid, mhartid, time and timeh ignore writes; a
    write of satp, and nothing else, empties the TLBs and the translation cache;
    memory, privilege level and all other guest registers are unchanged, and all
    fields stay within their C types.  In this version [register_csr_entry] has an
    empty body, so the build's own registry is empty. *)
Theorem csr_files_correct now h :
  csr_ok h →
  ∃ t h', csr_registery_init (all_entries now) ∅ h = Ok (t, h') ∧ csr_ok h' ∧
    dom t = list_to_set (csr_addr <$> all_entries now) ∧ beside false h h' ∧
    (∀ c, content now h' c =
       if decide (owner c ∈ Some <$> (csr_addr <$> all_entries now)) then reset_value c else content now h c) ∧
    ∀ a f3 rd rs1 g h1,
      a ∈ dom t → f3 ∈ [1; 2; 3; 5; 6; 7] → 0 <= rd < 32 → 0 <= rs1 < 32 → csr_ok h1 → wf_guest g →
      ∃ g' h2, riscv_generic_csr_callback t (enc_I 0x73 rd f3 rs1 a) g h1 = Ok (g', h2) ∧
        csr_effect now a f3 rd rs1 g h1 g' h2 ∧ csr_ok h2 ∧ wf_guest g'.
Proof.
  intros Hok.
  destruct (csr_registery_init_sound now (all_entries now) ∅ h) as (t & h' & Hi & Hok' & Ht & Hdom & Hb & _ & Hc);
    [apply all_entries_sound|done|apply map_Forall_empty|].
  rewrite dom_empty_L, (left_id_L ∅ (∪)) in Hdom. exists t, h'. split_and!; [done..|].
  intros a f3 rd rs1 g h1 [e He]%elem_of_dom Hf Hrd Hrs Hh1 Hg. destruct (Ht a e He) as [-> Hs].
  rewrite (csr_callback_manual t e _ f3 rd rs1 g h1 He (proj1 (sd_typed _ _ Hs)) (sd_addr _ _ Hs) Hrd Hrs Hf).
  destruct (csr_manual_typed e (csr_addr e) f3 rd rs1 g h1 (sd_typed _ _ Hs) Hh1 Hg Hrs) as (g' & h2 & Hm & ? & ?).
  exists g', h2. split; [exact Hm|]. split; [exact (csr_manual_effect _ _ _ _ _ _ _ _ _ Hs Hh1 Hg Hrs Hm)|split; assumption].
Qed.

(** ** A hart with paging on *)
Definition demo_csr_hart : csr_hart := mk_csr_hart paged_machine 0 0.

Lemma demo_csr_ok : csr_ok demo_csr_hart.
Proof.
  split; try done. intros a. change (word32 (csr_blob (ctl paged_machine) a)). unfold csr_blob.
  destruct (decide (a = CSR_ADDRESS_SATP)) as [-> | Ha]; [done|].
  cbn [ctl paged_machine csrs]. by rewrite lookup_singleton_ne.
Qed.

(** csrrw x5, sscratch, x6. *)
Definition demo_table : gmap Z csr_entry := {[ 0x140 := sscratch_csr_entry ]}.

Lemma masked_read_mask e a h v h' : word32 (wpri_mask e) → masked_read e a h = (v, h') → word32 v.
Proof.
  intros Hm. unfold masked_read. destruct (match csr_read e with Some f => _ | None => _ end).
  intros [= <- _]. by apply word32_mask.
Qed.

Lemma csr_callback_wf t i g h g' h' :
  map_Forall (λ _ e, word32 (wpri_mask e)) t → wf_guest g →
  riscv_generic_csr_callback t i g h = Ok (g', h') → wf_guest g'.
Proof.
  intros Ht Hg. unfold riscv_generic_csr_callback, csr_modify. destruct (_ =? 0x73); [|done].
  cbn [ASSERT mbind outcome_bind]. destruct (instruction_decoding_per_type _ _) as [dec|]; [|done].
  cbn [mbind outcome_bind]. destruct (t !! _) as [e|] eqn:He; [|done]. apply Ht in He.
  destruct (masked_read e _ h) as [v h1] eqn:Hr. pose proof (masked_read_mask _ _ _ _ _ He Hr).
  repeat case_match; simplify_eq/=; intros Hb;
    repeat match type of Hb with
    | context [entry_write_back ?e ?a ?v ?h] => destruct (entry_write_back e a v h); simplify_eq/=
    end; simplify_eq/=; auto using set_gpr_wf.
Qed.

#[local] Instance demo_csr_host : HostCalls csr_hart :=
  {| hc_call f l g w :=
       match f, l with
       | sym_riscv_generic_csr_callback, [i] => csr_call demo_table i g w
       | _, _ => Returns 0 g w
       end;
     scratch _ _ _ := 0; hc_good _ := True |}.

#[local] Instance demo_csr_host_ok : HostCallsOk csr_hart.
Proof.
  split.
  - intros f l g w Hg. destruct f; try done. destruct l as [|i [|]]; try done. simpl. unfold csr_call.
    destruct (riscv_generic_csr_callback _ _ _ _) as [[g' h']|] eqn:Hc; [|done].
    split; [|done]. eapply csr_callback_wf; [|done|exact Hc]. by apply map_Forall_singleton.
  - intros [] l g w v g' w'; done || (intros; by simplify_eq/=).
  - intros [] l g w g' w' _ _ _; try done. destruct l as [|i [|]]; try done. simpl. unfold csr_call.
    by destruct (riscv_generic_csr_callback _ _ _ _) as [[]|].
  - intros [] l g w v g' w'; done || (intros; by simplify_eq/=).
Qed.

Lemma csr_block_correct_witness :
  let s := mk_xstate (rf (demo_state (demo_guest 0x1000))) None [] (demo_guest 0x1000) demo_csr_hart in
  agrees 64 s (exec 64 (code csr_instructions) [enc_I 0x73 5 1 6 0x140] None s)
    (csr_step sscratch_csr_entry 0x140 1 5 6 (demo_guest 0x1000) demo_csr_hart).
Proof.
  intros s. apply (csr_block_correct 64 demo_table);
    first [done | lia | by split_and! | by apply demo_wf | by exists 0 | reflexivity | by apply list_elem_of_here].
Defined.

Lemma csr_views_witness :
  (csr_sstatus_read 0x100 demo_csr_hart).1 = Z.land (mstatus demo_csr_hart) 0x133.
Proof. apply (csr_views 0 demo_csr_hart). apply demo_csr_ok. Defined.

(** csrrs x5, sstatus, x6 after the registration: sstatus has the reset value and
    takes the bits of x6. *)
Lemma csr_files_correct_witness :
  ∃ t h', csr_registery_init (all_entries 5) ∅ demo_csr_hart = Ok (t, h') ∧
    content 5 h' (Blob 0x301) = 0x40141101 ∧
    ∃ g' h2, riscv_generic_csr_callback t (enc_I 0x73 5 2 6 0x100) (demo_guest 0x1000) h' = Ok (g', h2) ∧
      csr_effect 5 0x100 2 5 6 (demo_guest 0x1000) h' g' h2.
Proof.
  assert (wf_guest (demo_guest 0x1000)) as Hwf by by apply demo_wf.
  destruct (csr_files_correct 5 demo_csr_hart demo_csr_ok) as (t & h' & Hi & Hok & Hdom & _ & Hc & Hrun).
  exists t, h'. split; [exact Hi|]. split; [rewrite Hc; reflexivity|].
  destruct (Hrun 0x100 2 5 6 (demo_guest 0x1000) h') as (g' & h2 & Hg' & He & _).
  - rewrite Hdom. apply (bool_decide_unpack _). vm_compute. exact I.
  - apply (bool_decide_unpack _). vm_compute. exact I.
  - lia.
  - lia.
  - exact Hok.
  - exact Hwf.
  - exists g', h2. split; assumption.
Defined.

End Csr.
