(* ===== verification/Loader.v ===== *)
(** * Loading an application: elf_util.c and app.c

    [program_init] reads the ELF header and the program headers of an executable,
    makes a region of memory for every loadable segment, and adds the stack and
    the heap; [env_setup] puts the strings and pointers of the arguments and the
    environment on the stack.  Theorems: a well-formed file is loaded so that the
    guest sees every segment with its file bytes followed by zeros; the initial
    stack is the one the ABI describes, and every pointer on it points to its
    string. *)
From S2P Require Import Prelude SortSearch X86 PmRegion Vma VmaOps.
Import Macros X86 PmRegion Vma VmaOps.

Module Loader.

(** ** elf.h *)
Record elf32_elf_header := mk_elf_header {
  e_ident : list Z;
  e_type : Z;
  e_machine : Z;
  e_version : Z;
  e_entry : Z;
  e_phoff : Z;
  e_shoff : Z;
  e_flags : Z;
  e_ehsize : Z;
  e_phentsize : Z;
  e_phnum : Z;
  e_shentsize : Z;
  e_shnum : Z;
  e_shstrndx : Z
}.

Record elf32_program_header := mk_program_header {
  p_type : Z;
  p_offset : Z;
  p_vaddr : Z;
  p_paddr : Z;
  p_filesz : Z;
  p_memsz : Z;
  p_flags : Z;
  p_align : Z
}.

Definition ELF32_IDENTITY_ELF : Z := 0x464c457f.

Definition ELF32_MACHINE_RISCV : Z := 0xf3.

Definition ELF32_CLASS_ELF32 : Z := 0x1.

Definition PROGRAM_TYPE_LOAD : Z := 1.

(** A field of [n] bytes at [off] of a structure in memory. *)
Definition field (blob : list Z) (off n : nat) : Z := le_combine (take n (drop off blob)).

Definition sizeof_elf_header : Z := 52.

Definition sizeof_program_header : Z := 32.

Definition elf_header_of (blob : list Z) : elf32_elf_header :=
  mk_elf_header (take 16 blob) (field blob 16 2) (field blob 18 2) (field blob 20 4) (field blob 24 4)
    (field blob 28 4) (field blob 32 4) (field blob 36 4) (field blob 40 2) (field blob 42 2)
    (field blob 44 2) (field blob 46 2) (field blob 48 2) (field blob 50 2).

Definition program_header_of (blob : list Z) : elf32_program_header :=
  mk_program_header (field blob 0 4) (field blob 4 4) (field blob 8 4) (field blob 12 4) (field blob 16 4)
    (field blob 20 4) (field blob 24 4) (field blob 28 4).

(** ** elf_util.c

    An open file is its contents and the position of the descriptor.  [host_read]
    is read(2) into a buffer, which may be NULL: the result and the bytes that
    arrive. *)
Class HostRead := {
  host_read : bool → list Z → Z → Z → Z * list Z
}.

(** A read of a regular file returns what is left of it, up to the size asked for;
    a read to NULL fails. *)
Class HostReadOk `{HostRead} := {
  host_read_file : ∀ c pos n, 0 <= pos → 0 <= n < 2 ^ 31 →
    let bs := take (Z.to_nat n) (drop (Z.to_nat pos) c) in
    host_read false c pos n = (Z.of_nat (length bs), bs);
  host_read_null : ∀ c pos n, 0 < n < 2 ^ 31 → host_read true c pos n = (-1, [])
}.

Record elf_file := mk_elf_file {
  contents : list Z;
  position : Z
}.

Section code.
Context `{HR : HostRead} `{HA : HostAlloc}.

Definition elf_open (found : option (list Z)) : option elf_file :=
  match found with Some c => Some (mk_elf_file c 0) | None => None end.

(** [lseek], whose failure is not noticed, and [read]; the answer is 0 when all
    [size] bytes arrived.  [null] tells whether the buffer is NULL. *)
Definition elf_read (null : bool) (offset size : Z) (f : elf_file) : Z * list Z * elf_file :=
  let pos := if 0 <=? offset then offset else position f in
  let '(rc, bs) := host_read null (contents f) pos (w64 size) in
  let nr_read := sint 32 rc in
  (if nr_read =? size then 0 else 1, bs, mk_elf_file (contents f) (if 0 <=? rc then pos + rc else pos)).

Definition elf_header (f : elf_file) : Z * elf32_elf_header * elf_file :=
  let '(rc, blob, f) := elf_read false 0 sizeof_elf_header f in
  let hdr := elf_header_of blob in
  let valid := (ELF32_IDENTITY_ELF =? field (e_ident hdr) 0 4)
               && (ELF32_CLASS_ELF32 =? field (e_ident hdr) 4 1)
               && (ELF32_MACHINE_RISCV =? e_machine hdr) in
  (if rc =? 0 then (if valid then 0 else 1) else rc, hdr, f).

Definition elf_program_header (elf_hdr : elf32_elf_header) (index : Z) (f : elf_file)
    : outcome (Z * elf32_program_header * elf_file) :=
  if e_phnum elf_hdr <=? index then Ok (-1, program_header_of [], f) else
  ASSERT (sizeof_program_header =? e_phentsize elf_hdr);;
  let offset := sint 32 (e_phoff elf_hdr + index * e_phentsize elf_hdr) in
  let '(rc, blob, f) := elf_read false offset (e_phentsize elf_hdr) f in
  Ok (rc, program_header_of blob, f).

(** ** app.c: the segments *)

(** [elf_read] into a host block. *)
Definition read_segment (base : option Z) (offset size : Z) (f : elf_file) (h : host_heap)
    : outcome (Z * elf_file * host_heap) :=
  let '(rc, bs, f) := elf_read (bool_decide (base = None)) (sint 32 offset) (sint 32 size) f in
  match base with
  | Some b => h ← store_bytes h (Some b, 0) bs; Ok (rc, f, h)
  | None => Ok (rc, f, h)
  end.

(** The body of the loop for a segment that is to be loaded; the result is the end
    of the new region. *)
Definition load_segment (prog_hdr : elf32_program_header) (f : elf_file) (p : process)
    : outcome (Z * elf_file * process) :=
  let '(host_base, h) := preallocate_physical_memory (p_memsz prog_hdr) (heap p) in
  '(rc, f, h) ← read_segment host_base (p_offset prog_hdr) (p_filesz prog_hdr) f h;
  ASSERT (rc =? 0);;
  let addr_high := w32 (p_vaddr prog_hdr + p_memsz prog_hdr) in
  vm ← register_pm_region_operation (space p)
         (generic_region (p_vaddr prog_hdr) addr_high (p_flags prog_hdr) "elf" host_base);
  Ok (addr_high, f, mk_process vm h).

Fixpoint segment_loop (n : nat) (idx prog_break : Z) (elf_hdr : elf32_elf_header) (f : elf_file)
    (p : process) : outcome (Z * process) :=
  match n with
  | O => Ok (prog_break, p)
  | S n =>
      '(rc, prog_hdr, f) ← elf_program_header elf_hdr idx f;
      ASSERT (rc =? 0);;
      if negb (p_type prog_hdr =? PROGRAM_TYPE_LOAD) then segment_loop n (idx + 1) prog_break elf_hdr f p
      else
        '(high, f, p) ← load_segment prog_hdr f p;
        segment_loop n (idx + 1) (if prog_break <? high then high else prog_break) elf_hdr f p
  end.

(** The process and the registers of its hart. *)
Record application := mk_app {
  memory : process;
  cpu : guest
}.

Definition program_init (found : option (list Z)) (a : application) : outcome application :=
  match elf_open found with
  | None => Err EAssert
  | Some f =>
      let '(rc, elf_hdr, f) := elf_header f in
      ASSERT (rc =? 0);;
      '(prog_break, p) ← segment_loop (Z.to_nat (e_phnum elf_hdr)) 0 0 elf_hdr f (memory a);
      '(p, sp) ← stack_init p;
      p ← heap_init prog_break p;
      Ok (mk_app p (set_gpr (set_pc (cpu a) (e_entry elf_hdr)) 2 sp))
  end.

End code.

(** ** app.c: the initial stack *)
Definition MAX_NR_ENVP : Z := 128.

Definition MAX_NR_ARGV : Z := 128.

(** [stack_top_upointer], [stack_top_gap] and the host memory. *)
Record pusher := mk_pusher {
  upointer : option Z * Z;
  stack_top_gap : Z;
  pushed : host_heap
}.

Definition PUSH_BLOB (blob : list Z) (s : pusher) : outcome pusher :=
  let len := Z.of_nat (length blob) in
  let up := (fst (upointer s), snd (upointer s) - len) in
  h ← store_bytes (pushed s) up blob;
  Ok (mk_pusher up (w32 (stack_top_gap s + len)) h).

Definition STACK_POS (stack_top : Z) (s : pusher) : Z := w32 (stack_top - stack_top_gap s).

Definition LOCAL_ALIGN (align stack_top : Z) (s : pusher) : pusher :=
  let riscv_stack_top := STACK_POS stack_top s in
  let riscv_stack_aligned := Z.land riscv_stack_top (w32 (Z.lnot (align - 1))) in
  let d := w32 (riscv_stack_top - riscv_stack_aligned) in
  mk_pusher (fst (upointer s), snd (upointer s) - d) (w32 (stack_top_gap s + d)) (pushed s).

(** The loops over [envp] and [argv], with the pointers they record. *)
Fixpoint push_strings (strs : list (list Z)) (stack_top : Z) (s : pusher) : outcome (list Z * pusher) :=
  match strs with
  | [] => Ok ([], s)
  | str :: strs =>
      s ← PUSH_BLOB (str ++ [0]) s;
      let pos := STACK_POS stack_top s in
      '(ptrs, s) ← push_strings strs stack_top s;
      Ok (pos :: ptrs, s)
  end.

Fixpoint push_blobs (blobs : list (list Z)) (s : pusher) : outcome pusher :=
  match blobs with
  | [] => Ok s
  | b :: blobs => s ← PUSH_BLOB b s; push_blobs blobs s
  end.

Definition word (v : Z) : list Z := le_split 4 v.

Definition aux_vector (stack_top entry : Z) : list (list Z) :=
  [word 25 ++ word stack_top; word 9 ++ word entry; word 0 ++ word 0].

(** The part of [env_setup] after the strings: the auxiliary vector, the pointers
    and the number of arguments. *)
Definition push_table (stack_top entry : Z) (args envs : list Z) (s : pusher) : outcome pusher :=
  s ← push_blobs (reverse (aux_vector stack_top entry)) s;
  s ← PUSH_BLOB (word 0) s;
  s ← push_blobs (reverse (word <$> envs)) s;
  s ← PUSH_BLOB (word 0) s;
  s ← push_blobs (reverse (word <$> args)) s;
  PUSH_BLOB (word (Z.of_nat (length args))) s.

(** The arrays end with NULL; the strings are without their final zero. *)
Definition env_setup (argv envp : list (list Z)) (a : application) : outcome application :=
  let stack_top := gpr (cpu a) 2 in
  up ← user_world_pointer (memory a) stack_top;
  ASSERT (bool_decide (is_Some (fst up)) || negb (snd up =? 0));;
  let s := mk_pusher up 0 (heap (memory a)) in
  '(env_pointer, s) ← push_strings (take (Z.to_nat MAX_NR_ENVP) envp) stack_top s;
  '(arg_pointer, s) ← push_strings (take (Z.to_nat MAX_NR_ARGV) argv) stack_top s;
  let s := LOCAL_ALIGN 16 stack_top s in
  s ← push_table stack_top (pc (cpu a)) arg_pointer env_pointer s;
  Ok (mk_app (mk_process (space (memory a)) (pushed s)) (set_gpr (cpu a) 2 (STACK_POS stack_top s))).

(** ** The initial stack *)
Definition size {A} (l : list A) : Z := Z.of_nat (length l).

(** [img] has been pushed below offset [off0] of the block [b], which held [l0] in
    the heap [h0]. *)
Record imaged (h0 : host_heap) (b off0 : Z) (l0 : list Z) (s : pusher) (img : list Z) : Prop := {
  im_up : upointer s = (Some b, off0 - size img);
  im_gap : stack_top_gap s = size img;
  im_heap : pushed s = <[b := take (Z.to_nat (off0 - size img)) l0 ++ img ++ drop (Z.to_nat off0) l0]> h0;
  im_room : size img <= off0 <= size l0
}.

Section image.
Context (h0 : host_heap) (b off0 : Z) (l0 : list Z) (Hoff : 0 <= off0 < 2 ^ 32).
Notation imaged := (imaged h0 b off0 l0).

Lemma push_image s img blob :
  imaged s img → size blob + size img <= off0 → ∃ s', PUSH_BLOB blob s = Ok s' ∧ imaged s' (blob ++ img).
Proof.
  intros [Hup Hgap Hh Hroom] Hfit. unfold PUSH_BLOB, store_bytes. rewrite Hup, Hh, Hgap.
  cbn [fst snd deref mbind outcome_bind]. rewrite lookup_insert_eq. cbn [deref mbind outcome_bind].
  unfold size in *. rewrite !length_app, length_take, length_drop. zbool; try lia. cbn [andb mbind outcome_bind].
  eexists. split; [done|]. split; cbn [upointer stack_top_gap pushed]; unfold size; rewrite ?length_app.
  - f_equal. lia.
  - rewrite w32_small; [lia|unfold word32; lia].
  - rewrite insert_insert_eq. f_equal. rewrite take_app_le by (rewrite length_take; lia).
    rewrite take_take, Nat.min_l by lia. f_equal; [f_equal; lia|].
    rewrite <- app_assoc. f_equal.
    replace (Z.to_nat _ + length blob)%nat with (length (take (Z.to_nat (off0 - Z.of_nat (length img))) l0))
      by (rewrite length_take; lia).
    by rewrite drop_app_length.
  - lia.
Qed.

Lemma push_blobs_image bs s img :
  imaged s img → size (concat bs) + size img <= off0 →
  ∃ s', push_blobs bs s = Ok s' ∧ imaged s' (concat (reverse bs) ++ img).
Proof.
  revert s img. induction bs as [|x bs IH]; intros s img Hi Hfit; [by exists s|].
  unfold size in *. cbn [concat push_blobs] in *. rewrite length_app in Hfit.
  destruct (push_image s img x Hi) as (s1 & -> & Hi1); [unfold size; lia|]. cbn [mbind outcome_bind].
  destruct (IH s1 (x ++ img) Hi1) as (s2 & Hs2 & Hi2); [rewrite length_app; lia|].
  exists s2. split; [done|]. by rewrite reverse_cons, concat_app, <- app_assoc; cbn [concat]; rewrite app_nil_r.
Qed.

Context (top : Z) (Htop : off0 <= top < 2 ^ 32).

(** [bytes] lie at address [a] of the stack whose image is [img]. *)
Definition at_stack (img : list Z) (a : Z) (bytes : list Z) : Prop :=
  ∃ u v, img = u ++ bytes ++ v ∧ a = top - size (bytes ++ v).

Lemma at_stack_push x img a bytes : at_stack img a bytes → at_stack (x ++ img) a bytes.
Proof. intros (u & v & -> & ->). exists (x ++ u), v. by rewrite <- app_assoc. Qed.

Lemma position_image s img : imaged s img → STACK_POS top s = top - size img.
Proof.
  intros [_ Hgap _ Hroom]. unfold STACK_POS. rewrite Hgap. unfold size in *. rewrite w32_small; [done|].
  unfold word32. lia.
Qed.

Definition terminated (strs : list (list Z)) : list Z := concat ((λ s, s ++ [0]) <$> strs).

Lemma push_strings_image strs s img :
  imaged s img → size (terminated strs) + size img <= off0 →
  ∃ ptrs s' pre, push_strings strs top s = Ok (ptrs, s') ∧ imaged s' (pre ++ img) ∧
    size pre = size (terminated strs) ∧ (Forall (Forall is_byte) strs → Forall is_byte pre) ∧
    Forall2 (at_stack (pre ++ img)) ptrs ((λ s, s ++ [0]) <$> strs).
Proof.
  revert s img. induction strs as [|x strs IH]; intros s img Hi Hfit; [by exists [], s, []|].
  unfold terminated, size in *. cbn [fmap list_fmap concat push_strings] in *. rewrite length_app in Hfit.
  destruct (push_image s img (x ++ [0]) Hi) as (s1 & -> & Hi1); [unfold size; lia|]. cbn [mbind outcome_bind].
  destruct (IH s1 ((x ++ [0]) ++ img) Hi1) as (ptrs & s2 & pre & -> & Hi2 & Hpre & Hby & Hat); [rewrite length_app; lia|].
  cbn [mbind outcome_bind]. eexists _, s2, (pre ++ x ++ [0]). split; [done|]. rewrite <- app_assoc. split; [done|].
  split; [rewrite !length_app in *; simpl in *; lia|]. split.
  { intros [Hx Hs]%Forall_cons. apply Forall_app_2; [by apply Hby|]. apply Forall_app_2; [done|]. repeat constructor; lia. }
  constructor; [|done]. rewrite (position_image _ _ Hi1). exists pre, img. by rewrite <- !app_assoc.
Qed.

Lemma align_image s img :
  imaged s img → size img + 15 <= off0 →
  ∃ pad, imaged (LOCAL_ALIGN 16 top s) (pad ++ img) ∧ (Forall is_byte l0 → Forall is_byte pad) ∧
    size pad <= 15 ∧ (top - size (pad ++ img)) mod 16 = 0.
Proof.
  intros Hi Hfit. pose proof (position_image _ _ Hi) as Hpos. destruct Hi as [Hup Hgap Hh Hroom].
  unfold LOCAL_ALIGN. rewrite Hpos, Hup, Hh, Hgap. unfold size in *.
  set (t := top - Z.of_nat (length img)) in *. assert (word32 t) as Ht by (unfold word32, t; lia).
  change (w32 (Z.lnot (16 - 1))) with 0xfffffff0. rewrite (clear_low t 4 0xfffffff0) by (done || lia).
  change (2 ^ 4) with 16. pose proof (Z.mod_pos_bound t 16 eq_refl).
  assert (w32 (t - 16 * (t / 16)) = t mod 16) as -> by (rewrite w32_small; unfold word32; lia_div).
  set (d := t mod 16) in *. set (A := Z.to_nat (off0 - Z.of_nat (length img))).
  exists (drop (A - Z.to_nat d) (take A l0)).
  assert (Hd : length (drop (A - Z.to_nat d) (take A l0)) = Z.to_nat d) by (rewrite length_drop, length_take; lia).
  split; [split; cbn [upointer stack_top_gap pushed fst snd]; unfold size; rewrite ?length_app, ?Hd|].
  - f_equal. lia.
  - rewrite w32_small; [lia|unfold word32; lia].
  - f_equal. rewrite <- !app_assoc. change (Z.to_nat (off0 - Z.of_nat (length img))) with A.
    rewrite <- (take_drop (A - Z.to_nat d) (take A l0)) at 1. rewrite take_take, <- app_assoc.
    do 2 f_equal. unfold A. lia.
  - lia.
  - split; [intros Hl; by apply Forall_drop, Forall_take|]. rewrite length_app, Hd. split; [lia|].
    unfold d, t in *. lia_div.
Qed.

End image.

(** [bytes] lie in the memory of [p] from address [a] on. *)
Definition holds (p : process) (a : Z) (bytes : list Z) : Prop :=
  ∀ k x, bytes !! k = Some x → byte_at p (a + Z.of_nat k) = Some x.

Definition words (ws : list Z) : list Z := concat (word <$> ws).

Lemma image_holds p r b l0 top s img :
  mem_ok p → r ∈ regions (space p) → host_base r = Some b → heap p !! b = Some l0 → inside top r →
  imaged (heap p) b (top - addr_low r) l0 s img → Forall is_byte img → Forall is_byte l0 →
  let p' := mk_process (space p) (pushed s) in
  mem_ok p' ∧ (∀ a bytes, at_stack top img a bytes → holds p' a bytes) ∧
  ∀ x, ¬ (top - size img <= x < top) → byte_at p' x = byte_at p x.
Proof.
  intros Hok Hr Hb Hl0 Hin [_ _ Hh [Hr1 Hr2]] Himg Hbl p'. subst p'. rewrite Hh. unfold inside, size in *.
  set (l' := take _ l0 ++ img ++ drop _ l0).
  assert (Hlen : length l' = length l0) by (unfold l'; rewrite !length_app, length_take, length_drop; lia).
  destruct (byte_at_update p r b l0 l' Hok Hr Hb Hl0 Hlen) as [Hok' Hby].
  { unfold l'. apply Forall_app_2; [by apply Forall_take|]. apply Forall_app_2; [done|by apply Forall_drop]. }
  destruct (mo_block _ Hok r b Hr Hb) as (l1 & Hl1 & Hlr & _). rewrite Hl0 in Hl1. injection Hl1 as <-.
  assert (Hget : ∀ k, zget l' k = if decide (top - addr_low r - Z.of_nat (length img) <= k < top - addr_low r)
                                   then zget img (k - (top - addr_low r - Z.of_nat (length img))) else zget l0 k).
  { intros k. unfold l'. pose proof (store_lookup l0 img (top - addr_low r - Z.of_nat (length img)) k) as Hs.
    replace (Z.to_nat (top - addr_low r - Z.of_nat (length img)) + length img)%nat
      with (Z.to_nat (top - addr_low r)) in Hs by lia.
    rewrite Hs by lia. destruct (decide _), (decide _); (done || lia). }
  split; [done|]. split.
  - intros a bytes (u & v & -> & ->) k x Hk. pose proof (lookup_lt_Some _ _ _ Hk).
    unfold size in *. rewrite !length_app in *. rewrite Hby, decide_True by (unfold inside; lia). rewrite Hget, decide_True by lia.
    apply zget_Some. split; [lia|]. rewrite lookup_app_r by lia. rewrite lookup_app_l by lia.
    rewrite <- Hk. f_equal. lia.
  - intros x Hx. rewrite Hby. case_decide as Hxr; [|done]. rewrite Hget, decide_False by lia.
    unfold inside in Hxr. rewrite (byte_at_region p r x) by (done || apply Hok || (unfold inside; lia)).
    unfold region_bytes. rewrite Hb. cbn. by rewrite Hl0.
Qed.

Lemma word_bytes v : Forall is_byte (word v).
Proof. apply le_split_bytes. Qed.

Lemma words_bytes ws : Forall is_byte (words ws).
Proof. apply Forall_concat, Forall_fmap, Forall_forall. intros v _. apply word_bytes. Qed.

Lemma words_length ws : length (words ws) = (4 * length ws)%nat.
Proof. unfold words. induction ws as [|w ws IH]; [done|]. cbn [fmap list_fmap concat length]. rewrite length_app, IH. unfold word. rewrite le_split_length. lia. Qed.

Lemma words_app l k : words (l ++ k) = words l ++ words k.
Proof. unfold words. by rewrite fmap_app, concat_app. Qed.

Lemma concat_reverse_size (bs : list (list Z)) : size (concat (reverse bs)) = size (concat bs).
Proof. unfold size. f_equal. apply Permutation_length. by rewrite reverse_Permutation. Qed.

(** The stack space an argument list and an environment need, at most. *)
Definition stack_need (argv envp : list (list Z)) : Z :=
  size (terminated argv) + size (terminated envp) + 15 + 24 + 4 * (size argv + size envp + 3).

(** The pushes of [env_setup], as an image. *)
Definition env_table (top entry : Z) (args envs : list Z) : list Z :=
  words ([size args] ++ args ++ [0] ++ envs ++ [0; 25; top; 9; entry; 0; 0]).

Lemma pointers_image h0 b off0 l0 (ptrs : list Z) s img :
  0 <= off0 < 2 ^ 32 → imaged h0 b off0 l0 s img → 4 * size ptrs + size img <= off0 →
  ∃ s', push_blobs (reverse (word <$> ptrs)) s = Ok s' ∧ imaged h0 b off0 l0 s' (words ptrs ++ img).
Proof.
  intros Hoff Hi Hfit. destruct (push_blobs_image h0 b off0 l0 Hoff (reverse (word <$> ptrs)) s img Hi) as (s' & Hs & Hi').
  { rewrite concat_reverse_size. unfold size in *. change (concat (word <$> ptrs)) with (words ptrs). rewrite words_length. lia. }
  exists s'. split; [done|]. by rewrite reverse_involutive in Hi'.
Qed.

Lemma table_image h0 b off0 l0 top entry args envs s img :
  0 <= off0 < 2 ^ 32 → imaged h0 b off0 l0 s img →
  24 + 4 * (size args + size envs + 3) + size img <= off0 →
  ∃ s', push_table top entry args envs s = Ok s' ∧ imaged h0 b off0 l0 s' (env_table top entry args envs ++ img).
Proof.
  intros Hoff Hi Hfit. unfold push_table.
  assert (Haux : concat (aux_vector top entry) = words [25; top; 9; entry; 0; 0]) by done.
  assert (Hw : ∀ v, length (word v) = 4%nat) by (intros; apply le_split_length).
  destruct (push_blobs_image h0 b off0 l0 Hoff (reverse (aux_vector top entry)) s img Hi) as (s1 & -> & H1).
  { rewrite concat_reverse_size, Haux. unfold size in *. rewrite words_length. simpl. lia. }
  rewrite reverse_involutive, Haux in H1. cbn [mbind outcome_bind].
  destruct (push_image h0 b off0 l0 Hoff s1 _ (word 0) H1) as (s2 & -> & H2);
    [unfold size in *; rewrite ?length_app, ?words_length, ?Hw; simpl; lia|]. cbn [mbind outcome_bind].
  destruct (pointers_image h0 b off0 l0 envs s2 _ Hoff H2) as (s3 & -> & H3);
    [unfold size in *; rewrite ?length_app, ?words_length, ?Hw; simpl; lia|]. cbn [mbind outcome_bind].
  destruct (push_image h0 b off0 l0 Hoff s3 _ (word 0) H3) as (s4 & -> & H4);
    [unfold size in *; rewrite ?length_app, ?words_length, ?Hw; simpl; lia|]. cbn [mbind outcome_bind].
  destruct (pointers_image h0 b off0 l0 args s4 _ Hoff H4) as (s5 & -> & H5);
    [unfold size in *; rewrite ?length_app, ?words_length, ?Hw; simpl; lia|]. cbn [mbind outcome_bind].
  destruct (push_image h0 b off0 l0 Hoff s5 _ (word (Z.of_nat (length args))) H5) as (s6 & -> & H7);
    [unfold size in *; rewrite ?length_app, ?words_length, ?Hw; simpl; lia|].
  exists s6. split; [done|]. unfold env_table. rewrite !words_app.
  assert (Hone : ∀ v, words [v] = word v) by (intros; unfold words; cbn [fmap list_fmap concat]; by rewrite app_nil_r).
  rewrite (words_app [0] [25; top; 9; entry; 0; 0] : words [0; 25; top; 9; entry; 0; 0] = _), !Hone.
  by rewrite <- !app_assoc.
Qed.

Lemma env_setup_spec a argv envp r b :
  let top := gpr (cpu a) 2 in
  mem_ok (memory a) → r ∈ regions (space (memory a)) → inside top r → host_base r = Some b →
  pmr_direct r = Some vma_generic → size argv <= MAX_NR_ARGV → size envp <= MAX_NR_ENVP →
  Forall (Forall is_byte) argv → Forall (Forall is_byte) envp →
  stack_need argv envp <= top - addr_low r →
  ∃ sp args envs p', env_setup argv envp a = Ok (mk_app p' (set_gpr (cpu a) 2 sp)) ∧
    mem_ok p' ∧ space p' = space (memory a) ∧ top - stack_need argv envp <= sp <= top ∧
    holds p' sp (env_table top (pc (cpu a)) args envs) ∧
    Forall2 (holds p') args ((λ s, s ++ [0]) <$> argv) ∧ Forall2 (holds p') envs ((λ s, s ++ [0]) <$> envp) ∧
    ∀ x, ¬ (sp <= x < top) → byte_at p' x = byte_at (memory a) x.
Proof.
  intros top Hok Hr Hin Hb Hdir Hna Hne Hba Hbe Hneed. unfold env_setup. fold top.
  destruct (access_region _ r b top Hok Hr Hin Hb) as (i & l0 & Hs & Hz & (Hr1 & Hr2 & _) & Hl0 & Hlen & Hbl & Hd).
  unfold user_world_pointer, ELEM. rewrite Hs. cbn [mbind outcome_bind]. rewrite Hz. cbn [deref mbind outcome_bind].
  rewrite Hdir, Hd. cbn [mbind outcome_bind fst snd is_Some]. rewrite bool_decide_true by done. cbn [orb ASSERT mbind outcome_bind].
  unfold inside, stack_need, size, MAX_NR_ARGV, MAX_NR_ENVP in *. rewrite (take_ge envp), (take_ge argv) by lia.
  set (off0 := top - addr_low r) in *. assert (Hoff : 0 <= off0 < 2 ^ 32) by lia. assert (Htop : off0 <= top < 2 ^ 32) by lia.
  set (h0 := heap (memory a)) in *. set (s0 := mk_pusher (Some b, off0) 0 h0).
  assert (Hi0 : imaged h0 b off0 l0 s0 []).
  { split; unfold s0, size; cbn [upointer stack_top_gap pushed length app]; [by rewrite Z.sub_0_r|done| |lia].
    rewrite Z.sub_0_r, take_drop. symmetry. by apply insert_id. }
  destruct (push_strings_image h0 b off0 l0 Hoff top Htop envp s0 [] Hi0) as (envs & s1 & pre1 & -> & Hi1 & Hp1 & Hb1 & Hat1);
    [unfold size; simpl; lia|]. cbn [mbind outcome_bind].
  destruct (push_strings_image h0 b off0 l0 Hoff top Htop argv s1 _ Hi1) as (args & s2 & pre2 & -> & Hi2 & Hp2 & Hb2 & Hat2);
    [unfold size in *; rewrite length_app; simpl; lia|]. cbn [mbind outcome_bind].
  pose proof (Forall2_length _ _ _ Hat1) as Hl1. pose proof (Forall2_length _ _ _ Hat2) as Hl2. rewrite length_fmap in Hl1, Hl2.
  destruct (align_image h0 b off0 l0 Hoff top Htop s2 _ Hi2) as (pad & Hi3 & Hb3 & Hp3 & _);
    [unfold size in *; rewrite !length_app; simpl; lia|].
  destruct (table_image h0 b off0 l0 top (pc (cpu a)) args envs _ _ Hoff Hi3) as (s4 & Hs4 & Hi4);
    [unfold size in *; rewrite !length_app; simpl; lia|].
  rewrite Hs4. cbn [mbind outcome_bind]. rewrite (position_image h0 b off0 l0 top Htop _ _ Hi4).
  edestruct (image_holds (memory a) r b l0 top s4 _ Hok Hr Hb Hl0 ltac:(unfold inside; lia) Hi4) as (Hok' & Hheld & Hrest);
    [apply Forall_app_2; [apply words_bytes|]; repeat apply Forall_app_2; auto|done|].
  eexists _, args, envs, _. split; [reflexivity|]. split; [done|]. split; [done|]. split_and!.
  - unfold size in *. rewrite !length_app. unfold env_table. rewrite words_length, !length_app. simpl. lia.
  - unfold size in *. lia.
  - apply Hheld. exists [], (pad ++ pre2 ++ pre1 ++ []). done.
  - eapply Forall2_impl; [exact Hat2|]. intros. apply Hheld. by do 2 apply at_stack_push.
  - eapply Forall2_impl; [exact Hat1|]. intros. apply Hheld. by do 3 apply at_stack_push.
  - done.
Qed.

(** On a stack with room, [env_setup] succeeds and builds the initial stack
    the ABI describes: from the new stack pointer on lie the number of arguments,
    the argument pointers, 0, the environment pointers, 0 and the auxiliary vector
    with the entry point; every pointer points to its string with its final zero;
    memory outside the new part of the stack and all other registers are kept. *)
Theorem env_setup_correct a argv envp r b :
  let top := gpr (cpu a) 2 in
  mem_ok (memory a) → r ∈ regions (space (memory a)) → inside top r → host_base r = Some b →
  pmr_direct r = Some vma_generic → size argv <= MAX_NR_ARGV → size envp <= MAX_NR_ENVP →
  Forall (Forall is_byte) argv → Forall (Forall is_byte) envp →
  stack_need argv envp <= top - addr_low r →
  ∃ sp args envs p', env_setup argv envp a = Ok (mk_app p' (set_gpr (cpu a) 2 sp)) ∧
    mem_ok p' ∧ space p' = space (memory a) ∧ top - stack_need argv envp <= sp <= top ∧
    holds p' sp (env_table top (pc (cpu a)) args envs) ∧
    Forall2 (holds p') args ((λ s, s ++ [0]) <$> argv) ∧ Forall2 (holds p') envs ((λ s, s ++ [0]) <$> envp) ∧
    ∀ x, ¬ (sp <= x < top) → byte_at p' x = byte_at (memory a) x.
Proof. apply env_setup_spec. Qed.

(** ** Loading *)

(** What a loadable segment puts into memory: its bytes of the file and zeros. *)
Definition slice (c : list Z) (off n : Z) : list Z := take (Z.to_nat n) (drop (Z.to_nat off) c).

Definition segment_image (c : list Z) (ph : elf32_program_header) : list Z :=
  slice c (p_offset ph) (p_filesz ph) ++ replicate (Z.to_nat (p_memsz ph - p_filesz ph)) 0.

Definition covers (ph : elf32_program_header) (x : Z) : Prop := p_vaddr ph <= x < p_vaddr ph + p_memsz ph.

Definition STACK_LOW : Z := DEFAULT_STACK_CELIING - DEFAULT_STACK_SIZE.

(** A segment lies in the file and below the stack, with room for the heap. *)
Record segment_ok (c : list Z) (ph : elf32_program_header) : Prop := {
  sg_offset : 0 <= p_offset ph;
  sg_filesz : 0 <= p_filesz ph <= p_memsz ph;
  sg_file : p_offset ph + p_filesz ph <= size c;
  sg_memsz : 0 < p_memsz ph;
  sg_vaddr : 0 <= p_vaddr ph;
  sg_high : p_vaddr ph + p_memsz ph + 65536 <= STACK_LOW
}.

Definition is_load (ph : elf32_program_header) : Prop := p_type ph = PROGRAM_TYPE_LOAD.

#[export] Instance is_load_dec ph : Decision (is_load ph).
Proof. unfold is_load. apply _. Defined.

(** The program headers at [off] of the file. *)
Fixpoint headers_at (c : list Z) (off : Z) (n : nat) : list elf32_program_header :=
  match n with
  | O => []
  | S n => program_header_of (slice c off 32) :: headers_at c (off + 32) n
  end.

Definition disjoint_segments (phs : list elf32_program_header) : Prop :=
  ∀ i j a b, i ≠ j → phs !! i = Some a → phs !! j = Some b →
    p_vaddr a + p_memsz a <= p_vaddr b ∨ p_vaddr b + p_memsz b <= p_vaddr a.

(** A well-formed executable with header [hdr] and loadable segments [segs]. *)
Record loadable (c : list Z) (hdr : elf32_elf_header) (segs : list elf32_program_header) : Prop := {
  ld_bytes : Forall is_byte c;
  ld_size : sizeof_elf_header <= size c < 2 ^ 31;
  ld_hdr : hdr = elf_header_of (slice c 0 sizeof_elf_header);
  ld_magic : field (e_ident hdr) 0 4 = ELF32_IDENTITY_ELF;
  ld_class : field (e_ident hdr) 4 1 = ELF32_CLASS_ELF32;
  ld_machine : e_machine hdr = ELF32_MACHINE_RISCV;
  ld_phentsize : e_phentsize hdr = sizeof_program_header;
  ld_phoff : 0 <= e_phoff hdr;
  ld_phnum : 0 <= e_phnum hdr;
  ld_table : e_phoff hdr + 32 * e_phnum hdr <= size c;
  ld_segs : segs = filter is_load (headers_at c (e_phoff hdr) (Z.to_nat (e_phnum hdr)));
  ld_nr : size segs <= MAX_VMA_NR - 2;
  ld_ok : Forall (segment_ok c) segs;
  ld_disjoint : disjoint_segments segs
}.

Section loading.
Context `{HR : HostRead} {HRok : HostReadOk} `{HA : HostAlloc} {HAok : HostAllocOk}.
(** The host has memory. *)
Context (Hmem : ∀ h n, is_Some (aligned_alloc h n)).

Lemma slice_length c off n : 0 <= off → 0 <= n → off + n <= size c → size (slice c off n) = n.
Proof. unfold slice, size. intros. rewrite length_take, length_drop. lia. Qed.

Lemma slice_bytes c off n : Forall is_byte c → Forall is_byte (slice c off n).
Proof. intros. by apply Forall_take, Forall_drop. Qed.

Lemma elf_read_ok c off n f :
  contents f = c → 0 <= off → 0 <= n < 2 ^ 31 → off + n <= size c →
  ∃ f', elf_read false off n f = (0, slice c off n, f') ∧ contents f' = c.
Proof.
  intros <- Hoff Hn Hfit. unfold elf_read. zbool; try lia.
  assert (w64 n = n) as -> by (unfold w64; apply Z.mod_small; lia).
  rewrite host_read_file by lia. fold (slice (contents f) off n).
  pose proof (slice_length (contents f) off n Hoff ltac:(lia) Hfit) as Hl. unfold size in Hl. rewrite Hl.
  rewrite (sint_unique 32 n n) by (lia || done). rewrite Z.eqb_refl. by eexists.
Qed.

Lemma segment_image_length c ph : segment_ok c ph → size (segment_image c ph) = p_memsz ph.
Proof.
  intros []. unfold segment_image, size. rewrite length_app, length_replicate.
  pose proof (slice_length c (p_offset ph) (p_filesz ph)). unfold size in *. lia.
Qed.

Lemma segment_image_bytes c ph : Forall is_byte c → Forall is_byte (segment_image c ph).
Proof.
  intros. apply Forall_app_2; [by apply slice_bytes|]. apply Forall_replicate. unfold is_byte. lia.
Qed.

Lemma prealloc_some n h :
  ∃ b, preallocate_physical_memory n h = (Some b, <[b := replicate (Z.to_nat n) 0]> h) ∧ h !! b = None.
Proof.
  destruct (Hmem h n) as [b Hb]. exists b. unfold preallocate_physical_memory. rewrite Hb.
  split; [done|]. by eapply alloc_fresh.
Qed.

(** Bytes stored at the start of a zeroed block. *)
Lemma store_front h b n (bs : list Z) :
  (length bs <= n)%nat →
  store_bytes (<[b := replicate n 0]> h) (Some b, 0) bs = Ok (<[b := bs ++ replicate (n - length bs) 0]> h).
Proof.
  intros Hn. unfold store_bytes. cbn [fst snd deref mbind outcome_bind]. rewrite lookup_insert_eq.
  cbn [deref mbind outcome_bind]. rewrite length_replicate. zbool; try lia. cbn [andb].
  rewrite insert_insert_eq. cbn [Z.to_nat Nat.add take app]. by rewrite drop_replicate.
Qed.

(** [load_segment] adds the segment to the memory. *)
Lemma load_segment_spec c ph f p :
  contents f = c → Forall is_byte c → size c < 2 ^ 31 → segment_ok c ph → mem_ok p →
  nr_pmr_ops (space p) < MAX_VMA_NR →
  (∀ r, r ∈ regions (space p) → addr_high r <= p_vaddr ph ∨ p_vaddr ph + p_memsz ph <= addr_low r) →
  ∃ f' p' r, load_segment ph f p = Ok (p_vaddr ph + p_memsz ph, f', p') ∧ contents f' = c ∧ mem_ok p' ∧
    regions (space p') ≡ₚ r :: regions (space p) ∧ addr_low r = p_vaddr ph ∧
    addr_high r = p_vaddr ph + p_memsz ph ∧ vma_heap (space p') = vma_heap (space p) ∧
    ∀ x, byte_at p' x = if decide (covers ph x) then zget (segment_image c ph) (x - p_vaddr ph) else byte_at p x.
Proof.
  intros Hf Hc Hsz Hsg Hok Hn Hap. pose proof Hsg as [? ? ? ? ? Hhigh].
  change STACK_LOW with 0xDF800000 in Hhigh. unfold load_segment.
  destruct (prealloc_some (p_memsz ph) (heap p)) as (b & -> & Hfresh). unfold read_segment.
  rewrite bool_decide_false by done. rewrite (sint_unique 32 (p_offset ph) (p_offset ph)), (sint_unique 32 (p_filesz ph) (p_filesz ph)) by (lia || done).
  destruct (elf_read_ok c (p_offset ph) (p_filesz ph) f) as (f' & -> & Hf'); [done|lia..|].
  pose proof (slice_length c (p_offset ph) (p_filesz ph) ltac:(lia) ltac:(lia) ltac:(lia)) as Hsl. unfold size in Hsl.
  rewrite store_front by lia. cbn [mbind outcome_bind Z.eqb ASSERT].
  replace (Z.to_nat (p_memsz ph) - length (slice c (p_offset ph) (p_filesz ph)))%nat
    with (Z.to_nat (p_memsz ph - p_filesz ph)) by lia.
  change (slice c (p_offset ph) (p_filesz ph) ++ _) with (segment_image c ph).
  rewrite w32_small by (unfold word32; lia).
  set (r := generic_region (p_vaddr ph) (p_vaddr ph + p_memsz ph) (p_flags ph) "elf" (Some b)).
  destruct (install_spec p r (<[b := segment_image c ph]> (heap p)) Hok) as (vm & -> & Hok' & Hperm & Hh & _ & Hby).
  { split_and!; cbn; (lia || done). }
  { done. }
  { apply Forall_forall. intros e He. unfold apart. cbn. destruct (Hap e He); [by right|by left]. }
  { split; [done|]. eexists. split; [done|]. split; [|by apply segment_image_bytes].
    cbn. pose proof (segment_image_length c ph Hsg). unfold size in *. lia. }
  cbn [mbind outcome_bind]. eexists f', _, r. split; [done|]. split_and!; [done..|].
  intros x. rewrite Hby. destruct (decide (inside x r)) as [Hx|Hx], (decide (covers ph x)) as [Hx'|Hx'];
    unfold inside, covers in Hx, Hx'; cbn in Hx; [|lia|lia|done]. cbn. by rewrite lookup_insert_eq.
Qed.

(** What the loop leaves behind: the segments are in memory, the rest is as before. *)
Record loads (c : list Z) (p : process) (segs : list elf32_program_header) (p' : process) : Prop := {
  lo_ok : mem_ok p';
  lo_nr : nr_pmr_ops (space p') = nr_pmr_ops (space p) + size segs;
  lo_regions : ∀ r, r ∈ regions (space p') → r ∈ regions (space p) ∨
    ∃ ph, ph ∈ segs ∧ addr_low r = p_vaddr ph ∧ addr_high r = p_vaddr ph + p_memsz ph;
  lo_held : ∀ ph, ph ∈ segs → holds p' (p_vaddr ph) (segment_image c ph);
  lo_rest : ∀ x, (∀ ph, ph ∈ segs → ¬ covers ph x) → byte_at p' x = byte_at p x
}.

Definition top_of (pb : Z) (segs : list elf32_program_header) : Z :=
  foldl (λ pb ph, Z.max pb (p_vaddr ph + p_memsz ph)) pb segs.

Lemma elf_program_header_ok c hdr idx f :
  contents f = c → size c < 2 ^ 31 → e_phentsize hdr = sizeof_program_header → 0 <= idx < e_phnum hdr →
  0 <= e_phoff hdr → e_phoff hdr + 32 * e_phnum hdr <= size c →
  ∃ f', elf_program_header hdr idx f =
      Ok (0, program_header_of (slice c (e_phoff hdr + 32 * idx) 32), f') ∧ contents f' = c.
Proof.
  intros Hf Hsz He Hi Hoff Htab. unfold elf_program_header. zbool; try lia. rewrite He. cbn [ASSERT Z.eqb Pos.eqb mbind outcome_bind].
  change sizeof_program_header with 32. change (32 =? 32) with true. cbn [ASSERT mbind outcome_bind].
  rewrite (sint_unique 32 _ (e_phoff hdr + 32 * idx)) by (lia || (f_equal; lia)).
  destruct (elf_read_ok c (e_phoff hdr + 32 * idx) 32 f) as (f' & -> & ?); [done|lia..|]. by exists f'.
Qed.

Lemma loads_cons c p ph p1 segs p' r :
  segment_ok c ph → mem_ok p1 → regions (space p1) ≡ₚ r :: regions (space p) →
  addr_low r = p_vaddr ph → addr_high r = p_vaddr ph + p_memsz ph →
  nr_pmr_ops (space p1) = nr_pmr_ops (space p) + 1 →
  (∀ x, byte_at p1 x = if decide (covers ph x) then zget (segment_image c ph) (x - p_vaddr ph) else byte_at p x) →
  (∀ ph', ph' ∈ segs → p_vaddr ph + p_memsz ph <= p_vaddr ph' ∨ p_vaddr ph' + p_memsz ph' <= p_vaddr ph) →
  loads c p1 segs p' → loads c p (ph :: segs) p'.
Proof.
  intros Hsg Hok1 Hperm Hlo Hhi Hnr Hby Hdis [Hok' Hn' Hreg Hheld Hrest]. split; [done|..].
  - unfold size in *. cbn [length]. lia.
  - intros q Hq. destruct (Hreg q Hq) as [Hq1|(ph' & ? & ?)]; [|right; exists ph'; split; [by right|done]].
    rewrite Hperm in Hq1. apply elem_of_cons in Hq1 as [-> |?]; [|by left]. right. exists ph. split; [by left|done].
  - intros q [-> |Hq]%elem_of_cons; [|by apply Hheld]. intros k x Hk.
    pose proof (segment_image_length c ph Hsg) as Hl. pose proof (lookup_lt_Some _ _ _ Hk). unfold size in Hl.
    rewrite Hrest by (intros ph' Hph'; destruct (Hdis ph' Hph'); unfold covers; lia).
    rewrite Hby, decide_True by (unfold covers; lia). apply zget_Some. split; [lia|]. rewrite <- Hk. f_equal. lia.
  - intros x Hx. rewrite Hrest by (intros; apply Hx; by right). rewrite Hby, decide_False; [done|]. apply Hx. by left.
Qed.

Lemma disjoint_segments_cons ph segs :
  disjoint_segments (ph :: segs) → disjoint_segments segs ∧
  ∀ ph', ph' ∈ segs → p_vaddr ph + p_memsz ph <= p_vaddr ph' ∨ p_vaddr ph' + p_memsz ph' <= p_vaddr ph.
Proof.
  intros Hd. split.
  - intros i j a b Hij Ha Hb. apply (Hd (S i) (S j)); [lia|done..].
  - intros ph' [j Hj]%list_elem_of_lookup. by apply (Hd 0%nat (S j)).
Qed.

Lemma segment_loop_spec c hdr n :
  Forall is_byte c → size c < 2 ^ 31 → e_phentsize hdr = sizeof_program_header → 0 <= e_phoff hdr →
  e_phoff hdr + 32 * e_phnum hdr <= size c →
  ∀ idx pb f p, contents f = c → 0 <= idx → idx + Z.of_nat n = e_phnum hdr →
  let segs := filter is_load (headers_at c (e_phoff hdr + 32 * idx) n) in
  Forall (segment_ok c) segs → disjoint_segments segs → mem_ok p →
  nr_pmr_ops (space p) + size segs <= MAX_VMA_NR →
  (∀ r ph, r ∈ regions (space p) → ph ∈ segs → addr_high r <= p_vaddr ph ∨ p_vaddr ph + p_memsz ph <= addr_low r) →
  ∃ p', segment_loop n idx pb hdr f p = Ok (top_of pb segs, p') ∧ loads c p segs p'.
Proof.
  intros Hc Hsz He Hoff Htab. induction n as [|n IH]; intros idx pb f p Hf Hi Hn segs Hok Hdis Hp Hroom Hap.
  { exists p. split; [done|]. split; [done|unfold size; simpl; lia|by left|by intros ? ?%not_elem_of_nil|done]. }
  cbn [segment_loop]. destruct (elf_program_header_ok c hdr idx f) as (f1 & -> & Hf1); [done..|lia|done|done|].
  cbn [mbind outcome_bind ASSERT Z.eqb]. unfold segs in *. cbn [headers_at] in *. set (ph := program_header_of _) in *.
  replace (e_phoff hdr + 32 * idx + 32) with (e_phoff hdr + 32 * (idx + 1)) in * by lia.
  set (rest := headers_at _ _ _) in *. destruct (decide (is_load ph)) as [Hld|Hld].
  2: { rewrite filter_cons_False in * by done. unfold is_load in Hld. zbool; try done. cbn [negb].
       apply IH; (done || lia). }
  rewrite filter_cons_True in * by done. unfold is_load in Hld. rewrite Hld, Z.eqb_refl. cbn [negb].
  apply Forall_cons in Hok as [Hsg Hoks]. apply disjoint_segments_cons in Hdis as [Hdis Hap1].
  unfold size in Hroom. cbn [length] in Hroom.
  destruct (load_segment_spec c ph f1 p) as (f2 & p1 & r & -> & Hf2 & Hok1 & Hperm & Hlo & Hhi & _ & Hby);
    [done..|lia|intros r Hr; apply Hap; [done|by left]|]. cbn [mbind outcome_bind].
  assert (Hnr : nr_pmr_ops (space p1) = nr_pmr_ops (space p) + 1).
  { rewrite <- !regions_length by apply mo_table, Hok1 || apply mo_table, Hp. rewrite Hperm. cbn [length]. lia. }
  destruct (IH (idx + 1) (if pb <? p_vaddr ph + p_memsz ph then p_vaddr ph + p_memsz ph else pb) f2 p1)
    as (p' & Hloop & Hloads); [done|lia|lia|done|done|done|unfold size, rest in *; lia| |].
  { intros q ph' Hq Hph'. rewrite Hperm in Hq. apply elem_of_cons in Hq as [-> |Hq]; [|by apply Hap; [|right]].
    rewrite Hlo, Hhi. destruct (Hap1 ph' Hph'); lia. }
  exists p'. split.
  - rewrite Hloop. unfold top_of. cbn [foldl]. do 3 f_equal. zbool; lia.
  - by eapply loads_cons.
Qed.

(** The cached pointers are not part of the invariant. *)
Lemma mem_ok_vma vm h i j :
  mem_ok (mk_process vm h) → mem_ok (mk_process (mk_space (nr_pmr_ops vm) (pmr_ops vm) i j) h).
Proof. intros [[? ? ? ?] ? ?]. by split; [split|..]. Qed.

Definition stack_region (r : pm_region_operation) : Prop :=
  addr_low r = STACK_LOW ∧ addr_high r = DEFAULT_STACK_CELIING ∧ pmr_direct r = Some vma_generic ∧
  is_Some (host_base r).

Lemma stack_init_spec p :
  mem_ok p → nr_pmr_ops (space p) < MAX_VMA_NR →
  (∀ r, r ∈ regions (space p) → addr_high r <= STACK_LOW) →
  ∃ p' r, stack_init p = Ok (p', DEFAULT_STACK_CELIING - 0x100) ∧ mem_ok p' ∧ stack_region r ∧
    regions (space p') ≡ₚ r :: regions (space p) ∧
    ∀ x, byte_at p' x = if decide (STACK_LOW <= x < DEFAULT_STACK_CELIING) then Some 0 else byte_at p x.
Proof.
  intros Hok Hn Hap. unfold stack_init. destruct (prealloc_some DEFAULT_STACK_SIZE (heap p)) as (b & -> & Hfresh).
  rewrite bool_decide_true by done. cbn [ASSERT mbind outcome_bind]. fold STACK_LOW.
  set (n := Z.to_nat DEFAULT_STACK_SIZE). assert (Hnn : Z.of_nat n = DEFAULT_STACK_CELIING - STACK_LOW) by (unfold n; rewrite Z2Nat.id; done).
  clearbody n. set (r := generic_region _ _ _ _ _).
  destruct (install_spec p r (<[b := replicate n 0]> (heap p)) Hok) as (vm & -> & Hok' & Hperm & _ & _ & Hby).
  { by split_and!. }
  { done. }
  { apply Forall_forall. intros e He. right. by apply Hap. }
  { split; [done|]. eexists. split; [done|]. split; [by rewrite length_replicate|]. by apply Forall_replicate. }
  cbn [mbind outcome_bind]. assert (Hr : r ∈ regions vm) by (rewrite Hperm; by left).
  destruct (search_member vm r STACK_LOW (mo_table _ Hok') Hr) as (i & -> & _); [done|].
  cbn [mbind outcome_bind]. rewrite bool_decide_true by done. cbn [ASSERT mbind outcome_bind].
  eexists _, r. split; [done|]. split; [by apply mem_ok_vma|]. split; [by split_and!|]. split; [done|].
  intros x. transitivity (byte_at (mk_process vm (<[b := replicate n 0]> (heap p))) x); [done|]. rewrite Hby.
  destruct (decide (inside x r)) as [Hx|Hx], (decide _) as [Hx'|Hx']; unfold inside in Hx; cbn [addr_low addr_high r generic_region] in Hx;
    [|lia|lia|done].
  cbn [r generic_region host_base mbind option_bind addr_low]. rewrite lookup_insert_eq. cbn [mbind option_bind].
  apply replicate_zget. lia.
Qed.

(** The program break [heap_init] chooses. *)
Definition initial_break (pb : Z) : Z := 4096 * ((pb + 65536) / 4096).

Definition heap_region (pb : Z) (r : pm_region_operation) : Prop :=
  addr_low r = initial_break pb - 1 ∧ addr_high r = initial_break pb ∧ host_base r = None.

Lemma heap_init_spec pb p :
  mem_ok p → nr_pmr_ops (space p) < MAX_VMA_NR → 0 <= pb → pb + 65536 <= STACK_LOW →
  (∀ r, r ∈ regions (space p) → addr_high r <= pb ∨ STACK_LOW <= addr_low r) →
  ∃ p' i r, heap_init pb p = Ok p' ∧ mem_ok p' ∧ heap_region pb r ∧
    regions (space p') ≡ₚ r :: regions (space p) ∧
    vma_heap (space p') = Some i ∧ zget (pmr_ops (space p')) i = Some r ∧
    ∀ x, byte_at p' x = byte_at p x.
Proof.
  intros Hok Hn Hpb Hfit Hap. unfold heap_init. change STACK_LOW with 0xDF800000 in Hfit, Hap.
  change (4096 * 16) with 65536. rewrite (w32_small (pb + 65536)) by (unfold word32; lia).
  rewrite (clear_low (pb + 65536) 12 0xfffff000) by (done || (unfold word32; lia) || lia).
  change (2 ^ 12) with 4096. fold (initial_break pb).
  assert (Hbrk : pb < initial_break pb - 1 ∧ initial_break pb <= 0xDF800000) by (unfold initial_break; lia_div).
  rewrite (w32_small (initial_break pb - 1)) by (unfold word32; lia).
  set (r := generic_region _ _ _ _ _).
  assert (Hfree : Forall (apart r) (regions (space p))).
  { apply Forall_forall. intros e He. destruct (Hap e He); [right|left]; cbn; lia. }
  destruct (install_spec p r (heap p) Hok) as (vm & -> & Hok' & Hperm & _ & _ & Hby).
  { split_and!; cbn; (lia || done). }
  { done. }
  { done. }
  { done. }
  cbn [mbind outcome_bind]. assert (Hr : r ∈ regions vm) by (rewrite Hperm; by left).
  destruct (search_member vm r (initial_break pb - 1) (mo_table _ Hok') Hr) as (i & -> & _ & Hz); [unfold inside; cbn; lia|].
  cbn [mbind outcome_bind]. rewrite bool_decide_true by done. cbn [ASSERT mbind outcome_bind].
  eexists _, i, r. split; [done|]. split; [by apply mem_ok_vma|]. split_and!; [done..|].
  intros x. transitivity (byte_at (mk_process vm (heap p)) x); [done|]. rewrite Hby. case_decide as Hx; [|done].
  cbn. symmetry. apply byte_at_none. intros e He Hin. rewrite Forall_forall in Hfree.
  destruct (Hfree e He); unfold inside in *; lia.
Qed.

(** The memory of a freshly loaded program. *)
Record program_memory (c : list Z) (segs : list elf32_program_header) (p : process) : Prop := {
  pm_ok : mem_ok p;
  pm_segments : ∀ ph, ph ∈ segs → holds p (p_vaddr ph) (segment_image c ph);
  pm_stack : ∀ x, STACK_LOW <= x < DEFAULT_STACK_CELIING → byte_at p x = Some 0;
  pm_rest : ∀ x, (∀ ph, ph ∈ segs → ¬ covers ph x) → ¬ STACK_LOW <= x < DEFAULT_STACK_CELIING → byte_at p x = None;
  pm_stack_region : ∃ r, r ∈ regions (space p) ∧ stack_region r;
  pm_heap : ∃ i r, vma_heap (space p) = Some i ∧ zget (pmr_ops (space p)) i = Some r ∧
    heap_region (top_of 0 segs) r
}.

Lemma top_of_bound segs pb :
  pb <= top_of pb segs ∧ (∀ ph, ph ∈ segs → p_vaddr ph + p_memsz ph <= top_of pb segs) ∧
  ∀ m, pb <= m → (∀ ph, ph ∈ segs → p_vaddr ph + p_memsz ph <= m) → top_of pb segs <= m.
Proof.
  revert pb. induction segs as [|ph segs IH]; intros pb; unfold top_of; cbn [foldl].
  { split_and!; [lia|by intros ? ?%not_elem_of_nil|done]. }
  destruct (IH (Z.max pb (p_vaddr ph + p_memsz ph))) as (H1 & H2 & H3). unfold top_of in *. split_and!.
  - lia.
  - intros q [-> |Hq]%elem_of_cons; [lia|by apply H2].
  - intros m Hm Hall. apply H3; [specialize (Hall ph ltac:(by left)); lia|]. intros q Hq. apply Hall. by right.
Qed.

Lemma elf_header_ok c hdr segs f :
  loadable c hdr segs → contents f = c → ∃ f', elf_header f = (0, hdr, f') ∧ contents f' = c.
Proof.
  intros [? [Hs1 Hs2] Hhdr Hm Hcl Hma _ _ _ _ _ _ _ _] Hf. unfold elf_header.
  destruct (elf_read_ok c 0 sizeof_elf_header f) as (f' & -> & ?); [done|done|done|lia|].
  rewrite <- Hhdr, Hm, Hcl, Hma. by exists f'.
Qed.

Lemma program_init_spec c hdr segs a :
  loadable c hdr segs → mem_ok (memory a) → regions (space (memory a)) = [] →
  ∃ p', program_init (Some c) a =
      Ok (mk_app p' (set_gpr (set_pc (cpu a) (e_entry hdr)) 2 (DEFAULT_STACK_CELIING - 0x100))) ∧
    program_memory c segs p'.
Proof.
  intros Hld Hok Hempty. unfold program_init, elf_open.
  destruct (elf_header_ok c hdr segs (mk_elf_file c 0) Hld eq_refl) as (f & -> & Hf). cbn [ASSERT Z.eqb mbind outcome_bind].
  destruct Hld as [Hb [_ Hsz] _ _ _ _ He Hoff Hnum Htab Hsegs Hnr Hoks Hdis].
  assert (Hn0 : nr_pmr_ops (space (memory a)) = 0) by (rewrite <- regions_length, Hempty by apply Hok; done).
  pose proof (segment_loop_spec c hdr (Z.to_nat (e_phnum hdr)) Hb Hsz He Hoff Htab 0 0 f (memory a) Hf) as HL.
  rewrite Z.mul_0_r, Z.add_0_r, <- Hsegs in HL.
  destruct HL as (p1 & -> & Hl); [lia|lia|done|done|done|lia| |].
  { intros r ph Hr. rewrite Hempty in Hr. by apply not_elem_of_nil in Hr. }
  cbn [mbind outcome_bind].
  destruct Hl as [Hok1 Hnr1 Hreg1 Hheld1 Hrest1]. rewrite Forall_forall in Hoks.
  destruct (top_of_bound segs 0) as (Ht0 & Htop & Hleast).
  assert (Hbelow : ∀ r, r ∈ regions (space p1) → addr_high r <= top_of 0 segs).
  { intros r Hr. destruct (Hreg1 r Hr) as [Hr0|(ph & Hph & _ & ->)]; [by rewrite Hempty in Hr0; apply not_elem_of_nil in Hr0|by apply Htop]. }
  assert (Hmax : top_of 0 segs + 65536 <= STACK_LOW).
  { enough (top_of 0 segs <= STACK_LOW - 65536) by lia. apply Hleast; [done|]. intros ph Hph. destruct (Hoks ph Hph). lia. }
  assert (Hcount : ∀ p q r, table_ok p → table_ok q → regions q ≡ₚ r :: regions p → nr_pmr_ops q = nr_pmr_ops p + 1).
  { intros p q r Hp Hq Hpq. rewrite <- !regions_length, Hpq by done. cbn [length]. lia. }
  unfold size in *. destruct (stack_init_spec p1 Hok1) as (p2 & r2 & -> & Hok2 & Hst & Hperm2 & Hby2);
    [lia|intros r Hr; specialize (Hbelow r Hr); lia|]. cbn [mbind outcome_bind].
  destruct (heap_init_spec (top_of 0 segs) p2 Hok2) as (p3 & i & r3 & -> & Hok3 & Hhr & Hperm3 & Hvh & Hz & Hby3);
    [erewrite Hcount; [| |apply Hok2|exact Hperm2]; [lia|apply Hok1]|done|done| |].
  { intros r Hr. rewrite Hperm2 in Hr. apply elem_of_cons in Hr as [-> |Hr]; [right; by rewrite (proj1 Hst)|left; by apply Hbelow]. }
  cbn [mbind outcome_bind]. exists p3. split; [done|]. split.
  - done.
  - intros ph Hph k x Hk. rewrite Hby3, Hby2. destruct (Hoks ph Hph).
    pose proof (segment_image_length c ph (Hoks ph Hph)) as Hl. unfold size in Hl. pose proof (lookup_lt_Some _ _ _ Hk).
    rewrite decide_False by lia. by apply Hheld1.
  - intros x Hx. by rewrite Hby3, Hby2, decide_True.
  - intros x Hx Hs. rewrite Hby3, Hby2, decide_False by done. rewrite Hrest1 by done.
    apply byte_at_none. intros r Hr. rewrite Hempty in Hr. by apply not_elem_of_nil in Hr.
  - exists r2. split; [rewrite Hperm3, Hperm2; by right; left|done].
  - by exists i, r3.
Qed.

(** [program_init] on an empty address space and a well-formed executable,
    with host memory available, sets the pc to the entry point and the stack
    pointer below the ceiling, and leaves a well-formed address space in which
    every loadable segment holds its bytes of the file followed by zeros, the
    stack is zeroed, the heap is an empty region at a page boundary above the
    segments, and nothing else is mapped. *)
Theorem program_init_correct c hdr segs a :
  loadable c hdr segs → mem_ok (memory a) → regions (space (memory a)) = [] →
  ∃ p', program_init (Some c) a =
      Ok (mk_app p' (set_gpr (set_pc (cpu a) (e_entry hdr)) 2 (DEFAULT_STACK_CELIING - 0x100))) ∧
    program_memory c segs p'.
Proof. apply program_init_spec. Qed.

End loading.

(** ** A concrete executable and a concrete stack *)
#[export] Instance file_read : HostRead :=
  {| host_read null c pos n :=
       if null then (-1, []) else let bs := slice c pos n in (size bs, bs) |}.

#[export] Instance file_read_ok : HostReadOk.
Proof. by split. Qed.

(** One loadable segment of four bytes of file and eight of memory at 0x10000. *)
Definition demo_elf : list Z :=
  word ELF32_IDENTITY_ELF ++ [1; 1; 1; 0] ++ word 0 ++ word 0 ++ le_split 2 2 ++ le_split 2 0xf3 ++ word 1 ++
  word 0x10000 ++ word 52 ++ word 0 ++ word 0 ++ le_split 2 52 ++ le_split 2 32 ++ le_split 2 1 ++
  le_split 2 0 ++ le_split 2 0 ++ le_split 2 0 ++
  word 1 ++ word 84 ++ word 0x10000 ++ word 0x10000 ++ word 4 ++ word 8 ++ word 5 ++ word 4 ++
  word 0x00000073.

Definition demo_header : elf32_elf_header := elf_header_of (slice demo_elf 0 sizeof_elf_header).

Definition demo_segment : elf32_program_header :=
  mk_program_header PROGRAM_TYPE_LOAD 84 0x10000 0x10000 4 8 5 4.

Lemma demo_loadable : loadable demo_elf demo_header [demo_segment].
Proof.
  split; try done.
  - unfold demo_elf. repeat apply Forall_app_2; try apply le_split_bytes. repeat constructor; lia.
  - constructor; [|done]. by split.
  - intros [|[|i]] [|[|j]] a b Hij Ha Hb; simplify_eq/=; lia.
Qed.

Definition empty_process : process := mk_process (space_of []) ∅.

Lemma empty_process_ok : mem_ok empty_process.
Proof.
  split; [split; [done|done|constructor|]|by intros ? ? ?%not_elem_of_nil|constructor].
  intros i j a b _ Ha. by destruct i.
Qed.

Lemma program_init_correct_witness :
  ∃ p', program_init (HR := file_read) (HA := bump_alloc) (Some demo_elf) (mk_app empty_process (mk_guest (replicate 32 0) 0)) =
      Ok (mk_app p' (set_gpr (set_pc (mk_guest (replicate 32 0) 0) (e_entry demo_header)) 2
            (DEFAULT_STACK_CELIING - 0x100))) ∧
    program_memory demo_elf [demo_segment] p'.
Proof.
  apply (program_init_correct (HA := bump_alloc) (HAok := bump_alloc_ok) (λ h n, ex_intro _ _ eq_refl)
    demo_elf demo_header [demo_segment] (mk_app empty_process (mk_guest (replicate 32 0) 0)));
    [apply demo_loadable|apply empty_process_ok|reflexivity].
Defined.

Definition demo_stack : pm_region_operation := generic_region 0x1000 0x1100 6 "stack" (Some 1).

(** A process with a small stack and [sp] near its end. *)
Definition demo_app : application :=
  mk_app (mk_process (space_of [demo_stack]) {[ 1 := replicate 256 0 ]})
    (mk_guest (<[2%nat := 0x10f0]> (replicate 32 0)) 0x10000).

Lemma demo_app_ok : mem_ok (memory demo_app).
Proof.
  split.
  - split; [done|done|repeat constructor; simpl; try lia; try done|].
    intros [|[|i]] [|[|j]] a b Hij Ha Hb; simplify_eq/=; lia.
  - intros r b Hr Hb. apply list_elem_of_singleton in Hr as ->. injection Hb as <-.
    exists (replicate 256 0). split; [done|]. split; [done|]. by apply Forall_replicate.
  - apply NoDup_singleton.
Qed.

Lemma env_setup_correct_witness :
  ∃ sp args envs p', env_setup [[104; 105]] [[65; 61; 49]] demo_app = Ok (mk_app p' (set_gpr (cpu demo_app) 2 sp)) ∧
    mem_ok p' ∧ space p' = space (memory demo_app) ∧
    0x10f0 - stack_need [[104; 105]] [[65; 61; 49]] <= sp <= 0x10f0 ∧
    holds p' sp (env_table 0x10f0 0x10000 args envs) ∧
    Forall2 (holds p') args ((λ s, s ++ [0]) <$> [[104; 105]]) ∧
    Forall2 (holds p') envs ((λ s, s ++ [0]) <$> [[65; 61; 49]]) ∧
    ∀ x, ¬ (sp <= x < 0x10f0) → byte_at p' x = byte_at (memory demo_app) x.
Proof.
  apply (env_setup_correct demo_app [[104; 105]] [[65; 61; 49]] demo_stack 1 demo_app_ok);
    first [by apply list_elem_of_singleton | done | repeat first [apply Forall_nil_2 | apply Forall_cons_2]; done].
Defined.

(** The stack pointer the program starts with is aligned before the vectors are
    pushed, not after: with one argument and no environment it is 8 modulo 16. *)
Theorem env_setup_misaligned :
  match env_setup [[104; 105]] [] demo_app with
  | Ok a => gpr (cpu a) 2 mod 16 = 8
  | Err _ => False
  end.
Proof. vm_compute. done. Qed.

(** A segment with more bytes in the file than in memory is read past its block. *)
Theorem oversized_segment :
  load_segment (HR := file_read) (HA := bump_alloc) (mk_program_header 1 84 0x10000 0x10000 4 2 5 4)
    (mk_elf_file demo_elf 0) empty_process = Err EUndef.
Proof. vm_compute. done. Qed.

End Loader.
