(* ===== verification/Path.v ===== *)
(** * Paths: canonicalize_path_name and the paths of the file system calls (vfs.c)

    A guest path is made canonical, put behind the root directory of the sandbox
    and, when it is relative, the working directory, and made canonical again.
    [canonicalize_path_name] is modelled with its index stack and its buffers and
    proved equal to a definition on lists of words; the host path is proved to
    stay below the root. *)
From S2P Require Import Prelude.

Module Path.

Definition MAX_PATH : Z := 512.

(** Characters. *)
Definition SLASH : Z := 47.

Definition DOT : Z := 46.

Definition SPACE : Z := 32.

(** String literals. *)
Definition chars (s : string) : list Z :=
  (λ a, Z.of_N (Ascii.N_of_ascii a)) <$> String.list_ascii_of_string s.

Definition cstring (s : string) : list Z := chars s ++ [0].

(** The string in a buffer. *)
Fixpoint upto_nul (l : list Z) : list Z :=
  match l with [] => [] | c :: l => if c =? 0 then [] else c :: upto_nul l end.

(** ** canonicalize_path_name

    [src] is the memory from the source pointer on.  The state of the first loop:
    [word_start], [index_ptr] and [index_stack]. *)
Record scan_state := mk_scan {
  word_start : Z;
  index_ptr : Z;
  index_stack : list Z
}.

Definition set_start (st : scan_state) (w : Z) : scan_state :=
  mk_scan w (index_ptr st) (index_stack st).

(** [index_stack[index_ptr++] = word_start]. *)
Definition push_word (st : scan_state) : outcome scan_state :=
  stk ← deref (zset (index_stack st) (index_ptr st) (word_start st));
  Ok (mk_scan (word_start st) (index_ptr st + 1) stk).

(** The part of the loop body behind "At least '/' appears before". *)
Definition close_word (src : list Z) (idx c : Z) (st : scan_state) : outcome scan_state :=
  let word_len := idx - word_start st in
  if word_len =? 1 then
    if (c =? 0) && (index_ptr st =? 0) then push_word st else Ok (set_start st idx)
  else
    c1 ← deref (zget src (idx - 1));
    if (word_len =? 2) && (c1 =? DOT) then Ok (set_start st idx) else
    c2 ← deref (zget src (idx - 2));
    if (word_len =? 3) && (c1 =? DOT) && (c2 =? DOT) then
      Ok (mk_scan idx (if index_ptr st =? 0 then 0 else index_ptr st - 1) (index_stack st))
    else
      st ← push_word st;
      Ok (set_start st idx).

(** [n] iterations of the first loop from [idx]. *)
Fixpoint scan_loop (n : nat) (idx : Z) (src : list Z) (st : scan_state) : outcome scan_state :=
  match n with
  | O => Ok st
  | S n =>
      c ← deref (zget src idx);
      if negb (c =? SLASH) && negb (c =? 0) && negb (idx =? 0) then scan_loop n (idx + 1) src st
      else if (word_start st =? -1) && negb (c =? 0) then scan_loop n (idx + 1) src (set_start st idx)
      else if (word_start st =? -1) && (c =? 0) then Ok st
      else
        st ← close_word src idx c st;
        if c =? 0 then Ok st else scan_loop n (idx + 1) src st
  end.

(** The search for [word_end]: [n] iterations from [idx1]. *)
Fixpoint word_end_loop (n : nat) (idx1 : Z) (src : list Z) : outcome Z :=
  match n with
  | O => Ok 0
  | S n =>
      c ← deref (zget src idx1);
      if c =? SLASH then Ok idx1
      else if c =? 0 then Ok (idx1 + 1)
      else word_end_loop n (idx1 + 1) src
  end.

(** [for (idx1 = word_start; idx1 < word_end; idx1++) dst[iptr++] = src[idx1]]. *)
Fixpoint copy_loop (n : nat) (idx1 : Z) (src dst : list Z) (iptr : Z) : outcome (list Z * Z) :=
  match n with
  | O => Ok (dst, iptr)
  | S n =>
      c ← deref (zget src idx1);
      dst ← deref (zset dst iptr c);
      copy_loop n (idx1 + 1) src dst (iptr + 1)
  end.

(** [n] iterations of "Reform the path" from [idx]. *)
Fixpoint reform_loop (n : nat) (idx : Z) (stk src dst : list Z) (iptr : Z) : outcome (list Z * Z) :=
  match n with
  | O => Ok (dst, iptr)
  | S n =>
      word_start ← deref (zget stk idx);
      word_end ← word_end_loop (Z.to_nat (MAX_PATH - (word_start + 1))) (word_start + 1) src;
      '(dst, iptr) ← copy_loop (Z.to_nat (word_end - word_start)) word_start src dst iptr;
      reform_loop n (idx + 1) stk src dst iptr
  end.

Definition canonicalize_path_name (dst src : list Z) : outcome (list Z) :=
  st ← scan_loop (Z.to_nat MAX_PATH) 0 src (mk_scan (-1) 0 (replicate 256 0));
  '(dst, iptr) ← reform_loop (Z.to_nat (index_ptr st)) 0 (index_stack st) src dst 0;
  deref (zset dst iptr 0).

(** ** append_string of util.h

    [current] is the buffer and the offset in it.  The loop runs over at most the
    bytes of [substring], which are read up to the NUL. *)
Fixpoint append_loop (substring cur : list Z) (pos : Z) : outcome (list Z * Z) :=
  match substring with
  | [] => Err EUndef
  | c :: rest =>
      if c =? 0 then
        cur ← deref (zset cur pos 0);
        Ok (cur, pos)
      else
        cur ← deref (zset cur pos c);
        append_loop rest cur (pos + 1)
  end.

Definition append_string (cur : list Z) (pos : Z) (substring : list Z) : outcome (list Z * Z) :=
  append_loop substring cur pos.

(** ** The paths of do_openat, do_statx, do_readlinkat and do_unlinkat

    [for (; *ptr && *ptr == ' '; ptr++);] and the test for a relative path. *)
Fixpoint is_relative (path : list Z) : outcome bool :=
  match path with
  | [] => Err EUndef
  | c :: rest => if c =? SPACE then is_relative rest else Ok (negb (c =? SLASH))
  end.

Definition AT_FDCWD : Z := -100.

(** The directory in front of a relative path; [strict] for do_openat, which ends
    the emulator for another [dirfd]; the other calls take none. *)
Definition relative_dir (strict : bool) (dirfd : Z) (cwd path : list Z) : outcome (list Z) :=
  rel ← is_relative path;
  if (rel : bool) then
    if sint 32 dirfd =? AT_FDCWD then Ok cwd else if strict then not_reach else Ok [0]
  else Ok [0].

(** From [guest_path] to [host_cpath]; also the directory and the guest's canonical
    path.  [buffer] is what the local arrays hold before they are written. *)
Definition host_path_of (buffer : list Z) (strict : bool) (root cwd : list Z) (dirfd : Z)
    (guest_path : list Z) : outcome (list Z * list Z * list Z) :=
  guest_cpath ← canonicalize_path_name buffer guest_path;
  dir ← relative_dir strict dirfd cwd guest_path;
  '(host_path, ptr) ← append_string buffer 0 root;
  '(host_path, ptr) ← append_string host_path ptr dir;
  '(host_path, ptr) ← append_string host_path ptr guest_cpath;
  host_cpath ← canonicalize_path_name buffer host_path;
  Ok (host_cpath, dir, guest_cpath).

(** ** The reference: a path as a list of words

    A word is a character (the slash, or the first character of the path) and the
    characters up to the next slash.  An empty word and "." are dropped, ".."
    drops the word before it; an empty last word stands when it is the only one. *)
Fixpoint split_at_slash (cur s : list Z) : list (list Z) :=
  match s with
  | [] => [cur]
  | c :: s => if c =? SLASH then cur :: split_at_slash [c] s else split_at_slash (cur ++ [c]) s
  end.

Definition path_words (s : list Z) : list (list Z) :=
  match s with [] => [] | c :: s => split_at_slash [c] s end.

Definition pop {A} (stk : list A) : list A := take (pred (length stk)) stk.

Definition step {A} (last : bool) (stk : list A) (e : A) (w : list Z) : list A :=
  match w with
  | [] => if last then match stk with [] => [e] | _ => stk end else stk
  | [d] => if d =? DOT then stk else stk ++ [e]
  | [d1; d2] => if (d1 =? DOT) && (d2 =? DOT) then pop stk else stk ++ [e]
  | _ => stk ++ [e]
  end.

Definition no_words {A} (l : list A) : bool := match l with [] => true | _ => false end.

Fixpoint canonical (ws stk : list (list Z)) : list (list Z) :=
  match ws with
  | [] => stk
  | x :: ws => canonical ws (step (no_words ws) stk x (tail x))
  end.

Definition canonical_path (s : list Z) : list Z := mjoin (canonical (path_words s) []).

(** The same with the position of each word. *)
Fixpoint canon_at (p : Z) (ws : list (list Z)) (stk : list (Z * list Z)) : list (Z * list Z) :=
  match ws with
  | [] => stk
  | x :: ws => canon_at (p + Z.of_nat (length x)) ws (step (no_words ws) stk (p, x) (tail x))
  end.

(** ** Words *)
Definition plain_char (c : Z) : Prop := c ≠ SLASH ∧ c ≠ 0.

Definition word_ok (x : list Z) : Prop := ∃ c w, x = c :: w ∧ c ≠ 0 ∧ Forall plain_char w.

(** Every word but the first starts with a slash. *)
Definition words_ok (ws : list (list Z)) : Prop :=
  Forall word_ok ws ∧ Forall (λ x, head x = Some SLASH) (tail ws).

Lemma split_words_ok cur s :
  word_ok cur → Forall (λ c, c ≠ 0) s →
  words_ok (split_at_slash cur s) ∧ mjoin (split_at_slash cur s) = cur ++ s ∧
  head (split_at_slash cur s) ≫= head = head cur.
Proof.
  revert cur. induction s as [|c s IH]; intros cur Hcur Hs; simpl.
  { split; [by split; repeat constructor|]. rewrite app_nil_r. done. }
  apply Forall_cons in Hs as [Hc Hs]. destruct (Z.eqb_spec c SLASH) as [->|Hne].
  - destruct (IH [SLASH]) as ([H1 H2] & Hj & Hh); [by exists SLASH, []|done|].
    split; [split; [by constructor|]|].
    + simpl. destruct (split_at_slash [SLASH] s) as [|y ys]; [done|]. constructor; [done|exact H2].
    + simpl. by rewrite Hj.
  - destruct (IH (cur ++ [c])) as (H1 & Hj & Hh).
    { destruct Hcur as (c0 & w & -> & ? & ?). exists c0, (w ++ [c]). split_and!; [done|done|].
      apply Forall_app. by repeat constructor. }
    { done. }
    split; [done|]. rewrite Hj, <- app_assoc. split; [done|]. rewrite Hh.
    destruct Hcur as (c0 & w & -> & ? & ?). done.
Qed.

Lemma path_words_ok s :
  Forall (λ c, c ≠ 0) s → words_ok (path_words s) ∧ mjoin (path_words s) = s.
Proof.
  destruct s as [|c s]; intros Hs; [by split; [split; constructor|]|].
  apply Forall_cons in Hs as [Hc Hs]. destruct (split_words_ok [c] s) as (? & Hj & _).
  - by exists c, [].
  - done.
  - simpl. by rewrite Hj.
Qed.

Lemma step_map {A B} (f : A → B) last stk e w : f <$> step last stk e w = step last (f <$> stk) (f e) w.
Proof.
  assert (Hpop : f <$> pop stk = pop (f <$> stk)) by (unfold pop; by rewrite length_fmap, fmap_take).
  unfold step. destruct w as [|d1 [|d2 [|d3 w]]].
  - destruct last; [|done]. by destruct stk.
  - destruct (d1 =? DOT); [done|]. by rewrite fmap_app.
  - destruct (_ && _); [done|]. by rewrite fmap_app.
  - by rewrite fmap_app.
Qed.

Lemma canon_at_snd p ws stk : snd <$> canon_at p ws stk = canonical ws (snd <$> stk).
Proof.
  revert p stk. induction ws as [|x ws IH]; intros p stk; simpl; [done|]. by rewrite IH, step_map.
Qed.

(** ** The first loop *)

(** The stack of the C code holds the positions of [stk]. *)
Definition stack_at (st : scan_state) (stk : list (Z * list Z)) : Prop :=
  index_ptr st = Z.of_nat (length stk) ∧ length (index_stack st) = 256%nat ∧
  take (length stk) (index_stack st) = fst <$> stk.

Lemma push_word_spec st stk x :
  stack_at st stk → (length stk < 256)%nat →
  ∃ st', push_word st = Ok st' ∧ word_start st' = word_start st ∧
    stack_at st' (stk ++ [(word_start st, x)]).
Proof.
  intros (Hp & Hl & Ht) Hlt. unfold push_word. rewrite Hp, zset_ok by lia.
  cbn [deref mbind outcome_bind]. eexists. split; [done|]. split; [done|].
  split_and!; cbn [index_ptr index_stack]; [rewrite length_app; simpl; lia|by rewrite length_insert|].
  rewrite length_app, fmap_app, <- Ht. simpl. rewrite Nat.add_1_r, Nat2Z.id.
  rewrite (take_S_r _ _ (word_start st)) by (apply list_lookup_insert_eq; lia).
  by rewrite take_insert_ge by lia.
Qed.

Lemma pop_spec st stk idx :
  stack_at st stk →
  stack_at (mk_scan idx (if index_ptr st =? 0 then 0 else index_ptr st - 1) (index_stack st)) (pop stk).
Proof.
  intros (Hp & Hl & Ht). unfold stack_at, pop. cbn [index_ptr index_stack]. rewrite length_take, Hp.
  split_and!; [|done|].
  - destruct (Z.eqb_spec (Z.of_nat (length stk)) 0); lia.
  - by rewrite fmap_take, <- Ht, take_take.
Qed.

(** The end of a word: the character [c] behind it is a slash or the NUL. *)
Lemma close_word_spec src a l w c b st stk :
  src = a ++ (l :: w) ++ c :: b → word_start st = Z.of_nat (length a) → stack_at st stk →
  (length stk < 256)%nat →
  let idx := Z.of_nat (length a) + (1 + Z.of_nat (length w)) in
  ∃ st', close_word src idx c st = Ok st' ∧ (c ≠ 0 → word_start st' = idx) ∧
    stack_at st' (step (c =? 0) stk (Z.of_nat (length a), l :: w) w).
Proof.
  intros -> Hws Hst Hlt idx. unfold close_word. rewrite Hws.
  assert (Hget : ∀ k, 0 <= k → zget (a ++ (l :: w) ++ c :: b) (Z.of_nat (length a) + k) =
    zget ((l :: w) ++ c :: b) k) by (intros; by apply zget_app_r).
  replace (idx - Z.of_nat (length a)) with (1 + Z.of_nat (length w)) by lia.
  destruct (push_word_spec st stk (l :: w) Hst Hlt) as (st1 & Hpush & Hws1 & Hst1). rewrite Hws in Hws1, Hst1.
  destruct w as [|d1 w].
  - cbn. destruct Hst as (Hp & Hl & Ht). destruct (Z.eqb_spec c 0) as [->|Hc]; cbn [andb].
    + rewrite Hp. destruct stk as [|e stk]; [by eexists|]. by eexists.
    + by eexists.
  - replace (idx - 1) with (Z.of_nat (length a) + Z.of_nat (length (d1 :: w))) by (unfold idx; simpl length; lia).
    replace (idx - 2) with (Z.of_nat (length a) + Z.of_nat (length w)) by (unfold idx; simpl length; lia).
    rewrite !Hget by lia. destruct (Z.eqb_spec (1 + Z.of_nat (length (d1 :: w))) 1); [simpl length in *; lia|].
    destruct w as [|d2 [|d3 w]]; cbn -[Z.of_nat Z.add].
    + change (zget (l :: d1 :: c :: b) (Z.of_nat 1)) with (Some d1).
      change (zget (l :: d1 :: c :: b) (Z.of_nat 0)) with (Some l). cbn [deref mbind outcome_bind].
      change (1 + Z.of_nat 1) with 2. cbn [Z.eqb Pos.eqb andb].
      destruct (d1 =? DOT); [by eexists|]. rewrite Hpush. by eexists.
    + change (zget (l :: d1 :: d2 :: c :: b) (Z.of_nat 2)) with (Some d2).
      change (zget (l :: d1 :: d2 :: c :: b) (Z.of_nat 1)) with (Some d1). cbn [deref mbind outcome_bind].
      change (1 + Z.of_nat 2) with 3. cbn [Z.eqb Pos.eqb andb]. rewrite andb_comm.
      destruct (_ && _); [|rewrite Hpush; by eexists].
      eexists. split; [done|]. split; [done|]. by apply pop_spec.
    + destruct (zget_is_Some ((l :: d1 :: d2 :: d3 :: w) ++ c :: b) (Z.of_nat (length (d1 :: d2 :: d3 :: w))))
        as [c1 Hc1]; [rewrite length_app; simpl; lia|].
      destruct (zget_is_Some ((l :: d1 :: d2 :: d3 :: w) ++ c :: b) (Z.of_nat (length (d2 :: d3 :: w))))
        as [c2 Hc2]; [rewrite length_app; simpl; lia|].
      cbn [app length] in Hc1, Hc2. rewrite Hc1, Hc2. cbn [deref mbind outcome_bind].
      destruct (Z.eqb_spec (1 + Z.of_nat (S (S (S (length w))))) 2); [lia|].
      destruct (Z.eqb_spec (1 + Z.of_nat (S (S (S (length w))))) 3); [lia|]. cbn [andb].
      rewrite Hpush. by eexists.
Qed.

(** The characters inside a word are skipped. *)
Lemma scan_skip w : ∀ n a b src st,
  Forall plain_char w → src = a ++ w ++ b → (0 < length a)%nat →
  scan_loop (length w + n) (Z.of_nat (length a)) src st =
    scan_loop n (Z.of_nat (length a) + Z.of_nat (length w)) src st.
Proof.
  induction w as [|c w IH]; intros n a b src st Hw Hsrc Ha; [by rewrite Z.add_0_r|].
  apply Forall_cons in Hw as [[Hc1 Hc2] Hw]. cbn [length Nat.add scan_loop].
  rewrite Hsrc at 1. cbn [app]. rewrite zget_middle. cbn [deref mbind outcome_bind].
  destruct (Z.eqb_spec c SLASH); [done|]. destruct (Z.eqb_spec c 0); [done|].
  destruct (Z.eqb_spec (Z.of_nat (length a)) 0); [lia|]. cbn [negb andb].
  rewrite <- (length_snoc_Z a c), (IH n (a ++ [c]) b src st Hw).
  - f_equal. rewrite length_snoc_Z. lia.
  - by rewrite Hsrc, <- app_assoc.
  - rewrite length_app. lia.
Qed.

Lemma step_length {A} last (stk : list A) e w :
  (length (step last stk e w) <= length stk + (if w then 1 else 1))%nat ∧
  (w = [] → last = false → length (step last stk e w) = length stk).
Proof.
  unfold step, pop. destruct w as [|d1 [|d2 [|d3 w]]].
  - destruct last; [|lia]. destruct stk; simpl; split; (lia || done).
  - split; [|done]. destruct (d1 =? DOT); rewrite ?length_app; simpl; lia.
  - split; [|done]. destruct (_ && _); rewrite ?length_take, ?length_app; simpl; lia.
  - split; [|done]. rewrite length_app. simpl. lia.
Qed.

(** The loop from the second character of a word to the character behind it. *)
Lemma scan_word src a l w c b st n :
  src = a ++ (l :: w) ++ c :: b → Forall plain_char w → c = SLASH ∨ c = 0 →
  word_start st = Z.of_nat (length a) →
  let idx := Z.of_nat (length a) + (1 + Z.of_nat (length w)) in
  scan_loop (length w + S n) (Z.of_nat (length a) + 1) src st =
    (st ← close_word src idx c st; if c =? 0 then Ok st else scan_loop n (idx + 1) src st).
Proof.
  intros Hsrc Hw Hc Hst idx.
  rewrite <- (length_snoc_Z a l), (scan_skip w (S n) (a ++ [l]) (c :: b));
    [|done|by rewrite Hsrc, <- app_assoc|rewrite length_app; simpl; lia].
  rewrite length_snoc_Z, <- Z.add_assoc. fold idx. cbn [scan_loop].
  assert (zget src idx = Some c) as ->.
  { rewrite Hsrc. unfold idx. rewrite zget_app_r by lia.
    rewrite <- (zget_middle (l :: w) b c). f_equal. simpl length. lia. }
  cbn [deref mbind outcome_bind]. rewrite Hst.
  destruct (Z.eqb_spec (Z.of_nat (length a)) (-1)); [lia|]. by destruct Hc as [-> | ->].
Qed.

Lemma mjoin_cons {A} (x : list A) ws : mjoin (x :: ws) = x ++ mjoin ws.
Proof. done. Qed.

Lemma scan_words ws : ∀ a x b src st stk n,
  word_ok x → Forall word_ok ws → Forall (λ x, head x = Some SLASH) ws →
  src = a ++ mjoin (x :: ws) ++ 0 :: b → word_start st = Z.of_nat (length a) → stack_at st stk →
  (2 * length stk <= length a)%nat → (length a + length (mjoin (x :: ws)) < 512)%nat →
  (length (mjoin (x :: ws)) <= n)%nat →
  ∃ st', scan_loop n (Z.of_nat (length a) + 1) src st = Ok st' ∧
    stack_at st' (canon_at (Z.of_nat (length a)) (x :: ws) stk).
Proof.
  induction ws as [|y ws IH]; intros a x b src st stk n (l & w & -> & Hl & Hw) Hws Hlead Hsrc Hst Hstk H2 Hlen Hn.
  - rewrite mjoin_cons, app_nil_r in *. cbn [length] in *.
    replace n with (length w + S (n - S (length w)))%nat by lia.
    rewrite (scan_word src a l w 0 b st _ Hsrc Hw ltac:(by right) Hst).
    destruct (close_word_spec src a l w 0 b st stk Hsrc Hst Hstk ltac:(lia)) as (st' & -> & _ & Hst').
    cbn [mbind outcome_bind]. by exists st'.
  - apply Forall_cons in Hws as [Hy Hws]. pose proof Hy as (l' & w' & -> & Hl' & Hw').
    apply Forall_cons in Hlead as [[= ->] Hlead].
    rewrite mjoin_cons, mjoin_cons in Hsrc. rewrite !mjoin_cons, !length_app in Hlen, Hn. cbn [length] in Hlen, Hn.
    assert (Hsrc' : src = a ++ (l :: w) ++ SLASH :: (w' ++ mjoin ws ++ 0 :: b))
      by (rewrite Hsrc, <- !app_assoc; done).
    replace n with (length w + S (n - S (length w)))%nat by lia.
    rewrite (scan_word src a l w SLASH _ st _ Hsrc' Hw ltac:(by left) Hst).
    destruct (close_word_spec src a l w SLASH _ st stk Hsrc' Hst Hstk ltac:(lia)) as (st' & -> & Hst' & Hstk').
    cbn [mbind outcome_bind Z.eqb SLASH]. fold SLASH.
    assert (Hla : Z.of_nat (length (a ++ l :: w)) = Z.of_nat (length a) + (1 + Z.of_nat (length w)))
      by (rewrite length_app; simpl length; lia).
    rewrite <- Hla. change (canon_at (Z.of_nat (length a)) ((l :: w) :: (SLASH :: w') :: ws) stk)
      with (canon_at (Z.of_nat (length a) + Z.of_nat (length (l :: w))) ((SLASH :: w') :: ws)
        (step false stk (Z.of_nat (length a), l :: w) w)).
    replace (Z.of_nat (length a) + Z.of_nat (length (l :: w))) with (Z.of_nat (length (a ++ l :: w)))
      by (rewrite length_app; lia).
    destruct (IH (a ++ l :: w) (SLASH :: w') b src st' (step false stk (Z.of_nat (length a), l :: w) w)
      (n - S (length w))%nat) as (st'' & Hrun & Hst''); [done..| | | | | | |].
    + by rewrite Hsrc, mjoin_cons, <- !app_assoc.
    + rewrite Hla. by apply Hst'.
    + exact Hstk'.
    + destruct (step_length false stk (Z.of_nat (length a), l :: w) w) as [Hs1 Hs2].
      rewrite length_app. cbn [length]. destruct w; [rewrite Hs2 by done|cbn [length]]; lia.
    + rewrite mjoin_cons, !length_app. cbn [length]. lia.
    + rewrite mjoin_cons, length_app. cbn [length]. lia.
    + by exists st''.
Qed.

(** ** The second loop *)

(** The word [e] stands in [src] at its position, with [c] behind it. *)
Definition closed (src : list Z) (c : Z) (e : Z * list Z) : Prop :=
  ∃ a b, src = a ++ snd e ++ c :: b ∧ fst e = Z.of_nat (length a) ∧ word_ok (snd e) ∧
    (length a + length (snd e) < 512)%nat.

Lemma step_cases {A} last (stk : list A) e w :
  step last stk e w = stk ∨ step last stk e w = pop stk ∨ step last stk e w = stk ++ [e].
Proof.
  unfold step. destruct w as [|d1 [|d2 [|d3 w]]]; [|destruct (_ =? _)|destruct (_ && _)|]; auto.
  destruct last; [destruct stk|]; auto.
Qed.

Definition total (stk : list (Z * list Z)) : nat := length (mjoin (snd <$> stk)).

Lemma total_stack_app l1 l2 : total (l1 ++ l2) = (total l1 + total l2)%nat.
Proof. unfold total. by rewrite fmap_app, join_app, length_app. Qed.

Lemma total_cons p x l : total ((p, x) :: l) = (length x + total l)%nat.
Proof. unfold total. cbn [fmap list_fmap snd]. by rewrite mjoin_cons, length_app. Qed.

Lemma step_entries src last stk p x w :
  Forall (closed src SLASH) stk → ∃ stk0 fin, step last stk (p, x) w = stk0 ++ fin ∧
    Forall (closed src SLASH) stk0 ∧ (fin = [] ∨ fin = [(p, x)]) ∧
    (total (step last stk (p, x) w) <= total stk + length x)%nat.
Proof.
  intros Hstk. destruct (step_cases last stk (p, x) w) as [-> | [-> | ->]].
  - exists stk, []. rewrite app_nil_r. split_and!; [done|done|by left|lia].
  - exists (pop stk), []. rewrite app_nil_r. split_and!; [done|by apply Forall_take|by left|].
    rewrite <- (take_drop (pred (length stk)) stk) at 2. rewrite total_stack_app. unfold pop. lia.
  - exists stk, [(p, x)]. split_and!; [done|done|by right|]. rewrite total_stack_app. unfold total at 2.
    simpl. rewrite app_nil_r. lia.
Qed.

Lemma canon_entries ws : ∀ a x b src stk,
  word_ok x → Forall word_ok ws → Forall (λ x, head x = Some SLASH) ws →
  src = a ++ mjoin (x :: ws) ++ 0 :: b → (length a + length (mjoin (x :: ws)) < 512)%nat →
  Forall (closed src SLASH) stk → (total stk <= length a)%nat →
  ∃ stk0 fin, canon_at (Z.of_nat (length a)) (x :: ws) stk = stk0 ++ fin ∧
    Forall (closed src SLASH) stk0 ∧ (fin = [] ∨ ∃ e, fin = [e] ∧ closed src 0 e) ∧
    (total (stk0 ++ fin) <= length a + length (mjoin (x :: ws)))%nat.
Proof.
  induction ws as [|y ws IH]; intros a x b src stk Hx Hws Hlead Hsrc Hmax Hstk Ht.
  - destruct (step_entries src true stk (Z.of_nat (length a)) x (tail x) Hstk)
      as (stk0 & fin & Heq & H0 & Hfin & Htot). cbn [canon_at no_words]. rewrite mjoin_cons, app_nil_r in *.
    exists stk0, fin. rewrite Heq in *. split_and!; [done|done| |lia].
    destruct Hfin as [-> | ->]; [by left|]. right. eexists. split; [done|]. exists a, b. by split_and!.
  - apply Forall_cons in Hws as [Hy Hws]. pose proof Hy as (l' & w' & -> & Hl' & Hw').
    apply Forall_cons in Hlead as [[= ->] Hlead]. rewrite !mjoin_cons in Hsrc.
    destruct (step_entries src false stk (Z.of_nat (length a)) x (tail x) Hstk)
      as (stk0 & fin & Heq & H0 & Hfin & Htot).
    assert (Hcl : Forall (closed src SLASH) (step false stk (Z.of_nat (length a), x) (tail x))).
    { rewrite Heq. apply Forall_app. split; [done|]. destruct Hfin as [-> | ->]; constructor; [|done].
      exists a, (w' ++ mjoin ws ++ 0 :: b). rewrite mjoin_cons, length_app in Hmax.
      split_and!; [|done|done|simpl; lia]. by rewrite Hsrc, <- !app_assoc. }
    change (canon_at (Z.of_nat (length a)) (x :: (SLASH :: w') :: ws) stk)
      with (canon_at (Z.of_nat (length a) + Z.of_nat (length x)) ((SLASH :: w') :: ws)
        (step false stk (Z.of_nat (length a), x) (tail x))).
    replace (Z.of_nat (length a) + Z.of_nat (length x)) with (Z.of_nat (length (a ++ x)))
      by (rewrite length_app; lia).
    destruct (IH (a ++ x) (SLASH :: w') b src (step false stk (Z.of_nat (length a), x) (tail x)))
      as (s0 & f & ? & ? & ? & Hlen); [done..| | |done| |].
    + by rewrite Hsrc, mjoin_cons, <- !app_assoc.
    + rewrite !mjoin_cons, !length_app in *. lia.
    + rewrite length_app. lia.
    + exists s0, f. split_and!; try done. rewrite !mjoin_cons, !length_app in *. lia.
Qed.

Lemma copy_spec y : ∀ a b d1 d2 src dst,
  src = a ++ y ++ b → dst = d1 ++ d2 → (length y <= length d2)%nat →
  copy_loop (length y) (Z.of_nat (length a)) src dst (Z.of_nat (length d1)) =
    Ok (d1 ++ y ++ drop (length y) d2, Z.of_nat (length (d1 ++ y))).
Proof.
  induction y as [|c y IH]; intros a b d1 d2 src dst Hsrc Hdst Hlen; [by rewrite app_nil_r, Hdst|].
  destruct d2 as [|d d2]; [simpl in Hlen; lia|]. cbn [length copy_loop].
  assert (zget src (Z.of_nat (length a)) = Some c) as -> by (rewrite Hsrc; apply zget_middle).
  cbn [deref mbind outcome_bind]. rewrite Hdst, zset_middle. cbn [deref mbind outcome_bind].
  rewrite <- (length_snoc_Z a c), <- (length_snoc_Z d1 c).
  rewrite (IH (a ++ [c]) b (d1 ++ [c]) d2); [|by rewrite Hsrc, <- app_assoc|by rewrite <- app_assoc|simpl in Hlen; lia].
  by rewrite <- !app_assoc.
Qed.

Lemma word_end_spec w : ∀ a c b src n,
  src = a ++ w ++ c :: b → Forall plain_char w → c = SLASH ∨ c = 0 → (length w < n)%nat →
  word_end_loop n (Z.of_nat (length a)) src =
    Ok (Z.of_nat (length a) + Z.of_nat (length w) + (if c =? 0 then 1 else 0)).
Proof.
  induction w as [|d w IH]; intros a c b src n Hsrc Hw Hc Hn; (destruct n as [|n]; [simpl in Hn; lia|]);
    cbn [word_end_loop]; rewrite Hsrc at 1; cbn [app]; rewrite zget_middle; cbn [deref mbind outcome_bind].
  - destruct Hc as [-> | ->]; f_equal; simpl; lia.
  - apply Forall_cons in Hw as [[Hd1 Hd2] Hw]. destruct (Z.eqb_spec d SLASH); [done|].
    destruct (Z.eqb_spec d 0); [done|]. rewrite <- (length_snoc_Z a d).
    rewrite (IH (a ++ [d]) c b src n); [|by rewrite Hsrc, <- app_assoc|done|done|simpl in Hn; lia].
    f_equal. rewrite length_snoc_Z. simpl length. lia.
Qed.

(** What one entry adds to the buffer: its word, and the NUL behind the last one. *)
Definition printed (c : Z) (x : list Z) : list Z := x ++ (if c =? 0 then [0] else []).

Lemma reform_one src c p x stk idx d1 d2 n :
  closed src c (p, x) → c = SLASH ∨ c = 0 → zget stk idx = Some p →
  (length (printed c x) <= length d2)%nat →
  reform_loop (S n) idx stk src (d1 ++ d2) (Z.of_nat (length d1)) =
    reform_loop n (idx + 1) stk src (d1 ++ printed c x ++ drop (length (printed c x)) d2)
      (Z.of_nat (length (d1 ++ printed c x))).
Proof.
  intros (a & b & Hsrc & Hp & (l & w & Hx & Hl & Hw) & Hmax) Hc Hget Hlen. simpl in *. subst p x.
  cbn [reform_loop]. rewrite Hget. cbn [deref mbind outcome_bind].
  rewrite <- (length_snoc_Z a l).
  rewrite (word_end_spec w (a ++ [l]) c b); [|by rewrite Hsrc, <- app_assoc|done|done|].
  2: { rewrite length_snoc_Z. unfold MAX_PATH. simpl in Hmax. lia. }
  cbn [mbind outcome_bind]. rewrite length_snoc_Z.
  replace (Z.to_nat _) with (length (printed c (l :: w)))
    by (unfold printed; rewrite length_app; destruct (c =? 0); simpl; lia).
  rewrite (copy_spec (printed c (l :: w)) a (if c =? 0 then b else c :: b) d1 d2); [done| |done|done].
  rewrite Hsrc. unfold printed. destruct Hc as [-> | ->]; cbn; [by rewrite app_nil_r|by rewrite <- app_assoc].
Qed.

Lemma reform_closed src suf l : ∀ pre d1 d2 n,
  Forall (closed src SLASH) l → (total l <= length d2)%nat →
  ∃ d3, length d3 = (length d2 - total l)%nat ∧
  reform_loop (length l + n) (Z.of_nat (length pre)) (pre ++ (fst <$> l) ++ suf) src (d1 ++ d2)
    (Z.of_nat (length d1)) =
  reform_loop n (Z.of_nat (length pre + length l)) (pre ++ (fst <$> l) ++ suf) src
    ((d1 ++ mjoin (snd <$> l)) ++ d3) (Z.of_nat (length (d1 ++ mjoin (snd <$> l)))).
Proof.
  induction l as [|[p x] l IH]; intros pre d1 d2 n Hl Ht.
  { exists d2. cbn. rewrite !app_nil_r, Nat.add_0_r. split; [lia|done]. }
  apply Forall_cons in Hl as [He Hl]. rewrite total_cons in Ht |- *.
  cbn [length Nat.add fmap list_fmap fst snd].
  rewrite (reform_one src SLASH p x) with (n := (length l + n)%nat);
    [|done|by left|cbn [app]; apply zget_middle|unfold printed; cbn; rewrite app_nil_r; lia].
  unfold printed. cbn [Z.eqb SLASH]. rewrite !app_nil_r.
  destruct (IH (pre ++ [p]) (d1 ++ x) (drop (length x) d2) n Hl) as (d3 & Hd3 & Hrun);
    [rewrite length_drop; lia|].
  exists d3. split; [rewrite Hd3, length_drop; lia|].
  rewrite <- app_assoc in Hrun. rewrite <- !app_assoc in Hrun. cbn [app] in Hrun |- *.
  rewrite length_snoc_Z in Hrun. rewrite !length_app in Hrun |- *. rewrite mjoin_cons, <- !app_assoc, length_app.
  cbn [length] in Hrun. rewrite Hrun. f_equal; [lia|]. rewrite !length_app. lia.
Qed.

(** The first character starts a word whatever it is. *)
Lemma scan_first n l rest src st :
  src = l :: rest → l ≠ 0 → word_start st = -1 →
  scan_loop (S n) 0 src st = scan_loop n 1 src (set_start st 0).
Proof.
  intros -> Hl Hst. cbn [scan_loop]. change (zget (l :: rest) 0) with (Some l).
  cbn [deref mbind outcome_bind]. rewrite Hst. destruct (Z.eqb_spec l 0); [done|].
  by rewrite (andb_false_r (negb (l =? SLASH) && _)).
Qed.

(** [canonicalize_path_name] on a path of words: the buffer holds the canonical path,
    its NUL and what follows. *)
Lemma canonicalize_words x ws b dst :
  word_ok x → Forall word_ok ws → Forall (λ x, head x = Some SLASH) ws →
  (length (mjoin (x :: ws)) < 511)%nat → length dst = 512%nat →
  ∃ rest, canonicalize_path_name dst (mjoin (x :: ws) ++ 0 :: b) =
    Ok (mjoin (canonical (x :: ws) []) ++ 0 :: rest) ∧
    length (mjoin (canonical (x :: ws) []) ++ 0 :: rest) = 512%nat.
Proof.
  intros Hx Hws Hlead Hlen Hdst. unfold canonicalize_path_name. set (src := mjoin (x :: ws) ++ 0 :: b).
  assert (Hinit : stack_at (mk_scan 0 0 (replicate 256 0)) []) by done.
  destruct (scan_words ws [] x b src (mk_scan 0 0 (replicate 256 0)) [] 511 Hx Hws Hlead eq_refl eq_refl Hinit)
    as (st & Hscan & Hp & Hl256 & Htake); [simpl; lia|cbn [length]; lia|lia|].
  assert (scan_loop (Z.to_nat MAX_PATH) 0 src (mk_scan (-1) 0 (replicate 256 0)) = Ok st) as ->.
  { change (Z.to_nat MAX_PATH) with (S 511). destruct Hx as (l & w & -> & Hl & Hw).
    by rewrite (scan_first 511 l (w ++ mjoin ws ++ 0 :: b)) by
      (done || (unfold src; by rewrite mjoin_cons, <- app_assoc)). }
  cbn [mbind outcome_bind]. clear Hscan Hinit.
  destruct (canon_entries ws [] x b src [] Hx Hws Hlead eq_refl ltac:(cbn [length]; lia) ltac:(constructor)
    ltac:(unfold total; simpl; lia)) as (stk0 & fin & Heq & H0 & Hfin & Htot).
  cbn [length] in Htot, Heq, Hp, Htake. change (Z.of_nat 0) with 0 in *. rewrite Nat.add_0_l in Htot.
  rewrite Heq in Hp, Htake.
  rewrite total_stack_app in Htot. rewrite fmap_app, length_app in Htake. rewrite Hp, Nat2Z.id, length_app.
  rewrite <- (take_drop (length stk0 + length fin) (index_stack st)), Htake, <- app_assoc.
  assert (Hcan : canonical (x :: ws) [] = (snd <$> stk0) ++ (snd <$> fin))
    by (rewrite <- fmap_app, <- Heq; symmetry; apply (canon_at_snd 0 (x :: ws) [])).
  rewrite Hcan, join_app.
  destruct (reform_closed src ((fst <$> fin) ++ drop (length stk0 + length fin) (index_stack st)) stk0
    [] [] dst (length fin) H0 ltac:(lia)) as (d3 & Hd3 & Hrun).
  cbn [app length Nat.add] in Hrun. change (Z.of_nat 0) with 0 in Hrun. rewrite Hrun.
  destruct Hfin as [-> | ([p y] & -> & Hcl)].
  - cbn [length reform_loop]. cbn [mbind outcome_bind fmap list_fmap mjoin list_join]. rewrite app_nil_r.
    destruct d3 as [|d d3]; [cbn [length] in Hd3; lia|]. rewrite zset_middle.
    exists d3. split; [done|]. rewrite length_app. cbn [length] in *. unfold total in *. lia.
  - cbn [length]. rewrite total_cons in Htot.
    assert (Hpr : length (printed 0 y) = S (length y)) by (unfold printed; rewrite length_app; simpl; lia).
    rewrite (reform_one src 0 p y); [|done|by right| |lia].
    2: { cbn [fmap list_fmap app fst]. rewrite <- (length_fmap fst stk0). apply zget_middle. }
    cbn [reform_loop mbind outcome_bind fmap list_fmap snd]. rewrite mjoin_cons, app_nil_r.
    rewrite app_assoc. destruct (drop (length (printed 0 y)) d3) as [|d d4] eqn:Hd4.
    { apply (f_equal length) in Hd4. rewrite length_drop in Hd4. cbn [length] in Hd4. lia. }
    rewrite zset_middle. exists (0 :: d4). unfold printed. cbn [Z.eqb]. split; [by rewrite <- !app_assoc|].
    apply (f_equal length) in Hd4. rewrite length_drop in Hd4. rewrite !length_app. cbn [length] in *.
    unfold total in *. lia.
Qed.

Lemma step_sublist {A} last (stk : list A) e w : step last stk e w `sublist_of` stk ++ [e].
Proof.
  destruct (step_cases last stk e w) as [-> | [-> | ->]]; [by apply sublist_inserts_r| |done].
  apply sublist_inserts_r, sublist_take.
Qed.

Lemma canonical_sublist ws : ∀ stk, canonical ws stk `sublist_of` stk ++ ws.
Proof.
  induction ws as [|x ws IH]; intros stk; [by rewrite app_nil_r|]. cbn [canonical].
  etrans; [apply IH|]. rewrite (cons_middle x), app_assoc. apply sublist_app; [apply step_sublist|done].
Qed.

Lemma sublist_Forall {A} (P : A → Prop) l1 l2 : l1 `sublist_of` l2 → Forall P l2 → Forall P l1.
Proof. rewrite !Forall_forall. intros Hs HP x Hx. apply HP. by eapply elem_of_sublist. Qed.

Lemma sublist_join_length {A} (l1 l2 : list (list A)) :
  l1 `sublist_of` l2 → (length (mjoin l1) <= length (mjoin l2))%nat.
Proof.
  induction 1 as [|x l1 l2 _ IH|x l1 l2 _ IH]; rewrite ?mjoin_cons, ?length_app; lia.
Qed.

Lemma join_nonzero ws : Forall word_ok ws → Forall (λ c, c ≠ 0) (mjoin ws).
Proof.
  induction 1 as [|x ws (c & w & -> & Hc & Hw) _ IH]; [constructor|]. rewrite mjoin_cons.
  apply Forall_app. split; [|done]. constructor; [done|]. eapply Forall_impl; [done|]. by intros ? [_ ?].
Qed.

Lemma canonical_path_bounds s :
  Forall (λ c, c ≠ 0) s → Forall (λ c, c ≠ 0) (canonical_path s) ∧ (length (canonical_path s) <= length s)%nat.
Proof.
  intros Hs. destruct (path_words_ok s Hs) as [[Hw _] Hj]. unfold canonical_path.
  pose proof (canonical_sublist (path_words s) []) as Hsub. simpl in Hsub. split.
  - apply join_nonzero. by eapply sublist_Forall.
  - rewrite <- Hj at 2. by apply sublist_join_length.
Qed.

Lemma canonicalize_spec s b dst :
  Forall (λ c, c ≠ 0) s → (length s < 511)%nat → length dst = 512%nat →
  ∃ rest, canonicalize_path_name dst (s ++ 0 :: b) = Ok (canonical_path s ++ 0 :: rest) ∧
    length (canonical_path s ++ 0 :: rest) = 512%nat.
Proof.
  intros Hs Hlen Hdst. destruct (path_words_ok s Hs) as [[Hw Hl] Hj]. unfold canonical_path.
  destruct (path_words s) as [|x ws].
  - simpl in Hj. subst s. destruct dst as [|d dst]; [done|]. exists dst. done.
  - apply Forall_cons in Hw as [Hx Hw]. rewrite <- Hj in Hlen |- *. by apply canonicalize_words.
Qed.

(** C32: for a path of up to 510 characters and buffers of [MAX_PATH] bytes,
    [canonicalize_path_name] stays inside its buffers and its index stack and leaves
    the canonical path of the reference definition, NUL-terminated, in [dst]. *)
Theorem canonicalize_path_name_correct s b dst :
  Forall (λ c, c ≠ 0) s → (length s < 511)%nat → length dst = 512%nat →
  ∃ rest, canonicalize_path_name dst (s ++ 0 :: b) = Ok (canonical_path s ++ 0 :: rest) ∧
    Forall (λ c, c ≠ 0) (canonical_path s).
Proof.
  intros Hs Hlen Hdst. destruct (canonicalize_spec s b dst Hs Hlen Hdst) as (rest & Hrun & _).
  exists rest. split; [done|]. by apply canonical_path_bounds.
Qed.

(** ** Confinement *)
Definition slash_word (x : list Z) : Prop := ∃ w, x = SLASH :: w ∧ Forall plain_char w.

Definition up_word (x : list Z) : Prop := tail x = [DOT; DOT].

(** Not empty and not ".". *)
Definition kept (x : list Z) : Prop := tail x ≠ [] ∧ tail x ≠ [DOT].

#[export] Instance kept_dec x : Decision (kept x).
Proof. unfold kept. apply _. Defined.

(** A proper component: "/name" with a name other than "", "." and "..". *)
Definition component (x : list Z) : Prop := slash_word x ∧ kept x ∧ ¬ up_word x.

Lemma step_keep {A} last (stk : list A) e x :
  stk ≠ [] → ¬ up_word x → step last stk e (tail x) = stk ++ (if decide (kept x) then [e] else []).
Proof.
  intros Hne Hup. unfold step, up_word in *.
  destruct (decide (kept x)) as [[H1 H2]|Hk]; [|unfold kept in Hk]; destruct (tail x) as [|d1 [|d2 [|d3 w]]].
  - done.
  - destruct (Z.eqb_spec d1 DOT); [congruence|done].
  - destruct (Z.eqb_spec d1 DOT), (Z.eqb_spec d2 DOT); cbn [andb]; congruence.
  - done.
  - rewrite app_nil_r. destruct last; [by destruct stk|done].
  - rewrite app_nil_r. destruct (Z.eqb_spec d1 DOT); [done|]. destruct Hk. split; congruence.
  - destruct Hk. split; congruence.
  - destruct Hk. split; congruence.
Qed.

(** Without ".." the words that count are kept in order. *)
Lemma canonical_keeps ws : ∀ stk,
  stk ≠ [] → Forall (λ x, ¬ up_word x) ws → canonical ws stk = stk ++ filter kept ws.
Proof.
  induction ws as [|x ws IH]; intros stk Hne Hup; [by rewrite app_nil_r|].
  apply Forall_cons in Hup as [Hx Hup]. cbn [canonical]. rewrite step_keep by done.
  rewrite IH; [|by destruct stk|done]. rewrite <- app_assoc, filter_cons. by case_decide.
Qed.

(** ** Splitting a composed path *)
Lemma split_skip w cur t :
  Forall plain_char w → split_at_slash cur (w ++ t) = split_at_slash (cur ++ w) t.
Proof.
  revert cur. induction w as [|c w IH]; intros cur Hw; [by rewrite app_nil_r|].
  apply Forall_cons in Hw as [[Hc _] Hw]. cbn. destruct (Z.eqb_spec c SLASH); [done|].
  by rewrite IH, <- app_assoc.
Qed.

Lemma split_join K : ∀ x, Forall slash_word K → split_at_slash x (mjoin K) = x :: K.
Proof.
  induction K as [|y K IH]; intros x HK; [done|].
  apply Forall_cons in HK as [(w & -> & Hw) HK]. rewrite mjoin_cons. cbn.
  rewrite split_skip by done. by rewrite IH.
Qed.

Lemma split_app s cur K :
  Forall slash_word K → split_at_slash cur (s ++ mjoin K) = split_at_slash cur s ++ K.
Proof.
  intros HK. revert cur. induction s as [|c s IH]; intros cur; cbn; [by apply split_join|].
  destruct (c =? SLASH); [|apply IH]. by rewrite IH.
Qed.

Lemma path_words_app s K : s ≠ [] → Forall slash_word K → path_words (s ++ mjoin K) = path_words s ++ K.
Proof. intros Hs HK. destruct s as [|c s]; [done|]. by apply split_app. Qed.

Lemma filter_all {A} (P : A → Prop) `{∀ x, Decision (P x)} l : Forall P l → filter P l = l.
Proof. induction 1; [done|]. rewrite filter_cons_True by done. by f_equal. Qed.

(** A root directory: a canonical absolute path. *)
Definition root_ok (root : list Z) : Prop :=
  root ≠ [] ∧ Forall (λ c, c ≠ 0) root ∧ Forall component (path_words root).

Lemma canonical_under_root root L :
  root_ok root → Forall slash_word L → Forall (λ x, ¬ up_word x) L →
  canonical_path (root ++ mjoin L) = root ++ mjoin (filter kept L).
Proof.
  intros (Hne & Hnz & Hroot) HL Hup. destruct (path_words_ok root Hnz) as [_ Hj].
  unfold canonical_path. rewrite path_words_app by done.
  destruct (path_words root) as [|x R] eqn:HR; [by subst root|].
  apply Forall_cons in Hroot as [(_ & [Hx1 Hx2] & Hx3) HRc]. cbn [app canonical].
  assert (step (no_words (R ++ L)) [] x (tail x) = [x]) as ->.
  { unfold step, up_word in *. destruct (tail x) as [|d1 [|d2 [|d3 w]]]; try done.
    - destruct (Z.eqb_spec d1 DOT); [congruence|done].
    - destruct (Z.eqb_spec d1 DOT), (Z.eqb_spec d2 DOT); cbn; congruence. }
  rewrite canonical_keeps; [|done|].
  2: { apply Forall_app. split; [|done]. eapply Forall_impl; [done|]. by intros ? (_ & _ & ?). }
  rewrite filter_app, join_app, join_app.
  assert (filter kept R = R) as ->.
  { apply filter_all. eapply Forall_impl; [done|]. by intros ? (_ & ? & _). }
  rewrite app_assoc. f_equal. by rewrite <- Hj, !mjoin_cons, app_nil_r.
Qed.

(** The words of a canonical path are neither "." nor "..". *)
Definition undotted (x : list Z) : Prop := tail x ≠ [DOT] ∧ tail x ≠ [DOT; DOT].

Lemma canonical_undotted ws : ∀ stk, Forall undotted stk → Forall undotted (canonical ws stk).
Proof.
  induction ws as [|x ws IH]; intros stk Hstk; [done|]. cbn [canonical]. apply IH.
  assert (Hpush : undotted x → Forall undotted (stk ++ [x])) by (intros; apply Forall_app; split; [done|by apply Forall_singleton]).
  unfold undotted in Hpush at 1. unfold step. destruct (tail x) as [|d1 [|d2 [|d3 w]]].
  - destruct (no_words ws); [|done]. destruct stk; [by apply Hpush|done].
  - destruct (Z.eqb_spec d1 DOT); [done|]. apply Hpush. split; congruence.
  - destruct (Z.eqb_spec d1 DOT), (Z.eqb_spec d2 DOT); cbn [andb];
      try (apply Hpush; split; congruence). by apply Forall_take.
  - apply Hpush. split; congruence.
Qed.

(** ** The buffers of a composed path *)
Lemma append_spec w : ∀ b d1 d2,
  Forall (λ c, c ≠ 0) w → (length w < length d2)%nat →
  ∃ d3, append_string (d1 ++ d2) (Z.of_nat (length d1)) (w ++ 0 :: b) =
      Ok ((d1 ++ w) ++ 0 :: d3, Z.of_nat (length (d1 ++ w))) ∧
    length (0 :: d3) = (length d2 - length w)%nat.
Proof.
  unfold append_string. induction w as [|c w IH]; intros b d1 d2 Hw Hlen;
    (destruct d2 as [|d d2]; [simpl in Hlen; lia|]).
  - exists d2. cbn [app append_loop Z.eqb]. rewrite zset_middle, app_nil_r. done.
  - apply Forall_cons in Hw as [Hc Hw]. cbn [app append_loop]. destruct (Z.eqb_spec c 0); [done|].
    rewrite zset_middle. cbn [deref mbind outcome_bind]. rewrite <- (length_snoc_Z d1 c).
    destruct (IH b (d1 ++ [c]) d2 Hw) as (d3 & Hrun & Hd3); [simpl in Hlen; lia|].
    exists d3. replace ((d1 ++ [c]) ++ w) with (d1 ++ c :: w) in Hrun by (by rewrite <- app_assoc).
    rewrite <- (app_assoc d1 [c] d2) in Hrun. cbn [app] in Hrun. rewrite Hrun. split; [done|]. rewrite Hd3. simpl. lia.
Qed.

(** The composed path, when everything fits. *)
Lemma compose_spec buffer root dir gc b1 b2 b3 :
  Forall (λ c, c ≠ 0) root → Forall (λ c, c ≠ 0) dir → Forall (λ c, c ≠ 0) gc →
  length buffer = 512%nat → (length root + length dir + length gc < 511)%nat →
  ∃ rest ptr, ('(p, ptr) ← append_string buffer 0 (root ++ 0 :: b1);
     '(p, ptr) ← append_string p ptr (dir ++ 0 :: b2);
     append_string p ptr (gc ++ 0 :: b3)) = Ok ((root ++ dir ++ gc) ++ 0 :: rest, ptr).
Proof.
  intros H1 H2 H3 Hb Hlen.
  destruct (append_spec root b1 [] buffer H1) as (d1 & Hr1 & Hd1); [lia|]. cbn [app length] in Hr1.
  change (Z.of_nat 0) with 0 in Hr1. rewrite Hr1. cbn [mbind outcome_bind].
  destruct (append_spec dir b2 root (0 :: d1) H2) as (d2 & -> & Hd2); [lia|]. cbn [mbind outcome_bind].
  destruct (append_spec gc b3 (root ++ dir) (0 :: d2) H3) as (d3 & -> & Hd3); [lia|].
  exists d3. eexists. by rewrite <- !app_assoc.
Qed.

(** A working directory as [misc_init] and [call_chdir] leave it: it ends with a slash
    and has no "..". *)
Definition cwd_ok (cwd : list Z) : Prop :=
  ∃ C, cwd = mjoin C ++ [SLASH] ∧ Forall slash_word C ∧ Forall (λ x, ¬ up_word x) C.

(** The directory and the guest's canonical path, as words behind the root. *)
Lemma guest_words guest cwd (abs : bool) :
  Forall (λ c, c ≠ 0) guest → cwd_ok cwd → (if abs then head guest = Some SLASH else True) →
  ∃ L, (if abs then [] else cwd) ++ canonical_path guest = mjoin L ∧ Forall slash_word L ∧
    Forall (λ x, ¬ up_word x) L.
Proof.
  intros Hg (C & -> & HC1 & HC2) Habs. destruct (path_words_ok guest Hg) as [[Hw Hl] Hj].
  unfold canonical_path. pose proof (canonical_sublist (path_words guest) []) as Hsub.
  pose proof (canonical_undotted (path_words guest) [] ltac:(constructor)) as Hun.
  assert (Hslash : ∀ K, Forall word_ok K → Forall (λ x, head x = Some SLASH) K → Forall slash_word K).
  { intros K HK1 HK2. apply Forall_forall. intros x Hx. rewrite Forall_forall in HK1, HK2.
    destruct (HK1 x Hx) as (c & w & -> & _ & ?). specialize (HK2 _ Hx). injection HK2 as ->. by exists w. }
  assert (Hup : Forall (λ x, ¬ up_word x) (canonical (path_words guest) []))
    by (eapply Forall_impl; [exact Hun|]; by intros x [_ ?]).
  rewrite app_nil_l in Hsub. destruct (path_words guest) as [|x ws] eqn:Hpw.
  { exists (if abs then [] else C ++ [[SLASH]]). destruct abs; cbn; [by split_and!|].
    rewrite join_app, app_nil_r. cbn. split; [done|]. rewrite !Forall_app. split_and!; try done.
    - constructor; [|constructor]. by exists [].
    - by repeat constructor. }
  cbn [tail] in Hl. apply Forall_cons in Hw as [Hx Hw].
  assert (Hcase : Forall slash_word (canonical (x :: ws) []) ∨
    abs = false ∧ ∃ l w K, canonical (x :: ws) [] = (l :: w) :: K ∧ plain_char l ∧ Forall plain_char w ∧
      Forall slash_word K).
  { apply sublist_cons_r in Hsub as [Hsub|(K & HK & Hsub)].
    - left. apply Hslash; by eapply sublist_Forall.
    - assert (Forall slash_word K) by (apply Hslash; by eapply sublist_Forall).
      destruct Hx as (l & w & -> & ? & ?). rewrite HK. destruct (decide (l = SLASH)) as [->|Hne].
      + left. constructor; [by exists w|done].
      + right. split; [|by exists l, w, K]. destruct abs; [|done]. destruct guest as [|c guest]; [done|].
        injection Habs as ->. rewrite mjoin_cons in Hj. cbn in Hj. congruence. }
  destruct Hcase as [Hsl|(-> & l & w & K & HK & Hlp & Hwp & HKs)].
  - exists ((if abs then [] else C ++ [[SLASH]]) ++ canonical (x :: ws) []). rewrite join_app.
    split; [destruct abs; [done|]; by rewrite join_app|].
    split; apply Forall_app; (split; [|done]); destruct abs; try constructor; apply Forall_app;
      (split; [done|]); repeat constructor; [by exists []|done].
  - exists (C ++ (SLASH :: l :: w) :: K). rewrite HK in Hun, Hup |- *. rewrite join_app, !mjoin_cons.
    apply Forall_cons in Hun as [[Hu1 Hu2] _], Hup as [_ Hup].
    split; [by rewrite <- app_assoc|]. split; apply Forall_app; (split; [done|]); (constructor; [|done]).
    + exists (l :: w). split; [done|]. by constructor.
    + unfold up_word. cbn in *. congruence.
Qed.

Lemma upto_nul_app s b : Forall (λ c, c ≠ 0) s → upto_nul (s ++ 0 :: b) = s.
Proof.
  induction 1 as [|c s Hc _ IH]; [done|]. cbn. destruct (Z.eqb_spec c 0); [done|]. by rewrite IH.
Qed.

Lemma slash_words_nonzero K : Forall slash_word K → Forall (λ c, c ≠ 0) (mjoin K).
Proof.
  intros HK. apply join_nonzero. eapply Forall_impl; [done|]. intros x (w & -> & ?). by exists SLASH, w.
Qed.

Lemma kept_components L :
  Forall slash_word L → Forall (λ x, ¬ up_word x) L → Forall component (filter kept L).
Proof.
  intros H1 H2. apply Forall_forall. intros x [Hk Hx]%list_elem_of_filter.
  rewrite Forall_forall in H1, H2. split; [by apply H1|]. split; [done|by apply H2].
Qed.

Lemma host_path_spec buffer strict root cwd guest b1 b2 b3 dirfd :
  length buffer = 512%nat → root_ok root → cwd_ok cwd → Forall (λ c, c ≠ 0) guest →
  (length root + length cwd + length guest < 511)%nat → sint 32 dirfd = AT_FDCWD →
  head guest = Some SLASH ∨ is_relative (guest ++ 0 :: b3) = Ok true →
  ∃ X rest d g r1 r2,
    host_path_of buffer strict (root ++ 0 :: b1) (cwd ++ 0 :: b2) dirfd (guest ++ 0 :: b3) =
      Ok ((root ++ mjoin X) ++ 0 :: rest, d ++ 0 :: r1, g ++ 0 :: r2) ∧
    Forall component X ∧ Forall (λ c, c ≠ 0) d ∧ Forall (λ c, c ≠ 0) g ∧ (length d + length g < 511)%nat.
Proof.
  intros Hbuf Hroot Hcwd Hg Hlen Hfd Hcase. unfold host_path_of.
  destruct (canonicalize_spec guest b3 buffer Hg ltac:(lia) Hbuf) as (r1 & -> & _).
  cbn [mbind outcome_bind]. destruct (canonical_path_bounds guest Hg) as [Hgc Hgl].
  assert (Habs : ∃ abs : bool, is_relative (guest ++ 0 :: b3) = Ok (negb abs) ∧
    (if abs then head guest = Some SLASH else True)).
  { destruct Hcase as [Hh|Hr]; [exists true|by exists false]. split; [|done].
    destruct guest as [|c guest]; [done|]. injection Hh as ->. done. }
  destruct Habs as (abs & Hrel & Hh).
  destruct (guest_words guest cwd abs Hg Hcwd Hh) as (L & HL & HL1 & HL2).
  assert (∃ b, relative_dir strict dirfd (cwd ++ 0 :: b2) (guest ++ 0 :: b3) =
    Ok ((if abs then [] else cwd) ++ 0 :: b)) as (b & ->).
  { unfold relative_dir. rewrite Hrel, Hfd. destruct abs; cbn; by eexists. }
  cbn [mbind outcome_bind].
  assert (Hnz : Forall (λ c, c ≠ 0) (root ++ mjoin L))
    by (apply Forall_app; split; [apply Hroot|by apply slash_words_nonzero]).
  pose proof Hnz as Hnz'. rewrite <- HL, !Forall_app in Hnz'. destruct Hnz' as (Hn1 & Hn2 & Hn3).
  assert (Hdl : (length (if abs then [] else cwd) <= length cwd)%nat) by (destruct abs; simpl; lia).
  destruct (compose_spec buffer root (if abs then [] else cwd) (canonical_path guest) b1 b r1)
    as (rest & ptr & Hc); [done..|lia|]. unfold mbind, outcome_bind in Hc |- *.
  destruct (append_string buffer 0 (root ++ 0 :: b1)) as [[p1 q1]|]; [|done].
  destruct (append_string p1 q1 _) as [[p2 q2]|]; [|done]. rewrite Hc. cbn [mbind outcome_bind].
  rewrite HL. destruct (canonicalize_spec (root ++ mjoin L) rest buffer Hnz) as (r2 & -> & _);
    [rewrite <- HL, !length_app; lia|done|].
  rewrite canonical_under_root by done. eexists _, _, _, _, _, _. split; [done|].
  split; [by apply kept_components|]. split_and!; (done || lia).
Qed.

(** C33: confinement.  Let the root be canonical and absolute, the working directory
    one without "..", dirfd AT_FDCWD, and the guest path one that starts with a slash
    or counts as relative, with root, working directory and path together shorter than
    511 characters.  Then the path that [do_openat], [do_statx], [do_readlinkat] and
    [do_unlinkat] hand to the host is the root followed by proper components: none is
    "..", however many the guest path has.  Both conditions on the guest's arguments
    are needed: with another dirfd ([dirfd_escapes]) and with a path that starts with
    blanks ([blanks_escape]) the host path leaves the root. *)
Theorem host_path_confined buffer strict root cwd guest b1 b2 b3 dirfd :
  length buffer = 512%nat → root_ok root → cwd_ok cwd → Forall (λ c, c ≠ 0) guest →
  (length root + length cwd + length guest < 511)%nat → sint 32 dirfd = AT_FDCWD →
  head guest = Some SLASH ∨ is_relative (guest ++ 0 :: b3) = Ok true →
  ∃ X rest dir gc, host_path_of buffer strict (root ++ 0 :: b1) (cwd ++ 0 :: b2) dirfd (guest ++ 0 :: b3) =
      Ok ((root ++ mjoin X) ++ 0 :: rest, dir, gc) ∧ Forall component X.
Proof.
  intros. edestruct host_path_spec as (X & rest & d & g & r1 & r2 & Hrun & HX & _); [done..|].
  by exists X, rest, (d ++ 0 :: r1), (g ++ 0 :: r2).
Qed.

(** ** Examples *)
Definition string_of (o : outcome (list Z)) : option (list Z) :=
  match o with Ok l => Some (upto_nul l) | Err _ => None end.

Definition blank : list Z := replicate 512 0.

Definition host_string (dirfd : Z) (path : string) : option (list Z) :=
  match host_path_of blank false (cstring "/srv/root") (cstring "/") dirfd (cstring path) with
  | Ok (p, _, _) => Some (upto_nul p)
  | Err _ => None
  end.

Lemma canonicalize_path_name_correct_witness :
  ∃ rest, canonicalize_path_name blank (chars "/a/../b/./c//d" ++ 0 :: []) =
      Ok (canonical_path (chars "/a/../b/./c//d") ++ 0 :: rest) ∧
    Forall (λ c, c ≠ 0) (canonical_path (chars "/a/../b/./c//d")).
Proof.
  apply (canonicalize_path_name_correct (chars "/a/../b/./c//d") [] blank).
  - by apply (bool_decide_unpack _).
  - vm_compute. lia.
  - done.
Defined.

Example canonical_example : canonical_path (chars "/a/../b/./c//d") = chars "/b/c/d".
Proof. vm_compute. reflexivity. Qed.

Lemma host_path_confined_witness :
  ∃ X rest dir gc,
    host_path_of blank true (chars "/srv/root" ++ 0 :: []) (chars "/" ++ 0 :: []) 0xffffff9c
      (chars "../../etc/passwd" ++ 0 :: []) = Ok ((chars "/srv/root" ++ mjoin X) ++ 0 :: rest, dir, gc) ∧
    Forall component X.
Proof.
  apply (host_path_confined blank true (chars "/srv/root") (chars "/") (chars "../../etc/passwd")
    [] [] [] 0xffffff9c).
  - done.
  - split; [done|]. split; [by apply (bool_decide_unpack _)|].
    vm_compute. repeat constructor; try done; eexists; (split; [reflexivity|]); repeat constructor; done.
  - exists []. split; [done|]. split; constructor.
  - by apply (bool_decide_unpack _).
  - vm_compute. lia.
  - reflexivity.
  - right. reflexivity.
Defined.

(** Blanks in front of an absolute path are skipped by the test for a relative path
    but not by the canonicalization, so "  /" names a sibling of the root: a guest
    can open, create or delete it. *)
Theorem blanks_escape : host_string 0xffffff9c "  /" = Some (chars "/srv/root  ").
Proof. vm_compute. reflexivity. Qed.

(** With another [dirfd] than AT_FDCWD a relative path of [do_statx],
    [do_readlinkat] and [do_unlinkat] is glued to the root's name. *)
Theorem dirfd_escapes : host_string 3 "foo" = Some (chars "/srv/rootfoo").
Proof. vm_compute. reflexivity. Qed.

(** A first component of one character is taken for a slash and lost. *)
Theorem short_component_lost :
  string_of (canonicalize_path_name blank (cstring "a/b")) = Some (chars "/b").
Proof. vm_compute. reflexivity. Qed.

(** A path of 511 characters fits [MAX_PATH] with its NUL, but the NUL is copied with
    the last word and a second one is written behind the buffer. *)
Theorem canonicalize_overflows :
  canonicalize_path_name blank (SLASH :: replicate 510 97 ++ [0]) = Err EUndef.
Proof. vm_compute. reflexivity. Qed.

End Path.
