(* ===== verification/Vfs.v ===== *)
(** * Files: the descriptor table and the file system calls of vfs.c

    A guest descriptor is an entry of the table [files] that holds a host
    descriptor.  The calls check the guest descriptor, translate paths (Path) and
    pointers (Vma) and call the host kernel, which is an interface here: one
    function per host call and, as its contract, the set of open host descriptors.
    The theorems: the calls keep the table consistent with that set, and an open
    takes the lowest free descriptor. *)
From S2P Require Import Prelude SortSearch PmRegion Vma Path.
Import Macros PmRegion Vma Path.

Module Vfs.

Definition MAX_FILES_NR : Z := 128.

Definition EBADF : Z := 9.

Definition ENOSYS : Z := 38.

Inductive FILE_TYPE := FILE_TYPE_ERROR | FILE_TYPE_REGULAR | FILE_TYPE_SOCKET.

(** [host_cpath] is the string behind the pointer, [None] for NULL. *)
Record file := mk_file {
  fd : Z;
  host_fd : Z;
  valid : bool;
  host_cpath : option (list Z);
  fflags : Z;
  fmode : Z;
  file_type : FILE_TYPE
}.

(** [memset(file, 0, sizeof(struct file))]. *)
Definition no_file : file := mk_file 0 0 false None 0 0 FILE_TYPE_ERROR.

(** ** The host kernel *)
Notation host_ptr := (option Z * Z)%type.

Inductive host_call :=
| h_open (path : list Z) (flags mode : Z)
| h_close (fd : Z)
| h_dup (fd : Z)
| h_fcntl (fd cmd arg : Z)
| h_statx (path : list Z) (flag mask : Z) (buf : host_ptr)
| h_readlinkat (path : list Z) (buf : host_ptr) (size : Z)
| h_unlinkat (path : list Z) (flags : Z)
| h_writev (fd : Z) (iov : list (host_ptr * Z))
| h_write (fd : Z) (buf : host_ptr) (n : Z)
| h_read (fd : Z) (buf : host_ptr) (n : Z)
| h_ioctl (fd request : Z) (argp : host_ptr)
| h_getdents64 (fd : Z) (dirp : host_ptr) (count : Z)
| h_sendfile (out_fd fd : Z) (offset : host_ptr) (count : Z)
| h_lseek (fd offset whence : Z)
| h_gettimeofday (tv tz : host_ptr)
| h_clock_gettime (clk_id : Z) (timespec : host_ptr)
| h_getrlimit (resource : Z) (rlim : host_ptr).

(** The result of a host call: its value, errno, and the new states of the kernel and
    of the emulator's memory. *)
Class HostKernel (K : Type) := {
  kcall : host_call → K → host_heap → Z * Z * K * host_heap
}.

(** The parts of [struct virtual_machine] that [get_linked_vm] answers for the three
    hints, and the kernel. *)
Record vfs (K : Type) := mk_vfs {
  files : list file;
  vroot : list Z;
  vcwd : list Z;
  proc : process;
  kernel : K
}.
Arguments mk_vfs {K}.
Arguments files {K}.
Arguments vroot {K}.
Arguments vcwd {K}.
Arguments proc {K}.
Arguments kernel {K}.

(** ** The table *)
Fixpoint first_invalid (l : list file) (idx : Z) : option Z :=
  match l with
  | [] => None
  | f :: l => if valid f then first_invalid l (idx + 1) else Some idx
  end.

(** The table has MAX_FILES_NR entries.  The result is the entry and the new table. *)
Definition allocate_file_descriptor (l : list file) : outcome (option Z * list file) :=
  match first_invalid l 0 with
  | None => Ok (None, l)
  | Some idx =>
      l ← deref (zset l idx (mk_file idx 0 true None 0 0 FILE_TYPE_ERROR));
      Ok (Some idx, l)
  end.

Definition deallocate_file_descriptor (l : list file) (i : Z) : outcome (list file) :=
  f ← deref (zget l i);
  ASSERT (valid f);;
  deref (zset l i no_file).

(** [fd > MAX_FILES_NR || !vm->files[fd].valid]: the entry when the test fails. *)
Definition lookup_fd (l : list file) (i : Z) : outcome (option file) :=
  if MAX_FILES_NR <? i then Ok None else
  f ← deref (zget l i);
  Ok (if valid f then Some f else None).

(** ERRNO of util.h. *)
Definition ERRNO (ret errno : Z) : Z := if sint 32 ret <? 0 then w32 (- errno) else w32 ret.

Section calls.
Context {K : Type} `{HK : HostKernel K}.
Implicit Types (v : vfs K).

Definition set_files v (l : list file) : vfs K := mk_vfs l (vroot v) (vcwd v) (proc v) (kernel v).

Definition host v (c : host_call) : Z * Z * vfs K :=
  let '(ret, errno, k, h) := kcall c (kernel v) (heap (proc v)) in
  (ret, errno, mk_vfs (files v) (vroot v) (vcwd v) (mk_process (space (proc v)) h) k).

(** A call whose result is [ERRNO] of the host's. *)
Definition pass v (c : host_call) : outcome (Z * vfs K) :=
  let '(ret, errno, v) := host v c in Ok (ERRNO ret errno, v).

(** The local buffers, as [host_path_of]. *)
Context (buffer : list Z).

Definition do_openat (dirfd : Z) (guest_path : list Z) (flags mode : Z) v : outcome (Z * vfs K) :=
  '(cpath, dir, guest_cpath) ← host_path_of buffer true (vroot v) (vcwd v) dirfd guest_path;
  '(new_file, l) ← allocate_file_descriptor (files v);
  match new_file with
  | None => Ok (w32 (- ENOMEM), v)
  | Some i =>
      let '(ret, errno, v) := host (set_files v l) (h_open (upto_nul cpath) flags mode) in
      if sint 32 ret <? 0 then
        l ← deallocate_file_descriptor (files v) i;
        Ok (ERRNO ret errno, set_files v l)
      else
        '(abs, ptr) ← append_string buffer 0 dir;
        '(abs, ptr) ← append_string abs ptr guest_cpath;
        _ ← canonicalize_path_name buffer abs;
        l ← deref (zset (files v) i
              (mk_file i (sint 32 ret) true (Some (upto_nul cpath)) flags mode FILE_TYPE_REGULAR));
        Ok (i, set_files v l)
  end.

Definition do_close (i : Z) v : outcome (Z * vfs K) :=
  f ← lookup_fd (files v) i;
  match f with
  | None => Ok (w32 (- EBADF), v)
  | Some f =>
      let '(rc, errno, v) := host v (h_close (host_fd f)) in
      l ← deallocate_file_descriptor (files v) i;
      Ok (ERRNO rc errno, set_files v l)
  end.

Definition do_statx (dirfd : Z) (pathname : list Z) (flag mask : Z) (statxbuf : host_ptr) v
    : outcome (Z * vfs K) :=
  '(cpath, _, _) ← host_path_of buffer false (vroot v) (vcwd v) dirfd pathname;
  pass v (h_statx (upto_nul cpath) flag mask statxbuf).

Definition do_readlinkat (dirfd : Z) (pathname : list Z) (buf : host_ptr) (buf_size : Z) v
    : outcome (Z * vfs K) :=
  '(cpath, _, _) ← host_path_of buffer false (vroot v) (vcwd v) dirfd pathname;
  pass v (h_readlinkat (upto_nul cpath) buf buf_size).

Definition do_unlinkat (dirfd : Z) (pathname : list Z) (flags : Z) v : outcome (Z * vfs K) :=
  '(cpath, _, _) ← host_path_of buffer false (vroot v) (vcwd v) dirfd pathname;
  pass v (h_unlinkat (upto_nul cpath) flags).

(** The loop of [do_writev] over the guest's [struct iovec32]s at [iov]. *)
Fixpoint iov_loop (n : nat) (iov : host_ptr) (p : process) : outcome (list (host_ptr * Z)) :=
  match n with
  | O => Ok []
  | S n =>
      iov_base ← load (heap p) iov 4;
      iov_len ← load (heap p) (fst iov, snd iov + 4) 4;
      base ← user_world_pointer p iov_base;
      rest ← iov_loop n (fst iov, snd iov + 8) p;
      Ok ((base, iov_len) :: rest)
  end.

(** [malloc] of the host's vector is taken to succeed. *)
Definition do_writev (i : Z) (guest_iov : host_ptr) (iovcnt : Z) v : outcome (Z * vfs K) :=
  f ← lookup_fd (files v) i;
  match f with
  | None => Ok (w32 (- EINVAL), v)
  | Some f =>
      iov ← iov_loop (Z.to_nat iovcnt) guest_iov (proc v);
      pass v (h_writev (host_fd f) iov)
  end.

(** A call on one descriptor. *)
Definition on_fd (i : Z) (c : Z → host_call) v : outcome (Z * vfs K) :=
  f ← lookup_fd (files v) i;
  match f with
  | None => Ok (w32 (- EBADF), v)
  | Some f => pass v (c (host_fd f))
  end.

Definition do_write (i : Z) (buf : host_ptr) (nr_write : Z) v : outcome (Z * vfs K) :=
  on_fd i (λ h, h_write h buf nr_write) v.

Definition do_read (i : Z) (buf : host_ptr) (nr_read : Z) v : outcome (Z * vfs K) :=
  on_fd i (λ h, h_read h buf nr_read) v.

Definition do_lseek (i offset whence : Z) v : outcome (Z * vfs K) :=
  on_fd i (λ h, h_lseek h offset whence) v.

Definition do_ioctl (i request argp_addr : Z) v : outcome (Z * vfs K) :=
  f ← lookup_fd (files v) i;
  match f with
  | None => Ok (w32 (- EBADF), v)
  | Some f =>
      acc ← user_accessible (proc v) argp_addr;
      argp ← (if (acc : bool) then user_world_pointer (proc v) argp_addr else Ok (None, 0));
      pass v (h_ioctl (host_fd f) request argp)
  end.

(** The result of [syscall] is returned without [ERRNO]. *)
Definition do_getdents64 (i dirp_addr count : Z) v : outcome (Z * vfs K) :=
  f ← lookup_fd (files v) i;
  match f with
  | None => Ok (w32 (- EBADF), v)
  | Some f =>
      dirp ← user_world_pointer (proc v) dirp_addr;
      let '(ret, _, v) := host v (h_getdents64 (host_fd f) dirp count) in
      Ok (w32 ret, v)
  end.

Definition do_sendfile (out_fd i : Z) (offset : host_ptr) (count : Z) v : outcome (Z * vfs K) :=
  f ← lookup_fd (files v) i;
  match f with
  | None => Ok (w32 (- EBADF), v)
  | Some f =>
      o ← lookup_fd (files v) out_fd;
      match o with
      | None => Ok (w32 (- EBADF), v)
      | Some o => pass v (h_sendfile (host_fd o) (host_fd f) offset count)
      end
  end.

(** The copy of an entry's path and open parameters, when it has a path. *)
Definition copy_blob (t f : file) : file :=
  match host_cpath f with
  | Some s => mk_file (fd t) (host_fd t) (valid t) (Some s) (fflags f) (fmode f) (file_type f)
  | None => t
  end.

Definition with_host (t : file) (h : Z) : file :=
  mk_file (fd t) h (valid t) (host_cpath t) (fflags t) (fmode t) (file_type t).

Definition F_DUPFD : Z := 0.

Definition F_GETFD : Z := 1.

Definition F_SETFD : Z := 2.

Definition F_GETFL : Z := 3.

Definition F_DUPFD_CLOEXEC : Z := 1030.

Definition do_fcntl_duplicate_fd (i cmd opaque : Z) v : outcome (Z * vfs K) :=
  f ← lookup_fd (files v) i;
  match f with
  | None => Ok (w32 (- EBADF), v)
  | Some f =>
      '(target, l) ← allocate_file_descriptor (files v);
      match target with
      | None => Ok (w32 (- ENOMEM), v)
      | Some j =>
          let '(ret, errno, v) := host (set_files v l) (h_fcntl (host_fd f) cmd opaque) in
          if sint 32 ret <? 0 then
            l ← deallocate_file_descriptor (files v) j;
            Ok (ERRNO ret errno, set_files v l)
          else
            t ← deref (zget (files v) j);
            l ← deref (zset (files v) j (copy_blob (with_host t (sint 32 ret)) f));
            Ok (j, set_files v l)
      end
  end.

Definition do_fcntl_getfd (i : Z) v : outcome (Z * vfs K) := on_fd i (λ h, h_fcntl h F_GETFD 0) v.

Definition do_fcntl_getfl (i : Z) v : outcome (Z * vfs K) := on_fd i (λ h, h_fcntl h F_GETFL 0) v.

Definition do_fcntl_setfd (i opaque : Z) v : outcome (Z * vfs K) :=
  on_fd i (λ h, h_fcntl h F_SETFD opaque) v.

Definition call_fnctl (i cmd opaque : Z) v : outcome (Z * vfs K) :=
  if (cmd =? F_DUPFD) || (cmd =? F_DUPFD_CLOEXEC) then do_fcntl_duplicate_fd i cmd opaque v
  else if cmd =? F_GETFD then do_fcntl_getfd i v
  else if cmd =? F_GETFL then do_fcntl_getfl i v
  else if cmd =? F_SETFD then do_fcntl_setfd i opaque v
  else Ok (w32 (- ENOSYS), v).

(** The result of [dup] is not checked. *)
Definition call_dup (i : Z) v : outcome (Z * vfs K) :=
  f ← lookup_fd (files v) i;
  match f with
  | None => Ok (w32 (- EBADF), v)
  | Some f =>
      '(target, l) ← allocate_file_descriptor (files v);
      match target with
      | None => Ok (w32 (- ENOMEM), v)
      | Some j =>
          let '(ret, _, v) := host (set_files v l) (h_dup (host_fd f)) in
          t ← deref (zget (files v) j);
          l ← deref (zset (files v) j (copy_blob (with_host t (sint 32 ret)) f));
          Ok (j, set_files v l)
      end
  end.

Definition call_dup3 (old_fd new_fd flags : Z) v : outcome (Z * vfs K) :=
  f ← lookup_fd (files v) old_fd;
  match f with
  | None => Ok (w32 (- EBADF), v)
  | Some f =>
      if MAX_FILES_NR <? new_fd then Ok (w32 (- EBADF), v) else
      if new_fd =? old_fd then Ok (0, v) else
      t ← deref (zget (files v) new_fd);
      '(_, v) ← (if valid t then do_close new_fd v else Ok (0, v));
      t ← deref (zget (files v) new_fd);
      let '(ret, _, v) := host v (h_dup (host_fd f)) in
      l ← deref (zset (files v) new_fd
            (copy_blob (mk_file new_fd (sint 32 ret) true (host_cpath t) (fflags t) (fmode t) (file_type t)) f));
      Ok (new_fd, set_files v l)
  end.

(** [vfs_init]: descriptors 0, 1 and 2; O_RDONLY is 0 and O_WRONLY is 1. *)
Definition vfs_init v : outcome (vfs K) :=
  '(r0, v) ← do_openat (w32 AT_FDCWD) (cstring "/dev/stdin") 0 0 v;
  ASSERT (r0 =? 0);;
  '(r1, v) ← do_openat (w32 AT_FDCWD) (cstring "/dev/stdout") 1 0 v;
  ASSERT (r1 =? 1);;
  '(r2, v) ← do_openat (w32 AT_FDCWD) (cstring "/dev/stderr") 1 0 v;
  ASSERT (r2 =? 2);;
  Ok v.

End calls.

(** ** The contract of the kernel: open host descriptors *)
Definition opens (c : host_call) : bool :=
  match c with
  | h_open _ _ _ | h_dup _ => true
  | h_fcntl _ cmd _ => (cmd =? F_DUPFD) || (cmd =? F_DUPFD_CLOEXEC)
  | _ => false
  end.

(** An opening call fails or returns a descriptor that was not open; a close removes
    its descriptor; the other calls open and close nothing. *)
Class HostKernelOk (K : Type) `{HostKernel K} (kopen : K → gset Z) := {
  hk_law : ∀ c k h ret e k' h', kcall c k h = (ret, e, k', h') →
    match c with
    | h_close n => kopen k' = kopen k ∖ {[n]}
    | _ =>
        if opens c then
          (sint 32 ret < 0 ∧ kopen k' = kopen k) ∨
          (0 <= sint 32 ret ∧ sint 32 ret ∉ kopen k ∧ kopen k' = {[sint 32 ret]} ∪ kopen k)
        else kopen k' = kopen k
    end
}.

(** ** The table and the open host descriptors

    An entry knows its number; a free entry is zeroed; the host descriptors of the
    valid entries are open and pairwise different, except the negative ones:
    [call_dup] and [call_dup3] record the -1 of a failed dup, so that several valid
    entries may hold it ([dup_failure_recorded]). *)
Record table_good (l : list file) (O : gset Z) : Prop := {
  tg_len : length l = 128%nat;
  tg_fd : ∀ i f, l !! i = Some f → valid f = true → fd f = Z.of_nat i;
  tg_free : ∀ i f, l !! i = Some f → valid f = false → f = no_file;
  tg_open : ∀ i f, l !! i = Some f → valid f = true → 0 <= host_fd f → host_fd f ∈ O;
  tg_inj : ∀ i j f g, l !! i = Some f → l !! j = Some g → valid f = true → valid g = true →
    0 <= host_fd f → host_fd f = host_fd g → i = j
}.

(** A new entry with a host descriptor that was not open, or with none. *)
Lemma table_add l O i f O' :
  table_good l O → l !! i = Some no_file → valid f = true → fd f = Z.of_nat i →
  (host_fd f < 0 ∧ O' = O) ∨ (0 <= host_fd f ∧ host_fd f ∉ O ∧ O' = {[host_fd f]} ∪ O) →
  table_good (<[i := f]> l) O'.
Proof.
  intros [Hlen Hfd Hfree Hopen Hinj] Hi Hv Hf Hcase.
  assert (Hlt : (i < length l)%nat) by by eapply lookup_lt_Some.
  assert (Hsub : O ⊆ O') by (destruct Hcase as [[_ ->]|(_ & _ & ->)]; set_solver).
  assert (Hlk : ∀ j g, <[i := f]> l !! j = Some g → (j = i ∧ g = f) ∨ (j ≠ i ∧ l !! j = Some g)).
  { intros j g. destruct (decide (j = i)) as [->|]; [rewrite list_lookup_insert_eq by done; naive_solver|].
    rewrite list_lookup_insert_ne by done. naive_solver. }
  split.
  - by rewrite length_insert.
  - intros j g [[-> ->]|[_ Hj]]%Hlk ?; [done|by apply Hfd].
  - intros j g [[-> ->]|[_ Hj]]%Hlk Hg; [congruence|by eapply Hfree].
  - intros j g [[-> ->]|[_ Hj]]%Hlk Hg Hpos; [|by eapply Hsub, Hopen].
    destruct Hcase as [[? _]|(_ & _ & ->)]; [lia|set_solver].
  - assert (Hnew : ∀ j g, l !! j = Some g → valid g = true → 0 <= host_fd g → host_fd g ≠ host_fd f).
    { intros j g Hj Hg Hpos Heq. destruct Hcase as [[? _]|(_ & Hn & _)]; [lia|].
      apply Hn. rewrite <- Heq. by eapply Hopen. }
    intros j k g g' [[-> ->]|[? Hj]]%Hlk [[-> ->]|[? Hk]]%Hlk Hg Hg' Hpos Heq; [done|..].
    + exfalso. by eapply (Hnew k g'); [..|lia|].
    + exfalso. by eapply (Hnew j g).
    + by eapply Hinj.
Qed.

Lemma table_remove l O i f :
  table_good l O → l !! i = Some f → valid f = true → table_good (<[i := no_file]> l) (O ∖ {[host_fd f]}).
Proof.
  intros [Hlen Hfd Hfree Hopen Hinj] Hi Hv.
  assert (Hlt : (i < length l)%nat) by by eapply lookup_lt_Some.
  assert (Hlk : ∀ j g, <[i := no_file]> l !! j = Some g → g = no_file ∨ (j ≠ i ∧ l !! j = Some g)).
  { intros j g. destruct (decide (j = i)) as [->|]; [rewrite list_lookup_insert_eq by done; naive_solver|].
    rewrite list_lookup_insert_ne by done. naive_solver. }
  split.
  - by rewrite length_insert.
  - intros j g [->|[_ Hj]]%Hlk ?; [done|by apply Hfd].
  - intros j g [->|[_ Hj]]%Hlk Hg; [done|by eapply Hfree].
  - intros j g [->|[Hne Hj]]%Hlk Hg Hpos; [done|]. apply elem_of_difference. split; [by eapply Hopen|].
    intros Heq%elem_of_singleton. apply Hne. by eapply Hinj.
  - intros j k g g' [->|[? Hj]]%Hlk [->|[? Hk]]%Hlk Hg Hg' Hpos Heq; try done. by eapply Hinj.
Qed.

Lemma first_invalid_spec l : ∀ idx,
  match first_invalid l idx with
  | Some k => ∃ l1 f l2, l = l1 ++ f :: l2 ∧ k = idx + Z.of_nat (length l1) ∧ valid f = false ∧
      Forall (λ g, valid g = true) l1
  | None => Forall (λ g, valid g = true) l
  end.
Proof.
  induction l as [|f l IH]; intros idx; simpl; [constructor|]. destruct (valid f) eqn:Hf.
  - specialize (IH (idx + 1)). destruct (first_invalid l (idx + 1)); [|by constructor].
    destruct IH as (l1 & g & l2 & -> & -> & Hg & Hl1). exists (f :: l1), g, l2. simpl length.
    split_and!; [done|lia|done|by constructor].
  - exists [], f, l. simpl. split_and!; [done|lia|done|constructor].
Qed.

(** Allocation takes the lowest free entry. *)
Lemma allocate_spec l O :
  table_good l O →
  (Forall (λ g, valid g = true) l ∧ allocate_file_descriptor l = Ok (None, l)) ∨
  ∃ i : nat, l !! i = Some no_file ∧ (∀ j f, (j < i)%nat → l !! j = Some f → valid f = true) ∧
    allocate_file_descriptor l =
      Ok (Some (Z.of_nat i), <[i := mk_file (Z.of_nat i) 0 true None 0 0 FILE_TYPE_ERROR]> l).
Proof.
  intros Hg. unfold allocate_file_descriptor. pose proof (first_invalid_spec l 0) as Hf.
  destruct (first_invalid l 0) as [k|]; [|by left]. right.
  destruct Hf as (l1 & f & l2 & Heq & -> & Hv & Hl1). exists (length l1). rewrite Z.add_0_l.
  assert (Hi : l !! length l1 = Some f) by (rewrite Heq; by apply list_lookup_middle).
  pose proof (lookup_lt_Some _ _ _ Hi). rewrite zset_ok by lia. rewrite Nat2Z.id.
  split; [by rewrite Hi, (tg_free _ _ Hg _ _ Hi Hv)|]. split; [|done].
  intros j g Hj Hlk. rewrite Heq, lookup_app_l in Hlk by done. by eapply Forall_lookup_1 in Hl1.
Qed.

Lemma deallocate_spec l i f :
  0 <= i → l !! Z.to_nat i = Some f → valid f = true →
  deallocate_file_descriptor l i = Ok (<[Z.to_nat i := no_file]> l).
Proof.
  intros H0 Hi Hv. unfold deallocate_file_descriptor. rewrite zget_lookup, Hi by done.
  cbn [deref mbind outcome_bind]. rewrite Hv. cbn [ASSERT mbind outcome_bind].
  pose proof (lookup_lt_Some _ _ _ Hi). by rewrite zset_ok by lia.
Qed.

(** Giving back an entry that was just allocated. *)
Lemma undo_allocate l (i : nat) f :
  l !! i = Some no_file → valid f = true → deallocate_file_descriptor (<[i := f]> l) (Z.of_nat i) = Ok l.
Proof.
  intros Hi Hv. pose proof (lookup_lt_Some _ _ _ Hi).
  rewrite (deallocate_spec _ _ f) by (lia || done || (rewrite Nat2Z.id; by apply list_lookup_insert_eq)).
  by rewrite Nat2Z.id, list_insert_insert_eq, list_insert_id.
Qed.

(** A descriptor other than 128. *)
Definition fd_ok (i : Z) : Prop := 0 <= i ∧ i ≠ MAX_FILES_NR.

Lemma lookup_fd_spec l O i :
  table_good l O → fd_ok i →
  (lookup_fd l i = Ok None ∧ ∀ f, l !! Z.to_nat i = Some f → valid f = false) ∨
  ∃ f, lookup_fd l i = Ok (Some f) ∧ l !! Z.to_nat i = Some f ∧ valid f = true.
Proof.
  intros Hg [H0 Hne]. unfold lookup_fd. pose proof (tg_len _ _ Hg) as Hlen. unfold MAX_FILES_NR in *.
  destruct (Z.ltb_spec 128 i).
  { left. split; [done|]. intros f Hf%lookup_lt_Some. lia. }
  destruct (lookup_lt_is_Some_2 l (Z.to_nat i)) as [f Hf]; [lia|].
  rewrite zget_lookup, Hf by done. cbn [deref mbind outcome_bind].
  destruct (valid f) eqn:Hv; [right; by exists f|]. left. split; [done|]. congruence.
Qed.

Section correct.
Context {K : Type} `{HK : HostKernel K} {kopen : K → gset Z} {HKok : HostKernelOk K kopen}.
Implicit Types (v : vfs K).

Definition vfs_good v : Prop := table_good (files v) (kopen (kernel v)).

(** What no call changes. *)
Definition same_place v v' : Prop :=
  vroot v' = vroot v ∧ vcwd v' = vcwd v ∧ space (proc v') = space (proc v).

Lemma same_place_trans v1 v2 v3 : same_place v1 v2 → same_place v2 v3 → same_place v1 v3.
Proof. unfold same_place. intuition congruence. Qed.

(** A host call that opens or closes nothing. *)
Lemma host_neutral v c ret e v' :
  opens c = false → (∀ n, c ≠ h_close n) → host v c = (ret, e, v') → vfs_good v →
  vfs_good v' ∧ same_place v v'.
Proof.
  unfold host. intros Ho Hc Hh Hg. destruct (kcall c (kernel v) (heap (proc v))) as [[[r0 e0] k] h] eqn:Hk.
  injection Hh as <- <- <-. apply hk_law in Hk. split; [|done]. unfold vfs_good. cbn [files kernel].
  replace (kopen k) with (kopen (kernel v)); [done|]. rewrite Ho in Hk.
  destruct c; try done. by destruct (Hc fd0).
Qed.

Lemma pass_spec v c :
  opens c = false → (∀ n, c ≠ h_close n) → vfs_good v →
  ∃ r v', pass v c = Ok (r, v') ∧ vfs_good v' ∧ same_place v v'.
Proof.
  intros Ho Hc Hg. unfold pass. destruct (host v c) as [[ret e] v'] eqn:Hh.
  eexists _, v'. split; [done|]. by eapply host_neutral.
Qed.

Lemma on_fd_spec v i c :
  (∀ h, opens (c h) = false) → (∀ h n, c h ≠ h_close n) → fd_ok i → vfs_good v →
  ∃ r v', on_fd i c v = Ok (r, v') ∧ vfs_good v' ∧ same_place v v'.
Proof.
  intros Ho Hc Hi Hg. unfold on_fd.
  destruct (lookup_fd_spec _ _ i Hg Hi) as [[-> _]|(f & -> & _)]; cbn [mbind outcome_bind].
  - by eexists _, v.
  - by apply pass_spec.
Qed.

Lemma close_spec v i :
  fd_ok i → vfs_good v → ∃ r v', do_close i v = Ok (r, v') ∧ vfs_good v' ∧ same_place v v' ∧
    files v' = (if decide (Exists (λ f, fd f = i ∧ valid f = true) (files v))
                then <[Z.to_nat i := no_file]> (files v) else files v).
Proof.
  intros Hi Hg. unfold do_close. pose proof Hi as [Hi0 _].
  destruct (lookup_fd_spec _ _ i Hg Hi) as [[-> Hno]|(f & -> & Hf & Hv)]; cbn [mbind outcome_bind].
  - eexists _, v. split; [done|]. split; [done|]. split; [done|]. rewrite decide_False; [done|].
    intros (g & Hgi & <- & Hvg)%Exists_exists. apply list_elem_of_lookup in Hgi as [j Hj].
    rewrite (tg_fd _ _ Hg _ _ Hj Hvg), Nat2Z.id in Hno. specialize (Hno g Hj). congruence.
  - unfold host. destruct (kcall _ _ _) as [[[r0 e0] k] h] eqn:Hk. apply hk_law in Hk. cbn [files].
    rewrite (deallocate_spec _ _ f Hi0 Hf Hv).
    cbn [mbind outcome_bind]. eexists _, _. split; [done|]. split; [|split; [done|]].
    + unfold vfs_good. cbn. rewrite Hk. by apply table_remove.
    + rewrite decide_True; [done|]. apply Exists_exists. exists f. split; [by eapply list_elem_of_lookup_2|].
      split; [|done]. rewrite (tg_fd _ _ Hg _ _ Hf Hv). lia.
Qed.

(** The state after an opening call, with [t] put into the free entry [i]. *)
Lemma opened_good v l c ret e k h (i : nat) t :
  vfs_good v → files v !! i = Some no_file → (l = files v ∨ ∃ x, l = <[i := x]> (files v)) →
  opens c = true → kcall c (kernel v) (heap (proc v)) = (ret, e, k, h) →
  valid t = true → fd t = Z.of_nat i → host_fd t = sint 32 ret →
  table_good (<[i := t]> l) (kopen k) ∧ (sint 32 ret < 0 → table_good (files v) (kopen k)).
Proof.
  intros Hg Hi Hl Ho Hk Hv Hf Hh. apply hk_law in Hk.
  assert (Hcase : (sint 32 ret < 0 ∧ kopen k = kopen (kernel v)) ∨
    (0 <= sint 32 ret ∧ sint 32 ret ∉ kopen (kernel v) ∧ kopen k = {[sint 32 ret]} ∪ kopen (kernel v))).
  { destruct c; try done; try exact Hk. by rewrite Ho in Hk. }
  split.
  - replace (<[i := t]> l) with (<[i := t]> (files v)).
    2: { destruct Hl as [-> | [x ->]]; [done|]. by rewrite list_insert_insert_eq. }
    apply (table_add _ (kopen (kernel v))); rewrite ?Hh; done.
  - intros Hneg. destruct Hcase as [[_ ->]|[? _]]; [done|lia].
Qed.

Lemma copy_blob_fields t f :
  valid (copy_blob t f) = valid t ∧ fd (copy_blob t f) = fd t ∧ host_fd (copy_blob t f) = host_fd t.
Proof. unfold copy_blob. by destruct (host_cpath f). Qed.

Lemma dup_spec v i :
  fd_ok i → vfs_good v → ∃ r v', call_dup i v = Ok (r, v') ∧ vfs_good v' ∧ same_place v v'.
Proof.
  intros Hi Hg. unfold call_dup.
  destruct (lookup_fd_spec _ _ i Hg Hi) as [[-> _]|(f & -> & _ & _)]; cbn [mbind outcome_bind]; [by eexists _, v|].
  destruct (allocate_spec _ _ Hg) as [[_ ->]|(j & Hj & _ & ->)]; cbn [mbind outcome_bind]; [by eexists _, v|].
  unfold host, set_files. cbn [files kernel proc vroot vcwd]. destruct (kcall _ _ _) as [[[r e] k] h] eqn:Hk. cbn [files].
  pose proof (lookup_lt_Some _ _ _ Hj). rewrite zget_nat, list_lookup_insert_eq by done.
  cbn [deref mbind outcome_bind]. rewrite zset_ok by (rewrite length_insert; lia).
  cbn [deref mbind outcome_bind]. rewrite Nat2Z.id. eexists _, _. split; [done|]. split; [|done].
  set (t := copy_blob _ f). destruct (copy_blob_fields (with_host (mk_file (Z.of_nat j) 0 true None 0 0
    FILE_TYPE_ERROR) (sint 32 r)) f) as (? & ? & ?).
  eapply (opened_good v _ (h_dup (host_fd f)) r e k h j t); try done. right. by eexists.
Qed.

Lemma fcntl_dup_spec v i cmd arg :
  fd_ok i → cmd = F_DUPFD ∨ cmd = F_DUPFD_CLOEXEC → vfs_good v →
  ∃ r v', do_fcntl_duplicate_fd i cmd arg v = Ok (r, v') ∧ vfs_good v' ∧ same_place v v'.
Proof.
  intros Hi Hc Hg. unfold do_fcntl_duplicate_fd.
  destruct (lookup_fd_spec _ _ i Hg Hi) as [[-> _]|(f & -> & _ & _)]; cbn [mbind outcome_bind]; [by eexists _, v|].
  destruct (allocate_spec _ _ Hg) as [[_ ->]|(j & Hj & _ & ->)]; cbn [mbind outcome_bind]; [by eexists _, v|].
  unfold host, set_files. cbn [files kernel proc vroot vcwd]. destruct (kcall _ _ _) as [[[r e] k] h] eqn:Hk. cbn [files].
  pose proof (lookup_lt_Some _ _ _ Hj).
  set (t := copy_blob (with_host (mk_file (Z.of_nat j) 0 true None 0 0 FILE_TYPE_ERROR) (sint 32 r)) f).
  destruct (copy_blob_fields (with_host (mk_file (Z.of_nat j) 0 true None 0 0 FILE_TYPE_ERROR)
    (sint 32 r)) f) as (? & ? & ?).
  assert (Ho : opens (h_fcntl (host_fd f) cmd arg) = true) by by destruct Hc as [-> | ->].
  destruct (opened_good v (<[j := mk_file (Z.of_nat j) 0 true None 0 0 FILE_TYPE_ERROR]> (files v))
    _ r e k h j t Hg Hj (or_intror (ex_intro _ _ eq_refl)) Ho Hk) as [Hgood Hfail]; [done..|].
  destruct (Z.ltb_spec (sint 32 r) 0).
  - rewrite undo_allocate by done. cbn [mbind outcome_bind]. eexists _, _. split; [done|].
    split; [by apply Hfail|done].
  - rewrite zget_nat, list_lookup_insert_eq by done. cbn [deref mbind outcome_bind].
    rewrite zset_ok by (rewrite length_insert; lia). cbn [deref mbind outcome_bind]. rewrite Nat2Z.id.
    eexists _, _. by split.
Qed.

Lemma dup3_spec v i j fl :
  fd_ok i → fd_ok j → vfs_good v →
  ∃ r v', call_dup3 i j fl v = Ok (r, v') ∧ vfs_good v' ∧ same_place v v'.
Proof.
  intros Hi Hj Hg. unfold call_dup3.
  destruct (lookup_fd_spec _ _ i Hg Hi) as [[-> _]|(f & -> & Hf & Hvf)]; cbn [mbind outcome_bind]; [by eexists _, v|].
  destruct (Z.ltb_spec MAX_FILES_NR j); [by eexists _, v|].
  destruct (Z.eqb_spec j i); [by eexists _, v|]. pose proof Hj as [Hj0 Hjn].
  pose proof (tg_len _ _ Hg) as Hlen. unfold MAX_FILES_NR in *.
  destruct (lookup_lt_is_Some_2 (files v) (Z.to_nat j)) as [t0 Ht0]; [lia|].
  rewrite zget_lookup, Ht0 by done. cbn [deref mbind outcome_bind].
  assert (∃ r1 v1, (if valid t0 then do_close j v else Ok (0, v)) = Ok (r1, v1) ∧ vfs_good v1 ∧
    same_place v v1 ∧ files v1 !! Z.to_nat j = Some no_file) as (r1 & v1 & -> & Hg1 & Hs1 & Hl1).
  { destruct (valid t0) eqn:Hv0.
    - destruct (close_spec v j Hj Hg) as (r1 & v1 & -> & Hg1 & Hs1 & Hl1). eexists r1, v1.
      split_and!; try done. rewrite Hl1, decide_True; [apply list_lookup_insert_eq; lia|].
      apply Exists_exists. exists t0. split; [by eapply list_elem_of_lookup_2|]. split; [|done].
      rewrite (tg_fd _ _ Hg _ _ Ht0 Hv0). lia.
    - eexists _, v. split_and!; try done. rewrite Ht0. f_equal. by eapply (tg_free _ _ Hg). }
  cbn [mbind outcome_bind]. rewrite zget_lookup, Hl1 by done. cbn [deref mbind outcome_bind].
  unfold host. destruct (kcall _ _ _) as [[[r e] k] h] eqn:Hk. cbn [files].
  pose proof (tg_len _ _ Hg1). rewrite zset_ok by lia. cbn [deref mbind outcome_bind].
  eexists _, _. split; [done|]. split; [|exact Hs1].
  destruct (copy_blob_fields (mk_file j (sint 32 r) true (host_cpath no_file) (fflags no_file) (fmode no_file)
    (file_type no_file)) f) as (? & ? & ?).
  eapply (opened_good v1 _ (h_dup (host_fd f)) r e k h); try done; [by left|].
  match goal with H : fd _ = _ |- fd _ = _ => rewrite H end. simpl. lia.
Qed.

(** ** Calls on descriptors *)
Inductive fd_call :=
| FClose (i : Z)
| FDup (i : Z)
| FDup3 (old_fd new_fd flags : Z)
| FFcntl (i cmd arg : Z)
| FRead (i : Z) (buf : host_ptr) (n : Z)
| FWrite (i : Z) (buf : host_ptr) (n : Z)
| FLseek (i offset whence : Z)
| FSendfile (out_fd i : Z) (offset : host_ptr) (count : Z).

Definition fd_exec (c : fd_call) v : outcome (Z * vfs K) :=
  match c with
  | FClose i => do_close i v
  | FDup i => call_dup i v
  | FDup3 i j fl => call_dup3 i j fl v
  | FFcntl i cmd arg => call_fnctl i cmd arg v
  | FRead i buf n => do_read i buf n v
  | FWrite i buf n => do_write i buf n v
  | FLseek i off wh => do_lseek i off wh v
  | FSendfile o i off n => do_sendfile o i off n v
  end.

Definition fds_ok (c : fd_call) : Prop :=
  match c with
  | FClose i | FDup i | FFcntl i _ _ | FRead i _ _ | FWrite i _ _ | FLseek i _ _ => fd_ok i
  | FDup3 i j _ | FSendfile i j _ _ => fd_ok i ∧ fd_ok j
  end.

Lemma fd_call_spec c v :
  vfs_good v → fds_ok c → ∃ r v', fd_exec c v = Ok (r, v') ∧ vfs_good v' ∧ same_place v v'.
Proof.
  intros Hg Hc. destruct c; cbn [fd_exec fds_ok] in *;
    try (by apply on_fd_spec); [|by apply dup_spec|by destruct Hc; apply dup3_spec| |].
  - destruct (close_spec v i Hc Hg) as (r & v' & ? & ? & ? & _). by exists r, v'.
  - unfold call_fnctl. destruct (Z.eqb_spec cmd F_DUPFD); [apply fcntl_dup_spec; [done|by left|done]|].
    destruct (Z.eqb_spec cmd F_DUPFD_CLOEXEC); [apply fcntl_dup_spec; [done|by right|done]|]. cbn [orb].
    repeat case_match; try (by apply on_fd_spec). by eexists _, v.
  - destruct Hc as [Ho Hi]. unfold do_sendfile.
    destruct (lookup_fd_spec _ _ i Hg Hi) as [[-> _]|(f & -> & _)]; cbn [mbind outcome_bind]; [by eexists _, v|].
    destruct (lookup_fd_spec _ _ out_fd Hg Ho) as [[-> _]|(f' & -> & _)]; cbn [mbind outcome_bind];
      [by eexists _, v|]. by apply pass_spec.
Qed.

(** A sequence of calls and their results. *)
Fixpoint fd_run (cs : list fd_call) v : outcome (list Z * vfs K) :=
  match cs with
  | [] => Ok ([], v)
  | c :: cs =>
      '(r, v) ← fd_exec c v;
      '(rs, v) ← fd_run cs v;
      Ok (r :: rs, v)
  end.

(** C34: starting from a table that is consistent with the kernel, any sequence
    of close, dup, dup3, fcntl, read, write, lseek and sendfile on any descriptors
    but 128 returns, and keeps every entry numbered, free entries zeroed, and the
    non-negative host descriptors of the valid entries open and pairwise different.
    (A valid entry may hold -1: dup and dup3 record the result of a host's dup that
    fails.)  Root, working directory and address space are unchanged. *)
Theorem fd_calls_invariant cs v :
  vfs_good v → Forall fds_ok cs →
  ∃ rs v', fd_run cs v = Ok (rs, v') ∧ length rs = length cs ∧ vfs_good v' ∧ same_place v v'.
Proof.
  intros Hg Hcs. revert v Hg. induction Hcs as [|c cs Hc _ IH]; intros v Hg; cbn [fd_run].
  { by exists [], v. }
  destruct (fd_call_spec c v Hg Hc) as (r & v1 & -> & Hg1 & Hs1). cbn [mbind outcome_bind].
  destruct (IH v1 Hg1) as (rs & v2 & -> & Hlen & Hg2 & Hs2). cbn [mbind outcome_bind].
  exists (r :: rs), v2. split; [done|]. split; [simpl; lia|]. split; [done|].
  by eapply same_place_trans.
Qed.

(** ** openat *)
#[local] Opaque canonicalize_path_name host_path_of append_string.

(** The composition of the guest's absolute path, whose result is not used. *)
Lemma abs_path_spec {A} buffer d g r1 r2 (k : outcome A) :
  length buffer = 512%nat → Forall (λ c, c ≠ 0) d → Forall (λ c, c ≠ 0) g →
  (length d + length g < 511)%nat →
  ('(abs, ptr) ← append_string buffer 0 (d ++ 0 :: r1);
   '(abs, ptr) ← append_string abs ptr (g ++ 0 :: r2);
   _ ← canonicalize_path_name buffer abs; k) = k.
Proof.
  intros Hb Hd Hg Hlen. destruct (append_spec d r1 [] buffer Hd) as (d1 & H1 & Hl1); [lia|].
  destruct (append_spec g r2 d (0 :: d1) Hg) as (d2 & H2 & Hl2); [lia|].
  destruct (canonicalize_spec (d ++ g) d2 buffer) as (rest & H3 & _);
    [by apply Forall_app|rewrite length_app; lia|done|].
  rewrite (bind_step _ _ _ H1). cbv beta iota. rewrite (bind_step _ _ _ H2). cbv beta iota.
  by rewrite (bind_step _ _ _ H3).
Qed.

(** Openat on a path below the root.  With a full table it answers -ENOMEM;
    when the host's open fails it answers the host's error; otherwise it answers the
    lowest free descriptor and records the host's.  The path the host sees is the
    root followed by proper components.  The rest of the table is untouched, and the
    table stays consistent. *)
Theorem openat_correct buffer root cwd guest b1 b2 b3 dirfd flags mode v :
  vfs_good v → length buffer = 512%nat → vroot v = root ++ 0 :: b1 → vcwd v = cwd ++ 0 :: b2 →
  root_ok root → cwd_ok cwd → Forall (λ c, c ≠ 0) guest →
  (length root + length cwd + length guest < 511)%nat → sint 32 dirfd = AT_FDCWD →
  head guest = Some SLASH ∨ is_relative (guest ++ 0 :: b3) = Ok true →
  ∃ X, Forall component X ∧
    let path := root ++ mjoin X in
    (Forall (λ f, valid f = true) (files v) ∧
     do_openat buffer dirfd (guest ++ 0 :: b3) flags mode v = Ok (w32 (- ENOMEM), v)) ∨
    ∃ i ret e k h v', files v !! i = Some no_file ∧
      (∀ j f, (j < i)%nat → files v !! j = Some f → valid f = true) ∧
      kcall (h_open path flags mode) (kernel v) (heap (proc v)) = (ret, e, k, h) ∧
      vfs_good v' ∧ same_place v v' ∧ kernel v' = k ∧
      if sint 32 ret <? 0 then
        do_openat buffer dirfd (guest ++ 0 :: b3) flags mode v = Ok (ERRNO ret e, v') ∧ files v' = files v
      else
        do_openat buffer dirfd (guest ++ 0 :: b3) flags mode v = Ok (Z.of_nat i, v') ∧
        files v' = <[i := mk_file (Z.of_nat i) (sint 32 ret) true (Some path) flags mode
                          FILE_TYPE_REGULAR]> (files v).
Proof.
  intros Hg Hbuf Hroot Hcwd Hr Hc Hgu Hlen Hfd Hcase. unfold do_openat. rewrite Hroot, Hcwd.
  destruct (host_path_spec buffer true root cwd guest b1 b2 b3 dirfd)
    as (X & rest & d & g & r1 & r2 & -> & HX & Hd & Hgg & Hdg); [done..|].
  exists X. split; [done|]. cbn [mbind outcome_bind].
  assert (Hnz : Forall (λ c, c ≠ 0) (root ++ mjoin X)).
  { apply Forall_app. split; [apply Hr|]. apply slash_words_nonzero. eapply Forall_impl; [done|].
    by intros ? [? _]. }
  destruct (allocate_spec _ _ Hg) as [[Hfull ->]|(i & Hi & Hlow & ->)]; [by left|]. right.
  cbn [mbind outcome_bind]. rewrite upto_nul_app by done. unfold host, set_files.
  cbn [files kernel proc vroot vcwd]. destruct (kcall _ _ _) as [[[ret e] k] h] eqn:Hk.
  set (t := mk_file (Z.of_nat i) (sint 32 ret) true (Some (root ++ mjoin X)) flags mode FILE_TYPE_REGULAR).
  destruct (opened_good v (<[i := mk_file (Z.of_nat i) 0 true None 0 0 FILE_TYPE_ERROR]> (files v))
    (h_open (root ++ mjoin X) flags mode) ret e k h i t Hg Hi (or_intror (ex_intro _ _ eq_refl))
    eq_refl Hk) as [Hgood Hfail]; [done..|].
  exists i, ret, e, k, h. cbn [files kernel proc vroot vcwd]. destruct (Z.ltb_spec (sint 32 ret) 0).
  - rewrite undo_allocate by done. cbn [mbind outcome_bind].
    exists (mk_vfs (files v) (vroot v) (vcwd v) (mk_process (space (proc v)) h) k).
    split_and!; try done. by apply Hfail.
  - rewrite abs_path_spec by done. pose proof (lookup_lt_Some _ _ _ Hi). rewrite zset_ok by (rewrite length_insert; lia).
    cbn [deref mbind outcome_bind]. rewrite Nat2Z.id. fold t. rewrite list_insert_insert_eq in Hgood |- *.
    by exists (mk_vfs (<[i := t]> (files v)) (vroot v) (vcwd v) (mk_process (space (proc v)) h) k).
Qed.

(** ** The bound on descriptors *)
Lemma lookup_128 (l : list file) : length l = 128%nat → lookup_fd l MAX_FILES_NR = Err EUndef.
Proof.
  intros Hl. unfold lookup_fd. cbn [Z.ltb MAX_FILES_NR Z.compare Pos.compare Pos.compare_cont].
  rewrite zget_lookup by (unfold MAX_FILES_NR; lia). by rewrite lookup_ge_None_2 by (rewrite Hl; done).
Qed.


End correct.

(** ** A concrete kernel

    Its state is the set of open descriptors; the next one is above all of them. *)
Definition next_host_fd (k : gset Z) : Z := foldr Z.max 0 (elements k) + 1.

#[export] Instance counting_kernel : HostKernel (gset Z) := {|
  kcall c k h :=
    match c with
    | h_close n => (0, 0, k ∖ {[n]}, h)
    | _ =>
        if opens c then
          if next_host_fd k <? 2 ^ 31 then (next_host_fd k, 0, {[next_host_fd k]} ∪ k, h)
          else (-1, 24, k, h)
        else (0, 0, k, h)
    end
|}.

Lemma next_host_fd_spec k : 0 < next_host_fd k ∧ next_host_fd k ∉ k.
Proof.
  unfold next_host_fd.
  assert (H : ∀ l, 0 <= foldr Z.max 0 l ∧ ∀ x, x ∈ l → x <= foldr Z.max 0 l).
  { induction l as [|y l [IH1 IH2]]; simpl; [split; [lia|]; by intros ? ?%not_elem_of_nil|].
    split; [lia|]. intros x [->|Hx]%elem_of_cons; [lia|]. specialize (IH2 x Hx). lia. }
  destruct (H (elements k)) as [H1 H2]. split; [lia|]. intros Hin.
  specialize (H2 _ (proj2 (elem_of_elements _ _) Hin)). lia.
Qed.

#[export] Instance counting_kernel_ok : HostKernelOk (gset Z) (λ k, k).
Proof.
  split. intros c k h ret e k' h' Hk. destruct (next_host_fd_spec k) as [Hpos Hnew].
  assert (Hopen : (if next_host_fd k <? 2 ^ 31 then (next_host_fd k, 0, {[next_host_fd k]} ∪ k, h)
    else (-1, 24, k, h)) = (ret, e, k', h') →
    (sint 32 ret < 0 ∧ k' = k) ∨ (0 <= sint 32 ret ∧ sint 32 ret ∉ k ∧ k' = {[sint 32 ret]} ∪ k)).
  { destruct (Z.ltb_spec (next_host_fd k) (2 ^ 31)); intros [= <- <- <- <-]; [right|by left].
    rewrite (sint_unique 32 _ (next_host_fd k)) by (done || simpl; lia). split_and!; [lia|done|done]. }
  unfold kcall, counting_kernel in Hk. destruct c; cbn [opens] in Hk |- *; try (by apply Hopen);
    try (by injection Hk as <- <- <- <-).
  destruct (_ || _); [by apply Hopen|by injection Hk as <- <- <- <-].
Qed.

Lemma empty_table_good : table_good (replicate 128 no_file) ∅.
Proof.
  split; [by rewrite length_replicate|..]; intros; simplify_eq;
    repeat match goal with H : replicate _ _ !! _ = Some _ |- _ => apply lookup_replicate in H as [-> _] end;
    done.
Qed.

(** A process with one open file. *)
Definition demo_file : file := mk_file 0 5 true (Some (chars "/srv/root/f")) 0 0 FILE_TYPE_REGULAR.

Definition demo_vfs : vfs (gset Z) :=
  mk_vfs (<[0%nat := demo_file]> (replicate 128 no_file)) (cstring "/srv/root") (cstring "/") demo_process {[ 5 ]}.

Lemma demo_vfs_good : vfs_good (kopen := λ k, k) demo_vfs.
Proof.
  apply (table_add _ ∅ 0 demo_file); [apply empty_table_good|done|done|done|]. right.
  split; [simpl; lia|]. split; [set_solver|]. cbn. set_solver.
Qed.

Lemma fd_calls_invariant_witness :
  ∃ rs v', fd_run [FDup 0; FClose 0; FDup3 1 7 0; FLseek 0 0 0] demo_vfs = Ok (rs, v') ∧
    length rs = 4%nat ∧ vfs_good (kopen := λ k, k) v' ∧ same_place demo_vfs v'.
Proof.
  apply (fd_calls_invariant (kopen := λ k, k) [FDup 0; FClose 0; FDup3 1 7 0; FLseek 0 0 0] demo_vfs demo_vfs_good).
  repeat constructor; simpl; try lia; done.
Defined.

Example demo_fd_run :
  match fd_run [FDup 0; FClose 0; FDup3 1 7 0; FLseek 0 0 0] demo_vfs with
  | Ok (rs, v') => rs = [1; 0; 7; w32 (- EBADF)] ∧ valid <$> files v' !! 0%nat = Some false
  | Err _ => False
  end.
Proof. vm_compute. done. Qed.

Lemma openat_correct_witness :
  ∃ X, Forall component X ∧
    let path := chars "/srv/root" ++ mjoin X in
    (Forall (λ f, valid f = true) (files demo_vfs) ∧
     do_openat blank 0xffffff9c (chars "/a/../b" ++ 0 :: []) 0 0 demo_vfs = Ok (w32 (- ENOMEM), demo_vfs)) ∨
    ∃ i ret e k h v', files demo_vfs !! i = Some no_file ∧
      (∀ j f, (j < i)%nat → files demo_vfs !! j = Some f → valid f = true) ∧
      kcall (h_open path 0 0) (kernel demo_vfs) (heap (proc demo_vfs)) = (ret, e, k, h) ∧
      vfs_good (kopen := λ k, k) v' ∧ same_place demo_vfs v' ∧ kernel v' = k ∧
      if sint 32 ret <? 0 then
        do_openat blank 0xffffff9c (chars "/a/../b" ++ 0 :: []) 0 0 demo_vfs = Ok (ERRNO ret e, v') ∧
        files v' = files demo_vfs
      else
        do_openat blank 0xffffff9c (chars "/a/../b" ++ 0 :: []) 0 0 demo_vfs = Ok (Z.of_nat i, v') ∧
        files v' = <[i := mk_file (Z.of_nat i) (sint 32 ret) true (Some path) 0 0 FILE_TYPE_REGULAR]>
                     (files demo_vfs).
Proof.
  apply (openat_correct (kopen := λ k, k) blank (chars "/srv/root") (chars "/") (chars "/a/../b") [] [] []
    0xffffff9c 0 0 demo_vfs demo_vfs_good).
  - done.
  - done.
  - done.
  - split; [done|]. split; [by apply (bool_decide_unpack _)|].
    vm_compute. repeat constructor; try done; eexists; (split; [reflexivity|]); repeat constructor; done.
  - exists []. split; [done|]. split; constructor.
  - by apply (bool_decide_unpack _).
  - vm_compute. lia.
  - reflexivity.
  - by left.
Defined.


(** A kernel without free descriptors. *)
Definition full_kernel : HostKernel (gset Z) := {| kcall c k h := (-1, 24, k, h) |}.

(** dup answers a descriptor as if it had succeeded when the host's dup fails; the
    entry then holds the host descriptor -1. *)
Theorem dup_failure_recorded :
  match call_dup (HK := full_kernel) 0 demo_vfs with
  | Ok (r, v') => r = 1 ∧ host_fd <$> files v' !! 1%nat = Some (-1)
  | Err _ => False
  end.
Proof. vm_compute. done. Qed.

End Vfs.
