(* ===== verification/DList.v ===== *)
(** * The intrusive lists of list.c

    A [struct list_elem] is embedded in the object it links and holds two
    pointers.  The memory of all of them is a finite map from their addresses,
    of any countable type, to the pairs of pointers; the null pointer is
    [None].  A head is itself a [list_elem]: its [next] is the first and its
    [prev] the last element, and the end pointers of the elements are null, not
    the head.  [lrep σ h l] says that head [h] holds exactly the elements [l];
    the lemmas give each operation its meaning on [l] and leave the memory
    outside the list untouched, so that lists without common elements do not
    interfere. *)
From S2P Require Import Prelude.

Module DList.

(** [struct list_elem]. *)
Record list_elem (A : Type) := mk_elem {
  prev : option A;
  next : option A;
}.
Arguments mk_elem {A} _ _.
Arguments prev {A} _.
Arguments next {A} _.

#[export] Instance list_elem_eq_dec A `{EqDecision A} : EqDecision (list_elem A).
Proof. solve_decision. Defined.

Section Lists.
Context {A : Type} `{Countable A}.
Implicit Types (σ : gmap A (list_elem A)) (l : list A) (h e x y : A) (p n : option A).

Definition store : Type := gmap A (list_elem A).

(** The accesses [p->prev], [p->next] and the assignments to them. *)
Definition get_elem σ x : outcome (list_elem A) := deref (σ !! x).

Definition set_prev σ x p : outcome store :=
  c ← get_elem σ x;
  Ok (<[x := mk_elem p (next c)]> σ).

Definition set_next σ x n : outcome store :=
  c ← get_elem σ x;
  Ok (<[x := mk_elem (prev c) n]> σ).

(** [if (p) p->prev = q;] and its twin. *)
Definition set_prev_of σ (x : option A) p : outcome store :=
  match x with Some x => set_prev σ x p | None => Ok σ end.

Definition set_next_of σ (x : option A) n : outcome store :=
  match x with Some x => set_next σ x n | None => Ok σ end.

Definition null (p : option A) : bool := match p with None => true | Some _ => false end.

Definition list_init σ h : store := <[h := mk_elem None None]> σ.

Definition list_empty σ h : outcome bool :=
  c ← get_elem σ h;
  Ok (null (next c)).

Definition list_append σ h e : outcome store :=
  ce ← get_elem σ e;
  ASSERT (null (prev ce));;
  ASSERT (null (next ce));;
  ch ← get_elem σ h;
  σ ← (if null (next ch) then set_next σ h (Some e) else Ok σ);
  ch ← get_elem σ h;
  σ ← (match prev ch with
       | Some t => σ ← set_prev σ e (Some t); set_next σ t (Some e)
       | None => Ok σ
       end);
  set_prev σ h (Some e).

Definition list_prepend σ h e : outcome store :=
  ce ← get_elem σ e;
  ASSERT (null (prev ce));;
  ASSERT (null (next ce));;
  ch ← get_elem σ h;
  σ ← (match next ch with
       | Some f => σ ← set_next σ e (Some f); set_prev σ f (Some e)
       | None => Ok σ
       end);
  σ ← set_next σ h (Some e);
  ch ← get_elem σ h;
  if null (prev ch) then set_prev σ h (Some e) else Ok σ.

Definition list_pop σ h : outcome (option A * store) :=
  b ← list_empty σ h;
  if (b : bool) then Ok (None, σ)
  else
    ch ← get_elem σ h;
    ASSERT (negb (null (prev ch)));;
    e ← deref (prev ch);
    ce ← get_elem σ e;
    σ ← set_prev σ h (prev ce);
    ce ← get_elem σ e;
    σ ← (match prev ce with
         | Some t => set_next σ t None
         | None => set_next σ h None
         end);
    σ ← set_prev σ e None;
    ce ← get_elem σ e;
    ASSERT (null (next ce));;
    Ok (Some e, σ).

Definition list_fetch σ h : outcome (option A * store) :=
  b ← list_empty σ h;
  if (b : bool) then Ok (None, σ)
  else
    ch ← get_elem σ h;
    ASSERT (negb (null (prev ch)));;
    e ← deref (next ch);
    ce ← get_elem σ e;
    σ ← set_next σ h (next ce);
    ce ← get_elem σ e;
    σ ← (match next ce with
         | Some f => set_prev σ f None
         | None => set_prev σ h None
         end);
    σ ← set_next σ e None;
    ce ← get_elem σ e;
    ASSERT (null (prev ce));;
    Ok (Some e, σ).

(** The search loop of [list_delete] and [element_in_list]
    ([LIST_FOREACH_START] with an early exit); no list is longer than the
    memory is large, so the fuel of the callers is enough. *)
Fixpoint find_loop (n : nat) σ (cur : option A) e : outcome bool :=
  match cur with
  | None => Ok false
  | Some x =>
      match n with
      | O => Err EFuel
      | S n =>
          c ← get_elem σ x;
          if bool_decide (x = e) then Ok true else find_loop n σ (next c) e
      end
  end.

Definition foreach_fuel σ : nat := S (size σ).

Definition list_delete σ h e : outcome store :=
  ch ← get_elem σ h;
  found ← find_loop (foreach_fuel σ) σ (next ch) e;
  ASSERT found;;
  ce ← get_elem σ e;
  σ ← (if bool_decide (prev ch = Some e)
       then ASSERT (null (next ce));; set_prev σ h (prev ce)
       else Ok σ);
  ch ← get_elem σ h;
  ce ← get_elem σ e;
  σ ← (if bool_decide (next ch = Some e)
       then ASSERT (null (prev ce));; set_next σ h (next ce)
       else Ok σ);
  ce ← get_elem σ e;
  σ ← set_prev_of σ (next ce) (prev ce);
  ce ← get_elem σ e;
  σ ← set_next_of σ (prev ce) (next ce);
  σ ← set_prev σ e None;
  set_next σ e None.

Definition element_in_list σ h e : outcome bool :=
  ce ← get_elem σ e;
  ch ← get_elem σ h;
  if null (next ce) && null (prev ce) && negb (bool_decide (next ch = Some e))
     && negb (bool_decide (prev ch = Some e))
  then Ok false
  else find_loop (foreach_fuel σ) σ (next ch) e.

(** ** What a head represents *)

(** The elements [l] are linked: the first one has [p] before it, the last one
    [n] after it. *)
Fixpoint seg σ p l n : Prop :=
  match l with
  | [] => True
  | x :: t => σ !! x = Some (mk_elem p (head (t ++ option_list n))) ∧ seg σ (Some x) t n
  end.

Definition lrep σ h l : Prop :=
  NoDup (h :: l) ∧ σ !! h = Some (mk_elem (last l) (head l)) ∧ seg σ None l None.

(** A detached element. *)
Definition detached σ e : Prop := σ !! e = Some (mk_elem None None).

(** The memory outside the given addresses is as before. *)
Definition same_except (xs : list A) σ σ' : Prop := ∀ y, y ∉ xs → σ' !! y = σ !! y.

Lemma seg_insert σ x c p l n : x ∉ l → seg (<[x := c]> σ) p l n ↔ seg σ p l n.
Proof.
  revert p. induction l as [|y l IH]; intros p Hx; simpl; [done|].
  apply not_elem_of_cons in Hx as [Hne Hx]. rewrite lookup_insert_ne by done. by rewrite IH.
Qed.

Lemma seg_frame σ σ' p l n : (∀ x, x ∈ l → σ' !! x = σ !! x) → seg σ p l n → seg σ' p l n.
Proof.
  revert p. induction l as [|x l IH]; intros p Hs; simpl; [done|]. intros [Hx Hl].
  rewrite Hs by set_solver. split; [done|]. apply IH; set_solver.
Qed.

Lemma seg_snoc σ p l x n :
  seg σ p (l ++ [x]) n ↔ seg σ p l (Some x) ∧ σ !! x = Some (mk_elem (last (option_list p ++ l)) n).
Proof.
  revert p. induction l as [|y l IH]; intros p; simpl.
  - destruct p, n; naive_solver.
  - rewrite IH. assert (last (option_list p ++ y :: l) = last (y :: l)) as ->.
    { destruct p; [|done]. simpl. by destruct l. }
    assert (head ((l ++ [x]) ++ option_list n) = head (l ++ [x])) as ->; [by destruct l|].
    naive_solver.
Qed.

Lemma nodup_head_snoc h l e : NoDup (h :: l) → e ∉ h :: l → NoDup (h :: l ++ [e]).
Proof.
  intros Hn He. apply (NoDup_app (h :: l) [e]). split_and!; [done|set_solver|apply NoDup_singleton].
Qed.

Lemma seg_app σ p l1 e l2 n :
  seg σ p (l1 ++ e :: l2) n ↔
  seg σ p l1 (Some e) ∧ σ !! e = Some (mk_elem (last (option_list p ++ l1)) (head (l2 ++ option_list n)))
  ∧ seg σ (Some e) l2 n.
Proof.
  revert p. induction l1 as [|y l1 IH]; intros p; simpl.
  - destruct p; simpl; naive_solver.
  - rewrite IH. assert (last (option_list p ++ y :: l1) = last (y :: l1)) as ->.
    { destruct p; [|done]. simpl. by destruct l1. }
    assert (head ((l1 ++ e :: l2) ++ option_list n) = head (l1 ++ [e])) as ->; [by destruct l1|].
    naive_solver.
Qed.

Lemma lrep_nodup σ h l : lrep σ h l → NoDup l ∧ h ∉ l.
Proof. intros ([? ?]%NoDup_cons & _). done. Qed.

Lemma seg_unique σ p p' l l' :
  head l = head l' → seg σ p l None → seg σ p' l' None → l = l'.
Proof.
  revert p p' l'. induction l as [|x l IH]; intros p p' [|x' l'] Hh Hs Hs'; simplify_eq/=; [done|].
  destruct Hs as [Hx Hs], Hs' as [Hx' Hs']. rewrite Hx in Hx'. rewrite !app_nil_r in Hx'.
  injection Hx' as _ Hx'. f_equal. by eapply IH.
Qed.

(** A head represents one sequence. *)
Lemma lrep_unique σ h l l' : lrep σ h l → lrep σ h l' → l = l'.
Proof.
  intros (_ & Hh & Hs) (_ & Hh' & Hs'). rewrite Hh in Hh'. injection Hh' as _ Hh'.
  by eapply seg_unique.
Qed.

Lemma lrep_frame xs σ σ' h l :
  lrep σ h l → same_except xs σ σ' → (∀ x, x ∈ xs → x ∉ h :: l) → lrep σ' h l.
Proof.
  intros (Hn & Hh & Hs) Hx Hd. split_and!; [done| |].
  - rewrite Hx; [done|]. intros ?%Hd. set_solver.
  - eapply seg_frame; [|done]. intros y Hy. apply Hx. intros ?%Hd. set_solver.
Qed.

Lemma lrep_same σ σ' h l : lrep σ h l → (∀ x, x ∈ h :: l → σ' !! x = σ !! x) → lrep σ' h l.
Proof.
  intros (Hn & Hh & Hs) Hx. split_and!; [done| |].
  - rewrite Hx; [done|by apply list_elem_of_here].
  - eapply seg_frame; [|done]. intros y Hy. apply Hx. by apply list_elem_of_further.
Qed.

Lemma detached_frame xs σ σ' e : detached σ e → same_except xs σ σ' → e ∉ xs → detached σ' e.
Proof. unfold detached. intros He Hx ?. by rewrite Hx. Qed.

Lemma lrep_mem σ h l x : lrep σ h l → x ∈ h :: l → is_Some (σ !! x).
Proof.
  intros (_ & Hh & Hs) [->|Hx]%elem_of_cons; [by rewrite Hh|].
  apply list_elem_of_split in Hx as (l1 & l2 & ->). apply seg_app in Hs as (_ & -> & _). done.
Qed.

Lemma list_init_rep σ h : lrep (list_init σ h) h [].
Proof. unfold lrep, list_init. rewrite lookup_insert_eq. split_and!; [apply NoDup_singleton|done|done]. Qed.

(** Evaluating accesses to known elements. *)
Lemma get_elem_ok σ x c : σ !! x = Some c → get_elem σ x = Ok c.
Proof. unfold get_elem. by intros ->. Qed.

Lemma set_prev_ok σ x c p : σ !! x = Some c → set_prev σ x p = Ok (<[x := mk_elem p (next c)]> σ).
Proof. unfold set_prev. by intros ->%get_elem_ok. Qed.

Lemma set_next_ok σ x c n : σ !! x = Some c → set_next σ x n = Ok (<[x := mk_elem (prev c) n]> σ).
Proof. unfold set_next. by intros ->%get_elem_ok. Qed.

End Lists.

(** Read through updates of other elements. *)
Ltac elem_lookup :=
  repeat first [ rewrite lookup_insert_eq | rewrite lookup_insert_ne by (first [done | set_solver]) ].

(** Run a sequence of accesses whose elements are known. *)
Ltac elem_step :=
  repeat first
  [ progress cbn [mbind outcome_bind prev next null negb ASSERT andb deref head last set_prev_of set_next_of]
  | erewrite get_elem_ok by (elem_lookup; eassumption || reflexivity)
  | erewrite set_prev_ok by (elem_lookup; eassumption || reflexivity)
  | erewrite set_next_ok by (elem_lookup; eassumption || reflexivity) ].

Section Operations.
Context {A : Type} `{Countable A}.
Implicit Types (σ : gmap A (list_elem A)) (l : list A) (h e x y : A) (p n : option A).

Lemma list_append_rep σ h l e :
  lrep σ h l → detached σ e → e ∉ h :: l →
  ∃ σ', list_append σ h e = Ok σ' ∧ lrep σ' h (l ++ [e]) ∧ same_except (h :: e :: l) σ σ'.
Proof.
  unfold detached. intros ([Hhl Hnd]%NoDup_cons & Hh & Hs) He [Heh Hel]%not_elem_of_cons.
  destruct l as [|t l _] using rev_ind.
  - unfold list_append. elem_step. eexists. split; [done|]. split.
    + split_and!; [repeat constructor; set_solver| |]; simpl; by elem_lookup.
    + intros y Hy. by elem_lookup.
  - assert (∃ f, head (l ++ [t]) = Some f) as [f Hf] by (destruct l; eauto).
    rewrite last_snoc, Hf in Hh. apply seg_snoc in Hs as [Hl Ht]. unfold list_append. elem_step.
    eexists. split; [done|]. split.
    + split_and!.
      * apply nodup_head_snoc; [by apply NoDup_cons|set_solver].
      * elem_lookup. rewrite last_snoc. by destruct l; simplify_eq/=.
      * apply NoDup_app in Hnd as (Hnl & Htl & _).
        rewrite !seg_snoc, !seg_insert by set_solver. elem_lookup.
        simpl. by rewrite last_snoc.
    + intros y Hy. by elem_lookup.
Qed.

Lemma list_prepend_rep σ h l e :
  lrep σ h l → detached σ e → e ∉ h :: l →
  ∃ σ', list_prepend σ h e = Ok σ' ∧ lrep σ' h (e :: l) ∧ same_except (h :: e :: l) σ σ'.
Proof.
  unfold detached. intros ([Hhl Hnd]%NoDup_cons & Hh & Hs) He [Heh Hel]%not_elem_of_cons.
  destruct l as [|f l].
  - unfold list_prepend. elem_step. eexists. split; [done|]. split.
    + split_and!; [repeat constructor; set_solver| |]; simpl; by elem_lookup.
    + intros y Hy. by elem_lookup.
  - assert (∃ t, last (f :: l) = Some t) as [t Ht] by (apply last_is_Some; done).
    rewrite Ht in Hh. destruct Hs as [Hf Hs]. apply NoDup_cons in Hnd as [Hfl Hnd].
    unfold list_prepend. elem_step. eexists. split; [done|]. split.
    + split_and!; [repeat (constructor; [set_solver|]); done| |].
      * elem_lookup. change (last (e :: f :: l)) with (last (f :: l)). by rewrite Ht.
      * cbn [seg]. rewrite !seg_insert by set_solver. elem_lookup. done.
    + intros y Hy. by elem_lookup.
Qed.

(** The first element leaves the list, detached. *)
Lemma list_fetch_rep σ h l :
  lrep σ h l →
  ∃ σ', list_fetch σ h = Ok (head l, σ') ∧ lrep σ' h (tail l) ∧
    (∀ e, head l = Some e → detached σ' e) ∧ same_except (h :: l) σ σ'.
Proof.
  intros ([Hhl Hnd]%NoDup_cons & Hh & Hs). unfold list_fetch, list_empty.
  destruct l as [|e l].
  { elem_step. exists σ. split_and!; [done|split_and!; [apply NoDup_singleton|done|done]|done|done]. }
  destruct Hs as [He Hs]. apply NoDup_cons in Hnd as [Hel Hnd].
  assert (∃ t, last (e :: l) = Some t) as [t Ht] by (apply last_is_Some; done). rewrite Ht in Hh.
  destruct l as [|f l]; simpl in He.
  - elem_step. eexists. split; [done|]. split_and!.
    + split_and!; [apply NoDup_singleton|by elem_lookup|done].
    + intros ? [= <-]. unfold detached. by elem_lookup.
    + intros y Hy. by elem_lookup.
  - destruct Hs as [Hf Hs]. apply NoDup_cons in Hnd as [Hfl Hnd].
    change (last (f :: l) = Some t) in Ht. elem_step. eexists. split; [done|]. split_and!.
    + split_and!; [repeat (constructor; [set_solver|]); done| |].
      * elem_lookup. cbn [tail]. by rewrite Ht.
      * cbn [seg tail]. rewrite !seg_insert by set_solver. elem_lookup. done.
    + intros ? [= <-]. unfold detached. by elem_lookup.
    + intros y Hy. by elem_lookup.
Qed.

(** The last element leaves the list, detached. *)
Lemma list_pop_rep σ h l e :
  lrep σ h (l ++ [e]) →
  ∃ σ', list_pop σ h = Ok (Some e, σ') ∧ lrep σ' h l ∧ detached σ' e ∧ same_except (h :: e :: l) σ σ'.
Proof.
  intros ([Hhl (Hnl & Hle & _)%NoDup_app]%NoDup_cons & Hh & Hs). rewrite last_snoc in Hh.
  assert (∃ f, head (l ++ [e]) = Some f) as [f Hf] by (destruct l; eauto). rewrite Hf in Hh.
  apply seg_snoc in Hs as [Hs He]. unfold list_pop, list_empty, detached.
  destruct l as [|t l _] using rev_ind; simpl in He.
  - elem_step. eexists. split; [done|]. split_and!.
    + split_and!; [apply NoDup_singleton|by elem_lookup|done].
    + by elem_lookup.
    + intros y Hy. by elem_lookup.
  - apply seg_snoc in Hs as [Hs Ht]. apply NoDup_app in Hnl as (Hnl & Htl & _).
    rewrite last_snoc in He. elem_step. eexists. split; [done|]. split_and!.
    + split_and!; [apply nodup_head_snoc; [apply NoDup_cons|]; set_solver| |].
      * elem_lookup. rewrite last_snoc, <- Hf. by destruct l.
      * rewrite seg_snoc, !seg_insert by set_solver. by elem_lookup.
    + by elem_lookup.
    + intros y Hy. by elem_lookup.
Qed.

Lemma list_pop_empty σ h : lrep σ h [] → list_pop σ h = Ok (None, σ).
Proof. intros (_ & Hh & _). unfold list_pop, list_empty. by elem_step. Qed.

Lemma list_empty_rep σ h l : lrep σ h l → list_empty σ h = Ok (bool_decide (l = [])).
Proof. intros (_ & Hh & _). unfold list_empty. elem_step. by destruct l. Qed.

Lemma find_loop_seg σ p l e k :
  (length l <= k)%nat → seg σ p l None → find_loop k σ (head l) e = Ok (bool_decide (e ∈ l)).
Proof.
  revert p k. induction l as [|x l IH]; intros p k Hk; simpl.
  { intros _. by destruct k. }
  intros [Hx Hs]. destruct k as [|k]; [simpl in Hk; lia|]. cbn [find_loop]. elem_step.
  rewrite app_nil_r. destruct (decide (x = e)) as [->|Hxe].
  - rewrite !bool_decide_eq_true_2; [done|by apply list_elem_of_here|done].
  - rewrite bool_decide_eq_false_2, (IH (Some x)) by (simpl in Hk; done || lia).
    f_equal. apply bool_decide_ext. set_solver.
Qed.

Lemma lrep_size σ h l : lrep σ h l → (length l < foreach_fuel σ)%nat.
Proof.
  intros Hr. pose proof (lrep_nodup _ _ _ Hr) as [Hn _]. unfold foreach_fuel.
  assert ((list_to_set l : gset A) ⊆ dom σ) as Hsub.
  { intros x. rewrite elem_of_list_to_set. intros Hx. apply elem_of_dom.
    eapply lrep_mem; [done|set_solver]. }
  apply subseteq_size in Hsub. rewrite size_dom in Hsub. rewrite size_list_to_set in Hsub by done. lia.
Qed.

Lemma find_loop_rep σ h l e :
  lrep σ h l → find_loop (foreach_fuel σ) σ (head l) e = Ok (bool_decide (e ∈ l)).
Proof. intros Hr. eapply find_loop_seg; [by eapply Nat.lt_le_incl, lrep_size|apply Hr]. Qed.

Lemma element_in_list_rep σ h l e :
  lrep σ h l → is_Some (σ !! e) → element_in_list σ h e = Ok (bool_decide (e ∈ l)).
Proof.
  intros Hr [c Hc]. pose proof Hr as (_ & Hh & Hs). unfold element_in_list. elem_step.
  destruct (null (next c) && _ && _ && _) eqn:Hfast; [|by eapply find_loop_rep].
  rewrite bool_decide_eq_false_2; [done|]. intros Hel.
  rewrite !andb_true_iff, !negb_true_iff, !bool_decide_eq_false in Hfast.
  destruct Hfast as (((Hn & Hp) & Hhd) & Hla).
  apply list_elem_of_split in Hel as (l1 & l2 & ->). apply seg_app in Hs as (_ & He & _).
  rewrite Hc in He. simplify_eq/=. destruct l1 as [|x l1 _] using rev_ind; [done|].
  by rewrite last_snoc in Hp.
Qed.

(** After the search, [list_delete] unlinks an element by its position: the
    only one, the first, the last, or one in the middle. *)
Definition unlinks σ h l1 e l2 : Prop :=
  ∃ σ', list_delete σ h e = Ok σ' ∧ lrep σ' h (l1 ++ l2) ∧ detached σ' e ∧
    same_except (h :: l1 ++ e :: l2) σ σ'.

Ltac delete_start Hr Hhl Hnd Hh Hs e :=
  unfold unlinks, list_delete, detached; pose proof Hr as ([Hhl Hnd]%NoDup_cons & Hh & Hs);
  rewrite (get_elem_ok _ _ _ Hh); cbn [mbind outcome_bind next];
  rewrite (find_loop_rep _ _ _ e Hr), (bool_decide_eq_true_2 (e ∈ _)) by set_solver.

Lemma list_delete_only σ h e : lrep σ h [e] → unlinks σ h [] e [].
Proof.
  intros Hr. delete_start Hr Hhl Hnd Hh Hs e. destruct Hs as [He _]. simpl in *. elem_step.
  rewrite bool_decide_eq_true_2 by done. elem_step. rewrite bool_decide_eq_true_2 by done. elem_step.
  eexists. split; [done|]. split_and!.
  - split_and!; [apply NoDup_singleton|by elem_lookup|done].
  - by elem_lookup.
  - intros y Hy. by elem_lookup.
Qed.

Lemma list_delete_first σ h e f l : lrep σ h (e :: f :: l) → unlinks σ h [] e (f :: l).
Proof.
  intros Hr. delete_start Hr Hhl Hnd Hh Hs e. destruct Hs as (He & Hf & Hs).
  apply NoDup_cons in Hnd as [Hel [Hfl Hn]%NoDup_cons].
  change (last (e :: f :: l)) with (last (f :: l)) in Hh. simpl in He.
  elem_step. rewrite bool_decide_eq_false_2 by (intros ?%last_Some_elem_of; done). elem_step.
  rewrite bool_decide_eq_true_2 by done. elem_step. eexists. split; [done|]. split_and!.
  - split_and!; [repeat (constructor; [set_solver|]); done|by elem_lookup|].
    cbn [seg app]. rewrite !seg_insert by set_solver. by elem_lookup.
  - by elem_lookup.
  - intros y Hy. by elem_lookup.
Qed.

Lemma list_delete_last σ h l t e : lrep σ h ((l ++ [t]) ++ [e]) → unlinks σ h (l ++ [t]) e [].
Proof.
  intros Hr. delete_start Hr Hhl Hnd Hh Hs e. apply seg_snoc in Hs as [[Hs Ht]%seg_snoc He].
  apply NoDup_app in Hnd as ((Hn & Htl & _)%NoDup_app & Hte & _).
  rewrite last_snoc in Hh. simpl in He. rewrite last_snoc in He. rewrite app_nil_r.
  assert (head ((l ++ [t]) ++ [e]) = head (l ++ [t])) as Hhd by (by destruct l). rewrite Hhd in *.
  elem_step. rewrite bool_decide_eq_true_2 by apply last_snoc. elem_step.
  rewrite bool_decide_eq_false_2 by (intros ?%head_Some_elem_of; set_solver). elem_step.
  eexists. split; [done|]. split_and!.
  - split_and!; [apply nodup_head_snoc; [apply NoDup_cons|]; set_solver| |].
    + elem_lookup. by rewrite last_snoc.
    + rewrite seg_snoc, !seg_insert by set_solver. by elem_lookup.
  - by elem_lookup.
  - intros y Hy. by elem_lookup.
Qed.

Lemma list_delete_middle σ h l t e f l' :
  lrep σ h ((l ++ [t]) ++ e :: f :: l') → unlinks σ h (l ++ [t]) e (f :: l').
Proof.
  intros Hr. delete_start Hr Hhl Hnd Hh Hs e. apply seg_app in Hs as ([Hs Ht]%seg_snoc & He & Hf & Hs').
  apply NoDup_app in Hnd as ((Hn & Htl & _)%NoDup_app & Hte & Hn').
  apply NoDup_cons in Hn' as [Hel Hn']. pose proof Hn' as [Hfl _]%NoDup_cons.
  simpl in He. rewrite last_snoc in He.
  assert (last ((l ++ [t]) ++ e :: f :: l') = last (f :: l')) as Hla.
  { rewrite last_app. change (last (e :: f :: l')) with (last (f :: l')). by destruct (last (f :: l')) eqn:Hx;
      [|apply last_None in Hx]. }
  assert (head ((l ++ [t]) ++ e :: f :: l') = head (l ++ [t])) as Hhd by (by destruct l).
  rewrite Hla, Hhd in *. elem_step.
  rewrite bool_decide_eq_false_2 by (intros ?%last_Some_elem_of; done). elem_step.
  rewrite bool_decide_eq_false_2 by (intros ?%head_Some_elem_of; set_solver). elem_step.
  eexists. split; [done|]. split_and!.
  - split_and!.
    + apply NoDup_cons. split; [set_solver|]. apply NoDup_app. split_and!; [|set_solver|done].
      apply NoDup_app. split_and!; [done|done|apply NoDup_singleton].
    + elem_lookup. rewrite last_app. destruct (last (f :: l')) eqn:Hx; [|by apply last_None in Hx].
      by destruct l.
    + apply seg_app. rewrite seg_snoc, !seg_insert by set_solver. simpl. rewrite last_snoc.
      by elem_lookup.
  - by elem_lookup.
  - intros y Hy. by elem_lookup.
Qed.

(** Any element of the list can be taken out. *)
Lemma list_delete_rep σ h l1 e l2 : lrep σ h (l1 ++ e :: l2) → unlinks σ h l1 e l2.
Proof.
  destruct l1 as [|t l1 _] using rev_ind; destruct l2 as [|f l2].
  - apply list_delete_only.
  - apply list_delete_first.
  - apply list_delete_last.
  - apply list_delete_middle.
Qed.

Lemma list_delete_absent σ h l e : lrep σ h l → e ∉ l → list_delete σ h e = Err EAssert.
Proof.
  intros Hr He. unfold list_delete. pose proof Hr as (_ & Hh & _).
  rewrite (get_elem_ok _ _ _ Hh). cbn [mbind outcome_bind next].
  by rewrite (find_loop_rep _ _ _ e Hr), (bool_decide_eq_false_2 (e ∈ _)).
Qed.

(** ** The contract of list.h: a double-ended queue

    The abstract state is the sequence of elements and the set of the detached
    elements the program may insert. *)
Inductive list_op :=
| op_append (e : A)
| op_prepend (e : A)
| op_pop
| op_fetch
| op_delete (e : A)
| op_find (e : A).

Inductive list_result :=
| r_done
| r_elem (e : option A)
| r_found (b : bool).

Definition run_op h (o : list_op) σ : outcome (list_result * store) :=
  match o with
  | op_append e => σ ← list_append σ h e; Ok (r_done, σ)
  | op_prepend e => σ ← list_prepend σ h e; Ok (r_done, σ)
  | op_pop => '(r, σ) ← list_pop σ h; Ok (r_elem r, σ)
  | op_fetch => '(r, σ) ← list_fetch σ h; Ok (r_elem r, σ)
  | op_delete e => σ ← list_delete σ h e; Ok (r_done, σ)
  | op_find e => b ← element_in_list σ h e; Ok (r_found b, σ)
  end.

(** The same operations on the sequence.  Inserting an element that is not
    detached, or asking for an unknown one, is outside the contract. *)
Definition deque : Type := list A * gset A.

Definition deque_op (o : list_op) (q : deque) : outcome (list_result * deque) :=
  let '(l, D) := q in
  match o with
  | op_append e => if decide (e ∈ D) then Ok (r_done, (l ++ [e], D ∖ {[e]})) else Err EUndef
  | op_prepend e => if decide (e ∈ D) then Ok (r_done, (e :: l, D ∖ {[e]})) else Err EUndef
  | op_pop =>
      Ok (r_elem (last l), (take (pred (length l)) l, D ∪ list_to_set (option_list (last l))))
  | op_fetch => Ok (r_elem (head l), (tail l, D ∪ list_to_set (option_list (head l))))
  | op_delete e =>
      if decide (e ∈ l) then Ok (r_done, (filter (λ x, x ≠ e) l, D ∪ {[e]})) else Err EAssert
  | op_find e =>
      if decide (e ∈ l ∨ e ∈ D) then Ok (r_found (bool_decide (e ∈ l)), (l, D)) else Err EUndef
  end.

Fixpoint run_ops h (os : list list_op) σ : outcome (list list_result * store) :=
  match os with
  | [] => Ok ([], σ)
  | o :: os => '(r, σ) ← run_op h o σ; '(rs, σ) ← run_ops h os σ; Ok (r :: rs, σ)
  end.

Fixpoint deque_ops (os : list list_op) (q : deque) : outcome (list list_result * deque) :=
  match os with
  | [] => Ok ([], q)
  | o :: os => '(r, q) ← deque_op o q; '(rs, q) ← deque_ops os q; Ok (r :: rs, q)
  end.

(** The memory implements the abstract state. *)
Definition drep σ h (q : deque) : Prop :=
  lrep σ h q.1 ∧ ∀ e, e ∈ q.2 → detached σ e ∧ e ∉ h :: q.1.

Definition deque_nodes h (q : deque) : list A := h :: q.1 ++ elements q.2.

Lemma filter_ne_absent l e : e ∉ l → filter (λ x, x ≠ e) l = l.
Proof.
  induction l as [|x l IH]; [done|]. intros [Hx Hl]%not_elem_of_cons.
  rewrite filter_cons_True by congruence. by rewrite IH.
Qed.

Lemma filter_ne_split l1 e l2 :
  NoDup (l1 ++ e :: l2) → filter (λ x, x ≠ e) (l1 ++ e :: l2) = l1 ++ l2.
Proof.
  intros (Hn1 & H12 & [Hel Hn2]%NoDup_cons)%NoDup_app.
  rewrite filter_app, filter_cons_False by tauto.
  by rewrite !filter_ne_absent by set_solver.
Qed.

Lemma drep_step σ σ' h q q' xs :
  drep σ h q → lrep σ' h q'.1 → same_except xs σ σ' → (∀ x, x ∈ xs → x ∈ h :: q.1 ++ q'.1) →
  (∀ e, e ∈ q'.2 → (e ∈ q.2 ∧ e ∉ q'.1) ∨ (detached σ' e ∧ e ∉ h :: q'.1)) → drep σ' h q'.
Proof.
  intros [Hr Hd] Hr' Hx Hxs Hq. split; [done|]. intros e [[He Hl]|?]%Hq; [|done].
  destruct (Hd e He) as [Hde Hne]. split; [|set_solver].
  eapply detached_frame; [done..|]. intros ?%Hxs. set_solver.
Qed.

(** What one operation of the contract asks of the code. *)
Definition op_refines h (o : list_op) σ (q : deque) : Prop :=
  match deque_op o q with
  | Ok (r, q') => ∃ σ', run_op h o σ = Ok (r, σ') ∧ drep σ' h q' ∧
      same_except (deque_nodes h q) σ σ' ∧ deque_nodes h q' ⊆ deque_nodes h q
  | Err EAssert => run_op h o σ = Err EAssert
  | Err _ => True
  end.

Lemma insert_refines h σ (q : deque) e l' (f : outcome store) σ' :
  drep σ h q → e ∈ q.2 → (∀ x, x ∈ l' ↔ x = e ∨ x ∈ q.1) → f = Ok σ' →
  lrep σ' h l' → same_except (h :: e :: q.1) σ σ' →
  ∃ σ', (σ ← f; Ok (r_done, σ)) = Ok (r_done, σ') ∧ drep σ' h (l', q.2 ∖ {[e]}) ∧
    same_except (deque_nodes h q) σ σ' ∧ deque_nodes h (l', q.2 ∖ {[e]}) ⊆ deque_nodes h q.
Proof.
  destruct q as [l D]. simpl. intros Hd He Hl' -> Hr Hx. exists σ'. split; [done|]. split_and!.
  - eapply (drep_step σ σ' h (l, D)); [done..| |]; simpl.
    + intros x. set_solver.
    + intros x [Hx1 Hx2]%elem_of_difference. left. split; [done|]. rewrite Hl'.
      pose proof (proj2 Hd x Hx1). set_solver.
  - intros y Hy. apply Hx. unfold deque_nodes in Hy. set_solver.
  - unfold deque_nodes. simpl. set_solver.
Qed.

Lemma remove_refines h σ l (D : gset A) e l' (Es : gset A) σ' :
  drep σ h (l, D) → e ∈ l → (∀ x, x ∈ l' ↔ x ≠ e ∧ x ∈ l) → (∀ x, x ∈ Es ↔ x = e) →
  lrep σ' h l' → detached σ' e → same_except (h :: l) σ σ' →
  drep σ' h (l', D ∪ Es) ∧ same_except (deque_nodes h (l, D)) σ σ' ∧
  deque_nodes h (l', D ∪ Es) ⊆ deque_nodes h (l, D).
Proof.
  intros Hd He Hl' HEs Hr Hde Hx. pose proof (lrep_nodup _ _ _ (proj1 Hd)) as [_ Hhl]. simpl in Hhl.
  split_and!.
  - eapply (drep_step σ σ' h (l, D)); [done..| |]; simpl.
    + intros x. set_solver.
    + intros x [Hx1|Hx1]%elem_of_union.
      * left. split; [done|]. rewrite Hl'. pose proof (proj2 Hd x Hx1). set_solver.
      * right. apply HEs in Hx1 as ->. split; [done|]. set_solver.
  - intros y Hy. apply Hx. unfold deque_nodes in Hy. simpl in Hy. set_solver.
  - unfold deque_nodes. simpl. intros x. rewrite !elem_of_cons, !elem_of_app, !elem_of_elements.
    rewrite elem_of_union, HEs, Hl'. set_solver.
Qed.

Lemma unchanged_refines h σ (q : deque) :
  drep σ h q → drep σ h q ∧ same_except (deque_nodes h q) σ σ ∧ deque_nodes h q ⊆ deque_nodes h q.
Proof. done. Qed.

Lemma take_snoc l e : take (pred (length (l ++ [e]))) (l ++ [e]) = l.
Proof. rewrite length_app, Nat.add_comm. simpl. by rewrite take_app_length. Qed.

Lemma op_refined h o σ q : drep σ h q → op_refines h o σ q.
Proof.
  destruct q as [l D]. intros Hd. pose proof Hd as [Hr Hdet]. unfold op_refines. simpl in Hr, Hdet.
  pose proof (lrep_nodup _ _ _ Hr) as [Hnl Hhl].
  destruct o as [e|e| | |e|e]; cbn [deque_op run_op].
  - case_decide as He; [|done]. destruct (Hdet e He) as [Hde Hne].
    destruct (list_append_rep σ h l e Hr Hde Hne) as (σ' & Hok & Hr' & Hx).
    eapply (insert_refines h σ (l, D)); try done. set_solver.
  - case_decide as He; [|done]. destruct (Hdet e He) as [Hde Hne].
    destruct (list_prepend_rep σ h l e Hr Hde Hne) as (σ' & Hok & Hr' & Hx).
    eapply (insert_refines h σ (l, D)); try done. set_solver.
  - destruct l as [|e l _] using rev_ind.
    { rewrite (list_pop_empty _ _ Hr). exists σ. split; [done|]. simpl. rewrite union_empty_r_L.
      by apply unchanged_refines. }
    destruct (list_pop_rep σ h l e Hr) as (σ' & -> & Hr' & He & Hx). exists σ'.
    rewrite last_snoc, take_snoc. split; [done|].
    apply (remove_refines _ _ _ _ e); try done; [set_solver| |set_solver|].
    + apply NoDup_app in Hnl. set_solver.
    + intros y Hy. apply Hx. set_solver.
  - destruct (list_fetch_rep σ h l Hr) as (σ' & -> & Hr' & He & Hx). exists σ'. split; [done|].
    destruct l as [|e l]; simpl.
    { rewrite union_empty_r_L. split_and!; [|intros y Hy; apply Hx; set_solver|done].
      eapply drep_step; [done..| |]; simpl; set_solver. }
    apply NoDup_cons in Hnl as [? ?].
    apply (remove_refines _ _ _ _ e); try done; [set_solver|set_solver|set_solver|by apply He].
  - case_decide as He; [|cbn; by rewrite (list_delete_absent _ _ _ _ Hr He)].
    apply list_elem_of_split in He as (l1 & l2 & ->).
    destruct (list_delete_rep σ h l1 e l2 Hr) as (σ' & -> & Hr' & He & Hx). exists σ'. split; [done|].
    rewrite filter_ne_split by done.
    apply (remove_refines _ _ _ _ e); try done; [set_solver| |set_solver].
    apply NoDup_app in Hnl as (_ & ? & [? ?]%NoDup_cons). set_solver.
  - case_decide as He; [|done]. exists σ. rewrite (element_in_list_rep _ _ _ _ Hr).
    + split; [done|]. by apply unchanged_refines.
    + destruct He as [He|He]; [eapply lrep_mem; [done|set_solver]|].
      destruct (Hdet e He) as [-> _]. done.
Qed.

(** C23: the operations of list.c implement a double-ended queue.  From a
    memory that represents a sequence, with a set of detached elements beside
    it, every sequence of appends, prepends, pops, fetches, deletions and
    queries returns what the same operations on the sequence return, ends in a
    memory that represents the resulting sequence, and touches no other
    element; deleting an element that is not in the list stops with a failed
    assertion, as list.h says. *)
Theorem list_operations_refine h (os : list list_op) σ (q : deque) :
  drep σ h q →
  match deque_ops os q with
  | Ok (rs, q') =>
      ∃ σ', run_ops h os σ = Ok (rs, σ') ∧ drep σ' h q' ∧ same_except (deque_nodes h q) σ σ'
  | Err EAssert => run_ops h os σ = Err EAssert
  | Err _ => True
  end.
Proof.
  revert σ q. induction os as [|o os IH]; intros σ q Hd; [by exists σ|].
  pose proof (op_refined h o σ q Hd) as Ho. unfold op_refines in Ho. cbn [deque_ops run_ops].
  destruct (deque_op o q) as [[r q']|[]]; try done; [|by rewrite Ho].
  destruct Ho as (σ' & -> & Hd' & Hx & Hsub). cbn [mbind outcome_bind]. specialize (IH σ' q' Hd').
  destruct (deque_ops os q') as [[rs q'']|[]]; try done; [|by rewrite IH].
  destruct IH as (σ'' & -> & Hd'' & Hx'). exists σ''. split; [done|]. split; [done|].
  intros y Hy. rewrite Hx' by (intros Hin; by apply Hy, Hsub). by apply Hx.
Qed.

End Operations.

(** Three detached elements and an empty list. *)
Definition demo_store : gmap Z (list_elem Z) :=
  list_init (list_init (list_init (list_init ∅ 10) 1) 2) 3.

Definition demo_ops : list (list_op (A := Z)) :=
  [op_append 1; op_prepend 2; op_append 3; op_delete 1; op_find 1; op_fetch; op_pop].

Lemma list_operations_refine_witness :
  ∃ σ', run_ops 10 demo_ops demo_store
        = Ok ([r_done; r_done; r_done; r_done; r_found false; r_elem (Some 2); r_elem (Some 3)], σ') ∧
    lrep σ' 10 [].
Proof.
  assert (drep demo_store 10 ([], {[1; 2; 3]})) as Hd.
  { split; [split_and!; [apply NoDup_singleton|by vm_compute|done]|].
    intros e He. assert (e = 1 ∨ e = 2 ∨ e = 3) as [-> | [-> | ->]] by set_solver; (split; [by vm_compute|set_solver]). }
  destruct (list_operations_refine 10 demo_ops _ _ Hd) as (σ' & Hrun & Hd' & _).
  exists σ'. split; [exact Hrun|exact (proj1 Hd')].
Defined.

End DList.
