(* ===== verification/Sched.v ===== *)
(** * Tasks and scheduling (task_sched.c, vmm_sched.c, wait_queue.c, task.c)

    Tasks are scheduled cooperatively on one host thread: a task that gives up
    the processor calls [yield_cpu], whose handler puts it into the queue of its
    state, sorts the queues and picks the next task.  The three queues, the
    global task list, the wait queues and the list of the entries of a
    [call_wait4] are the intrusive lists of list.c, all in one memory, so that
    the code works on pointers exactly as in C.  A [struct virtual_machine] and
    its [struct hart] are one to one and are one record here.  A function that
    calls [yield_cpu] in its middle is split there. *)
From S2P Require Import Prelude DList.

Module Sched.
Import DList.

(** [enum task_state]; [TASK_STATE_MAX] is no state. *)
Inductive task_state :=
| TASK_STATE_ZOMBIE
| TASK_STATE_RUNNING
| TASK_STATE_INTERRUPTIBLE
| TASK_STATE_UNINTERRUPTIBLE
| TASK_STATE_EXITING.

#[export] Instance task_state_eq_dec : EqDecision task_state.
Proof. solve_decision. Defined.

(** The addresses of the [list_elem]s: the static heads, the [list] member of a
    hart, the [list_node] member of its virtual machine, the wait queue head of
    a hart, the two members of a [wait_blob], and the local head of the
    [call_wait4] a task is in. *)
Inductive node :=
| RUNNING_TASKS
| BLOCKING_TASKS
| EXITING_TASKS
| GLOBAL_TASK_LIST
| HART_LIST (t : Z)
| VM_NODE (t : Z)
| PIVOT (t : Z)
| WAIT_LIST (b : Z)
| BLOB_NODE (b : Z)
| BLOB_HEAD (t : Z).

#[export] Instance node_eq_dec : EqDecision node.
Proof. solve_decision. Defined.

Definition node_code (x : node) : Z * Z :=
  match x with
  | RUNNING_TASKS => (0, 0) | BLOCKING_TASKS => (1, 0) | EXITING_TASKS => (2, 0)
  | GLOBAL_TASK_LIST => (3, 0)
  | HART_LIST t => (4, t) | VM_NODE t => (5, t) | PIVOT t => (6, t)
  | WAIT_LIST b => (7, b) | BLOB_NODE b => (8, b) | BLOB_HEAD t => (9, t)
  end.

Definition node_decode (c : Z * Z) : option node :=
  let '(k, t) := c in
  nth_error [RUNNING_TASKS; BLOCKING_TASKS; EXITING_TASKS; GLOBAL_TASK_LIST; HART_LIST t; VM_NODE t;
             PIVOT t; WAIT_LIST t; BLOB_NODE t; BLOB_HEAD t] (Z.to_nat k).

#[export] Instance node_countable : Countable node.
Proof. refine (inj_countable node_code node_decode _). by intros []. Defined.

(** The fields of [struct hart] and [struct virtual_machine] the scheduler and
    the process calls use. *)
Record task := mk_task {
  state : task_state;
  non_stop_state : task_state;
  wait_state_exited : bool;
  wait_state_stopped : bool;
  wait_state_continued : bool;
  host_cpustate : Z;
  vmm_stack_ptr : Z;
  pid : Z;
  ppid : Z;
  tgid : Z;
  parent_vm : option Z;
  set_child_tid : Z;
  ref_count : Z;
  cloned_vm : bool;
  cloned_files : bool;
  cloned_fs : bool;
}.

(** [struct wait_blob]: the child waited for and the waiting task. *)
Record wait_blob := mk_blob { blob_vm : Z; blob_task : Z }.

(** [current]: the idle task or a task. *)
Inductive cur := IDLE | TASK (t : Z).

#[export] Instance cur_eq_dec : EqDecision cur.
Proof. solve_decision. Defined.

Record sys := mk_sys {
  lists : gmap node (list_elem node);
  tasks : gmap Z task;
  blobs : gmap Z wait_blob;
  current : option cur;
  idle_cpustate : Z;
  gpid_counter : Z;
}.

Definition set_lists (s : sys) l : sys :=
  mk_sys l (tasks s) (blobs s) (current s) (idle_cpustate s) (gpid_counter s).

Definition set_task (s : sys) t x : sys :=
  mk_sys (lists s) (<[t := x]> (tasks s)) (blobs s) (current s) (idle_cpustate s) (gpid_counter s).

Definition set_blobs (s : sys) b : sys :=
  mk_sys (lists s) (tasks s) b (current s) (idle_cpustate s) (gpid_counter s).

Definition set_current (s : sys) c : sys :=
  mk_sys (lists s) (tasks s) (blobs s) (Some c) (idle_cpustate s) (gpid_counter s).

Definition get_task (s : sys) t : outcome task := deref (tasks s !! t).

(** Assignments to single fields. *)
Definition with_state (x : task) st : task :=
  let 'mk_task _ ns we ws wc cpu vs p pp tg pa tid rc cv cf cs := x in
  mk_task st ns we ws wc cpu vs p pp tg pa tid rc cv cf cs.

Definition with_non_stop (x : task) ns : task :=
  let 'mk_task st _ we ws wc cpu vs p pp tg pa tid rc cv cf cs := x in
  mk_task st ns we ws wc cpu vs p pp tg pa tid rc cv cf cs.

Definition with_exited (x : task) : task :=
  let 'mk_task st ns _ ws wc cpu vs p pp tg pa tid rc cv cf cs := x in
  mk_task st ns true ws wc cpu vs p pp tg pa tid rc cv cf cs.

Definition with_cpustate (x : task) cpu : task :=
  let 'mk_task st ns we ws wc _ vs p pp tg pa tid rc cv cf cs := x in
  mk_task st ns we ws wc cpu vs p pp tg pa tid rc cv cf cs.

Definition with_child_tid (x : task) tid : task :=
  let 'mk_task st ns we ws wc cpu vs p pp tg pa _ rc cv cf cs := x in
  mk_task st ns we ws wc cpu vs p pp tg pa tid rc cv cf cs.

Definition with_ref (x : task) rc : task :=
  let 'mk_task st ns we ws wc cpu vs p pp tg pa tid _ cv cf cs := x in
  mk_task st ns we ws wc cpu vs p pp tg pa tid rc cv cf cs.

Definition with_cloned (x : task) cv cf cs : task :=
  let 'mk_task st ns we ws wc cpu vs p pp tg pa tid rc _ _ _ := x in
  mk_task st ns we ws wc cpu vs p pp tg pa tid rc cv cf cs.

(** ** task_sched.c *)

(** The table [task_state_transition_init] fills. *)
Definition transition_table (prev_state target_state : task_state) : bool :=
  match prev_state, target_state with
  | TASK_STATE_ZOMBIE, TASK_STATE_ZOMBIE
  | TASK_STATE_RUNNING, TASK_STATE_RUNNING
  | TASK_STATE_EXITING, TASK_STATE_EXITING
  | TASK_STATE_INTERRUPTIBLE, TASK_STATE_INTERRUPTIBLE
  | TASK_STATE_UNINTERRUPTIBLE, TASK_STATE_UNINTERRUPTIBLE
  | TASK_STATE_RUNNING, TASK_STATE_INTERRUPTIBLE
  | TASK_STATE_RUNNING, TASK_STATE_UNINTERRUPTIBLE
  | TASK_STATE_RUNNING, TASK_STATE_EXITING
  | TASK_STATE_INTERRUPTIBLE, TASK_STATE_RUNNING
  | TASK_STATE_INTERRUPTIBLE, TASK_STATE_UNINTERRUPTIBLE
  | TASK_STATE_UNINTERRUPTIBLE, TASK_STATE_RUNNING
  | TASK_STATE_UNINTERRUPTIBLE, TASK_STATE_INTERRUPTIBLE => true
  | _, _ => false
  end.

Definition transit_state (t : Z) (target_state : task_state) (s : sys) : outcome sys :=
  x ← get_task s t;
  ASSERT (transition_table (state x) target_state);;
  Ok (set_task s t (with_state x target_state)).

Definition on_list (s : sys) (o : outcome (gmap node (list_elem node))) : outcome sys :=
  l ← o; Ok (set_lists s l).

Definition schedule_task (t : Z) (s : sys) : outcome sys :=
  x ← get_task s t;
  match state x with
  | TASK_STATE_RUNNING => on_list s (list_append (lists s) RUNNING_TASKS (HART_LIST t))
  | TASK_STATE_INTERRUPTIBLE | TASK_STATE_UNINTERRUPTIBLE =>
      on_list s (list_append (lists s) BLOCKING_TASKS (HART_LIST t))
  | TASK_STATE_EXITING => on_list s (list_append (lists s) EXITING_TASKS (HART_LIST t))
  | TASK_STATE_ZOMBIE => not_reach
  end.

(** [CONTAINER_OF(x, struct hart, list)]. *)
Definition hart_of (x : node) : outcome Z :=
  match x with HART_LIST t => Ok t | _ => Err EUndef end.

(** The switch in the loop of [process_blocking_list]. *)
Definition blocking_switch (x : node) (t : Z) (st : task_state) (s : sys) : outcome sys :=
  match st with
  | TASK_STATE_RUNNING | TASK_STATE_EXITING =>
      s ← on_list s (list_delete (lists s) BLOCKING_TASKS x);
      schedule_task t s
  | TASK_STATE_INTERRUPTIBLE | TASK_STATE_UNINTERRUPTIBLE => Ok s
  | TASK_STATE_ZOMBIE => not_reach
  end.

Fixpoint blocking_loop (n : nat) (cur : option node) (s : sys) : outcome sys :=
  match cur with
  | None => Ok s
  | Some x =>
      match n with
      | O => Err EFuel
      | S n =>
          c ← get_elem (lists s) x;
          t ← hart_of x;
          k ← get_task s t;
          s ← blocking_switch x t (state k) s;
          blocking_loop n (next c) s
      end
  end.

Definition process_blocking_list (s : sys) : outcome sys :=
  h ← get_elem (lists s) BLOCKING_TASKS;
  blocking_loop (foreach_fuel (lists s)) (next h) s.

Fixpoint exiting_loop (n : nat) (s : sys) : outcome sys :=
  match n with
  | O => Err EFuel
  | S n =>
      '(x, l) ← list_fetch (lists s) EXITING_TASKS;
      match x with
      | None => Ok (set_lists s l)
      | Some x => t ← hart_of x; exiting_loop n (set_lists s l)
      end
  end.

Definition process_exiting_list (s : sys) : outcome sys := exiting_loop (foreach_fuel (lists s)) s.

Fixpoint running_loop (n : nat) (s : sys) : outcome (option Z * sys) :=
  match n with
  | O => Err EFuel
  | S n =>
      '(x, l) ← list_fetch (lists s) RUNNING_TASKS;
      let s := set_lists s l in
      match x with
      | None => Ok (None, s)
      | Some x =>
          t ← hart_of x;
          k ← get_task s t;
          if bool_decide (state k = TASK_STATE_RUNNING) then Ok (Some t, s)
          else s ← schedule_task t s; running_loop n s
      end
  end.

Definition process_running_list (s : sys) : outcome (option Z * sys) :=
  running_loop (foreach_fuel (lists s)) s.

(** ** vmm_sched.c *)

(** [sizeof(struct x86_64_cpustate)]: eighteen 64-bit words. *)
Definition SIZEOF_CPUSTATE : Z := 144.

Definition task_vmm_sched_init (t : Z) (s : sys) : outcome sys :=
  x ← get_task s t;
  let stack := w64 (vmm_stack_ptr x - SIZEOF_CPUSTATE) in
  let stack := Z.land stack (w64 (Z.lnot 15)) in
  Ok (set_task s t (with_cpustate x stack)).

(** [userspace_trap_handler]: [cpu] is the address of the registers saved on the
    stack of the task that yields; the result is the stack to continue on. *)
Definition userspace_trap_handler (cpu : Z) (s : sys) : outcome (Z * sys) :=
  c ← (match current s with Some c => Ok c | None => Err EAssert end);
  s ← (match c with
       | IDLE => Ok (mk_sys (lists s) (tasks s) (blobs s) (current s) cpu (gpid_counter s))
       | TASK t =>
           x ← get_task s t;
           schedule_task t (set_task s t (with_cpustate x cpu))
       end);
  s ← process_blocking_list s;
  s ← process_exiting_list s;
  '(next_task, s) ← process_running_list s;
  let c := match next_task with Some t => TASK t | None => IDLE end in
  let s := set_current s c in
  stack ← (match c with
           | IDLE => Ok (idle_cpustate s)
           | TASK t => x ← get_task s t; Ok (host_cpustate x)
           end);
  ASSERT (negb (stack =? 0));;
  Ok (stack, s).

(** [schedule_idle_task] up to its first [yield_cpu]; afterwards the idle task
    only yields. *)
Definition schedule_idle_task (s : sys) : sys := set_current s IDLE.

(** [sched_pre_init] and [task_pre_init]. *)
Definition sched_pre_init (s : sys) : sys :=
  set_lists s (list_init (list_init (list_init (lists s) RUNNING_TASKS) BLOCKING_TASKS) EXITING_TASKS).

Definition task_pre_init (s : sys) : sys := set_lists s (list_init (lists s) GLOBAL_TASK_LIST).

(** ** wait_queue.c *)
Definition initialize_wait_queue_head (t : Z) (s : sys) : sys := set_lists s (list_init (lists s) (PIVOT t)).

(** The entry of blob [b]; its task was set when the blob was made. *)
Definition initialize_wait_queue_entry (b : Z) (s : sys) : sys := set_lists s (list_init (lists s) (WAIT_LIST b)).

Definition add_wait_queue_entry (t b : Z) (s : sys) : outcome sys :=
  found ← element_in_list (lists s) (PIVOT t) (WAIT_LIST b);
  if (found : bool) then Ok s else on_list s (list_append (lists s) (PIVOT t) (WAIT_LIST b)).

Definition remove_wait_queue_entry (t b : Z) (s : sys) : outcome sys :=
  found ← element_in_list (lists s) (PIVOT t) (WAIT_LIST b);
  if (found : bool) then on_list s (list_delete (lists s) (PIVOT t) (WAIT_LIST b)) else Ok s.

Definition raw_task_wake_up (t : Z) (s : sys) : outcome sys :=
  x ← get_task s t;
  match state x with
  | TASK_STATE_RUNNING => Ok s
  | TASK_STATE_INTERRUPTIBLE => transit_state t TASK_STATE_RUNNING s
  | TASK_STATE_UNINTERRUPTIBLE =>
      ASSERT (bool_decide (non_stop_state x = TASK_STATE_RUNNING)
              || bool_decide (non_stop_state x = TASK_STATE_INTERRUPTIBLE));;
      Ok (set_task s t (with_non_stop x TASK_STATE_RUNNING))
  | _ => not_reach
  end.

(** [CONTAINER_OF(x, struct wait_queue, list)]. *)
Definition wait_queue_of (x : node) : outcome Z :=
  match x with WAIT_LIST b => Ok b | _ => Err EUndef end.

Fixpoint wake_loop (n : nat) (cur : option node) (s : sys) : outcome sys :=
  match cur with
  | None => Ok s
  | Some x =>
      match n with
      | O => Err EFuel
      | S n =>
          c ← get_elem (lists s) x;
          b ← wait_queue_of x;
          w ← deref (blobs s !! b);
          s ← raw_task_wake_up (blob_task w) s;
          wake_loop n (next c) s
      end
  end.

Definition wake_up (t : Z) (s : sys) : outcome sys :=
  h ← get_elem (lists s) (PIVOT t);
  wake_loop (foreach_fuel (lists s)) (next h) s.

(** ** task.c *)
Definition register_task (t : Z) (s : sys) : outcome sys :=
  on_list s (list_append (lists s) GLOBAL_TASK_LIST (VM_NODE t)).

Definition unregister_task (t : Z) (s : sys) : outcome sys :=
  found ← element_in_list (lists s) GLOBAL_TASK_LIST (VM_NODE t);
  if (found : bool) then on_list s (list_delete (lists s) GLOBAL_TASK_LIST (VM_NODE t)) else Ok s.

Definition call_set_tid_address (t tid_address : Z) (s : sys) : outcome (Z * sys) :=
  x ← get_task s t;
  Ok (pid x, set_task s t (with_child_tid x tid_address)).

Definition call_set_robust_list (t head_addr len : Z) (s : sys) : outcome (Z * sys) := Ok (0, s).

(** [new_pid] of app.c. *)
Definition new_pid (s : sys) : Z * sys :=
  (gpid_counter s,
   mk_sys (lists s) (tasks s) (blobs s) (current s) (idle_cpustate s) (w32 (gpid_counter s + 1))).

(** [enum linkage_hint] and [get_linked_vm] of vm.h: the task whose memory,
    files or file system a task uses.  The fuel bounds the walk to the parents;
    no chain of distinct tasks is longer than the table. *)
Inductive linkage_hint :=
| LINKAGE_HINT_NATIVE
| LINKAGE_HINT_VM
| LINKAGE_HINT_FILES
| LINKAGE_HINT_FS.

Definition should_go (hint : linkage_hint) (x : task) : bool :=
  match hint with
  | LINKAGE_HINT_VM => cloned_vm x
  | LINKAGE_HINT_FS => cloned_fs x
  | LINKAGE_HINT_FILES => cloned_files x
  | LINKAGE_HINT_NATIVE => false
  end.

Fixpoint linked_loop (n : nat) (hint : linkage_hint) (t : Z) (s : sys) : outcome Z :=
  match n with
  | O => Err EFuel
  | S n =>
      x ← get_task s t;
      if should_go hint x then
        ASSERT (match parent_vm x with Some _ => true | None => false end);;
        p ← deref (parent_vm x);
        linked_loop n hint p s
      else Ok t
  end.

Definition get_linked_vm (hint : linkage_hint) (t : Z) (s : sys) : outcome Z :=
  linked_loop (S (size (tasks s))) hint t s.

(** [ref_count] is an [int32_t]. *)
Definition reference_task (t : Z) (s : sys) : outcome sys :=
  x ← get_task s t; Ok (set_task s t (with_ref x (sint 32 (ref_count x + 1)))).

Definition deference_task (t : Z) (s : sys) : outcome sys :=
  x ← get_task s t; Ok (set_task s t (with_ref x (sint 32 (ref_count x - 1)))).

(** The flags of clone(2). *)
Definition CLONE_VM : Z := 0x100.

Definition CLONE_FS : Z := 0x200.

Definition CLONE_FILES : Z := 0x400.

Definition CLONE_THREAD : Z := 0x10000.

Definition CLONE_CHILD_SETTID : Z := 0x1000000.

Definition flag (flags f : Z) : bool := negb (Z.land flags f =? 0).

(** [allocate_virtual_machine_descriptor]: zeroed memory at the new address. *)
Definition zero_task : task :=
  mk_task TASK_STATE_ZOMBIE TASK_STATE_ZOMBIE false false false 0 0 0 0 0 None 0 0 false false false.

Definition allocate_virtual_machine_descriptor (child : Z) (s : sys) : sys :=
  set_task (set_lists s (<[VM_NODE child := mk_elem None None]> (lists s))) child zero_task.

Definition task_linkage_init (cur child flags : Z) (s : sys) : outcome sys :=
  let '(p, s) := new_pid s in
  me ← get_task s cur;
  x ← get_task s child;
  let 'mk_task st ns we ws wc cpu vs _ _ _ _ tid rc cv cf cs := x in
  let tg := if flag flags CLONE_THREAD then pid me else p in
  let s := set_task s child (mk_task st ns we ws wc cpu vs p (pid me) tg (Some cur) tid rc cv cf cs) in
  reference_task cur s.

(** The part of [hart_init] (hart.c) about scheduling; [vmm_stack] is what
    [mmap] returned for the stack. *)
Definition VMM_STACK_SIZE : Z := 1024 * 8.

Definition hart_init (child vmm_stack : Z) (s : sys) : outcome sys :=
  x ← get_task s child;
  let 'mk_task _ _ _ _ _ _ _ p pp tg pa tid rc cv cf cs := x in
  let vs := Z.land vmm_stack (w64 (Z.lnot 4095)) + VMM_STACK_SIZE in
  let s := set_lists s (<[HART_LIST child := mk_elem None None]> (lists s)) in
  let s := set_task s child
             (mk_task TASK_STATE_RUNNING TASK_STATE_ZOMBIE false false false 0 vs p pp tg pa tid rc cv cf cs) in
  Ok (initialize_wait_queue_head child s).

(** Whether [duplicate_virtual_memory] and [duplicate_files] return for the
    caller's memory and files: both contain assertions.  The functions are in
    Fork, which computes these answers ([Fork.copies_of]). *)
Record copies := mk_copies { copy_memory : outcome unit; copy_files : outcome unit }.

(** [task_vm_init], [task_fs_init], [task_files_init] and [task_threads_init] on
    the records of the tasks. *)
Definition task_vm_share (cur child flags : Z) (cp : copies) (s : sys) : outcome sys :=
  if flag flags CLONE_VM then
    x ← get_task s child;
    reference_task cur (set_task s child (with_cloned x true (cloned_files x) (cloned_fs x)))
  else copy_memory cp;; Ok s.

Definition task_fs_share (cur child flags : Z) (s : sys) : outcome sys :=
  if flag flags CLONE_FS then
    x ← get_task s child;
    reference_task cur (set_task s child (with_cloned x (cloned_vm x) (cloned_files x) true))
  else Ok s.

Definition task_files_share (cur child flags : Z) (cp : copies) (s : sys) : outcome sys :=
  if flag flags CLONE_FILES then
    x ← get_task s child;
    reference_task cur (set_task s child (with_cloned x (cloned_vm x) true (cloned_fs x)))
  else copy_files cp;; Ok s.

Definition task_threads_tid (child flags ctid_addr : Z) (s : sys) : outcome sys :=
  if flag flags CLONE_CHILD_SETTID then
    x ← get_task s child; Ok (set_task s child (with_child_tid x ctid_addr))
  else Ok s.

(** [clone_task] on the records and lists of the tasks; [child] and [vmm_stack]
    are what the allocations returned, [cp] what the copies answer. *)
Definition clone_task (cur child vmm_stack child_stack flags ctid_addr : Z) (cp : copies) (s : sys) : outcome (Z * sys) :=
  let s := allocate_virtual_machine_descriptor child s in
  s ← task_linkage_init cur child flags s;
  s ← hart_init child vmm_stack s;
  s ← task_vm_share cur child flags cp s;
  s ← task_fs_share cur child flags s;
  s ← task_files_share cur child flags cp s;
  s ← task_threads_tid child flags ctid_addr s;
  (if flag flags CLONE_THREAD then ASSERT (negb (child_stack =? 0)) else Ok tt);;
  s ← register_task child s;
  s ← task_vmm_sched_init child s;
  s ← schedule_task child s;
  x ← get_task s child;
  Ok (pid x, s).

(** [do_exit] up to its [yield_cpu], from which the task does not return. *)
Definition do_exit (t : Z) (s : sys) : outcome sys :=
  x ← get_task s t;
  let s := set_task s t (with_exited x) in
  s ← wake_up t s;
  transit_state t TASK_STATE_EXITING s.

Definition WNOHANG_MASK : Z := 0x1.

Definition WUNTRACED_MASK : Z := 0x2.

(** [CONTAINER_OF(x, struct virtual_machine, list_node)] and
    [CONTAINER_OF(x, struct wait_blob, list_node)]. *)
Definition vm_of (x : node) : outcome Z :=
  match x with VM_NODE t => Ok t | _ => Err EUndef end.

Definition blob_of (x : node) : outcome Z :=
  match x with BLOB_NODE b => Ok b | _ => Err EUndef end.

(** Whether [call_wait4] of the task [me] waits for the child [v]. *)
Definition is_to_wait (pid_hint : Z) (me v : task) : bool :=
  if pid_hint =? -1 then pid me =? ppid v
  else if pid_hint <? -1 then tgid v =? w32 (- pid_hint)
  else if pid_hint =? 0 then tgid v =? pid me
  else pid v =? w32 pid_hint.

(** An address [malloc] may return: none of the blobs in use. *)
Definition new_blob (s : sys) : Z := fresh (dom (blobs s) : gset Z).

(** The entry [call_wait4] of task [t] leaves on the wait queue of [v]. *)
Definition add_wait_blob (t v : Z) (s : sys) : outcome sys :=
  let b := new_blob s in
  let s := set_blobs s (<[b := mk_blob v t]> (blobs s)) in
  let s := set_lists s (<[BLOB_NODE b := mk_elem None None]> (lists s)) in
  let s := initialize_wait_queue_entry b s in
  s ← on_list s (list_append (lists s) (BLOB_HEAD t) (BLOB_NODE b));
  add_wait_queue_entry v b s.

(** The loop over the tasks: the result so far, the child found exited. *)
Fixpoint wait_loop (n : nat) (cur : option node) (t pid_hint options ret : Z) (s : sys)
    : outcome (Z * option Z * sys) :=
  match cur with
  | None => Ok (ret, None, s)
  | Some x =>
      match n with
      | O => Err EFuel
      | S n =>
          c ← get_elem (lists s) x;
          v ← vm_of x;
          me ← get_task s t;
          k ← get_task s v;
          if negb (pid me =? ppid k) || (pid me =? pid k) then
            wait_loop n (next c) t pid_hint options ret s
          else if negb (is_to_wait pid_hint me k) then
            wait_loop n (next c) t pid_hint options ret s
          else if wait_state_exited k then Ok (sint 32 (pid k), Some v, s)
          else if Z.land options WNOHANG_MASK =? 0 then
            s ← add_wait_blob t v s;
            wait_loop n (next c) t pid_hint options 0 s
          else wait_loop n (next c) t pid_hint options 0 s
      end
  end.

(** [call_wait4] up to its [yield_cpu]; the flag tells whether it yields. *)
Definition call_wait4 (t pid_hint options : Z) (s : sys) : outcome (Z * option Z * bool * sys) :=
  let s := set_lists s (list_init (lists s) (BLOB_HEAD t)) in
  h ← get_elem (lists s) GLOBAL_TASK_LIST;
  '(ret, target, s) ← wait_loop (foreach_fuel (lists s)) (next h) t pid_hint options (-1) s;
  empty ← list_empty (lists s) (BLOB_HEAD t);
  if (empty : bool) then Ok (ret, target, false, s)
  else s ← transit_state t TASK_STATE_INTERRUPTIBLE s; Ok (ret, target, true, s).

Definition free_blob (b : Z) (s : sys) : sys :=
  mk_sys (delete (BLOB_NODE b) (delete (WAIT_LIST b) (lists s))) (tasks s) (delete b (blobs s))
    (current s) (idle_cpustate s) (gpid_counter s).

Fixpoint reap_loop (n : nat) (t options ret : Z) (target : option Z) (s : sys)
    : outcome (Z * option Z * sys) :=
  match n with
  | O => Err EFuel
  | S n =>
      '(x, l) ← list_fetch (lists s) (BLOB_HEAD t);
      let s := set_lists s l in
      match x with
      | None => Ok (ret, target, s)
      | Some x =>
          b ← blob_of x;
          w ← deref (blobs s !! b);
          k ← get_task s (blob_vm w);
          let found := (ret <=? 0) &&
            (wait_state_exited k ||
             (negb (Z.land options WUNTRACED_MASK =? 0)
              && (wait_state_continued k || wait_state_stopped k))) in
          s ← remove_wait_queue_entry (blob_vm w) b s;
          reap_loop n t options (if found then sint 32 (pid k) else ret)
            (if found then Some (blob_vm w) else target) (free_blob b s)
      end
  end.

(** The rest of [call_wait4], after the task has been resumed. *)
Definition call_wait4_resumed (t options ret : Z) (target : option Z) (s : sys) : outcome (Z * sys) :=
  '(ret, target, s) ← reap_loop (foreach_fuel (lists s)) t options ret target s;
  if 0 <? ret then
    ASSERT (match target with Some _ => true | None => false end);;
    v ← deref target;
    s ← unregister_task v s;
    Ok (w32 ret, s)
  else Ok (w32 ret, s).

End Sched.
