(* ===== verification/SchedTrap.v ===== *)
(** * The scheduler: the trap handler against an abstract scheduler

    The abstract scheduler works on three lists of tasks.  [trap_correct] proves
    that the handler of vmm_sched.c, which works on linked memory, implements it
    and keeps the invariant [sched_ok]; [switched_position] says where a runnable
    task is in the run queue after a trap. *)
From S2P Require Import Prelude DList Sched.

Module SchedTrap.
Import DList Sched.

(** ** The queues the memory represents *)
Inductive qname := Run | Blk | Ext.

#[export] Instance qname_eq_dec : EqDecision qname.
Proof. solve_decision. Defined.

Definition head_of (k : qname) : node :=
  match k with Run => RUNNING_TASKS | Blk => BLOCKING_TASKS | Ext => EXITING_TASKS end.

Definition queues : Type := qname → list Z.

Definition mkq (run blk ext : list Z) : queues :=
  λ k, match k with Run => run | Blk => blk | Ext => ext end.

Definition upd (q : queues) k l : queues := λ k', if decide (k' = k) then l else q k'.

Definition queued (q : queues) t : Prop := ∃ k, t ∈ q k.

Record srep (s : sys) (q : queues) : Prop := {
  sr_list : ∀ k, lrep (lists s) (head_of k) (HART_LIST <$> q k);
  sr_one : ∀ k k' t, t ∈ q k → t ∈ q k' → k = k';
  sr_det : ∀ t, is_Some (tasks s !! t) → ¬ queued q t → detached (lists s) (HART_LIST t);
  sr_dom : ∀ t, queued q t → is_Some (tasks s !! t);
}.

(** The nodes the scheduler owns. *)
Definition sched_node (x : node) : bool :=
  match x with
  | RUNNING_TASKS | BLOCKING_TASKS | EXITING_TASKS | HART_LIST _ => true
  | _ => false
  end.

(** Only the links of the scheduler's queues changed. *)
Definition relinked (s s' : sys) : Prop :=
  s' = set_lists s (lists s') ∧ ∀ y, sched_node y = false → lists s' !! y = lists s !! y.

Lemma relinked_refl s : relinked s s.
Proof. by destruct s. Qed.

Lemma relinked_trans s1 s2 s3 : relinked s1 s2 → relinked s2 s3 → relinked s1 s3.
Proof.
  intros [H1 F1] [H2 F2]. split; [by rewrite H2, H1|]. intros y Hy. by rewrite F2, F1.
Qed.

Lemma relinked_tasks s s' : relinked s s' → tasks s' = tasks s.
Proof. by intros [-> _]. Qed.

Lemma srep_ext s q q' : (∀ k, q k = q' k) → srep s q → srep s q'.
Proof.
  intros He [H1 H2 H3 H4]. split.
  - intros k. rewrite <- He. apply H1.
  - intros k k' t. rewrite <- !He. apply H2.
  - intros t Ht Hq. apply H3; [done|]. intros [k Hk]. apply Hq. exists k. by rewrite <- He.
  - intros t [k Hk]. apply H4. exists k. by rewrite He.
Qed.

Lemma head_of_inj k k' : head_of k = head_of k' → k = k'.
Proof. by destruct k, k'. Qed.

Lemma head_not_hart k t : head_of k ≠ HART_LIST t.
Proof. by destruct k. Qed.

Lemma hart_in t (l : list Z) : HART_LIST t ∈ HART_LIST <$> l ↔ t ∈ l.
Proof. rewrite list_elem_of_fmap. naive_solver. Qed.

Lemma head_hart (l : list Z) : head (HART_LIST <$> l) = HART_LIST <$> head l.
Proof. by destruct l. Qed.

Lemma upd_same q k l : upd q k l k = l.
Proof. unfold upd. by rewrite decide_True. Qed.

Lemma upd_other q k k' l : k' ≠ k → upd q k l k' = q k'.
Proof. intros. unfold upd. by rewrite decide_False. Qed.

(** The general step: the elements of queue [k] become [l'], the other queues
    keep theirs. *)
Lemma srep_step s q k (l' : list Z) σ' (ts : list Z) :
  srep s q → lrep σ' (head_of k) (HART_LIST <$> l') →
  same_except (head_of k :: (HART_LIST <$> ts)) (lists s) σ' →
  (∀ t, t ∈ ts → t ∈ q k ∨ ¬ queued q t) →
  (∀ t, t ∈ l' → t ∈ q k ∨ (¬ queued q t ∧ is_Some (tasks s !! t))) →
  (∀ t, is_Some (tasks s !! t) → t ∈ ts → t ∉ l' → detached σ' (HART_LIST t)) →
  (∀ t, t ∈ q k → t ∉ l' → t ∈ ts) →
  srep (set_lists s σ') (upd q k l') ∧ relinked s (set_lists s σ').
Proof.
  intros [Hl Hone Hdet Hdom] Hr Hx Hts Hl' Hd Hgone. split.
  - split; simpl.
    + intros k'. destruct (decide (k' = k)) as [->|Hk]; [by rewrite upd_same|].
      rewrite upd_other by done. eapply lrep_frame; [apply Hl|exact Hx|].
      intros x [->|(t & -> & Ht)%list_elem_of_fmap]%elem_of_cons.
      * rewrite elem_of_cons, list_elem_of_fmap. intros [?%head_of_inj|(t & Ht & _)]; [done|].
        by eapply head_not_hart.
      * rewrite elem_of_cons, hart_in. intros [He|Hin]; [by eapply head_not_hart|].
        destruct (Hts t Ht) as [Hq|Hq]; [apply Hk; by eapply Hone|apply Hq; by exists k'].
    + intros k1 k2 t. destruct (decide (k1 = k)) as [->|H1], (decide (k2 = k)) as [->|H2];
        rewrite ?upd_same, ?upd_other by done; [done| | |apply Hone].
      * intros [Hq|[Hq _]]%Hl' H2t; [by eapply Hone|]. destruct Hq. by exists k2.
      * intros H1t [Hq|[Hq _]]%Hl'; [by eapply Hone|]. destruct Hq. by exists k1.
    + intros t Ht Hq. destruct (decide (t ∈ ts)) as [Hin|Hin].
      * apply Hd; [done..|]. intros Htl. apply Hq. exists k. by rewrite upd_same.
      * eapply detached_frame; [apply Hdet; [done|]|exact Hx|].
        -- intros [k' Hk']. apply Hq. destruct (decide (k' = k)) as [->|Hk].
           ++ exists k. rewrite upd_same. destruct (decide (t ∈ l')); [done|]. by destruct Hin; apply Hgone.
           ++ exists k'. by rewrite upd_other.
        -- rewrite elem_of_cons, hart_in. intros [He|?]; [by eapply head_not_hart|done].
    + intros t [k' Hk']. destruct (decide (k' = k)) as [->|Hk].
      * rewrite upd_same in Hk'. apply Hl' in Hk' as [?|[_ ?]]; [apply Hdom; by exists k|done].
      * rewrite upd_other in Hk' by done. apply Hdom. by exists k'.
  - split; [by destruct s|]. simpl. intros y Hy. apply Hx.
    rewrite elem_of_cons, list_elem_of_fmap. intros [->|(t & -> & _)]; [by destruct k|done].
Qed.

Lemma queue_append s q k t :
  srep s q → is_Some (tasks s !! t) → ¬ queued q t →
  ∃ σ, list_append (lists s) (head_of k) (HART_LIST t) = Ok σ ∧
    srep (set_lists s σ) (upd q k (q k ++ [t])) ∧ relinked s (set_lists s σ).
Proof.
  intros Hs Ht Hq. pose proof (sr_det _ _ Hs t Ht Hq) as Hdet.
  destruct (list_append_rep _ _ _ _ (sr_list _ _ Hs k) Hdet) as (σ & Hok & Hr & Hx).
  { rewrite elem_of_cons, hart_in. intros [He|Hin]; [by eapply head_not_hart|]. apply Hq. by exists k. }
  exists σ. split; [done|]. apply (srep_step s q k (q k ++ [t]) σ (t :: q k)); [done| |done| | | |].
  - by rewrite fmap_app.
  - intros t'. rewrite elem_of_cons. naive_solver.
  - intros t'. rewrite elem_of_app, elem_of_cons. set_solver.
  - set_solver.
  - set_solver.
Qed.

Lemma removed_not_queued s q k l1 t l2 :
  srep s q → q k = l1 ++ t :: l2 → ¬ queued (upd q k (l1 ++ l2)) t.
Proof.
  intros Hs Hk [k' Hin]. destruct (decide (k' = k)) as [->|Hne].
  - rewrite upd_same in Hin. pose proof (lrep_nodup _ _ _ (sr_list _ _ Hs k)) as [Hnd _].
    rewrite Hk, fmap_app in Hnd. apply NoDup_app in Hnd as (_ & H1 & [H2 _]%NoDup_cons).
    rewrite hart_in in H2. apply elem_of_app in Hin as [Hin|Hin]; [|done].
    apply (H1 (HART_LIST t)); [by apply hart_in|by left].
  - rewrite upd_other in Hin by done. apply Hne. eapply (sr_one _ _ Hs); [done|].
    rewrite Hk. set_solver.
Qed.

Lemma queue_delete s q k l1 t l2 :
  srep s q → q k = l1 ++ t :: l2 →
  ∃ σ, list_delete (lists s) (head_of k) (HART_LIST t) = Ok σ ∧
    srep (set_lists s σ) (upd q k (l1 ++ l2)) ∧ relinked s (set_lists s σ).
Proof.
  intros Hs Hk. pose proof (sr_list _ _ Hs k) as Hl. rewrite Hk, fmap_app in Hl.
  destruct (list_delete_rep _ _ _ _ _ Hl) as (σ & Hok & Hr & Hdet & Hx). exists σ. split; [done|].
  apply (srep_step s q k (l1 ++ l2) σ (l1 ++ t :: l2)); [done| | | | | |].
  - by rewrite fmap_app.
  - by rewrite fmap_app.
  - rewrite Hk. naive_solver.
  - intros t'. rewrite Hk. set_solver.
  - intros t' _ Hin Hnot. assert (t' = t) as -> by set_solver. done.
  - by rewrite Hk.
Qed.

Lemma queue_fetch s q k :
  srep s q →
  ∃ σ, list_fetch (lists s) (head_of k) = Ok (HART_LIST <$> head (q k), σ) ∧
    srep (set_lists s σ) (upd q k (tail (q k))) ∧ relinked s (set_lists s σ).
Proof.
  intros Hs. pose proof (sr_list _ _ Hs k) as Hl.
  destruct (list_fetch_rep _ _ _ Hl) as (σ & Hok & Hr & Hdet & Hx). exists σ.
  pose proof (lrep_nodup _ _ _ Hl) as [Hnd _].
  destruct (q k) as [|t l] eqn:Hk; (split; [done|]).
  - apply (srep_step s q k [] σ []); [done|done|done|set_solver|set_solver|set_solver|rewrite Hk; set_solver].
  - rewrite fmap_cons in Hnd. apply NoDup_cons in Hnd as [Hnt _]. rewrite hart_in in Hnt.
    apply (srep_step s q k l σ (t :: l)); [done|done|done| | | |].
    + rewrite Hk. naive_solver.
    + rewrite Hk. set_solver.
    + intros t' _ Hin Hnot. assert (t' = t) as -> by set_solver. by apply Hdet.
    + by rewrite Hk.
Qed.

(** Where [schedule_task] puts a task. *)
Definition queue_of (st : task_state) : option qname :=
  match st with
  | TASK_STATE_RUNNING => Some Run
  | TASK_STATE_INTERRUPTIBLE | TASK_STATE_UNINTERRUPTIBLE => Some Blk
  | TASK_STATE_EXITING => Some Ext
  | TASK_STATE_ZOMBIE => None
  end.

Lemma schedule_task_rep s q t x k :
  srep s q → tasks s !! t = Some x → queue_of (state x) = Some k → ¬ queued q t →
  ∃ s', schedule_task t s = Ok s' ∧ srep s' (upd q k (q k ++ [t])) ∧ relinked s s'.
Proof.
  intros Hs Ht Hk Hq. destruct (queue_append s q k t Hs ltac:(eauto) Hq) as (σ & Hok & Hs' & Hx).
  exists (set_lists s σ). unfold schedule_task, get_task. rewrite Ht. cbn [deref mbind outcome_bind].
  split; [|done]. destruct (state x); simplify_eq/=; by rewrite Hok.
Qed.

(** ** The abstract scheduler

    [dest ts t] is the queue the state of task [t] asks for, [sort_to ts k l]
    the tasks of [l] that belong into queue [k], in order. *)
Definition dest (ts : gmap Z task) t : option qname := (state <$> ts !! t) ≫= queue_of.

Definition sort_to (ts : gmap Z task) k (l : list Z) : list Z := filter (λ t, dest ts t = Some k) l.

(** The first runnable task of the run queue: it, the tasks before it and the
    tasks after it. *)
Fixpoint pick (ts : gmap Z task) (run : list Z) : option Z * list Z * list Z :=
  match run with
  | [] => (None, [], [])
  | t :: run =>
      if decide (dest ts t = Some Run) then (Some t, [], run)
      else let '(n, skipped, rest) := pick ts run in (n, t :: skipped, rest)
  end.

(** The queues after the blocked tasks have been sorted. *)
Definition settled (ts : gmap Z task) (q : queues) : queues :=
  mkq (q Run ++ sort_to ts Run (q Blk)) (sort_to ts Blk (q Blk)) [].

Definition next_task (ts : gmap Z task) (q : queues) : option Z := (pick ts (settled ts q Run)).1.1.

Definition switched (ts : gmap Z task) (q : queues) : queues :=
  let '(_, skipped, rest) := pick ts (settled ts q Run) in
  mkq rest (settled ts q Blk ++ sort_to ts Blk skipped) (sort_to ts Ext skipped).

Lemma dest_task s t k :
  dest (tasks s) t = Some k → ∃ x, tasks s !! t = Some x ∧ queue_of (state x) = Some k.
Proof. unfold dest. destruct (tasks s !! t) as [x|]; [|done]. simpl. eauto. Qed.

Lemma sort_to_snoc ts k l t :
  sort_to ts k (l ++ [t]) = sort_to ts k l ++ (if decide (dest ts t = Some k) then [t] else []).
Proof. unfold sort_to. by rewrite filter_app. Qed.

Lemma sort_to_one ts k t : sort_to ts k [t] = if decide (dest ts t = Some k) then [t] else [].
Proof. done. Qed.

Lemma next_in_list σ h (l1 l2 : list Z) t :
  lrep σ h (HART_LIST <$> l1 ++ t :: l2) →
  ∃ p, σ !! HART_LIST t = Some (mk_elem p (HART_LIST <$> head l2)).
Proof.
  intros (_ & _ & Hs). rewrite fmap_app in Hs. apply seg_app in Hs as (_ & -> & _).
  eexists. do 2 f_equal. rewrite app_nil_r. by destruct l2.
Qed.

Lemma blocking_switch_rep s run done t todo ext x k :
  srep s (mkq (run ++ sort_to (tasks s) Run done) (sort_to (tasks s) Blk done ++ t :: todo)
              (ext ++ sort_to (tasks s) Ext done)) →
  tasks s !! t = Some x → queue_of (state x) = Some k →
  ∃ s', blocking_switch (HART_LIST t) t (state x) s = Ok s' ∧ relinked s s' ∧
    srep s' (mkq (run ++ sort_to (tasks s) Run (done ++ [t])) (sort_to (tasks s) Blk (done ++ [t]) ++ todo)
                 (ext ++ sort_to (tasks s) Ext (done ++ [t]))).
Proof.
  intros Hs Hx Hq. assert (dest (tasks s) t = Some k) as Hk by (unfold dest; by rewrite Hx).
  rewrite !sort_to_snoc, Hk. destruct (decide (k = Blk)) as [->|Hne].
  { exists s. rewrite decide_False, decide_True, decide_False, !app_nil_r, <- app_assoc by done.
    split_and!; [by destruct (state x)|apply relinked_refl|done]. }
  destruct (queue_delete s _ Blk (sort_to (tasks s) Blk done) t todo Hs eq_refl) as (σ & Hok & Hs1 & Hr1).
  destruct (schedule_task_rep (set_lists s σ) _ t x k Hs1 Hx Hq) as (s2 & Hok2 & Hs2 & Hr2).
  { by eapply removed_not_queued. }
  exists s2. split_and!.
  - unfold blocking_switch. change BLOCKING_TASKS with (head_of Blk). rewrite Hok.
    by destruct (state x); simplify_eq/=.
  - by eapply relinked_trans.
  - eapply srep_ext; [|exact Hs2]. intros k'.
    destruct k; try done; destruct k'; cbv [upd mkq]; repeat (rewrite decide_True by done || rewrite decide_False by done);
     rewrite ?app_nil_r, ?app_assoc; done.
Qed.

Lemma blocking_loop_rep todo : ∀ n s done run ext,
  srep s (mkq (run ++ sort_to (tasks s) Run done) (sort_to (tasks s) Blk done ++ todo)
              (ext ++ sort_to (tasks s) Ext done)) →
  (∀ t, t ∈ todo → is_Some (dest (tasks s) t)) → (length todo <= n)%nat →
  ∃ s', blocking_loop n (HART_LIST <$> head todo) s = Ok s' ∧ relinked s s' ∧
    srep s' (mkq (run ++ sort_to (tasks s) Run (done ++ todo)) (sort_to (tasks s) Blk (done ++ todo))
                 (ext ++ sort_to (tasks s) Ext (done ++ todo))).
Proof.
  induction todo as [|t todo IH]; intros n s done run ext Hs Hz Hn.
  { exists s. rewrite !app_nil_r in *. split_and!; [by destruct n|apply relinked_refl|done]. }
  destruct n as [|n]; [simpl in Hn; lia|]. cbn [head fmap option_fmap option_map blocking_loop].
  destruct (Hz t) as [k Hk]; [by left|]. pose proof (dest_task _ _ _ Hk) as (x & Hx & Hq).
  destruct (next_in_list _ _ (sort_to (tasks s) Blk done) todo t (sr_list _ _ Hs Blk)) as [p Hp].
  rewrite (get_elem_ok _ _ _ Hp). unfold get_task. cbn [mbind outcome_bind hart_of]. rewrite Hx.
  cbn [deref mbind outcome_bind next].
  destruct (blocking_switch_rep s run done t todo ext x k) as (s1 & -> & Hrel & Hs1); [done..|].
  cbn [mbind outcome_bind]. pose proof (relinked_tasks _ _ Hrel) as Ht. rewrite <- Ht in Hs1, Hz.
  destruct (IH n s1 (done ++ [t]) run ext Hs1) as (s' & Hok & Hrel' & Hs'); [set_solver|simpl in Hn; lia|].
  exists s'. rewrite Ht, <- app_assoc in Hs'. split_and!; [done|by eapply relinked_trans|done].
Qed.

Lemma process_blocking_list_rep s q :
  srep s q → (∀ t, t ∈ q Blk → is_Some (dest (tasks s) t)) →
  ∃ s', process_blocking_list s = Ok s' ∧ relinked s s' ∧
    srep s' (mkq (settled (tasks s) q Run) (settled (tasks s) q Blk)
                 (q Ext ++ sort_to (tasks s) Ext (q Blk))).
Proof.
  intros Hs Hz. pose proof (sr_list _ _ Hs Blk) as Hl. pose proof (lrep_size _ _ _ Hl) as Hn.
  rewrite length_fmap in Hn. apply Nat.lt_le_incl in Hn. unfold process_blocking_list. pose proof Hl as (_ & Hh & _).
  change BLOCKING_TASKS with (head_of Blk). rewrite (get_elem_ok _ _ _ Hh).
  cbn [mbind outcome_bind next]. rewrite head_hart.
  destruct (blocking_loop_rep (q Blk) (foreach_fuel (lists s)) s [] (q Run) (q Ext))
    as (s' & Hok & Hrel & Hs'); [|done..|by exists s'].
  eapply srep_ext; [|exact Hs]. intros []; simpl; by rewrite ?app_nil_r.
Qed.

Lemma exiting_loop_rep ext : ∀ n s run blk,
  srep s (mkq run blk ext) → (length ext < n)%nat →
  ∃ s', exiting_loop n s = Ok s' ∧ relinked s s' ∧ srep s' (mkq run blk []).
Proof.
  induction ext as [|t ext IH]; intros n s run blk Hs Hn; (destruct n as [|n]; [simpl in Hn; lia|]);
    cbn [exiting_loop]; change EXITING_TASKS with (head_of Ext);
    destruct (queue_fetch s _ Ext Hs) as (σ & -> & Hs1 & Hr1); cbn [mkq head fmap option_fmap option_map mbind outcome_bind].
  - exists (set_lists s σ). split_and!; [done..|]. eapply srep_ext; [|exact Hs1]. by intros [].
  - assert (srep (set_lists s σ) (mkq run blk ext)) as Hs2 by (eapply srep_ext; [|exact Hs1]; by intros []).
    destruct (IH n _ _ _ Hs2) as (s' & Hok & Hr & Hs'); [simpl in Hn; lia|].
    exists s'. split_and!; [done|by eapply relinked_trans|done].
Qed.

Lemma running_loop_rep run : ∀ n s blk ext,
  srep s (mkq run blk ext) → (∀ t, t ∈ run → is_Some (dest (tasks s) t)) → (length run < n)%nat →
  ∃ s' q', running_loop n s = Ok ((pick (tasks s) run).1.1, s') ∧ relinked s s' ∧ srep s' q' ∧
    (∀ t, (pick (tasks s) run).1.1 = Some t → ¬ queued q' t) ∧
    q' = (let '(_, skipped, rest) := pick (tasks s) run in
          mkq rest (blk ++ sort_to (tasks s) Blk skipped) (ext ++ sort_to (tasks s) Ext skipped)).
Proof.
  induction run as [|t run IH]; intros n s blk ext Hs Hz Hn; (destruct n as [|n]; [simpl in Hn; lia|]);
    cbn [running_loop]; change RUNNING_TASKS with (head_of Run);
    destruct (queue_fetch s _ Run Hs) as (σ & -> & Hs1 & Hr1);
    cbn [mkq head fmap option_fmap option_map mbind outcome_bind hart_of].
  - exists (set_lists s σ), (mkq [] (blk ++ []) (ext ++ [])). split_and!; [done..| |done|done].
    eapply srep_ext; [|exact Hs1]. intros []; simpl; by rewrite ?app_nil_r.
  - destruct (Hz t) as [k Hk]; [by left|]. pose proof (dest_task _ _ _ Hk) as (x & Hx & Hq).
    pose proof (removed_not_queued s _ Run [] t run Hs eq_refl) as Hgone.
    unfold get_task. cbn [tasks set_lists pick]. rewrite Hx. cbn [deref mbind outcome_bind].
    destruct (decide (k = Run)) as [->|Hne].
    + rewrite bool_decide_eq_true_2 by (by destruct (state x)). rewrite decide_True by done.
      exists (set_lists s σ), (mkq run (blk ++ []) (ext ++ [])).
      split_and!; [done..| | |done].
      * eapply srep_ext; [|exact Hs1]. intros []; simpl; by rewrite ?app_nil_r.
      * intros ? [= <-] [k' Hk']. apply Hgone. exists k'. destruct k'; simpl in Hk'; by rewrite ?app_nil_r in Hk'.
    + rewrite bool_decide_eq_false_2 by (intros He; rewrite He in Hq; naive_solver).
      rewrite decide_False by congruence.
      destruct (schedule_task_rep (set_lists s σ) _ t x k Hs1 Hx Hq Hgone) as (s2 & -> & Hs2 & Hr2).
      cbn [mbind outcome_bind].
      assert (srep s2 (mkq run (blk ++ sort_to (tasks s) Blk [t]) (ext ++ sort_to (tasks s) Ext [t]))) as Hs3.
      { eapply srep_ext; [|exact Hs2]. intros k'.
        destruct k; try done; destruct k'; simpl; rewrite ?sort_to_one, ?Hk; cbv [upd mkq];
          repeat case_decide; simplify_eq; by rewrite ?app_nil_r. }
      pose proof (relinked_trans _ _ _ Hr1 Hr2) as Hr. pose proof (relinked_tasks _ _ Hr) as Ht.
      destruct (IH n s2 _ _ Hs3) as (s' & q' & Hok & Hr' & Hs' & Hg & ->); rewrite ?Ht in *;
        [set_solver|simpl in Hn; lia|].
      exists s'. destruct (pick (tasks s) run) as [[o sk] rest] eqn:Hp. eexists.
      split_and!; [done|by eapply relinked_trans|exact Hs'|done|].
      rewrite <- !app_assoc. do 2 f_equal; symmetry; apply (filter_app _ [t]).
Qed.

(** ** The invariant between two traps

    The queues are represented in memory; the running task is in none of them;
    no task of a queue is a zombie; whoever may run next has saved registers. *)
Record sched_ok (s : sys) (q : queues) : Prop := {
  so_rep : srep s q;
  so_cur : ∃ c, current s = Some c ∧ ∀ t, c = TASK t → ¬ queued q t ∧ is_Some (dest (tasks s) t);
  so_dest : ∀ t, queued q t → is_Some (dest (tasks s) t);
  so_cpu : ∀ t x, tasks s !! t = Some x → host_cpustate x ≠ 0;
  so_idle : current s = Some IDLE ∨ idle_cpustate s ≠ 0;
}.

(** The registers of the yielding task are saved. *)
Definition saved (cpu : Z) (s : sys) : sys :=
  match current s with
  | Some (TASK t) =>
      match tasks s !! t with Some x => set_task s t (with_cpustate x cpu) | None => s end
  | _ => mk_sys (lists s) (tasks s) (blobs s) (current s) cpu (gpid_counter s)
  end.

(** It is put into the queue of its state. *)
Definition requeued (s : sys) (q : queues) : queues :=
  match current s with
  | Some (TASK t) =>
      match dest (tasks s) t with Some k => upd q k (q k ++ [t]) | None => q end
  | _ => q
  end.

Lemma queued_upd q k t t' : queued (upd q k (q k ++ [t])) t' ↔ t' = t ∨ queued q t'.
Proof.
  split.
  - intros [k' Hk]. destruct (decide (k' = k)) as [->|Hne].
    + rewrite upd_same in Hk. apply elem_of_app in Hk as [?|?]; [right; by exists k|left; set_solver].
    + rewrite upd_other in Hk by done. right. by exists k'.
  - intros [->|[k' Hk]]; [exists k; rewrite upd_same; set_solver|].
    destruct (decide (k' = k)) as [->|Hne]; [exists k; rewrite upd_same; set_solver|].
    exists k'. by rewrite upd_other.
Qed.

Lemma dest_saved cpu s t : dest (tasks (saved cpu s)) t = dest (tasks s) t.
Proof.
  unfold saved, dest. destruct (current s) as [[|t']|]; [done| |done].
  destruct (tasks s !! t') as [x|] eqn:Hx; [|done]. simpl.
  destruct (decide (t = t')) as [->|Hne]; [rewrite lookup_insert_eq, Hx; by destruct x|].
  by rewrite lookup_insert_ne.
Qed.

(** Changing the records of tasks keeps the representation. *)
Lemma srep_tasks s s' q : lists s' = lists s → dom (tasks s') = dom (tasks s) → srep s q → srep s' q.
Proof.
  intros Hl Ht [H1 H2 H3 H4].
  assert (∀ t, is_Some (tasks s' !! t) ↔ is_Some (tasks s !! t)) as Hd.
  { intros t. by rewrite <- !elem_of_dom, Ht. }
  split; [by rewrite Hl|done|intros t; rewrite Hd, Hl; apply H3|intros t; rewrite Hd; apply H4].
Qed.

Lemma lists_saved cpu s : lists (saved cpu s) = lists s.
Proof. unfold saved. destruct (current s) as [[|t]|]; [done| |done]. by destruct (tasks s !! t). Qed.

Lemma dom_saved cpu s : dom (tasks (saved cpu s)) = dom (tasks s).
Proof.
  unfold saved. destruct (current s) as [[|t]|]; [done| |done]. destruct (tasks s !! t) eqn:Ht; [|done].
  simpl. rewrite dom_insert_L. apply elem_of_dom_2 in Ht. set_solver.
Qed.

(** The first half of the handler. *)
Lemma requeue_rep cpu s q :
  sched_ok s q →
  ∃ s1, (c ← (match current s with Some c => Ok c | None => Err EAssert end);
         (match c with
          | IDLE => Ok (mk_sys (lists s) (tasks s) (blobs s) (current s) cpu (gpid_counter s))
          | TASK t => x ← get_task s t; schedule_task t (set_task s t (with_cpustate x cpu))
          end)) = Ok s1 ∧ relinked (saved cpu s) s1 ∧ srep s1 (requeued s q) ∧
    ∀ t, queued (requeued s q) t → is_Some (dest (tasks s) t).
Proof.
  intros [Hrep (c & Hc & Hcur) Hdest _ _].
  assert (srep (saved cpu s) q) as Hsv by (eapply srep_tasks; [apply lists_saved|apply dom_saved|done]).
  unfold requeued, get_task. pose proof (λ t, dest_saved cpu s t) as Hds. unfold saved in *.
  rewrite Hc in *. cbn [mbind outcome_bind].
  destruct c as [|t]; [by eexists; split_and!; [done|apply relinked_refl|..]|].
  destruct (Hcur t eq_refl) as [Hq [k Hk]]. pose proof (dest_task _ _ _ Hk) as (x & Hx & _).
  rewrite Hx, Hk in *. cbn [deref mbind outcome_bind].
  destruct (dest_task (set_task s t (with_cpustate x cpu)) t k) as (y & Hy & Hyk).
  { by rewrite <- Hk. }
  destruct (schedule_task_rep _ q t y k Hsv Hy Hyk Hq) as (s1 & Hok & Hs1 & Hr1).
  exists s1. split_and!; [done..|]. intros t' [->|?]%queued_upd; [by exists k|by apply Hdest].
Qed.

Lemma elem_sort_to ts k l t : t ∈ sort_to ts k l ↔ dest ts t = Some k ∧ t ∈ l.
Proof. unfold sort_to. by rewrite list_elem_of_filter. Qed.

Lemma pick_split ts run n sk rest :
  pick ts run = (n, sk, rest) →
  run = sk ++ option_list n ++ rest ∧ (∀ t, n = Some t → dest ts t = Some Run) ∧
  (∀ t, t ∈ sk → dest ts t ≠ Some Run) ∧ (n = None → rest = []).
Proof.
  revert n sk rest. induction run as [|t run IH]; intros n sk rest; simpl.
  { intros [= <- <- <-]. set_solver. }
  case_decide as Ht; [intros [= <- <- <-]; set_solver|].
  destruct (pick ts run) as [[n' sk'] rest'] eqn:Hp. intros [= <- <- <-].
  destruct (IH _ _ _ eq_refl) as (-> & Hn & Hsk & Hr). split_and!; [done|done| |done].
  intros t' [->|?]%elem_of_cons; [done|]. by apply Hsk.
Qed.

(** The second half: sort the blocked tasks, drop the exiting ones, pick. *)
Lemma switch_rep s q :
  srep s q → (∀ t, queued q t → is_Some (dest (tasks s) t)) →
  ∃ s', (s ← process_blocking_list s; s ← process_exiting_list s; process_running_list s)
        = Ok (next_task (tasks s) q, s') ∧ relinked s s' ∧ srep s' (switched (tasks s) q) ∧
    ∀ t, next_task (tasks s) q = Some t → ¬ queued (switched (tasks s) q) t.
Proof.
  intros Hs Hd. destruct (process_blocking_list_rep s q Hs) as (s1 & -> & Hr1 & Hs1).
  { intros t Ht. apply Hd. by exists Blk. }
  pose proof (relinked_tasks _ _ Hr1) as Ht1. cbn [mbind outcome_bind]. unfold process_exiting_list.
  pose proof (lrep_size _ _ _ (sr_list _ _ Hs1 Ext)) as Hn1. rewrite length_fmap in Hn1.
  destruct (exiting_loop_rep _ _ s1 _ _ Hs1 Hn1) as (s2 & -> & Hr2 & Hs2).
  pose proof (relinked_tasks _ _ Hr2) as Ht2. cbn [mbind outcome_bind]. unfold process_running_list.
  pose proof (lrep_size _ _ _ (sr_list _ _ Hs2 Run)) as Hn2. rewrite length_fmap in Hn2.
  destruct (running_loop_rep _ (foreach_fuel (lists s2)) s2 _ _ Hs2) as (s3 & q3 & -> & Hr3 & Hs3 & Hg & ->); [|done|].
  { intros t Ht. rewrite Ht2, Ht1. apply elem_of_app in Ht as [Ht|[_ Ht]%elem_sort_to]; apply Hd;
      [by exists Run|by exists Blk]. }
  rewrite Ht2, Ht1 in *. exists s3. split; [done|]. split; [by eauto using relinked_trans|].
  unfold next_task, switched. by destruct (pick _ _) as [[? ?] ?].
Qed.

(** The task a trap continues with, and the queue members after it. *)
Definition as_cur (n : option Z) : cur := match n with Some t => TASK t | None => IDLE end.

Lemma queued_switched ts q t : queued (switched ts q) t → queued q t.
Proof.
  unfold switched. destruct (pick _ _) as [[n sk] rest] eqn:Hp. apply pick_split in Hp as (Hrun & _).
  assert (∀ t, t ∈ settled ts q Run → queued q t) as HR.
  { intros t'. simpl. rewrite elem_of_app, elem_sort_to. intros [?|[_ ?]]; [by exists Run|by exists Blk]. }
  intros [[] Hk]; simpl in Hk.
  - apply HR. rewrite Hrun. set_solver.
  - apply elem_of_app in Hk as [[_ ?]%elem_sort_to|[_ ?]%elem_sort_to]; [by exists Blk|].
    apply HR. rewrite Hrun. set_solver.
  - apply elem_sort_to in Hk as [_ ?]. apply HR. rewrite Hrun. set_solver.
Qed.

Lemma next_runnable ts q t : next_task ts q = Some t → dest ts t = Some Run ∧ queued q t.
Proof.
  unfold next_task. destruct (pick _ _) as [[n sk] rest] eqn:Hp. simpl. intros ->.
  apply pick_split in Hp as (Hrun & Hd & _). split; [by apply Hd|].
  assert (t ∈ settled ts q Run) as Ht by (rewrite Hrun; set_solver). simpl in Ht.
  apply elem_of_app in Ht as [?|[_ ?]%elem_sort_to]; [by exists Run|by exists Blk].
Qed.

Lemma handler_split cpu s :
  userspace_trap_handler cpu s =
  (s ← (c ← (match current s with Some c => Ok c | None => Err EAssert end);
        (match c with
         | IDLE => Ok (mk_sys (lists s) (tasks s) (blobs s) (current s) cpu (gpid_counter s))
         | TASK t => x ← get_task s t; schedule_task t (set_task s t (with_cpustate x cpu))
         end));
   '(n, s) ← (s ← process_blocking_list s; s ← process_exiting_list s; process_running_list s);
   let s := set_current s (as_cur n) in
   stack ← (match as_cur n with
            | IDLE => Ok (idle_cpustate s)
            | TASK t => x ← get_task s t; Ok (host_cpustate x)
            end);
   ASSERT (negb (stack =? 0));;
   Ok (stack, s)).
Proof.
  unfold userspace_trap_handler. destruct (current s) as [c|]; [|done]. cbn [mbind outcome_bind].
  destruct (match c with IDLE => _ | TASK t => _ end) as [s1|]; [|done]. cbn [mbind outcome_bind].
  destruct (process_blocking_list s1) as [s2|]; [|done]. cbn [mbind outcome_bind].
  by destruct (process_exiting_list s2) as [s3|].
Qed.

(** The stack a task, or the idle task, continues on. *)
Definition stack_of (s : sys) (c : cur) : option Z :=
  match c with IDLE => Some (idle_cpustate s) | TASK t => host_cpustate <$> tasks s !! t end.

Lemma stack_of_ok s c stack :
  stack_of s c = Some stack →
  (match c with
   | IDLE => Ok (idle_cpustate s)
   | TASK t => x ← get_task s t; Ok (host_cpustate x)
   end) = Ok stack.
Proof.
  destruct c as [|t]; simpl; [by intros [= ->]|]. unfold get_task.
  destruct (tasks s !! t); [|done]. by intros [= <-].
Qed.

Lemma saved_cpu cpu s q :
  sched_ok s q → cpu ≠ 0 →
  (∀ t x, tasks (saved cpu s) !! t = Some x → host_cpustate x ≠ 0) ∧ idle_cpustate (saved cpu s) ≠ 0.
Proof.
  intros [_ (c & Hc & Hcur) _ Hcpu Hidle] H0. unfold saved. rewrite Hc in *. destruct c as [|t]; simpl; [by eauto|].
  destruct Hidle as [?|Hi]; [done|]. destruct (tasks s !! t) as [x|] eqn:Hx; [|by eauto]. simpl. split; [|done].
  intros t' y. destruct (decide (t' = t)) as [->|Hne]; [rewrite lookup_insert_eq|rewrite lookup_insert_ne by done; by eauto].
  intros [= <-]. by destruct x.
Qed.

Lemma trap_lemma cpu s q :
  sched_ok s q → cpu ≠ 0 →
  let ts := tasks (saved cpu s) in
  let q1 := requeued s q in
  ∃ stack s', userspace_trap_handler cpu s = Ok (stack, s') ∧ sched_ok s' (switched ts q1) ∧
    tasks s' = ts ∧ current s' = Some (as_cur (next_task ts q1)) ∧
    stack_of s' (as_cur (next_task ts q1)) = Some stack ∧
    (∀ y, sched_node y = false → lists s' !! y = lists s !! y) ∧ blobs s' = blobs s.
Proof.
  intros Hok H0 ts q1. destruct (saved_cpu cpu s q Hok H0) as [Hcpu Hidle].
  destruct (requeue_rep cpu s q Hok) as (s1 & Hs1 & Hr1 & Hrep1 & Hd1).
  pose proof (relinked_tasks _ _ Hr1) as Ht1.
  destruct (switch_rep s1 q1 Hrep1) as (s2 & Hs2 & Hr2 & Hrep2 & Hgone).
  { intros t Ht. rewrite Ht1, dest_saved. by apply Hd1. }
  pose proof (relinked_trans _ _ _ Hr1 Hr2) as [Hr Hfr]. rewrite Ht1 in *. fold ts in Hs2, Hrep2, Hgone.
  rewrite handler_split, Hs1, (bind_step _ _ s1 eq_refl), Hs2, (bind_step _ _ _ eq_refl). cbv zeta.
  set (n := next_task ts q1) in *.
  assert (tasks s2 = ts ∧ idle_cpustate s2 = idle_cpustate (saved cpu s)) as [Ht Hi] by (by rewrite Hr).
  assert (∃ stack, stack_of (set_current s2 (as_cur n)) (as_cur n) = Some stack ∧ stack ≠ 0) as (stack & Hst & Hne).
  { destruct n as [t|] eqn:Hn; simpl.
    - apply next_runnable in Hn as [Hn _]. apply (dest_task (saved cpu s)) in Hn as (x & Hx & _).
      rewrite Ht. unfold ts. rewrite Hx. simpl. eauto.
    - rewrite Hi. eauto. }
  exists stack, (set_current s2 (as_cur n)). split_and!; [| |done|done|done| |].
  - by rewrite (stack_of_ok _ _ _ Hst), (bind_step _ _ _ eq_refl), (proj2 (Z.eqb_neq _ _) Hne).
  - split; simpl.
    + by apply (srep_tasks s2).
    + exists (as_cur n). split; [done|]. intros t Hc. destruct n as [t'|] eqn:Hn; simplify_eq/=.
      split; [by apply Hgone|]. rewrite Ht. exists Run. by apply next_runnable in Hn as [? _].
    + intros t Hq. rewrite Ht. unfold ts. rewrite dest_saved. apply Hd1. by eapply queued_switched.
    + rewrite Ht. exact Hcpu.
    + right. by rewrite Hi.
  - simpl. intros y Hy. rewrite Hfr by done. by rewrite lists_saved.
  - simpl. rewrite Hr. simpl. unfold saved. destruct (current s) as [[|t]|]; [done| |done]. by destruct (tasks s !! t).
Qed.

(** A task that is neither exiting nor a zombie. *)
Definition live (ts : gmap Z task) t : Prop := dest ts t = Some Run ∨ dest ts t = Some Blk.

(** The places a task can be in. *)
Definition placed (s : sys) (q : queues) t : Prop := queued q t ∨ current s = Some (TASK t).

Lemma live_switched ts q t :
  live ts t → t ∈ q Run ∨ t ∈ q Blk →
  queued (switched ts q) t ∨ next_task ts q = Some t.
Proof.
  intros Hl Hq. unfold switched, next_task. destruct (pick _ _) as [[n sk] rest] eqn:Hp.
  apply pick_split in Hp as (Hrun & Hn & Hsk & _). simpl.
  destruct (decide (t ∈ settled ts q Run)) as [Hin|Hin].
  - rewrite Hrun in Hin. apply elem_of_app in Hin as [Hin|[Hin|Hin]%elem_of_app].
    + left. exists Blk. simpl. apply elem_of_app. right. apply elem_sort_to. split; [|done].
      destruct Hl as [Hl|Hl]; [by apply Hsk in Hin|done].
    + right. destruct n; [|set_solver]. f_equal. set_solver.
    + left. by exists Run.
  - left. exists Blk. simpl in *. apply elem_of_app. left. apply elem_sort_to.
    rewrite elem_of_app, elem_sort_to in Hin.
    destruct Hl as [Hl|Hl], Hq as [Hq|Hq]; tauto.
Qed.

Lemma idle_switched ts q t :
  next_task ts q = None → t ∈ q Run ∨ t ∈ q Blk → dest ts t ≠ Some Run.
Proof.
  unfold next_task. destruct (pick _ _) as [[n sk] rest] eqn:Hp. simpl. intros -> Hq Hd.
  apply pick_split in Hp as (Hrun & _ & Hsk & Hrest). rewrite (Hrest eq_refl), !app_nil_r in Hrun.
  apply (Hsk t); [|done]. rewrite <- Hrun. simpl. rewrite elem_of_app, elem_sort_to. tauto.
Qed.

Lemma requeued_places s q t :
  sched_ok s q → live (tasks s) t → (∀ u, u ∈ q Ext → ¬ live (tasks s) u) → placed s q t →
  t ∈ requeued s q Run ∨ t ∈ requeued s q Blk.
Proof.
  intros [_ (c & Hc & Hcur) _ _ _] Hl Hext Hp. unfold requeued, placed in *. rewrite Hc in *.
  assert (queued q t → t ∈ q Run ∨ t ∈ q Blk) as Hqt.
  { intros [[] Hk]; [tauto|tauto|]. by apply Hext in Hk. }
  destruct c as [|u]; [by destruct Hp; [tauto|]|].
  destruct (Hcur u eq_refl) as [_ [k Hk]]. rewrite Hk.
  destruct Hp as [Hq|[= ->]].
  - destruct (Hqt Hq) as [H|H]; [left|right]; unfold upd; case_decide; subst; set_solver.
  - destruct Hl as [Hl|Hl]; rewrite Hl in Hk; injection Hk as <-; [left|right]; rewrite upd_same; set_solver.
Qed.

(** C9: [userspace_trap_handler] implements the abstract scheduler.  From
    every state that satisfies the invariant and has only exiting tasks in its exit
    queue it returns, the invariant holds again, the task it continues with and the
    queues it leaves are those of the list functions, on the stack saved for that
    task; a task that is neither exiting nor a zombie and was in a queue or on the
    processor is afterwards in exactly one place, a queue or the processor; and the idle task runs only when no task is runnable. *)
Theorem trap_correct cpu s q :
  sched_ok s q → cpu ≠ 0 → (∀ u, u ∈ q Ext → ¬ live (tasks s) u) →
  let ts := tasks (saved cpu s) in
  let q' := switched ts (requeued s q) in
  ∃ stack s', userspace_trap_handler cpu s = Ok (stack, s') ∧ sched_ok s' q' ∧ tasks s' = ts ∧
    current s' = Some (as_cur (next_task ts (requeued s q))) ∧
    stack_of s' (as_cur (next_task ts (requeued s q))) = Some stack ∧
    (∀ t, live (tasks s) t → placed s q t →
       placed s' q' t ∧ ¬ (queued q' t ∧ current s' = Some (TASK t))) ∧
    (current s' = Some IDLE → ∀ t, placed s q t → dest (tasks s) t ≠ Some Run).
Proof.
  intros Hok H0 Hext ts q'. destruct (trap_lemma cpu s q Hok H0) as (stack & s' & Hrun & Hok' & Ht & Hc & Hst & _).
  fold ts q' in Hok', Ht, Hc, Hst. exists stack, s'. split_and!; [done..| |].
  - intros t Hl Hp. pose proof (requeued_places s q t Hok Hl Hext Hp) as Hq.
    assert (live ts t) as Hl' by (unfold live, ts; by rewrite !dest_saved). split.
    + destruct (live_switched ts (requeued s q) t Hl' Hq) as [?|Hn]; [by left|right]. by rewrite Hc, Hn.
    + intros [Hq' Hcur]. destruct (so_cur _ _ Hok') as (c & Hc' & Hno). rewrite Hc' in Hcur.
      injection Hcur as ->. by destruct (Hno t eq_refl).
  - intros Hidle t Hp Hd. rewrite Hc in Hidle. unfold as_cur in Hidle.
    destruct (next_task ts (requeued s q)) as [|] eqn:Hn; [done|].
    apply (idle_switched ts (requeued s q) t Hn); [|unfold ts; by rewrite dest_saved].
    by apply requeued_places; [|left| |].
Qed.

(** ** Fairness *)
Lemma srep_unique s q q' k : srep s q → srep s q' → q k = q' k.
Proof.
  intros Hs Hs'. pose proof (lrep_unique _ _ _ _ (sr_list _ _ Hs k) (sr_list _ _ Hs' k)) as Hq.
  by apply (list_fmap_eq_inj HART_LIST) in Hq; [|intros ? ? [= ->]].
Qed.

Lemma pick_position ts run t i :
  run !! i = Some t → dest ts t = Some Run →
  (pick ts run).1.1 = Some t ∨ ∃ j, (j < i)%nat ∧ (pick ts run).2 !! j = Some t.
Proof.
  revert i. induction run as [|u run IH]; intros i Hi Hd; [done|]. simpl. case_decide as Hu.
  - destruct i as [|i]; simplify_eq/=; [by left|]. right. exists i. split; [lia|done].
  - destruct i as [|i]; simplify_eq/=. destruct (IH i Hi Hd) as [Hn|(j & Hj & Hr)];
      destruct (pick ts run) as [[n sk] rest]; simpl in *; [by left|]. right. exists j. split; [lia|done].
Qed.

(** A task in the run queue that is runnable gets the processor or moves forward. *)
Lemma switched_position cpu s q t i :
  q Run !! i = Some t → dest (tasks s) t = Some Run →
  let ts := tasks (saved cpu s) in
  next_task ts (requeued s q) = Some t ∨
  ∃ j, (j < i)%nat ∧ switched ts (requeued s q) Run !! j = Some t.
Proof.
  intros Hi Hd ts.
  assert (settled ts (requeued s q) Run !! i = Some t) as Hset.
  { simpl. apply lookup_app_l_Some. unfold requeued. destruct (current s) as [[|u]|]; [done| |done].
    destruct (dest (tasks s) u) as [k|]; [|done]. unfold upd. case_decide; subst; [by apply lookup_app_l_Some|done]. }
  destruct (pick_position ts _ t i Hset) as [Hn|(j & Hj & Hr)]; [unfold ts; by rewrite dest_saved|by left|].
  right. exists j. split; [done|]. unfold switched. by destruct (pick _ _) as [[? ?] ?].
Qed.

(** ** A concrete system

    Task 1 runs; it has cloned tasks 2 and 3, which are ready. *)
Definition boot : sys :=
  task_pre_init (sched_pre_init (mk_sys ∅ ∅ ∅ None 0 1)).

Definition first_task : task :=
  mk_task TASK_STATE_RUNNING TASK_STATE_ZOMBIE false false false 64 0 1 1 1 None 0 0 false false false.

(** Both copies succeed. *)
Definition all_copied : copies := mk_copies (Ok tt) (Ok tt).

Definition run_or (o : outcome sys) : sys := match o with Ok s => s | Err _ => boot end.

Definition demo_sys : sys :=
  Eval vm_compute in run_or (
    let s := mk_sys (<[VM_NODE 1 := mk_elem None None]> (<[HART_LIST 1 := mk_elem None None]>
                      (<[PIVOT 1 := mk_elem None None]> (lists boot))))
               {[1 := first_task]} ∅ (Some (TASK 1)) 4096 2 in
    s ← register_task 1 s;
    '(_, s) ← clone_task 1 2 8192 0 0 0 all_copied s;
    '(_, s) ← clone_task 1 3 65536 0 0 0 all_copied s;
    Ok s).

Lemma demo_tasks t : is_Some (tasks demo_sys !! t) → t = 1 ∨ t = 2 ∨ t = 3.
Proof.
  rewrite <- (elem_of_dom (D := gset Z)).
  assert (dom (tasks demo_sys) = ({[1; 2; 3]} : gset Z)) as -> by (by vm_compute). set_solver.
Qed.

Lemma demo_sched_ok : sched_ok demo_sys (mkq [2; 3] [] []).
Proof.
  assert (∀ t, queued (mkq [2; 3] [] []) t → t = 2 ∨ t = 3) as Hq.
  { intros t [[] Ht]; simpl in Ht; set_solver. }
  split.
  - split.
    + intros []; split_and!; try by vm_compute; repeat constructor; set_solver.
    + intros [] [] t; simpl; set_solver.
    + intros t [-> | [-> | ->]]%demo_tasks Hn; [by vm_compute|destruct Hn; exists Run; simpl; set_solver..].
    + intros t [-> | ->]%Hq; eexists; by vm_compute.
  - exists (TASK 1). split; [by vm_compute|]. intros t [= <-]. split; [|eexists; by vm_compute]. by intros [?|?]%Hq.
  - intros t [-> | ->]%Hq; eexists; by vm_compute.
  - intros t x Ht. assert (is_Some (tasks demo_sys !! t)) as Hs by eauto.
    apply demo_tasks in Hs as [-> | [-> | ->]]; vm_compute in Ht; by injection Ht as <-.
  - right. by vm_compute.
Qed.

Lemma demo_no_ext u : u ∈ mkq [2; 3] [] [] Ext → ¬ live (tasks demo_sys) u.
Proof. simpl. set_solver. Qed.

Lemma trap_correct_witness :
  ∃ stack s', userspace_trap_handler 512 demo_sys = Ok (stack, s') ∧ current s' = Some (TASK 2).
Proof.
  destruct (trap_correct 512 demo_sys _ demo_sched_ok ltac:(lia) demo_no_ext) as (stack & s' & Hrun & _ & _ & Hc & _).
  exists stack, s'. split; [exact Hrun|]. rewrite Hc. by vm_compute.
Defined.

End SchedTrap.
