(* ===== verification/SchedTask.v ===== *)
(** * The life of a task: clone, wait and exit

    Theorems about the calls of task.c on the records and lists of the tasks:
    what a clone creates, that an exited task never runs again, and that waiting
    for a child and the child's exit work together. *)
From S2P Require Import Prelude DList Sched SchedTrap.

Module SchedTask.
Import DList Sched SchedTrap.

(** ** What the tasks can call

    The calls of task.c and wait_queue.c as steps of the system.  The address
    of a new task is one no task has, as [aligned_alloc] promises. *)
Inductive kop :=
| k_transit (t : Z) (st : task_state)
| k_wake_up (t : Z)
| k_exit (t : Z)
| k_set_tid (t a : Z)
| k_clone (cur child vmm_stack child_stack flags ctid : Z) (cp : copies)
| k_wait4 (t pid_hint options : Z)
| k_wait4_resumed (t options ret : Z) (target : option Z)
| k_trap (cpu : Z).

Definition kstep (o : kop) (s : sys) : outcome sys :=
  match o with
  | k_transit t st => transit_state t st s
  | k_wake_up t => wake_up t s
  | k_exit t => do_exit t s
  | k_set_tid t a => '(_, s) ← call_set_tid_address t a s; Ok s
  | k_clone cur child vs cs flags ctid cp =>
      match tasks s !! child with
      | None => '(_, s) ← clone_task cur child vs cs flags ctid cp s; Ok s
      | Some _ => Err EUndef
      end
  | k_wait4 t pid_hint options => '(_, s) ← call_wait4 t pid_hint options s; Ok s
  | k_wait4_resumed t options ret target => '(_, s) ← call_wait4_resumed t options ret target s; Ok s
  | k_trap cpu => '(_, s) ← userspace_trap_handler cpu s; Ok s
  end.

Fixpoint ksteps (os : list kop) (s : sys) : outcome sys :=
  match os with [] => Ok s | o :: os => s ← kstep o s; ksteps os s end.

(** [t] is exiting. *)
Definition exiting (t : Z) (s : sys) : Prop := ∃ x, tasks s !! t = Some x ∧ state x = TASK_STATE_EXITING.

(** Steps that do not end the exit of [t]. *)
Definition keeps (t : Z) (f : sys → outcome sys) : Prop := ∀ s s', exiting t s → f s = Ok s' → exiting t s'.

Lemma exiting_set t s u x :
  exiting t s → (u = t → state x = TASK_STATE_EXITING) → exiting t (set_task s u x).
Proof.
  intros (y & Hy & Hst) Hx. unfold exiting. simpl. destruct (decide (u = t)) as [->|Hne].
  - rewrite lookup_insert_eq. eauto.
  - rewrite lookup_insert_ne by done. eauto.
Qed.

Lemma exiting_task t s u x : exiting t s → get_task s u = Ok x → u = t → state x = TASK_STATE_EXITING.
Proof.
  intros (y & Hy & Hst) Hg ->. unfold get_task in Hg. rewrite Hy in Hg. by injection Hg as <-.
Qed.

Lemma keeps_transit t u st : keeps t (transit_state u st).
Proof.
  intros s s' He. unfold transit_state. intros (x & Hx & [Htab Hs']%ASSERT_Ok)%bind_Ok.
  injection Hs' as <-. apply exiting_set; [done|]. intros Hu.
  rewrite (exiting_task _ _ _ _ He Hx Hu) in Htab. by destruct x, st.
Qed.

(** Functions that leave the records of the tasks alone. *)
Lemma on_list_tasks s o s' : on_list s o = Ok s' → tasks s' = tasks s.
Proof. by intros (l & _ & [= <-])%bind_Ok. Qed.

Lemma schedule_task_tasks t s s' : schedule_task t s = Ok s' → tasks s' = tasks s.
Proof. intros (x & _ & Hs')%bind_Ok. destruct (state x); try done; by eapply on_list_tasks. Qed.

Lemma blocking_loop_tasks n cur s s' : blocking_loop n cur s = Ok s' → tasks s' = tasks s.
Proof.
  revert cur s. induction n as [|n IH]; intros [x|] s; simpl; try by (intros [= <-]).
  intros (c & _ & (t & _ & (k & _ & (s1 & Hs1 & Hs')%bind_Ok)%bind_Ok)%bind_Ok)%bind_Ok.
  apply IH in Hs' as ->. destruct (state k); try done; simpl in Hs1; try by injection Hs1 as <-.
  all: apply bind_Ok in Hs1 as (s2 & Hs2%on_list_tasks & Hs1%schedule_task_tasks); congruence.
Qed.

Lemma exiting_loop_tasks n s s' : exiting_loop n s = Ok s' → tasks s' = tasks s.
Proof.
  revert s. induction n as [|n IH]; intros s; simpl; [done|].
  intros ([[x|] l] & _ & Hs')%bind_Ok; [|by injection Hs' as <-].
  apply bind_Ok in Hs' as (t & _ & Hs'). by apply IH in Hs'.
Qed.

Lemma running_loop_tasks n s r s' :
  running_loop n s = Ok (r, s') →
  tasks s' = tasks s ∧ ∀ t, r = Some t → ∃ x, tasks s !! t = Some x ∧ state x = TASK_STATE_RUNNING.
Proof.
  revert s. induction n as [|n IH]; intros s; simpl; [done|].
  intros ([[x|] l] & _ & Hs')%bind_Ok; [|by injection Hs' as <- <-].
  apply bind_Ok in Hs' as (t & _ & (k & Hk & Hs')%bind_Ok). case_bool_decide as Hst.
  - injection Hs' as <- <-. split; [done|]. intros ? [= <-]. exists k. split; [|done].
    unfold get_task in Hk. simpl in Hk. destruct (tasks s !! t); [|done]. by injection Hk as <-.
  - apply bind_Ok in Hs' as (s1 & Hs1%schedule_task_tasks & Hs'). apply IH in Hs' as [Ht Hr].
    rewrite Ht, Hs1 in *. done.
Qed.

Lemma trap_tasks cpu s stack s' t :
  userspace_trap_handler cpu s = Ok (stack, s') → exiting t s →
  exiting t s' ∧ current s' ≠ Some (TASK t).
Proof.
  rewrite handler_split. intros (s1 & Hs1 & ([n s3] & Hs3 & Hs')%bind_Ok)%bind_Ok He.
  assert (exiting t s1) as He1.
  { apply bind_Ok in Hs1 as ([|u] & _ & Hs1); [by injection Hs1 as <-|].
    apply bind_Ok in Hs1 as (x & Hx & Hs1%schedule_task_tasks). unfold exiting. rewrite Hs1.
    apply exiting_set; [done|]. intros Hu. pose proof (exiting_task _ _ _ _ He Hx Hu). by destruct x. }
  apply bind_Ok in Hs3 as (s2 & Hs2 & (s2' & Hs2' & [Ht3 Hr]%running_loop_tasks)%bind_Ok).
  apply bind_Ok in Hs2 as (h & _ & Hs2%blocking_loop_tasks). apply exiting_loop_tasks in Hs2'.
  rewrite Hs2', Hs2 in *.
  assert (exiting t s3) as He3 by (unfold exiting; by rewrite Ht3).
  apply bind_Ok in Hs' as (st & _ & [_ Hs']%ASSERT_Ok). injection Hs' as _ <-. split; [done|].
  simpl. intros [= Hn]. destruct n as [u|]; simplify_eq/=. destruct (Hr t eq_refl) as (x & Hx & Hst).
  destruct He1 as (y & Hy & Hy'). congruence.
Qed.

Lemma exiting_tasks t s s' : tasks s' = tasks s → exiting t s → exiting t s'.
Proof. unfold exiting. by intros ->. Qed.

Lemma raw_wake_keeps t u : keeps t (raw_task_wake_up u).
Proof.
  intros s s' He (x & Hx & Hs')%bind_Ok. destruct (state x) eqn:Hst; try done.
  - by injection Hs' as <-.
  - by eapply keeps_transit.
  - apply ASSERT_Ok in Hs' as [_ Hs']. injection Hs' as <-. apply exiting_set; [done|].
    intros Hu. pose proof (exiting_task _ _ _ _ He Hx Hu). congruence.
Qed.

Lemma wake_loop_keeps t n cur : keeps t (wake_loop n cur).
Proof.
  revert cur. induction n as [|n IH]; intros [x|] s s' He; simpl; try by (intros [= <-]).
  intros (c & _ & (b & _ & (w & _ & (s1 & Hs1 & Hs')%bind_Ok)%bind_Ok)%bind_Ok)%bind_Ok.
  eapply IH; [|done]. by eapply raw_wake_keeps.
Qed.

Lemma wake_up_keeps t u : keeps t (wake_up u).
Proof. intros s s' He (h & _ & Hs')%bind_Ok. by eapply wake_loop_keeps. Qed.

Lemma do_exit_keeps t u : keeps t (do_exit u).
Proof.
  intros s s' He (x & Hx & (s1 & Hs1 & Hs')%bind_Ok)%bind_Ok. eapply keeps_transit; [|done].
  eapply wake_up_keeps; [|done]. apply exiting_set; [done|]. intros Hu.
  pose proof (exiting_task _ _ _ _ He Hx Hu). by destruct x.
Qed.

Lemma add_wait_blob_tasks t v s s' : add_wait_blob t v s = Ok s' → tasks s' = tasks s.
Proof.
  intros (s1 & Hs1%on_list_tasks & ([] & _ & Hs')%bind_Ok)%bind_Ok.
  - by injection Hs' as <-.
  - apply on_list_tasks in Hs'. by rewrite Hs', Hs1.
Qed.

Lemma wait_loop_tasks n cur t hint opts ret s r s' :
  wait_loop n cur t hint opts ret s = Ok (r, s') → tasks s' = tasks s.
Proof.
  revert cur ret s. induction n as [|n IH]; intros [x|] ret s; simpl; try by (intros [= _ <-]).
  intros (c & _ & (v & _ & (me & _ & (k & _ & Hs')%bind_Ok)%bind_Ok)%bind_Ok)%bind_Ok.
  repeat case_match; try by apply IH in Hs'.
  - by injection Hs' as _ <-.
  - apply bind_Ok in Hs' as (s1 & Hs1%add_wait_blob_tasks & Hs'). apply IH in Hs'. congruence.
Qed.

Lemma wait4_keeps t u hint opts : keeps t (kstep (k_wait4 u hint opts)).
Proof.
  intros s s' He ([r s1] & Hs1 & [= <-])%bind_Ok.
  apply bind_Ok in Hs1 as (h & _ & ([[ret tg] s2] & Hs2%wait_loop_tasks & ([] & _ & Hs1)%bind_Ok)%bind_Ok).
  - injection Hs1 as _ <-. by eapply exiting_tasks.
  - apply bind_Ok in Hs1 as (s3 & Hs3 & [= _ <-]). eapply keeps_transit; [|done]. by eapply exiting_tasks.
Qed.

Lemma reap_loop_tasks n t opts ret tg s r s' :
  reap_loop n t opts ret tg s = Ok (r, s') → tasks s' = tasks s.
Proof.
  revert ret tg s. induction n as [|n IH]; intros ret tg s; simpl; [done|].
  intros ([[x|] l] & _ & Hs')%bind_Ok; [|by injection Hs' as _ <-].
  apply bind_Ok in Hs' as (b & _ & (w & _ & (k & _ & (s1 & Hs1 & Hs')%bind_Ok)%bind_Ok)%bind_Ok).
  apply IH in Hs'. simpl in Hs'. rewrite Hs'. apply bind_Ok in Hs1 as ([] & _ & Hs1); [|by injection Hs1 as <-].
  by apply on_list_tasks in Hs1.
Qed.

Lemma wait4_resumed_keeps t u opts ret tg : keeps t (kstep (k_wait4_resumed u opts ret tg)).
Proof.
  intros s s' He ([r s1] & Hs1 & [= <-])%bind_Ok.
  apply bind_Ok in Hs1 as ([[ret' tg'] s2] & Hs2%reap_loop_tasks & Hs1). case_match; [|injection Hs1 as _ <-; by eapply exiting_tasks].
  apply ASSERT_Ok in Hs1 as [_ (v & _ & (s3 & Hs3 & [= _ <-])%bind_Ok)%bind_Ok].
  eapply exiting_tasks; [|done]. apply bind_Ok in Hs3 as ([] & _ & Hs3); [|injection Hs3 as <-; done].
  apply on_list_tasks in Hs3. congruence.
Qed.

Lemma reference_keeps t u : keeps t (reference_task u).
Proof.
  intros s s' He (x & Hx & [= <-])%bind_Ok. apply exiting_set; [done|]. intros Hu.
  pose proof (exiting_task _ _ _ _ He Hx Hu). by destruct x.
Qed.

(** The three sharing branches have one shape. *)
Lemma share_keeps t cur child (b : bool) (f : task → task) o s s' :
  child ≠ t → exiting t s →
  (if b then x ← get_task s child; reference_task cur (set_task s child (f x)) else (o : outcome unit);; Ok s) = Ok s' →
  exiting t s'.
Proof.
  intros Hne He. destruct b; [|by intros ([] & _ & [= <-])%bind_Ok]. intros (x & _ & Hs')%bind_Ok.
  eapply reference_keeps; [|done]. by apply exiting_set.
Qed.

Lemma linkage_keeps t cur child flags s s' :
  child ≠ t → exiting t s → task_linkage_init cur child flags s = Ok s' → exiting t s'.
Proof.
  unfold task_linkage_init. simpl. intros Hne He (me & _ & (x & _ & Hs')%bind_Ok)%bind_Ok.
  destruct x. eapply reference_keeps; [|done]. by apply exiting_set.
Qed.

Lemma hart_init_keeps t child vs s s' :
  child ≠ t → exiting t s → hart_init child vs s = Ok s' → exiting t s'.
Proof.
  intros Hne He (x & _ & Hs')%bind_Ok. destruct x. injection Hs' as <-.
  unfold initialize_wait_queue_head. eapply exiting_tasks; [done|]. by apply exiting_set.
Qed.

Lemma clone_keeps t cur child vs cs flags ctid cp : keeps t (kstep (k_clone cur child vs cs flags ctid cp)).
Proof.
  intros s s' He. simpl. destruct (tasks s !! child) eqn:Hfree; [done|].
  assert (child ≠ t) as Hne by (intros ->; destruct He as (? & ? & _); congruence).
  intros ([p s0] & Hc & [= <-])%bind_Ok. unfold clone_task in Hc.
  apply bind_Ok in Hc as (s1 & H1 & (s2 & H2 & (s3 & H3 & (s4 & H4 & (s5 & H5 & (s6 & H6 & Hc)%bind_Ok)%bind_Ok)%bind_Ok)%bind_Ok)%bind_Ok).
  apply bind_Ok in Hc as ([] & _ & (s7 & H7%on_list_tasks & (s8 & H8 & (s9 & H9%schedule_task_tasks & Hc)%bind_Ok)%bind_Ok)%bind_Ok).
  apply bind_Ok in Hc as (x & _ & [= _ <-]). eapply exiting_tasks; [done|].
  apply bind_Ok in H8 as (y & _ & [= <-]). apply exiting_set; [|done]. eapply exiting_tasks; [done|].
  assert (exiting t s5) as He5.
  { eapply (share_keeps t cur child _ (λ x, with_cloned x _ true _) _ _ _ Hne _ H5).
    Unshelve. eapply (share_keeps t cur child _ (λ x, with_cloned x _ _ true) (Ok tt) _ _ Hne _ H4).
    Unshelve. eapply (share_keeps t cur child _ (λ x, with_cloned x true _ _) _ _ _ Hne _ H3).
    Unshelve. eapply hart_init_keeps; [done| |done].
    eapply linkage_keeps; [done| |done]. by apply exiting_set. }
  unfold task_threads_tid in H6. case_match; [|by injection H6 as <-].
  apply bind_Ok in H6 as (z & _ & [= <-]). by apply exiting_set.
Qed.

Lemma kstep_keeps t o : keeps t (kstep o).
Proof.
  destruct o; intros s s' He Hs'.
  - by eapply keeps_transit.
  - by eapply wake_up_keeps.
  - by eapply do_exit_keeps.
  - apply bind_Ok in Hs' as ([p s1] & (x & Hx & [= _ <-])%bind_Ok & [= <-]). apply exiting_set; [done|].
    intros Hu. pose proof (exiting_task _ _ _ _ He Hx Hu). by destruct x.
  - by eapply clone_keeps.
  - by eapply wait4_keeps.
  - by eapply wait4_resumed_keeps.
  - apply bind_Ok in Hs' as ([st s1] & Hs1 & [= <-]). by eapply trap_tasks.
Qed.

(** C12: a task that has exited is never rescheduled, as the comment in
    [do_exit] claims: after [do_exit], whatever calls the tasks make and however
    often the processor is yielded, no trap continues with it. *)
Theorem exited_never_runs t os cpu s s1 s' :
  do_exit t s = Ok s1 → ksteps (os ++ [k_trap cpu]) s1 = Ok s' → current s' ≠ Some (TASK t).
Proof.
  intros Hexit Hrun.
  assert (exiting t s1) as He.
  { apply bind_Ok in Hexit as (x & _ & (s0 & _ & (y & _ & [_ [= <-]]%ASSERT_Ok)%bind_Ok)%bind_Ok).
    exists (with_state y TASK_STATE_EXITING). simpl. rewrite lookup_insert_eq. by destruct y. }
  clear Hexit. revert s1 He Hrun. induction os as [|o os IH]; intros s1 He Hrun; simpl in Hrun.
  - apply bind_Ok in Hrun as (s2 & ([st s3] & Htrap & [= <-])%bind_Ok & [= <-]).
    by eapply trap_tasks.
  - apply bind_Ok in Hrun as (s2 & Hs2 & Hrun). eapply IH; [|done]. by eapply kstep_keeps.
Qed.

(** ** Cloning *)
Section Clone.
Context (s : sys) (cur child : Z) (Hne : cur ≠ child).

(** The system in the middle of a clone: the links, the two records, the pids. *)
Definition cloning L me x p : sys :=
  mk_sys L (<[cur := me]> (<[child := x]> (tasks s))) (blobs s) (current s) (idle_cpustate s) p.

Lemma cloning_cur L me x p : get_task (cloning L me x p) cur = Ok me.
Proof. unfold get_task, cloning. simpl. by rewrite lookup_insert_eq. Qed.

Lemma cloning_child L me x p : get_task (cloning L me x p) child = Ok x.
Proof. unfold get_task, cloning. simpl. by rewrite lookup_insert_ne, lookup_insert_eq. Qed.

Lemma cloning_set_cur L me x p y : set_task (cloning L me x p) cur y = cloning L y x p.
Proof. unfold set_task, cloning. simpl. by rewrite insert_insert_eq. Qed.

Lemma cloning_set_child L me x p y : set_task (cloning L me x p) child y = cloning L me y p.
Proof.
  unfold set_task, cloning. simpl. f_equal. by rewrite insert_insert_ne, insert_insert_eq.
Qed.

Lemma cloning_lists L me x p L' : set_lists (cloning L me x p) L' = cloning L' me x p.
Proof. done. Qed.

Lemma cloning_start L me x :
  tasks s !! cur = Some me → set_task (set_lists s L) child x = cloning L me x (gpid_counter s).
Proof.
  intros Hme. unfold set_task, cloning. simpl. f_equal. symmetry. apply insert_id.
  by rewrite lookup_insert_ne.
Qed.

Lemma cloning_reference L me x p :
  reference_task cur (cloning L me x p) = Ok (cloning L (with_ref me (sint 32 (ref_count me + 1))) x p).
Proof. unfold reference_task. by rewrite cloning_cur, (bind_step _ _ _ eq_refl), cloning_set_cur. Qed.

(** A sharing branch; [o] is the answer of the copy made otherwise. *)
Lemma cloning_share L me r x p (b : bool) (f : task → task) o :
  (b = false → o = Ok (cloning L (with_ref me (sint 32 r)) x p)) →
  (if b then y ← get_task (cloning L (with_ref me (sint 32 r)) x p) child;
             reference_task cur (set_task (cloning L (with_ref me (sint 32 r)) x p) child (f y))
   else o)
  = Ok (cloning L (with_ref me (sint 32 (r + Z.b2z b))) (if b then f x else x) p).
Proof.
  intros Ho. destruct b.
  - rewrite cloning_child, (bind_step _ _ _ eq_refl), cloning_set_child, cloning_reference. destruct me. cbn [with_ref ref_count].
    by rewrite sint_add.
  - rewrite Ho by done. by rewrite Z.add_0_r.
Qed.

Lemma cloning_linkage L me x p flags :
  task_linkage_init cur child flags (cloning L me x p) =
  Ok (cloning L (with_ref me (sint 32 (ref_count me + 1)))
        (let 'mk_task st ns we ws wc cpu vs _ _ _ _ tid rc cv cf cs := x in
         mk_task st ns we ws wc cpu vs p (pid me) (if flag flags CLONE_THREAD then pid me else p)
           (Some cur) tid rc cv cf cs) (w32 (p + 1))).
Proof.
  unfold task_linkage_init. cbn [new_pid]. change (mk_sys _ _ _ _ _ _) with (cloning L me x (w32 (p + 1))).
  rewrite cloning_cur, (bind_step _ _ _ eq_refl), cloning_child, (bind_step _ _ _ eq_refl). destruct x.
  by rewrite cloning_set_child, cloning_reference.
Qed.

Lemma cloning_hart L me x p vs :
  hart_init child vs (cloning L me x p) =
  Ok (cloning (<[PIVOT child := mk_elem None None]> (<[HART_LIST child := mk_elem None None]> L)) me
        (let 'mk_task _ _ _ _ _ _ _ q pp tg pa tid rc cv cf cs := x in
         mk_task TASK_STATE_RUNNING TASK_STATE_ZOMBIE false false false 0
           (Z.land vs (w64 (Z.lnot 4095)) + VMM_STACK_SIZE) q pp tg pa tid rc cv cf cs) p).
Proof.
  unfold hart_init. rewrite cloning_child, (bind_step _ _ _ eq_refl). destruct x.
  by rewrite cloning_lists, cloning_set_child.
Qed.

Lemma cloning_tid L me x p flags a :
  task_threads_tid child flags a (cloning L me x p) =
  Ok (cloning L me (if flag flags CLONE_CHILD_SETTID then with_child_tid x a else x) p).
Proof.
  unfold task_threads_tid. destruct (flag flags CLONE_CHILD_SETTID); [|done].
  by rewrite cloning_child, (bind_step _ _ _ eq_refl), cloning_set_child.
Qed.

End Clone.

(** The record of the child. *)
Definition child_task (me : task) (cur p vmm_stack flags ctid_addr : Z) : task :=
  mk_task TASK_STATE_RUNNING TASK_STATE_ZOMBIE false false false
    (Z.land (w64 (Z.land vmm_stack (w64 (Z.lnot 4095)) + VMM_STACK_SIZE - SIZEOF_CPUSTATE)) (w64 (Z.lnot 15)))
    (Z.land vmm_stack (w64 (Z.lnot 4095)) + VMM_STACK_SIZE)
    p (pid me) (if flag flags CLONE_THREAD then pid me else p) (Some cur)
    (if flag flags CLONE_CHILD_SETTID then ctid_addr else 0) 0
    (flag flags CLONE_VM) (flag flags CLONE_FILES) (flag flags CLONE_FS).

(** The references a clone takes on its parent. *)
Definition clone_refs (flags : Z) : Z :=
  1 + Z.b2z (flag flags CLONE_VM) + Z.b2z (flag flags CLONE_FS) + Z.b2z (flag flags CLONE_FILES).

(** A clone can be made: the parts that are not shared can be copied, and a thread
    comes with a stack. *)
Record clonable (flags cs : Z) (cp : copies) : Prop := {
  cl_memory : flag flags CLONE_VM = false → copy_memory cp = Ok tt;
  cl_files : flag flags CLONE_FILES = false → copy_files cp = Ok tt;
  cl_stack : flag flags CLONE_THREAD = true → cs ≠ 0
}.

(** The steps of [clone_task] up to the copy of the files. *)
Lemma clone_start s cur child vs cs flags ctid cp me :
  cur ≠ child → tasks s !! cur = Some me →
  ∃ L x, clone_task cur child vs cs flags ctid cp s =
    (let s1 := cloning s cur child L (with_ref me (sint 32 (ref_count me + 1))) x (w32 (gpid_counter s + 1)) in
     s1 ← task_vm_share cur child flags cp s1;
     s1 ← task_fs_share cur child flags s1;
     s1 ← task_files_share cur child flags cp s1;
     s1 ← task_threads_tid child flags ctid s1;
     (if flag flags CLONE_THREAD then ASSERT (negb (cs =? 0)) else Ok tt);;
     s1 ← register_task child s1;
     s1 ← task_vmm_sched_init child s1;
     s1 ← schedule_task child s1;
     y ← get_task s1 child;
     Ok (pid y, s1)) ∧
    L = <[PIVOT child := mk_elem None None]> (<[HART_LIST child := mk_elem None None]>
          (<[VM_NODE child := mk_elem None None]> (lists s))) ∧
    x = mk_task TASK_STATE_RUNNING TASK_STATE_ZOMBIE false false false 0
          (Z.land vs (w64 (Z.lnot 4095)) + VMM_STACK_SIZE) (gpid_counter s) (pid me)
          (if flag flags CLONE_THREAD then pid me else gpid_counter s) (Some cur) 0 0 false false false.
Proof.
  intros Hne Hme. unfold clone_task, allocate_virtual_machine_descriptor.
  rewrite (cloning_start s cur child Hne _ me) by done.
  rewrite cloning_linkage, (bind_step _ _ _ eq_refl) by done.
  rewrite cloning_hart, (bind_step _ _ _ eq_refl) by done. by eexists _, _.
Qed.

Lemma answer_of (b : bool) (o : outcome unit) : (b = false → o = Ok tt) ∨ (b = false ∧ ∃ e, o = Err e).
Proof. destruct b; [by left|]. destruct o as [[]|e]; [by left|right; eauto]. Qed.

(** Otherwise the emulator stops. *)
Lemma clone_stops s cur child vs cs flags ctid cp me :
  cur ≠ child → tasks s !! cur = Some me → ¬ clonable flags cs cp →
  ∃ e, clone_task cur child vs cs flags ctid cp s = Err e.
Proof.
  intros Hne Hme Hcl. destruct (clone_start s cur child vs cs flags ctid cp me Hne Hme) as (L & x & -> & _). cbv zeta.
  unfold task_vm_share. destruct (answer_of (flag flags CLONE_VM) (copy_memory cp)) as [Hvm|(Hf & e & He)].
  2: { exists e. by rewrite Hf, He. }
  rewrite (cloning_share s cur child Hne), (bind_step _ _ _ eq_refl) by (intros Hf; by rewrite Hvm).
  unfold task_fs_share. rewrite (cloning_share s cur child Hne), (bind_step _ _ _ eq_refl) by done.
  unfold task_files_share. destruct (answer_of (flag flags CLONE_FILES) (copy_files cp)) as [Hfl|(Hf & e & He)].
  2: { exists e. by rewrite Hf, He. }
  rewrite (cloning_share s cur child Hne), (bind_step _ _ _ eq_refl) by (intros Hf; by rewrite Hfl).
  rewrite cloning_tid, (bind_step _ _ _ eq_refl) by done.
  destruct (flag flags CLONE_THREAD) eqn:Hth; [|destruct Hcl; split; [done|done|congruence]].
  destruct (Z.eqb_spec cs 0) as [->|Hcs]; [by eexists|by destruct Hcl; split].
Qed.

(** Everything of [clone_task] before the child is put into the lists. *)
Lemma clone_records s cur child vs cs flags ctid cp me :
  cur ≠ child → tasks s !! cur = Some me → clonable flags cs cp →
  ∃ x, clone_task cur child vs cs flags ctid cp s =
    (let L := <[PIVOT child := mk_elem None None]> (<[HART_LIST child := mk_elem None None]>
                (<[VM_NODE child := mk_elem None None]> (lists s))) in
     s1 ← register_task child (cloning s cur child L (with_ref me (sint 32 (ref_count me + clone_refs flags))) x
                                (w32 (gpid_counter s + 1)));
     s1 ← task_vmm_sched_init child s1;
     s1 ← schedule_task child s1;
     y ← get_task s1 child;
     Ok (pid y, s1)) ∧
    with_cpustate x (Z.land (w64 (vmm_stack_ptr x - SIZEOF_CPUSTATE)) (w64 (Z.lnot 15)))
      = child_task me cur (gpid_counter s) vs flags ctid.
Proof.
  intros Hne Hme [Hvm Hfl Hcs].
  destruct (clone_start s cur child vs cs flags ctid cp me Hne Hme) as (L & x & -> & -> & ->). cbv zeta.
  unfold task_vm_share. rewrite (cloning_share s cur child Hne), (bind_step _ _ _ eq_refl) by (intros Hf; by rewrite Hvm).
  unfold task_fs_share. rewrite (cloning_share s cur child Hne), (bind_step _ _ _ eq_refl) by done.
  unfold task_files_share. rewrite (cloning_share s cur child Hne), (bind_step _ _ _ eq_refl) by (intros Hf; by rewrite Hfl).
  rewrite cloning_tid, (bind_step _ _ _ eq_refl) by done.
  replace (if flag flags CLONE_THREAD then ASSERT (negb (cs =? 0)) else Ok tt) with (Ok tt).
  2:{ destruct (flag flags CLONE_THREAD); [|done]. by rewrite (proj2 (Z.eqb_neq _ _) (Hcs eq_refl)). }
  rewrite (bind_step _ _ _ eq_refl). cbv zeta. unfold child_task, clone_refs. eexists. split; [f_equal; f_equal; f_equal|].
  - destruct me. simpl. do 2 f_equal. lia.
  - by destruct (flag flags CLONE_VM), (flag flags CLONE_FS), (flag flags CLONE_FILES),
      (flag flags CLONE_CHILD_SETTID).
Qed.

(** The new links of a clone keep every list that has none of the child's. *)
Definition child_nodes (child : Z) : list node := [PIVOT child; HART_LIST child; VM_NODE child].

Lemma clone_links s child :
  same_except (child_nodes child) (lists s)
    (<[PIVOT child := mk_elem None None]> (<[HART_LIST child := mk_elem None None]>
       (<[VM_NODE child := mk_elem None None]> (lists s)))).
Proof. intros y Hy. unfold child_nodes in Hy. by elem_lookup. Qed.

(** Adding a detached task outside the queues. *)
Lemma srep_new s s' q child :
  srep s q → tasks s !! child = None → (∀ t, is_Some (tasks s' !! t) ↔ t = child ∨ is_Some (tasks s !! t)) →
  (∀ y, sched_node y = true → y ≠ HART_LIST child → lists s' !! y = lists s !! y) →
  detached (lists s') (HART_LIST child) → srep s' q.
Proof.
  intros [H1 H2 H3 H4] Hfree Hdom Hfr Hdet.
  assert (∀ t, queued q t → t ≠ child) as Hnq.
  { intros t Ht ->. apply H4 in Ht as [? ?]. congruence. }
  split; [|done| |].
  - intros k. destruct (H1 k) as (Hn & Hh & Hs). split_and!; [done| |].
    + rewrite Hfr; [done|by destruct k|apply head_not_hart].
    + eapply seg_frame; [|done]. intros y (t & -> & Ht)%list_elem_of_fmap. apply Hfr; [done|].
      intros [= ->]. apply (Hnq child); [by exists k|done].
  - intros t Ht Hq. destruct (decide (t = child)) as [->|Hne]; [done|].
    apply Hdom in Ht as [?|Ht]; [done|]. unfold detached. rewrite Hfr; [by apply H3|done|congruence].
  - intros t Ht. apply Hdom. right. by apply H4.
Qed.

Lemma clear_low64 v n : 0 <= v < 2 ^ 64 → 0 <= n <= 64 →
  Z.land v (w64 (Z.lnot (Z.ones n))) = 2 ^ n * (v / 2 ^ n).
Proof.
  intros Hv Hn. unfold w64. rewrite <- Z.land_ones, (Z.land_comm (Z.lnot _)), Z.land_assoc by lia.
  rewrite (Z.land_ones v), Z.mod_small by lia. rewrite <- Z.ldiff_land, Z.ldiff_ones_r by lia.
  rewrite Z.shiftl_mul_pow2, Z.shiftr_div_pow2 by lia. lia.
Qed.

Lemma child_cpustate me cur p vs flags ctid :
  4096 <= vs < 2 ^ 63 → host_cpustate (child_task me cur p vs flags ctid) ≠ 0.
Proof.
  intros Hvs. cbn [host_cpustate child_task]. change (Z.lnot 4095) with (Z.lnot (Z.ones 12)).
  change (Z.lnot 15) with (Z.lnot (Z.ones 4)). unfold VMM_STACK_SIZE, SIZEOF_CPUSTATE.
  assert (2 ^ 63 = 9223372036854775808 ∧ 2 ^ 64 = 18446744073709551616) as [E63 E64] by done.
  rewrite (clear_low64 vs) by lia. change (2 ^ 12) with 4096.
  set (u := 4096 * (vs / 4096) + 1024 * 8 - 144).
  assert (4096 <= u < 2 ^ 64) as Hu by (unfold u; rewrite E64, E63 in *; Z.to_euclidean_division_equations; lia).
  unfold w64 at 1. rewrite (Z.mod_small u) by lia. rewrite clear_low64 by lia. change (2 ^ 4) with 16.
  Z.to_euclidean_division_equations. lia.
Qed.

(** The last step of a clone: the child enters the run queue. *)
Lemma clone_scheduled s q cur child σ me me' x p :
  sched_ok s q → cur ≠ child → tasks s !! cur = Some me → tasks s !! child = None →
  state me' = state me → host_cpustate me' = host_cpustate me →
  state x = TASK_STATE_RUNNING → host_cpustate x ≠ 0 →
  (∀ y, sched_node y = true → y ≠ HART_LIST child → σ !! y = lists s !! y) →
  detached σ (HART_LIST child) →
  ∃ s', schedule_task child (cloning s cur child σ me' x p) = Ok s' ∧
    sched_ok s' (upd q Run (q Run ++ [child])) ∧
    tasks s' = <[child := x]> (<[cur := me']> (tasks s)) ∧
    (∀ y, sched_node y = false → lists s' !! y = σ !! y) ∧ blobs s' = blobs s ∧ current s' = current s.
Proof.
  intros [Hrep (c & Hc & Hcur) Hd Hcpu Hidle] Hne Hme Hfree Hst Hh Hrun Hx Hfr Hdet.
  set (s1 := cloning s cur child σ me' x p).
  assert (tasks s1 = <[child := x]> (<[cur := me']> (tasks s))) as Ht by (by apply insert_insert_ne).
  assert (∀ t, is_Some (tasks s1 !! t) ↔ t = child ∨ is_Some (tasks s !! t)) as Hdom.
  { intros t. rewrite Ht, !lookup_insert_is_Some'. split; [intros [->|[->|?]]; eauto|intros [->|?]; eauto]. }
  assert (∀ t, t ≠ child → dest (tasks s1) t = dest (tasks s) t) as Hdest.
  { intros t Htc. unfold dest. rewrite Ht, lookup_insert_ne by done. destruct (decide (t = cur)) as [->|].
    - rewrite lookup_insert_eq, Hme. simpl. by rewrite Hst.
    - by rewrite lookup_insert_ne. }
  assert (srep s1 q) as Hs1 by (by eapply srep_new).
  assert (tasks s1 !! child = Some x) as Hxc by (rewrite Ht; apply lookup_insert_eq).
  assert (∀ t, queued q t → t ≠ child) as Hnq.
  { intros t Hq ->. apply (sr_dom _ _ Hrep) in Hq as [? ?]. congruence. }
  destruct (schedule_task_rep s1 q child x Run Hs1 Hxc) as (s' & Hs' & Hrep' & Hr).
  { by rewrite Hrun. } { intros Hq. by apply (Hnq child). }
  exists s'. split; [done|]. pose proof (relinked_tasks _ _ Hr) as Ht'. rewrite Ht', Ht.
  split_and!; [|done|apply Hr|by rewrite (proj1 Hr)..]. destruct Hr as [Hr _]. split.
  - done.
  - exists c. rewrite Hr. split; [done|]. intros t ->. destruct (Hcur t eq_refl) as [Hq Hdt].
    assert (t ≠ child) as Htc. { intros ->. destruct Hdt as [k Hk]. unfold dest in Hk. by rewrite Hfree in Hk. }
    rewrite queued_upd. split; [tauto|]. simpl. by rewrite Hdest.
  - intros t. rewrite queued_upd, Ht'. intros [->|Hq]; [|rewrite Hdest by (by apply Hnq); by apply Hd].
    unfold dest. rewrite Hxc. simpl. by rewrite Hrun.
  - intros t y. rewrite Ht', Ht, !lookup_insert_Some.
    intros [[_ <-]|[_ [[_ <-]|[_ Hy]]]]; [done|rewrite Hh|]; by eapply Hcpu.
  - rewrite Hr. exact Hidle.
Qed.

(** The lists a clone leaves alone, beside its new nodes. *)
Definition clone_frame (s s' : sys) (g : list Z) (child : Z) : Prop :=
  lists s' !! PIVOT child = Some (mk_elem None None) ∧ blobs s' = blobs s ∧ current s' = current s ∧
  ∀ y, sched_node y = false → y ∉ PIVOT child :: GLOBAL_TASK_LIST :: (VM_NODE <$> child :: g) →
    lists s' !! y = lists s !! y.

Lemma clone_rep s q g cur child vs cs flags ctid cp me :
  sched_ok s q → lrep (lists s) GLOBAL_TASK_LIST (VM_NODE <$> g) → child ∉ g →
  tasks s !! cur = Some me → tasks s !! child = None →
  4096 <= vs < 2 ^ 63 → clonable flags cs cp →
  ∃ s', clone_task cur child vs cs flags ctid cp s = Ok (gpid_counter s, s') ∧
    sched_ok s' (upd q Run (q Run ++ [child])) ∧
    lrep (lists s') GLOBAL_TASK_LIST (VM_NODE <$> g ++ [child]) ∧
    tasks s' = <[child := child_task me cur (gpid_counter s) vs flags ctid]>
                 (<[cur := with_ref me (sint 32 (ref_count me + clone_refs flags))]> (tasks s)) ∧ clone_frame s s' g child.
Proof.
  intros Hok Hg Hcg Hme Hfree Hvs Hcs.
  assert (cur ≠ child) as Hne by congruence.
  destruct (clone_records s cur child vs cs flags ctid cp me Hne Hme Hcs) as (x & -> & Hx). cbv zeta.
  set (L := <[PIVOT child := _]> _). set (me' := with_ref me _). set (p := w32 _).
  assert (lrep L GLOBAL_TASK_LIST (VM_NODE <$> g)) as HgL.
  { eapply lrep_frame; [done|apply clone_links|]. intros y Hy. unfold child_nodes in Hy.
    rewrite elem_of_cons, list_elem_of_fmap. set_solver. }
  destruct (list_append_rep L GLOBAL_TASK_LIST (VM_NODE <$> g) (VM_NODE child)) as (σ & Hσ & Hgσ & Hxσ);
    [done|unfold detached, L; by elem_lookup|rewrite elem_of_cons, list_elem_of_fmap; set_solver|].
  unfold register_task, on_list. cbn [lists cloning]. rewrite Hσ, !(bind_step _ _ _ eq_refl).
  rewrite cloning_lists. unfold task_vmm_sched_init.
  rewrite cloning_child, (bind_step _ _ _ eq_refl), cloning_set_child, Hx by done.
  destruct (clone_scheduled s q cur child σ me me' (child_task me cur (gpid_counter s) vs flags ctid) p)
    as (s' & Hs' & Hok' & Ht' & Hl' & Hb' & Hc'); [done..|by destruct me|by destruct me|done|by apply child_cpustate| | |].
  { intros y Hy Hyc. rewrite Hxσ, (clone_links s child); [done| |];
      rewrite ?elem_of_cons, ?list_elem_of_fmap; unfold child_nodes; destruct y; set_solver. }
  { unfold detached. rewrite Hxσ by (rewrite !elem_of_cons, list_elem_of_fmap; set_solver). unfold L. by elem_lookup. }
  rewrite (bind_step _ _ _ eq_refl), Hs', (bind_step _ _ _ eq_refl). unfold get_task. rewrite Ht', lookup_insert_eq.
  cbn [deref]. rewrite (bind_step _ _ _ eq_refl). exists s'. split_and!; [done|done| |done|].
  - rewrite fmap_app. eapply lrep_same; [exact Hgσ|]. intros y Hy. apply Hl'.
    rewrite elem_of_cons, elem_of_app, list_elem_of_fmap in Hy. set_solver.
  - split_and!; [|done|done|].
    + rewrite Hl' by done. rewrite Hxσ by (rewrite !elem_of_cons, list_elem_of_fmap; set_solver). unfold L. by elem_lookup.
    + intros y Hs Hy. rewrite Hl' by done. rewrite Hxσ by (rewrite fmap_cons in Hy; set_solver).
      apply (clone_links s child). rewrite fmap_cons in Hy. unfold child_nodes. destruct y; set_solver.
Qed.

(** C14: [clone_task] on the records and lists of the tasks, in a state that
    satisfies the scheduler's invariant, for a descriptor at an unused address and a
    stack in the user half.  When the parts that are not shared can be copied and a
    thread comes with a stack, it creates one runnable task: the child gets the next
    pid, the caller as its parent, its own thread group unless it is a thread, a
    saved context at the top of its stack and the sharing flags asked for; it is
    appended to the run queue and to the global list and the invariant is kept; the
    caller's reference count, an [int32_t], grows by one plus one per shared part;
    no other task changes.  When a copy fails or a thread has no stack, the emulator
    stops. *)
Theorem clone_correct s q g cur child vs cs flags ctid cp me :
  sched_ok s q → lrep (lists s) GLOBAL_TASK_LIST (VM_NODE <$> g) → child ∉ g →
  tasks s !! cur = Some me → tasks s !! child = None → 4096 <= vs < 2 ^ 63 →
  (clonable flags cs cp →
   ∃ s', clone_task cur child vs cs flags ctid cp s = Ok (gpid_counter s, s') ∧
     sched_ok s' (upd q Run (q Run ++ [child])) ∧
     lrep (lists s') GLOBAL_TASK_LIST (VM_NODE <$> g ++ [child]) ∧
     tasks s' = <[child := child_task me cur (gpid_counter s) vs flags ctid]>
                  (<[cur := with_ref me (sint 32 (ref_count me + clone_refs flags))]> (tasks s))) ∧
  (¬ clonable flags cs cp → ∃ e, clone_task cur child vs cs flags ctid cp s = Err e).
Proof.
  intros Hok Hg Hcg Hme Hfree Hvs. split.
  - intros Hcl. destruct (clone_rep s q g cur child vs cs flags ctid cp me) as (s' & Hr & Hok' & Hg' & Ht' & _); [done..|].
    exists s'. by split_and!.
  - eapply clone_stops; [|done]. congruence.
Qed.

(** ** Waiting for a child *)

(** Whether the loop of [call_wait4] passes over a task. *)
Definition skipped_by (me : task) (hint : Z) (k : task) : bool :=
  (negb (pid me =? ppid k) || (pid me =? pid k)) || negb (is_to_wait hint me k).

Lemma is_to_wait_pid h me k : 0 < h < 2 ^ 31 → is_to_wait h me k = (pid k =? h).
Proof.
  intros Hh. unfold is_to_wait. rewrite (w32_small h) by (unfold word32; pow2; lia).
  destruct (Z.eqb_spec h (-1)); [lia|]. destruct (Z.ltb_spec h (-1)); [lia|].
  destruct (Z.eqb_spec h 0); [lia|done].
Qed.

Lemma wait_loop_skip g1 g2 n t hint opts ret s me p :
  seg (lists s) p (VM_NODE <$> g1 ++ g2) None → tasks s !! t = Some me →
  (∀ v, v ∈ g1 → ∃ k, tasks s !! v = Some k ∧ skipped_by me hint k = true) →
  wait_loop (length g1 + n) (VM_NODE <$> head (g1 ++ g2)) t hint opts ret s
  = wait_loop n (VM_NODE <$> head g2) t hint opts ret s.
Proof.
  revert p. induction g1 as [|v g1 IH]; intros p Hs Hme Hk; [done|].
  destruct Hs as [Hv Hs]. destruct (Hk v) as (k & Hvk & Hskip); [by left|].
  cbn [length Nat.add head app fmap option_fmap option_map wait_loop]. rewrite (get_elem_ok _ _ _ Hv).
  unfold get_task. cbn [mbind outcome_bind vm_of next]. rewrite Hme. cbn [deref mbind outcome_bind].
  rewrite Hvk. cbn [deref mbind outcome_bind]. rewrite app_nil_r.
  change (list_fmap Z node VM_NODE (g1 ++ g2)) with (VM_NODE <$> g1 ++ g2).
  assert (head (VM_NODE <$> g1 ++ g2) = VM_NODE <$> head (g1 ++ g2)) as -> by (by destruct (g1 ++ g2)).
  rewrite <- (IH (Some (VM_NODE v))); [|done..|intros; apply Hk; by right].
  unfold skipped_by in Hskip. destruct (_ || (pid me =? pid k)); [done|]. simpl in Hskip. by rewrite Hskip.
Qed.

(** What a waiting parent leaves behind: one entry, on the wait queue of the
    child and on the parent's own list. *)
Record waiting (s : sys) (t v b : Z) (ws : list Z) : Prop := {
  wt_queue : lrep (lists s) (PIVOT v) (WAIT_LIST <$> ws);
  wt_in : b ∈ ws;
  wt_own : lrep (lists s) (BLOB_HEAD t) [BLOB_NODE b];
  wt_blob : blobs s !! b = Some (mk_blob v t);
}.

Lemma add_wait_blob_rep s t v ws :
  lrep (lists s) (PIVOT v) (WAIT_LIST <$> ws) → lrep (lists s) (BLOB_HEAD t) [] →
  (∀ b, b ∈ ws → is_Some (blobs s !! b)) →
  let b := new_blob s in
  ∃ s', add_wait_blob t v s = Ok s' ∧ waiting s' t v b (ws ++ [b]) ∧
    s' = set_blobs (set_lists s (lists s')) (<[b := mk_blob v t]> (blobs s)) ∧
    same_except ([BLOB_NODE b; WAIT_LIST b; BLOB_HEAD t; PIVOT v] ++ (WAIT_LIST <$> ws)) (lists s) (lists s').
Proof.
  intros Hq Hown Hws b. assert (b ∉ ws) as Hb.
  { intros Hin. apply Hws, elem_of_dom in Hin. exact (is_fresh (dom (blobs s) : gset Z) Hin). }
  unfold add_wait_blob, initialize_wait_queue_entry, list_init. fold b.
  cbn [set_blobs set_lists lists blobs tasks current idle_cpustate gpid_counter].
  set (L := <[WAIT_LIST b := _]> (<[BLOB_NODE b := _]> (lists s))).
  assert (same_except [BLOB_NODE b; WAIT_LIST b] (lists s) L) as HL by (intros y Hy; unfold L; by elem_lookup).
  destruct (list_append_rep L (BLOB_HEAD t) [] (BLOB_NODE b)) as (σ1 & -> & Hown1 & Hx1).
  { eapply lrep_frame; [exact Hown|exact HL|set_solver]. } { unfold detached, L. by elem_lookup. } { set_solver. }
  cbn [mbind outcome_bind].
  assert (lrep σ1 (PIVOT v) (WAIT_LIST <$> ws)) as Hq1.
  { eapply lrep_frame; [eapply lrep_frame; [exact Hq|exact HL|]|exact Hx1|]; intros y Hy;
      rewrite elem_of_cons, list_elem_of_fmap; set_solver. }
  assert (detached σ1 (WAIT_LIST b)) as Hd1.
  { eapply detached_frame; [|exact Hx1|set_solver]. unfold detached, L. by elem_lookup. }
  unfold add_wait_queue_entry, on_list. cbn [lists mbind outcome_bind set_lists].
  rewrite (element_in_list_rep _ _ _ _ Hq1) by (by rewrite Hd1).
  rewrite bool_decide_eq_false_2 by (rewrite list_elem_of_fmap; set_solver). cbn [mbind outcome_bind].
  destruct (list_append_rep σ1 (PIVOT v) (WAIT_LIST <$> ws) (WAIT_LIST b)) as (σ2 & -> & Hq2 & Hx2); [done..| |].
  { rewrite elem_of_cons, list_elem_of_fmap. set_solver. }
  eexists. split; [done|]. cbn [lists set_lists]. split_and!.
  - split; cbn [lists set_lists blobs].
    + by rewrite fmap_app.
    + set_solver.
    + eapply lrep_frame; [exact Hown1|exact Hx2|]. intros y Hy.
      rewrite !elem_of_cons, list_elem_of_fmap in Hy. set_solver.
    + simpl. by rewrite lookup_insert_eq.
  - done.
  - intros y Hy. rewrite Hx2, Hx1, HL; set_solver.
Qed.

(** The step of the loop at the child. *)
Lemma wait_loop_block s t v me k n ret p nx s1 :
  lists s !! VM_NODE v = Some (mk_elem p nx) → tasks s !! t = Some me → tasks s !! v = Some k →
  ppid k = pid me → pid k ≠ pid me → 0 < pid k < 2 ^ 31 → wait_state_exited k = false →
  add_wait_blob t v s = Ok s1 →
  wait_loop (S n) (Some (VM_NODE v)) t (pid k) 0 ret s = wait_loop n nx t (pid k) 0 0 s1.
Proof.
  intros Hv Hme Hk Hpp Hpk Hpid Hex Hadd. cbn [wait_loop]. rewrite (get_elem_ok _ _ _ Hv).
  unfold get_task. cbn [mbind outcome_bind vm_of next]. rewrite Hme. cbn [deref mbind outcome_bind].
  rewrite Hk. cbn [deref mbind outcome_bind]. rewrite Hpp, Z.eqb_refl, (Z.eqb_sym (pid me)).
  rewrite (proj2 (Z.eqb_neq _ _) Hpk), is_to_wait_pid, Z.eqb_refl, Hex by done.
  change (Z.land 0 WNOHANG_MASK =? 0) with true. cbn [negb orb]. by rewrite Hadd.
Qed.

(** The loop over all tasks, one of which is the child. *)
Lemma wait_loop_one s t v me k g1 g2 ws n :
  lrep (lists s) GLOBAL_TASK_LIST (VM_NODE <$> g1 ++ v :: g2) →
  lrep (lists s) (PIVOT v) (WAIT_LIST <$> ws) → lrep (lists s) (BLOB_HEAD t) [] →
  (∀ b, b ∈ ws → is_Some (blobs s !! b)) →
  tasks s !! t = Some me → tasks s !! v = Some k →
  ppid k = pid me → pid k ≠ pid me → 0 < pid k < 2 ^ 31 → wait_state_exited k = false →
  (∀ u, u ∈ g1 ++ g2 → ∃ y, tasks s !! u = Some y ∧ skipped_by me (pid k) y = true) →
  let b := new_blob s in
  ∃ s', wait_loop (length g1 + S (length g2 + n)) (VM_NODE <$> head (g1 ++ v :: g2)) t (pid k) 0 (-1) s
          = Ok (0, None, s') ∧ waiting s' t v b (ws ++ [b]) ∧
    lrep (lists s') GLOBAL_TASK_LIST (VM_NODE <$> g1 ++ v :: g2) ∧ tasks s' = tasks s.
Proof.
  intros Hg Hq Hown Hws Hme Hk Hpp Hpk Hpid Hex Hskip b. pose proof Hg as (_ & _ & Hs).
  rewrite (wait_loop_skip g1 (v :: g2) _ _ _ _ _ s me None); [|done|done|set_solver].
  rewrite fmap_app, fmap_cons in Hs. pose proof Hs as (_ & Hv & _)%seg_app.
  destruct (add_wait_blob_rep s t v ws Hq Hown Hws) as (s1 & Hadd & Hw & Hs1 & Hx1).
  assert (lrep (lists s1) GLOBAL_TASK_LIST (VM_NODE <$> g1 ++ v :: g2)) as Hg1.
  { eapply lrep_frame; [exact Hg|exact Hx1|]. intros y Hy.
    rewrite elem_of_app, list_elem_of_fmap in Hy. rewrite elem_of_cons, list_elem_of_fmap. set_solver. }
  assert (tasks s1 = tasks s) as Ht1 by (by rewrite Hs1).
  cbn [head fmap option_fmap option_map].
  erewrite wait_loop_block; [|done..]. exists s1. split_and!; [|done..]. rewrite app_nil_r.
  assert (head (VM_NODE <$> g2) = VM_NODE <$> head (g2 ++ [])) as -> by (by destruct g2).
  pose proof Hg1 as (_ & _ & Hsg). rewrite fmap_app, fmap_cons in Hsg. apply seg_app in Hsg as (_ & _ & Hsg).
  erewrite (wait_loop_skip g2 []); [by destruct n|by rewrite app_nil_r|by rewrite Ht1|].
  rewrite Ht1. set_solver.
Qed.

(** The first half of [call_wait4] for one running child. *)
Lemma call_wait4_blocks s t v me k g1 g2 ws :
  lrep (lists s) GLOBAL_TASK_LIST (VM_NODE <$> g1 ++ v :: g2) →
  lrep (lists s) (PIVOT v) (WAIT_LIST <$> ws) → (∀ b, b ∈ ws → is_Some (blobs s !! b)) →
  tasks s !! t = Some me → tasks s !! v = Some k → state me = TASK_STATE_RUNNING →
  ppid k = pid me → pid k ≠ pid me → 0 < pid k < 2 ^ 31 → wait_state_exited k = false →
  (∀ u, u ∈ g1 ++ g2 → ∃ y, tasks s !! u = Some y ∧ pid y ≠ pid k) →
  let b := new_blob s in
  ∃ s', call_wait4 t (pid k) 0 s = Ok (0, None, true, s') ∧ waiting s' t v b (ws ++ [b]) ∧
    lrep (lists s') GLOBAL_TASK_LIST (VM_NODE <$> g1 ++ v :: g2) ∧
    tasks s' = <[t := with_state me TASK_STATE_INTERRUPTIBLE]> (tasks s).
Proof.
  intros Hg Hq Hws Hme Hk Hrun Hpp Hpk Hpid Hex Hoth b.
  set (L := list_init (lists s) (BLOB_HEAD t)).
  assert (same_except [BLOB_HEAD t] (lists s) L) as HL by (intros y Hy; unfold L, list_init; by elem_lookup).
  assert (∀ h xs, h ≠ BLOB_HEAD t → BLOB_HEAD t ∉ xs → lrep (lists s) h xs → lrep L h xs) as Hfr.
  { intros h xs Hh Hxs Hr. eapply lrep_frame; [exact Hr|exact HL|]. set_solver. }
  assert (lrep L GLOBAL_TASK_LIST (VM_NODE <$> g1 ++ v :: g2)) as HgL.
  { apply Hfr; [done|rewrite list_elem_of_fmap; set_solver|done]. }
  destruct (wait_loop_one (set_lists s L) t v me k g1 g2 ws (foreach_fuel L - length g1 - S (length g2)))
    as (s1 & Hloop & Hw & Hg1 & Ht1); try done.
  { apply Hfr; [done|rewrite list_elem_of_fmap; set_solver|done]. } { apply list_init_rep. }
  { intros u (y & Hy & Hne)%Hoth. exists y. split; [done|]. unfold skipped_by.
    rewrite is_to_wait_pid, (proj2 (Z.eqb_neq _ _) Hne) by done. apply orb_true_r. }
  pose proof HgL as (_ & Hh & _). pose proof (lrep_size _ _ _ HgL) as Hn.
  rewrite length_fmap, length_app in Hn. cbn [length] in Hn.
  unfold call_wait4. fold L. cbn [lists set_lists]. rewrite (get_elem_ok _ _ _ Hh), (bind_step _ _ _ eq_refl).
  cbn [next]. assert (head (VM_NODE <$> g1 ++ v :: g2) = VM_NODE <$> head (g1 ++ v :: g2)) as -> by (by destruct g1).
  replace (foreach_fuel L) with (length g1 + S (length g2 + (foreach_fuel L - length g1 - S (length g2))))%nat by lia.
  rewrite Hloop, (bind_step _ _ _ eq_refl), (list_empty_rep _ _ _ (wt_own _ _ _ _ _ Hw)), (bind_step _ _ _ eq_refl).
  rewrite bool_decide_eq_false_2 by done. unfold transit_state, get_task. rewrite Ht1. cbn [tasks set_lists].
  rewrite Hme. cbn [deref mbind outcome_bind]. rewrite Hrun. cbn [transition_table ASSERT mbind outcome_bind].
  eexists. split; [done|]. destruct Hw. split_and!; [by split|done|]. simpl. by rewrite Ht1.
Qed.

(** The waiters on a queue can be woken. *)
Definition wakeable (s : sys) (b : Z) : Prop :=
  ∃ w x, blobs s !! b = Some w ∧ tasks s !! blob_task w = Some x ∧
    (state x = TASK_STATE_RUNNING ∨ state x = TASK_STATE_INTERRUPTIBLE).

Definition woken (s : sys) (b : Z) : Prop :=
  ∃ w x, blobs s !! b = Some w ∧ tasks s !! blob_task w = Some x ∧ state x = TASK_STATE_RUNNING.

(** The records may only change from interruptible to running. *)
Definition wakes (s s' : sys) : Prop :=
  lists s' = lists s ∧ blobs s' = blobs s ∧
  ∀ t x, tasks s !! t = Some x →
    tasks s' !! t = Some x ∨
    (state x = TASK_STATE_INTERRUPTIBLE ∧ tasks s' !! t = Some (with_state x TASK_STATE_RUNNING)).

Lemma wakes_refl s : wakes s s.
Proof. split_and!; [done..|]. intros; by left. Qed.

Lemma wakes_trans s1 s2 s3 : wakes s1 s2 → wakes s2 s3 → wakes s1 s3.
Proof.
  intros (L1 & B1 & T1) (L2 & B2 & T2). split_and!; [congruence..|]. intros t x Hx.
  destruct (T1 t x Hx) as [H1|[Hi H1]]; destruct (T2 _ _ H1) as [H2|[Hj H2]]; [by left|by right|by right|].
  by destruct x.
Qed.

Lemma wakes_wakeable s s' b : wakes s s' → wakeable s b → wakeable s' b.
Proof.
  intros (_ & HB & HT) (w & x & Hw & Hx & Hst). exists w. rewrite HB.
  destruct (HT _ _ Hx) as [H|[_ H]]; eexists; split_and!; [done..|by left; destruct x].
Qed.

Lemma wakes_woken s s' b : wakes s s' → woken s b → woken s' b.
Proof.
  intros (_ & HB & HT) (w & x & Hw & Hx & Hst). exists w, x. rewrite HB.
  destruct (HT _ _ Hx) as [H|[? H]]; [done|congruence].
Qed.

Lemma raw_wake_rep s b w :
  wakeable s b → blobs s !! b = Some w →
  ∃ s', raw_task_wake_up (blob_task w) s = Ok s' ∧ wakes s s' ∧ woken s' b.
Proof.
  intros (w' & x & Hw' & Hx & Hst) Hw. rewrite Hw in Hw'. injection Hw' as <-.
  unfold raw_task_wake_up, get_task. rewrite Hx. cbn [deref mbind outcome_bind].
  destruct Hst as [Hst|Hst]; rewrite Hst.
  - exists s. split_and!; [done|apply wakes_refl|by exists w, x].
  - unfold transit_state, get_task. rewrite Hx. cbn [deref mbind outcome_bind]. rewrite Hst.
    cbn [transition_table ASSERT mbind outcome_bind]. eexists. split; [done|]. split.
    + split_and!; [done..|]. intros t y Hy. simpl. destruct (decide (t = blob_task w)) as [->|Hne].
      * right. rewrite lookup_insert_eq. rewrite Hx in Hy. by injection Hy as <-.
      * left. by rewrite lookup_insert_ne.
    + exists w, (with_state x TASK_STATE_RUNNING). simpl. rewrite lookup_insert_eq. by destruct x.
Qed.

Lemma wake_loop_rep ws : ∀ n s p,
  seg (lists s) p (WAIT_LIST <$> ws) None → (∀ b, b ∈ ws → wakeable s b) → (length ws <= n)%nat →
  ∃ s', wake_loop n (WAIT_LIST <$> head ws) s = Ok s' ∧ wakes s s' ∧ ∀ b, b ∈ ws → woken s' b.
Proof.
  induction ws as [|b ws IH]; intros n s p Hs Hw Hn.
  { exists s. split_and!; [by destruct n|apply wakes_refl|set_solver]. }
  destruct n as [|n]; [simpl in Hn; lia|]. destruct Hs as [Hb Hs].
  cbn [head fmap option_fmap option_map wake_loop]. rewrite (get_elem_ok _ _ _ Hb).
  destruct (Hw b) as (w & x & Hbw & Hx & Hst); [by left|].
  cbn [mbind outcome_bind wait_queue_of next]. rewrite Hbw. cbn [deref mbind outcome_bind].
  destruct (raw_wake_rep s b w) as (s1 & -> & Hk1 & Hwb); [apply Hw; by left|done|].
  cbn [mbind outcome_bind]. rewrite app_nil_r.
  assert (head (WAIT_LIST <$> ws) = WAIT_LIST <$> head ws) as Hhd by (by destruct ws).
  fold (fmap (M := list) WAIT_LIST ws). rewrite Hhd. pose proof Hk1 as (HL & _ & _).
  destruct (IH n s1 (Some (WAIT_LIST b))) as (s' & -> & Hk & Hall); [by rewrite HL| |simpl in Hn; lia|].
  { intros b' Hb'. eapply wakes_wakeable; [done|]. apply Hw. by right. }
  exists s'. split_and!; [done|by eapply wakes_trans|].
  intros b' [->|?]%elem_of_cons; [by eapply wakes_woken|by apply Hall].
Qed.

(** [do_exit] of a running task wakes every waiter. *)
Lemma do_exit_wakes s v k ws :
  lrep (lists s) (PIVOT v) (WAIT_LIST <$> ws) → tasks s !! v = Some k → state k = TASK_STATE_RUNNING →
  (∀ b, b ∈ ws → wakeable s b) →
  ∃ s', do_exit v s = Ok s' ∧ lists s' = lists s ∧ blobs s' = blobs s ∧
    tasks s' !! v = Some (with_state (with_exited k) TASK_STATE_EXITING) ∧
    ∀ b w, b ∈ ws → blobs s !! b = Some w → blob_task w ≠ v →
      ∃ x, tasks s !! blob_task w = Some x ∧ tasks s' !! blob_task w = Some (with_state x TASK_STATE_RUNNING).
Proof.
  intros Hq Hk Hrun Hw. unfold do_exit, get_task. rewrite Hk. cbn [deref mbind outcome_bind].
  set (s0 := set_task s v (with_exited k)).
  assert (∀ b, b ∈ ws → wakeable s0 b) as Hw0.
  { intros b (w & x & Hbw & Hx & Hst)%Hw. exists w. simpl.
    destruct (decide (blob_task w = v)) as [Heq|Hne].
    - rewrite Heq, lookup_insert_eq. eexists. split_and!; [done..|]. left. by destruct k.
    - rewrite lookup_insert_ne by done. by exists x. }
  pose proof Hq as (_ & Hh & Hs). unfold wake_up. change (lists s0) with (lists s).
  rewrite (get_elem_ok _ _ _ Hh). cbn [mbind outcome_bind next].
  assert (head (WAIT_LIST <$> ws) = WAIT_LIST <$> head ws) as -> by (by destruct ws).
  pose proof (lrep_size _ _ _ Hq) as Hn. rewrite length_fmap in Hn. apply Nat.lt_le_incl in Hn.
  destruct (wake_loop_rep ws (foreach_fuel (lists s)) s0 None Hs Hw0 Hn) as (s1 & -> & (HL & HB & HT) & Hall).
  cbn [mbind outcome_bind]. unfold transit_state, get_task.
  destruct (HT v (with_exited k)) as [Hv|[Hi _]]; [simpl; by rewrite lookup_insert_eq| |exfalso; destruct k; simplify_eq/=].
  rewrite Hv. cbn [deref mbind outcome_bind].
  assert (state (with_exited k) = TASK_STATE_RUNNING) as Hst by (by destruct k). rewrite Hst.
  cbn [transition_table ASSERT mbind outcome_bind]. eexists. split_and!; [done|done|done|simpl; by rewrite lookup_insert_eq|].
  intros b w Hb Hbw Hne. destruct (Hw b Hb) as (w' & x & Hbw' & Hx & Hxs). rewrite Hbw in Hbw'. injection Hbw' as <-.
  exists x. split; [done|]. simpl. rewrite lookup_insert_ne by done.
  destruct (Hall b Hb) as (w' & y & Hbw' & Hy & Hys). rewrite HB in Hbw'. change (blobs s0) with (blobs s) in Hbw'.
  rewrite Hbw in Hbw'. injection Hbw' as <-.
  destruct (HT (blob_task w) x) as [Hx'|[_ Hx']]; [simpl; by rewrite lookup_insert_ne| |done].
  rewrite Hx' in Hy. injection Hy as <-. rewrite Hx'. by destruct x; simplify_eq/=.
Qed.

Lemma remove_entry_rep s v b ws1 ws2 :
  lrep (lists s) (PIVOT v) (WAIT_LIST <$> ws1 ++ b :: ws2) →
  ∃ σ, remove_wait_queue_entry v b s = Ok (set_lists s σ) ∧
    lrep σ (PIVOT v) (WAIT_LIST <$> ws1 ++ ws2) ∧ b ∉ ws1 ++ ws2 ∧
    same_except (PIVOT v :: (WAIT_LIST <$> ws1 ++ b :: ws2)) (lists s) σ.
Proof.
  intros Hq. unfold remove_wait_queue_entry.
  rewrite (element_in_list_rep _ _ _ _ Hq) by (eapply lrep_mem; [done|rewrite elem_of_cons, list_elem_of_fmap; set_solver]).
  rewrite bool_decide_eq_true_2 by (rewrite list_elem_of_fmap; set_solver). cbn [mbind outcome_bind].
  pose proof (lrep_nodup _ _ _ Hq) as [Hnd _]. rewrite fmap_app, fmap_cons in Hq, Hnd.
  destruct (list_delete_rep _ _ _ _ _ Hq) as (σ & -> & Hr & _ & Hx). exists σ.
  rewrite !fmap_app, fmap_cons. split_and!; [done|done| |done].
  apply NoDup_app in Hnd as (_ & H1 & [H2 _]%NoDup_cons). intros [Hin|Hin]%elem_of_app.
  - apply (H1 (WAIT_LIST b)); [|by left]. apply list_elem_of_fmap. eauto.
  - apply H2, list_elem_of_fmap. eauto.
Qed.

(** Freeing the entry disturbs no list without it. *)
Lemma free_blob_rep b s h l :
  BLOB_NODE b ∉ h :: l → WAIT_LIST b ∉ h :: l → lrep (lists s) h l → lrep (lists (free_blob b s)) h l.
Proof.
  intros H1 H2 Hr. eapply lrep_same; [exact Hr|]. intros x Hx. simpl.
  rewrite !lookup_delete_ne; [done|by intros <-..].
Qed.

(** Links of different kinds are different nodes. *)
Ltac other_nodes := rewrite ?elem_of_cons, ?elem_of_app, ?list_elem_of_fmap in *; set_solver.

(** The loop that takes back the only entry; lists [h] of other nodes stay. *)
Lemma reap_loop_one s t v k b ws1 ws2 opts n :
  waiting s t v b (ws1 ++ b :: ws2) → tasks s !! v = Some k → wait_state_exited k = true →
  ∃ s', reap_loop (S (S n)) t opts 0 None s = Ok (sint 32 (pid k), Some v, s') ∧
    lrep (lists s') (PIVOT v) (WAIT_LIST <$> ws1 ++ ws2) ∧
    (∀ g, lrep (lists s) GLOBAL_TASK_LIST (VM_NODE <$> g) → lrep (lists s') GLOBAL_TASK_LIST (VM_NODE <$> g)) ∧
    tasks s' = tasks s ∧ blobs s' = delete b (blobs s).
Proof.
  intros [Hq _ Hown Hb] Hk Hex. cbn [reap_loop].
  destruct (list_fetch_rep _ _ _ Hown) as (σ1 & -> & Hown1 & _ & Hx1).
  cbn [head tail mbind outcome_bind blob_of blobs set_lists]. rewrite Hb. cbn [deref mbind outcome_bind blob_vm].
  unfold get_task. cbn [tasks set_lists]. rewrite Hk. cbn [deref mbind outcome_bind]. rewrite Hex.
  cbn [orb andb Z.leb Z.compare].
  destruct (remove_entry_rep (set_lists s σ1) v b ws1 ws2) as (σ2 & -> & Hq2 & Hnb & Hx2).
  { eapply lrep_frame; [exact Hq|exact Hx1|]. intros y Hy. other_nodes. }
  cbn [mbind outcome_bind]. set (s2 := free_blob b (set_lists (set_lists s σ1) σ2)).
  assert (lrep (lists s2) (BLOB_HEAD t) []) as Hown2.
  { apply free_blob_rep; [set_solver..|]. eapply lrep_frame; [exact Hown1|exact Hx2|]. intros y Hy. other_nodes. }
  destruct (list_fetch_rep _ _ _ Hown2) as (σ3 & -> & _ & _ & Hx3). cbn [head mbind outcome_bind].
  assert (∀ h l, h :: l ## [BLOB_HEAD t] → lrep (lists s2) h l → lrep σ3 h l) as Hfr3.
  { intros h l Hd Hr. eapply lrep_frame; [exact Hr|exact Hx3|]. set_solver. }
  exists (set_lists s2 σ3). split; [done|]. split_and!; [| |done|done].
  - apply Hfr3; [other_nodes|]. apply free_blob_rep; [other_nodes..|done].
  - intros g Hg. apply Hfr3; [other_nodes|]. apply free_blob_rep; [other_nodes..|].
    eapply lrep_frame; [eapply lrep_frame; [exact Hg|exact Hx1|]|exact Hx2|]; intros y Hy; other_nodes.
Qed.

Lemma unregister_rep s v g1 g2 :
  lrep (lists s) GLOBAL_TASK_LIST (VM_NODE <$> g1 ++ v :: g2) →
  ∃ σ, unregister_task v s = Ok (set_lists s σ) ∧ lrep σ GLOBAL_TASK_LIST (VM_NODE <$> g1 ++ g2) ∧
    same_except (GLOBAL_TASK_LIST :: (VM_NODE <$> g1 ++ v :: g2)) (lists s) σ.
Proof.
  intros Hg. unfold unregister_task.
  rewrite (element_in_list_rep _ _ _ _ Hg) by (eapply lrep_mem; [done|other_nodes]).
  rewrite bool_decide_eq_true_2 by other_nodes. cbn [mbind outcome_bind].
  rewrite fmap_app, fmap_cons in Hg. destruct (list_delete_rep _ _ _ _ _ Hg) as (σ & -> & Hr & _ & Hx).
  exists σ. by rewrite !fmap_app, fmap_cons.
Qed.

(** The second half of [call_wait4] when the child has exited. *)
Lemma call_wait4_reaps s t v k b ws1 ws2 g1 g2 opts :
  waiting s t v b (ws1 ++ b :: ws2) → lrep (lists s) GLOBAL_TASK_LIST (VM_NODE <$> g1 ++ v :: g2) →
  tasks s !! v = Some k → wait_state_exited k = true → 0 < pid k < 2 ^ 31 →
  ∃ s', call_wait4_resumed t opts 0 None s = Ok (pid k, s') ∧
    lrep (lists s') (PIVOT v) (WAIT_LIST <$> ws1 ++ ws2) ∧
    lrep (lists s') GLOBAL_TASK_LIST (VM_NODE <$> g1 ++ g2) ∧
    tasks s' = tasks s ∧ blobs s' = delete b (blobs s).
Proof.
  intros Hw Hg Hk Hex Hpid. unfold call_wait4_resumed, foreach_fuel.
  destruct (size (lists s)) as [|n] eqn:Hsz.
  { apply map_size_empty_inv in Hsz. destruct (wt_own _ _ _ _ _ Hw) as (_ & Hh & _).
    rewrite Hsz in Hh. by rewrite lookup_empty in Hh. }
  destruct (reap_loop_one s t v k b ws1 ws2 opts n Hw Hk Hex) as (s1 & -> & Hq1 & Hg1 & Ht1 & Hb1).
  rewrite (bind_step _ _ _ eq_refl). rewrite (sint_unique 32 _ (pid k)) by (pow2; done || lia).
  destruct (Z.ltb_spec 0 (pid k)); [|lia]. rewrite (bind_step _ _ tt eq_refl), (bind_step _ _ v eq_refl).
  destruct (unregister_rep s1 v g1 g2 (Hg1 _ Hg)) as (σ & -> & Hg2 & Hx). rewrite (bind_step _ _ _ eq_refl).
  rewrite w32_small by (unfold word32; pow2; lia). exists (set_lists s1 σ). split_and!; [done| |done|done|done].
  eapply lrep_frame; [exact Hq1|exact Hx|]. intros y Hy. other_nodes.
Qed.

(** C13: waiting for a child and its exit work together.  A running parent
    that waits for a running child blocks, leaving one entry on the child's wait
    queue.  Whatever happens meanwhile, as long as the entry is in place, the child
    runs and everyone on its wait queue is interruptible or running, the exit of the
    child makes the parent runnable again; and when the parent is
    resumed the call returns the child's pid, takes its entry off the queue and
    removes the child from the global list. *)
Theorem wait_exit_handshake s t v me k g1 g2 ws :
  lrep (lists s) GLOBAL_TASK_LIST (VM_NODE <$> g1 ++ v :: g2) →
  lrep (lists s) (PIVOT v) (WAIT_LIST <$> ws) → (∀ b, b ∈ ws → is_Some (blobs s !! b)) →
  tasks s !! t = Some me → tasks s !! v = Some k → t ≠ v → state me = TASK_STATE_RUNNING →
  ppid k = pid me → pid k ≠ pid me → 0 < pid k < 2 ^ 31 → wait_state_exited k = false →
  (∀ u, u ∈ g1 ++ g2 → ∃ y, tasks s !! u = Some y ∧ pid y ≠ pid k) →
  let b := new_blob s in
  ∃ s1, call_wait4 t (pid k) 0 s = Ok (0, None, true, s1) ∧ waiting s1 t v b (ws ++ [b]) ∧
    tasks s1 !! t = Some (with_state me TASK_STATE_INTERRUPTIBLE) ∧
    ∀ s2 ws2 k2, waiting s2 t v b ws2 → (∀ b', b' ∈ ws2 → wakeable s2 b') →
      tasks s2 !! v = Some k2 → state k2 = TASK_STATE_RUNNING → pid k2 = pid k →
      ∃ s3, do_exit v s2 = Ok s3 ∧ (∃ x, tasks s3 !! t = Some x ∧ state x = TASK_STATE_RUNNING) ∧
        ∀ s4 ws3 ws4 h1 h2, waiting s4 t v b (ws3 ++ b :: ws4) → tasks s4 !! v = tasks s3 !! v →
          lrep (lists s4) GLOBAL_TASK_LIST (VM_NODE <$> h1 ++ v :: h2) →
          ∃ s5, call_wait4_resumed t 0 0 None s4 = Ok (pid k, s5) ∧
            lrep (lists s5) (PIVOT v) (WAIT_LIST <$> ws3 ++ ws4) ∧
            lrep (lists s5) GLOBAL_TASK_LIST (VM_NODE <$> h1 ++ h2) ∧ blobs s5 = delete b (blobs s4).
Proof.
  intros Hg Hq Hws Hme Hk Htv Hrun Hpp Hpk Hpid Hex Hoth b.
  destruct (call_wait4_blocks s t v me k g1 g2 ws) as (s1 & H1 & Hw1 & _ & Ht1); try done.
  exists s1. split_and!; [done|done|by rewrite Ht1, lookup_insert_eq|].
  intros s2 ws2 k2 Hw2 Hwk Hk2 Hrun2 Hp2.
  destruct (do_exit_wakes s2 v k2 ws2 (wt_queue _ _ _ _ _ Hw2) Hk2 Hrun2 Hwk) as (s3 & H3 & _ & _ & Hv3 & Hall).
  destruct (Hall b (mk_blob v t) (wt_in _ _ _ _ _ Hw2) (wt_blob _ _ _ _ _ Hw2) Htv) as (x & _ & Hx).
  exists s3. split_and!; [done|exists (with_state x TASK_STATE_RUNNING); split; [done|by destruct x]|].
  intros s4 ws3 ws4 h1 h2 Hw4 Hv4 Hg4. rewrite Hv3 in Hv4.
  destruct (call_wait4_reaps s4 t v _ b ws3 ws4 h1 h2 0 Hw4 Hg4 Hv4) as (s5 & H5 & Hq5 & Hg5 & _ & Hb5);
    [by destruct k2|by destruct k2; simplify_eq/=|].
  exists s5. split_and!; [|done..]. rewrite H5, <- Hp2. by destruct k2.
Qed.

Lemma exited_never_runs_witness :
  ∃ s1 s', do_exit 1 demo_sys = Ok s1 ∧ ksteps ([] ++ [k_trap 512]) s1 = Ok s' ∧ current s' ≠ Some (TASK 1).
Proof.
  destruct (do_exit 1 demo_sys) as [s1|] eqn:H1; [|by vm_compute in H1].
  destruct (ksteps ([] ++ [k_trap 512]) s1) as [s'|] eqn:H2.
  - exists s1, s'. split; [reflexivity|]. split; [exact H2|].
    exact (exited_never_runs 1 [] 512 demo_sys s1 s' H1 H2).
  - vm_compute in H1. injection H1 as <-. by vm_compute in H2.
Defined.

Lemma demo_global : lrep (lists demo_sys) GLOBAL_TASK_LIST (VM_NODE <$> [1; 2; 3]).
Proof. split_and!; try by vm_compute; repeat constructor; set_solver. Qed.

(** A thread is created; a fork whose memory cannot be copied stops the emulator. *)
Lemma clone_correct_witness :
  (∃ s', clone_task 1 4 131072 0x7000 (CLONE_VM + CLONE_THREAD) 0 all_copied demo_sys = Ok (4, s')) ∧
  ∃ e, clone_task 1 4 131072 0 0 0 (mk_copies (Err EAssert) (Ok tt)) demo_sys = Err e.
Proof.
  destruct (tasks demo_sys !! 1) as [me|] eqn:Hme; [|by vm_compute in Hme]. split.
  - destruct (clone_correct demo_sys _ [1; 2; 3] 1 4 131072 0x7000 (CLONE_VM + CLONE_THREAD) 0 all_copied me
                demo_sched_ok demo_global ltac:(set_solver) Hme eq_refl ltac:(lia)) as [(s' & Hc & _) _]; [by split|].
    exists s'. rewrite Hc. by vm_compute.
  - apply (clone_correct demo_sys _ [1; 2; 3] 1 4 131072 0 0 0 (mk_copies (Err EAssert) (Ok tt)) me
             demo_sched_ok demo_global ltac:(set_solver) Hme eq_refl ltac:(lia)).
    intros [Hc _ _]. by specialize (Hc eq_refl).
Defined.

Lemma demo_others u : u ∈ [1] ++ [3] → ∃ y, tasks demo_sys !! u = Some y ∧ pid y ≠ 2.
Proof.
  simpl. rewrite !elem_of_cons, elem_of_nil.
  intros [-> | [-> | []]]; eexists; (split; [vm_compute; reflexivity|done]).
Qed.

(** Task 1 waits for task 2, which exits. *)
Definition demo_waits : sys :=
  Eval vm_compute in run_or ('(_, s) ← call_wait4 1 2 0 demo_sys; Ok s).

Definition demo_exits : sys := Eval vm_compute in run_or (do_exit 2 demo_waits).

Lemma demo_exits_waiting : waiting demo_exits 1 2 (new_blob demo_sys) ([] ++ new_blob demo_sys :: []).
Proof.
  split; [|by apply list_elem_of_here| |by vm_compute]; (split_and!; try by vm_compute); repeat constructor; set_solver.
Qed.

Lemma demo_exits_global : lrep (lists demo_exits) GLOBAL_TASK_LIST (VM_NODE <$> [1] ++ 2 :: [3]).
Proof. split_and!; try by vm_compute; repeat constructor; set_solver. Qed.

(** The parent blocks, the child exits, the parent is resumed and gets its pid. *)
Lemma wait_exit_handshake_witness :
  call_wait4 1 2 0 demo_sys = Ok (0, None, true, demo_waits) ∧ do_exit 2 demo_waits = Ok demo_exits ∧
  ∃ s5, call_wait4_resumed 1 0 0 None demo_exits = Ok (2, s5).
Proof.
  destruct (tasks demo_sys !! 1) as [me|] eqn:Hme; [|by vm_compute in Hme].
  destruct (tasks demo_sys !! 2) as [k|] eqn:Hk; [|by vm_compute in Hk].
  assert (pid k = 2) as Hp by (vm_compute in Hk; by injection Hk as <-).
  destruct (wait_exit_handshake demo_sys 1 2 me k [1] [3] []) as (s1 & Hw & Hwt & Hme1 & Hexit).
  - exact demo_global.
  - split_and!; try by vm_compute. apply NoDup_singleton.
  - set_solver.
  - exact Hme.
  - exact Hk.
  - lia.
  - vm_compute in Hme. by injection Hme as <-.
  - vm_compute in Hk, Hme. injection Hk as <-. by injection Hme as <-.
  - vm_compute in Hk, Hme. injection Hk as <-. by injection Hme as <-.
  - rewrite Hp. lia.
  - vm_compute in Hk. by injection Hk as <-.
  - rewrite Hp. exact demo_others.
  - assert (call_wait4 1 2 0 demo_sys = Ok (0, None, true, demo_waits)) as Hw' by (vm_compute; reflexivity).
    rewrite Hp, Hw' in Hw. injection Hw as <-. split; [exact Hw'|].
    destruct (tasks demo_waits !! 2) as [k2|] eqn:Hk2; [|by vm_compute in Hk2].
    destruct (Hexit demo_waits [new_blob demo_sys] k2 Hwt) as (s3 & He & _ & Hresume).
    { intros b' ->%list_elem_of_singleton. exists (mk_blob 2 1). eexists.
      split; [apply (wt_blob _ _ _ _ _ Hwt)|]. split; [exact Hme1|right; by destruct me]. }
    { exact Hk2. }
    { vm_compute in Hk2. by injection Hk2 as <-. }
    { rewrite Hp. vm_compute in Hk2. by injection Hk2 as <-. }
    assert (do_exit 2 demo_waits = Ok demo_exits) as He' by (vm_compute; reflexivity).
    rewrite He' in He. injection He as <-. split; [exact He'|].
    destruct (Hresume demo_exits [] [] [1] [3] demo_exits_waiting eq_refl demo_exits_global) as (s5 & H5 & _).
    exists s5. by rewrite <- Hp.
Defined.

(** A wait for any child blocks although a child has exited: the loop leaves an
    entry for each running child it meets before the exited one, and the list of
    entries, not the result, decides about blocking.  Here task 3 has exited,
    task 2 runs, and the call for any child answers 3 but puts its caller to
    sleep until task 2 changes its state. *)
Theorem wait4_blocks_despite_exited :
  match do_exit 3 demo_sys ≫= call_wait4 1 (-1) 0 with
  | Ok (ret, target, yields, s) =>
      ret = 3 ∧ target = Some 3 ∧ yields = true ∧
      state <$> tasks s !! 1 = Some TASK_STATE_INTERRUPTIBLE
  | Err _ => False
  end.
Proof. vm_compute. done. Qed.

End SchedTask.
