(* ===== verification/Kernel.v ===== *)
(** * The tasks as a whole: main.c and every run from it

    [main] of main.c makes the first task and starts the idle task; from then on
    the task on the processor makes calls, its time runs out, or the idle task
    yields.  Theorems: [main] returns, and no run of possible events stops the
    emulator: no assertion of task.c, task_sched.c, vmm_sched.c or wait_queue.c
    fails, no list is followed into memory that was freed, and every task that has
    not exited is in exactly one place.  A clone is possible when what it copies can
    be copied and a thread gets a stack.  On such runs the scheduler is a round
    robin: a runnable task gets the processor after at most as many switches as
    tasks are before it. *)
From S2P Require Import Prelude DList Sched SchedTrap SchedTask.

Module Kernel.
Import DList Sched SchedTrap SchedTask.

(** ** main.c *)

(** The static variables before the constructors run. *)
Definition at_start : sys := mk_sys ∅ ∅ ∅ None 0 1.

(** The part of [application_sandbox_init] about tasks: the descriptor [t] is
    zeroed, [cpu_init] makes its hart, [misc_init] its ids; it is registered. *)
Definition application_task_init (t vmm_stack : Z) (s : sys) : outcome sys :=
  let s := allocate_virtual_machine_descriptor t s in
  s ← hart_init t vmm_stack s;
  let '(p, s) := new_pid s in
  x ← get_task s t;
  let 'mk_task st ns we ws wc cpu vs _ _ _ pa tid rc cv cf cs := x in
  let s := set_task s t (mk_task st ns we ws wc cpu vs p p p pa tid rc cv cf cs) in
  register_task t s.

Definition main (t vmm_stack : Z) : outcome sys :=
  let s := task_pre_init (sched_pre_init at_start) in
  s ← application_task_init t vmm_stack s;
  s ← transit_state t TASK_STATE_RUNNING s;
  s ← task_vmm_sched_init t s;
  s ← schedule_task t s;
  Ok (schedule_idle_task s).

(** ** The system between two calls *)

(** [inside] are the tasks that wait in the middle of [call_wait4]: its options,
    its result so far and the child it found. *)
Record kernel := mk_kernel {
  system : sys;
  inside : gmap Z (Z * Z * option Z)
}.

(** What happens next on the processor: the time of the task is over, or the idle
    task yields; or the task makes a call of task.c.  [cpu] is where the registers
    of a task that gives up the processor are saved. *)
Inductive event :=
| Yields (cpu : Z)
| Clones (child vmm_stack child_stack flags ctid : Z) (cp : copies)
| Exits (cpu : Z)
| Waits (pid_hint options cpu : Z)
| SetsTid (a : Z).

(** [yield_cpu]: the next task goes on, in the middle of [call_wait4] if that is
    where it yielded. *)
Definition switch (cpu : Z) (k : kernel) : outcome kernel :=
  '(_, s) ← userspace_trap_handler cpu (system k);
  match current s with
  | Some (TASK t) =>
      match inside k !! t with
      | Some (options, ret, target) =>
          '(_, s) ← call_wait4_resumed t options ret target s;
          Ok (mk_kernel s (delete t (inside k)))
      | None => Ok (mk_kernel s (inside k))
      end
  | _ => Ok (mk_kernel s (inside k))
  end.

Definition kernel_step (e : event) (k : kernel) : outcome kernel :=
  let s := system k in
  match current s, e with
  | Some _, Yields cpu => switch cpu k
  | Some (TASK t), Clones child vmm_stack child_stack flags ctid cp =>
      '(_, s) ← clone_task t child vmm_stack child_stack flags ctid cp s;
      Ok (mk_kernel s (inside k))
  | Some (TASK t), Exits cpu => s ← do_exit t s; switch cpu (mk_kernel s (inside k))
  | Some (TASK t), Waits pid_hint options cpu =>
      '(ret, target, yields, s) ← call_wait4 t pid_hint options s;
      if (yields : bool) then switch cpu (mk_kernel s (<[t := (options, ret, target)]> (inside k)))
      else '(_, s) ← call_wait4_resumed t options ret target s; Ok (mk_kernel s (inside k))
  | Some (TASK t), SetsTid a => '(_, s) ← call_set_tid_address t a s; Ok (mk_kernel s (inside k))
  | _, _ => Err EUndef
  end.

(** What an event may be: addresses are not null, the memory of a new task is
    unused, as the allocator promises, and its stack lies in the user half; the
    parts a clone does not share can be copied and a thread comes with a stack
    (a clone without these stops the emulator, [clone_correct]); the idle task only
    yields. *)
Definition possible (e : event) (k : kernel) : Prop :=
  match e with
  | Yields cpu => cpu ≠ 0
  | Clones child vs cs flags _ cp =>
      current (system k) ≠ Some IDLE ∧ tasks (system k) !! child = None ∧ 4096 <= vs < 2 ^ 63 ∧
      clonable flags cs cp
  | Exits cpu | Waits _ _ cpu => current (system k) ≠ Some IDLE ∧ cpu ≠ 0
  | SetsTid _ => current (system k) ≠ Some IDLE
  end.

Inductive reachable : kernel → Prop :=
| reach_main t vs s : 4096 <= vs < 2 ^ 63 → main t vs = Ok s → reachable (mk_kernel s ∅)
| reach_step e k k' : reachable k → possible e k → kernel_step e k = Ok k' → reachable k'.

(** ** The lists outside the scheduler

    [g] is the global list; [ws v] are the entries that wait for [v], [own t] those
    that [t] made, for the tasks [P] inside [call_wait4]. *)
Record waits (s : sys) (g : list Z) (own ws : Z → list Z) (P : Z → Prop) : Prop := {
  w_global : lrep (lists s) GLOBAL_TASK_LIST (VM_NODE <$> g);
  w_member : ∀ v, v ∈ g → is_Some (tasks s !! v);
  w_outside : ∀ v, is_Some (tasks s !! v) → v ∉ g → detached (lists s) (VM_NODE v);
  w_queue : ∀ v, is_Some (tasks s !! v) → lrep (lists s) (PIVOT v) (WAIT_LIST <$> ws v);
  w_own : ∀ t, P t → lrep (lists s) (BLOB_HEAD t) (BLOB_NODE <$> own t);
  w_blob : ∀ t b, P t → b ∈ own t → ∃ v, blobs s !! b = Some (mk_blob v t) ∧ is_Some (tasks s !! v) ∧ b ∈ ws v;
  w_entry : ∀ v b, b ∈ ws v → ∃ t, P t ∧ blobs s !! b = Some (mk_blob v t) ∧ b ∈ own t
}.

(** The scheduler's moves do not touch them. *)
Lemma waits_sched s s' g own ws P :
  waits s g own ws P → (∀ y, sched_node y = false → lists s' !! y = lists s !! y) → blobs s' = blobs s →
  (∀ t, is_Some (tasks s' !! t) ↔ is_Some (tasks s !! t)) → waits s' g own ws P.
Proof.
  intros [H1 H2 H3 H4 H5 H6 H7] Hl Hb Ht.
  assert (∀ h l, (∀ y, y ∈ h :: l → sched_node y = false) → lrep (lists s) h l → lrep (lists s') h l) as Hfr.
  { intros h l Hn Hr. eapply lrep_same; [exact Hr|]. intros y Hy. by apply Hl, Hn. }
  split.
  - apply Hfr; [|done]. intros y. rewrite elem_of_cons, list_elem_of_fmap. by intros [->|(? & -> & _)].
  - intros v Hv. apply Ht. by apply H2.
  - intros v Hv Hn. unfold detached. rewrite Hl by done. apply H3; [by apply Ht|done].
  - intros v Hv. apply Hfr; [|by apply H4, Ht]. intros y. rewrite elem_of_cons, list_elem_of_fmap. by intros [->|(? & -> & _)].
  - intros t Hp. apply Hfr; [|by apply H5]. intros y. rewrite elem_of_cons, list_elem_of_fmap. by intros [->|(? & -> & _)].
  - intros t b Hp Hbo. rewrite Hb. destruct (H6 t b Hp Hbo) as (v & ? & ? & ?). exists v. split_and!; [done|by apply Ht|done].
  - intros v b Hbw. rewrite Hb. by apply H7.
Qed.

(** ** The steps of [call_wait4] *)
Definition put_at (f : Z → list Z) t l : Z → list Z := λ u, if decide (u = t) then l else f u.

Lemma put_at_eq f t l : put_at f t l t = l.
Proof. unfold put_at. by case_decide. Qed.

Lemma put_at_ne f t l u : u ≠ t → put_at f t l u = f u.
Proof. unfold put_at. by case_decide. Qed.

Lemma ws_disjoint s g own ws P v v' b : waits s g own ws P → b ∈ ws v → b ∈ ws v' → v = v'.
Proof. intros Hw (t & _ & H1 & _)%(w_entry _ _ _ _ _ Hw) (t' & _ & H2 & _)%(w_entry _ _ _ _ _ Hw). congruence. Qed.

Lemma own_disjoint s g own ws P t t' b : waits s g own ws P → P t → P t' → b ∈ own t → b ∈ own t' → t = t'.
Proof.
  intros Hw Hp Hp' (v & H1 & _)%(w_blob _ _ _ _ _ Hw _ _ Hp) (v' & H2 & _)%(w_blob _ _ _ _ _ Hw _ _ Hp'). congruence.
Qed.

Lemma blob_fresh s g own ws P : waits s g own ws P → (∀ v, new_blob s ∉ ws v) ∧ ∀ t, P t → new_blob s ∉ own t.
Proof.
  intros Hw. assert (blobs s !! new_blob s = None) as Hn.
  { apply not_elem_of_dom. exact (is_fresh (dom (blobs s) : gset Z)). }
  split.
  - intros v (t & _ & H & _)%(w_entry _ _ _ _ _ Hw). congruence.
  - intros t Hp (v & H & _)%(w_blob _ _ _ _ _ Hw _ _ Hp). congruence.
Qed.

(** The head of the caller's own list. *)
Lemma waits_begin s g own ws P t :
  waits s g own ws P → ¬ P t →
  waits (set_lists s (list_init (lists s) (BLOB_HEAD t))) g (put_at own t []) ws (λ u, P u ∨ u = t).
Proof.
  intros [H1 H2 H3 H4 H5 H6 H7] Ht. unfold list_init.
  assert (same_except [BLOB_HEAD t] (lists s) (<[BLOB_HEAD t := mk_elem None None]> (lists s))) as Hx
    by (intros y Hy; by elem_lookup).
  split; cbn [lists tasks blobs set_lists]; try done.
  - eapply lrep_frame; [exact H1|exact Hx|]. intros y Hy. other_nodes.
  - intros v Hv Hn. eapply detached_frame; [by apply H3|exact Hx|]. other_nodes.
  - intros v Hv. eapply lrep_frame; [by apply H4|exact Hx|]. intros y Hy. other_nodes.
  - intros u [Hp| ->]; [|rewrite put_at_eq; apply list_init_rep].
    assert (u ≠ t) by (by intros ->). rewrite put_at_ne by done. eapply lrep_frame; [by apply H5|exact Hx|].
    intros y Hy. other_nodes.
  - intros u b [Hp| ->]; [|rewrite put_at_eq; set_solver]. assert (u ≠ t) by (by intros ->). rewrite put_at_ne by done. by apply H6.
  - intros v b (u & Hp & Hb & Ho)%H7. exists u. rewrite put_at_ne by (by intros ->). by split_and!; [left|..].
Qed.

(** Only these nodes change. *)
Definition outside_sched (s s' : sys) : Prop :=
  (∀ y, sched_node y = true → lists s' !! y = lists s !! y) ∧ tasks s' = tasks s ∧ current s' = current s ∧
  idle_cpustate s' = idle_cpustate s ∧ gpid_counter s' = gpid_counter s.

Lemma outside_refl s : outside_sched s s.
Proof. done. Qed.

Lemma outside_trans s1 s2 s3 : outside_sched s1 s2 → outside_sched s2 s3 → outside_sched s1 s3.
Proof.
  intros (L1 & T1 & C1 & I1 & G1) (L2 & T2 & C2 & I2 & G2). split_and!; [|congruence..]. intros y Hy. by rewrite L2, L1.
Qed.

(** An entry for a child. *)
Lemma waits_add s g own ws P t v :
  waits s g own ws P → P t → is_Some (tasks s !! v) →
  let b := new_blob s in
  ∃ s', add_wait_blob t v s = Ok s' ∧ outside_sched s s' ∧
    waits s' g (put_at own t (own t ++ [b])) (put_at ws v (ws v ++ [b])) P.
Proof.
  intros Hw Ht Hv b. destruct (blob_fresh _ _ _ _ _ Hw) as [Hfw Hfo]. fold b in Hfw, Hfo.
  pose proof (λ v v' b, ws_disjoint _ _ _ _ _ v v' b Hw) as Hdw. pose proof (λ t t' b, own_disjoint _ _ _ _ _ t t' b Hw) as Hdo.
  destruct Hw as [H1 H2 H3 H4 H5 H6 H7].
  unfold add_wait_blob, initialize_wait_queue_entry, list_init. fold b.
  cbn [set_blobs set_lists lists blobs tasks current idle_cpustate gpid_counter].
  set (L := <[WAIT_LIST b := _]> (<[BLOB_NODE b := _]> (lists s))).
  assert (same_except [BLOB_NODE b; WAIT_LIST b] (lists s) L) as HL by (intros y Hy; unfold L; by elem_lookup).
  destruct (list_append_rep L (BLOB_HEAD t) (BLOB_NODE <$> own t) (BLOB_NODE b)) as (σ1 & -> & Hown1 & Hx1).
  { eapply lrep_frame; [by apply H5|exact HL|]. specialize (Hfo t Ht). intros y Hy. other_nodes. }
  { unfold detached, L. by elem_lookup. } { specialize (Hfo t Ht). other_nodes. }
  cbn [mbind outcome_bind].
  assert (lrep σ1 (PIVOT v) (WAIT_LIST <$> ws v)) as Hq1.
  { eapply lrep_frame; [eapply lrep_frame; [by apply H4|exact HL|]|exact Hx1|]; specialize (Hfw v); intros y Hy; other_nodes. }
  assert (detached σ1 (WAIT_LIST b)) as Hd1.
  { eapply detached_frame; [|exact Hx1|other_nodes]. unfold detached, L. by elem_lookup. }
  unfold add_wait_queue_entry, on_list. cbn [lists mbind outcome_bind set_lists].
  rewrite (element_in_list_rep _ _ _ _ Hq1) by (by rewrite Hd1).
  rewrite bool_decide_eq_false_2 by (specialize (Hfw v); other_nodes). cbn [mbind outcome_bind].
  destruct (list_append_rep σ1 (PIVOT v) (WAIT_LIST <$> ws v) (WAIT_LIST b)) as (σ2 & -> & Hq2 & Hx2); [done..| |].
  { specialize (Hfw v). other_nodes. }
  eexists. split; [done|].
  assert (same_except ([BLOB_NODE b; WAIT_LIST b; BLOB_HEAD t; PIVOT v] ++ (WAIT_LIST <$> ws v) ++ (BLOB_NODE <$> own t)) (lists s) σ2)
    as Hx by (intros y Hy; rewrite Hx2, Hx1, HL; set_solver).
  split; [split_and!; [|done..]; intros y Hy; apply Hx; destruct y; other_nodes|].
  split; cbn [lists set_lists set_blobs tasks blobs].
  - eapply lrep_frame; [exact H1|exact Hx|]. intros y Hy. other_nodes.
  - done.
  - intros u Hu Hn. eapply detached_frame; [by apply H3|exact Hx|]. other_nodes.
  - intros u Hu. destruct (decide (u = v)) as [->|Hne].
    + rewrite put_at_eq, fmap_app. exact Hq2.
    + rewrite put_at_ne by done. eapply lrep_frame; [by apply H4|exact Hx|]. specialize (Hfw u). specialize (Hdw u v).
      intros y Hy. other_nodes.
  - intros u Hu. destruct (decide (u = t)) as [->|Hne].
    + rewrite put_at_eq, fmap_app. eapply lrep_frame; [exact Hown1|exact Hx2|]. intros y Hy. other_nodes.
    + rewrite put_at_ne by done. eapply lrep_frame; [by apply H5|exact Hx|]. specialize (Hfo u Hu). specialize (Hdo u t).
      intros y Hy. other_nodes.
  - intros u c Hu Hc. destruct (decide (c = b)) as [->|Hcb].
    + destruct (decide (u = t)) as [->|Hne]; [|rewrite put_at_ne in Hc by done; by apply Hfo in Hc].
      exists v. rewrite lookup_insert_eq, put_at_eq. split_and!; [done|done|set_solver].
    + rewrite lookup_insert_ne by done. assert (c ∈ own u) as Hcu.
      { destruct (decide (u = t)) as [->|Hne]; [rewrite put_at_eq in Hc|by rewrite put_at_ne in Hc]. set_solver. }
      destruct (H6 u c Hu Hcu) as (w & Hb & Hw & Hin). exists w. split_and!; [done..|].
      destruct (decide (w = v)) as [->|]; [rewrite put_at_eq; set_solver|by rewrite put_at_ne].
  - intros u c Hc. destruct (decide (c = b)) as [->|Hcb].
    + destruct (decide (u = v)) as [->|Hne]; [|rewrite put_at_ne in Hc by done; by apply Hfw in Hc].
      exists t. rewrite lookup_insert_eq, put_at_eq. split_and!; [done|done|set_solver].
    + rewrite lookup_insert_ne by done. assert (c ∈ ws u) as Hcu.
      { destruct (decide (u = v)) as [->|Hne]; [rewrite put_at_eq in Hc|by rewrite put_at_ne in Hc]. set_solver. }
      destruct (H7 u c Hcu) as (w & Hp & Hb & Hin). exists w. split_and!; [done..|].
      destruct (decide (w = t)) as [->|]; [rewrite put_at_eq; set_solver|by rewrite put_at_ne].
Qed.

Lemma next_vm σ h (l1 l2 : list Z) v :
  lrep σ h (VM_NODE <$> l1 ++ v :: l2) → ∃ p, σ !! VM_NODE v = Some (mk_elem p (VM_NODE <$> head l2)).
Proof.
  intros (_ & _ & Hs). rewrite fmap_app in Hs. apply seg_app in Hs as (_ & -> & _).
  eexists. do 2 f_equal. rewrite app_nil_r. by destruct l2.
Qed.

(** The loop over the tasks. *)
Lemma wait_loop_ok P t hint opts todo : ∀ done n ret s own ws,
  waits s (done ++ todo) own ws P → P t → is_Some (tasks s !! t) → (length todo <= n)%nat →
  ∃ ret' tg s' own' ws', wait_loop n (VM_NODE <$> head todo) t hint opts ret s = Ok (ret', tg, s') ∧
    outside_sched s s' ∧ waits s' (done ++ todo) own' ws' P ∧ (0 < ret' → 0 < ret ∨ is_Some tg) ∧
    (∀ v, tg = Some v → is_Some (tasks s !! v)).
Proof.
  induction todo as [|v todo IH]; intros done n ret s own ws Hw Ht Hme Hn.
  { exists ret, None, s, own, ws. split_and!; [by destruct n|apply outside_refl|done|by left|done]. }
  destruct n as [|n]; [simpl in Hn; lia|]. cbn [head fmap option_fmap option_map wait_loop].
  destruct (next_vm _ _ _ _ _ (w_global _ _ _ _ _ Hw)) as [pr Hv]. rewrite (get_elem_ok _ _ _ Hv).
  destruct (w_member _ _ _ _ _ Hw v) as [k Hk]; [set_solver|]. destruct Hme as [me Hme].
  unfold get_task. cbn [mbind outcome_bind vm_of next]. rewrite Hme. cbn [deref mbind outcome_bind].
  rewrite Hk. cbn [deref mbind outcome_bind]. specialize (IH (done ++ [v]) n). rewrite <- app_assoc in IH. cbn [app] in IH.
  assert (length todo <= n)%nat as Hn' by (simpl in Hn; lia).
  assert (0 < 0 → False) as H00 by lia.
  destruct (negb (pid me =? ppid k) || (pid me =? pid k)); [by eapply IH; eauto|].
  destruct (is_to_wait hint me k); cbn [negb]; [|by eapply IH; eauto].
  destruct (wait_state_exited k).
  { eexists _, _, s, own, ws. split; [done|]. split_and!; [apply outside_refl|done|right; by exists v|]. intros u [= <-]. by exists k. }
  destruct (Z.land opts WNOHANG_MASK =? 0).
  - destruct (waits_add s _ own ws P t v Hw Ht) as (s1 & -> & Ho & Hw1); [by exists k|]. cbn [mbind outcome_bind].
    pose proof Ho as (_ & HT & _).
    destruct (IH 0 s1 _ _ Hw1 Ht) as (r & tg & s2 & own2 & ws2 & -> & Ho2 & Hw2 & Hr & Htg); [rewrite HT; by exists me|done|].
    exists r, tg, s2, own2, ws2. split_and!; [done|by eapply outside_trans|done|naive_solver|by rewrite HT in Htg].
  - destruct (IH 0 s _ _ Hw Ht) as (r & tg & s2 & own2 & ws2 & -> & Ho2 & Hw2 & Hr & Htg); [by exists me|done|].
    exists r, tg, s2, own2, ws2. split_and!; [done|done|done|naive_solver|done].
Qed.

(** *** Taking the entries back *)
Lemma waits_reap s g own ws P t b bs v :
  waits s g own ws P → P t → own t = b :: bs → blobs s !! b = Some (mk_blob v t) →
  ∃ σ1 σ2, list_fetch (lists s) (BLOB_HEAD t) = Ok (Some (BLOB_NODE b), σ1) ∧
    remove_wait_queue_entry v b (set_lists s σ1) = Ok (set_lists s σ2) ∧
    let s' := free_blob b (set_lists s σ2) in
    outside_sched s s' ∧ waits s' g (put_at own t bs) (put_at ws v (filter (λ c, c ≠ b) (ws v))) P.
Proof.
  intros Hw Ht Hown Hb.
  pose proof (λ v v' b, ws_disjoint _ _ _ _ _ v v' b Hw) as Hdw. pose proof (λ t t' b, own_disjoint _ _ _ _ _ t t' b Hw) as Hdo.
  destruct (w_blob _ _ _ _ _ Hw t b Ht) as (v' & Hb' & Hv & Hin); [rewrite Hown; set_solver|].
  rewrite Hb in Hb'. injection Hb' as <-. destruct Hw as [H1 H2 H3 H4 H5 H6 H7].
  pose proof (H5 t Ht) as Ho. rewrite Hown in Ho. pose proof (lrep_nodup _ _ _ Ho) as [[Hnb _]%NoDup_cons _].
  destruct (list_fetch_rep _ _ _ Ho) as (σ1 & Hf & Ho1 & _ & Hx1). cbn [head fmap list_fmap tail] in Hf, Ho1.
  apply list_elem_of_split in Hin as (w1 & w2 & Hws).
  destruct (remove_entry_rep (set_lists s σ1) v b w1 w2) as (σ2 & Hr & Hq2 & Hnw & Hx2).
  { rewrite <- Hws. eapply lrep_frame; [by apply H4|exact Hx1|]. intros y Hy. other_nodes. }
  exists σ1, σ2. split; [exact Hf|]. split; [exact Hr|]. cbv zeta.
  assert (filter (λ c, c ≠ b) (ws v) = w1 ++ w2) as ->.
  { rewrite Hws. apply filter_ne_split. pose proof (lrep_nodup _ _ _ (H4 v Hv)) as [Hnd _].
    rewrite Hws in Hnd. by apply NoDup_fmap_1 in Hnd. }
  assert (∀ h l, (∀ y, y ∈ h :: l → y ∉ BLOB_HEAD t :: (BLOB_NODE <$> b :: bs) ++ PIVOT v :: (WAIT_LIST <$> w1 ++ b :: w2)) →
    lrep (lists s) h l → lrep (lists (free_blob b (set_lists s σ2))) h l) as Hfr.
  { intros h l Hd Hl. apply free_blob_rep; [intros Hy%Hd; other_nodes..|].
    eapply lrep_frame; [eapply lrep_frame; [exact Hl|exact Hx1|]|exact Hx2|]; intros y Hy Hyl%Hd; set_solver. }
  split.
  { split_and!; [|done..]. intros y Hy. cbn [free_blob lists set_lists].
    rewrite !lookup_delete_ne by (intros <-; done). rewrite Hx2, Hx1; [done|destruct y; other_nodes..]. }
  split; cbn [free_blob set_lists tasks blobs].
  - apply Hfr; [|exact H1]. intros y Hy. other_nodes.
  - done.
  - intros u Hu Hn. unfold detached. cbn [free_blob set_lists lists]. rewrite !lookup_delete_ne by done. rewrite Hx2, Hx1 by other_nodes. by apply H3.
  - intros u Hu. destruct (decide (u = v)) as [->|Hne].
    + rewrite put_at_eq. apply free_blob_rep; [other_nodes..|exact Hq2].
    + rewrite put_at_ne by done. apply Hfr; [|by apply H4]. specialize (Hdw u v). rewrite Hws in Hdw. intros y Hy. other_nodes.
  - intros u Hu. destruct (decide (u = t)) as [->|Hne].
    + rewrite put_at_eq. apply free_blob_rep; [other_nodes..|]. eapply lrep_frame; [exact Ho1|exact Hx2|]. intros y Hy. other_nodes.
    + rewrite put_at_ne by done. apply Hfr; [|by apply H5]. specialize (Hdo u t). rewrite Hown in Hdo. intros y Hy. other_nodes.
  - intros u c Hu Hc. assert (c ∈ own u ∧ c ≠ b) as [Hcu Hcb].
    { destruct (decide (u = t)) as [->|Hne]; [rewrite put_at_eq in Hc|rewrite put_at_ne in Hc by done].
      - rewrite Hown. split; [set_solver|]. intros ->. apply Hnb. apply list_elem_of_fmap. eauto.
      - split; [done|]. intros ->. apply Hne, (Hdo u t b); [done|done|done|]. rewrite Hown. set_solver. }
    destruct (H6 u c Hu Hcu) as (w & Hcw & Hwt & Hcin). exists w. rewrite lookup_delete_ne by done. split_and!; [done..|].
    destruct (decide (w = v)) as [->|]; [rewrite put_at_eq; rewrite Hws in Hcin; set_solver|by rewrite put_at_ne].
  - intros u c Hc. assert (c ∈ ws u ∧ c ≠ b) as [Hcu Hcb].
    { destruct (decide (u = v)) as [->|Hne]; [rewrite put_at_eq in Hc|rewrite put_at_ne in Hc by done].
      - rewrite Hws. split; [set_solver|]. by intros ->.
      - split; [done|]. intros ->. apply Hne, (Hdw u v b); [done|]. rewrite Hws. set_solver. }
    destruct (H7 u c Hcu) as (w & Hp & Hcw & Hcin). exists w. rewrite lookup_delete_ne by done. split_and!; [done..|].
    destruct (decide (w = t)) as [->|]; [rewrite put_at_eq; rewrite Hown in Hcin; set_solver|by rewrite put_at_ne].
Qed.

Lemma fetch_empty σ (h : node) : lrep σ h [] → list_fetch σ h = Ok (None, σ).
Proof. intros (_ & Hh & _). unfold list_fetch, list_empty. rewrite (get_elem_ok _ _ _ Hh). done. Qed.

Lemma reap_loop_ok g P t opts bs : ∀ n ret tg s own ws,
  waits s g own ws P → P t → own t = bs → (length bs < n)%nat → (0 < ret → is_Some tg) →
  (∀ v, tg = Some v → is_Some (tasks s !! v)) →
  ∃ ret' tg' s' own' ws', reap_loop n t opts ret tg s = Ok (ret', tg', s') ∧ outside_sched s s' ∧
    waits s' g own' ws' P ∧ own' t = [] ∧ (0 < ret' → is_Some tg') ∧ (∀ v, tg' = Some v → is_Some (tasks s !! v)).
Proof.
  induction bs as [|b bs IH]; intros n ret tg s own ws Hw Ht Hown Hn Hret Htg; (destruct n as [|n]; [simpl in Hn; lia|]);
    cbn [reap_loop].
  - pose proof (w_own _ _ _ _ _ Hw t Ht) as Ho. rewrite Hown in Ho. rewrite (fetch_empty _ _ Ho). cbn [mbind outcome_bind].
    exists ret, tg, s, own, ws. split; [by destruct s|]. by split_and!.
  - destruct (w_blob _ _ _ _ _ Hw t b Ht) as (v & Hb & [k Hk] & _); [rewrite Hown; set_solver|].
    destruct (waits_reap s g own ws P t b bs v Hw Ht Hown Hb) as (σ1 & σ2 & -> & Hr & Ho & Hw1). cbv zeta in Ho, Hw1.
    cbn [mbind outcome_bind blob_of blobs set_lists]. rewrite Hb. cbn [deref mbind outcome_bind blob_vm].
    unfold get_task. cbn [tasks set_lists]. rewrite Hk. cbn [deref mbind outcome_bind]. rewrite Hr. cbn [mbind outcome_bind].
    set (found := (ret <=? 0) && _). pose proof Ho as (_ & HT & _).
    destruct (IH n (if found then sint 32 (pid k) else ret) (if found then Some v else tg) _ _ _ Hw1 Ht)
      as (r & tg' & s' & own' & ws' & Hrun & Ho' & Hw' & Hend & Hr' & Htg').
    + by rewrite put_at_eq.
    + simpl in Hn. lia.
    + destruct found; [done|exact Hret].
    + rewrite HT. destruct found; [|exact Htg]. intros u [= <-]. by exists k.
    + exists r, tg', s', own', ws'. rewrite HT in Htg'. split; [exact Hrun|].
      split_and!; [by eapply outside_trans|done|done|done|done].
Qed.

Lemma waits_end s g own ws P t :
  waits s g own ws (λ u, P u ∨ u = t) → own t = [] → waits s g own ws P.
Proof.
  intros [H1 H2 H3 H4 H5 H6 H7] Ht. split; try done.
  - intros u Hu. apply H5. by left.
  - intros u b Hu. apply H6. by left.
  - intros v b (u & [Hu| ->] & Hb & Ho)%H7; [by exists u|]. rewrite Ht in Ho. set_solver.
Qed.

Lemma unregister_ok s g own ws P v :
  waits s g own ws P → is_Some (tasks s !! v) →
  ∃ s' g', unregister_task v s = Ok s' ∧ outside_sched s s' ∧ waits s' g' own ws P.
Proof.
  intros [H1 H2 H3 H4 H5 H6 H7] Hv. unfold unregister_task.
  assert (is_Some (lists s !! VM_NODE v)) as Hnode.
  { destruct (decide (v ∈ g)) as [Hin|Hout]; [eapply lrep_mem; [exact H1|other_nodes]|]. rewrite (H3 v Hv Hout). done. }
  rewrite (element_in_list_rep _ _ _ _ H1 Hnode).
  destruct (decide (v ∈ g)) as [Hin|Hout].
  2: { rewrite bool_decide_eq_false_2 by other_nodes. exists s, g. split_and!; [done|apply outside_refl|by split]. }
  rewrite bool_decide_eq_true_2 by other_nodes. cbn [mbind outcome_bind].
  apply list_elem_of_split in Hin as (g1 & g2 & ->). pose proof (lrep_nodup _ _ _ H1) as [Hnd%NoDup_fmap_1 _].
  pose proof H1 as Hl. rewrite fmap_app, fmap_cons in Hl. destruct (list_delete_rep _ _ _ _ _ Hl) as (σ & -> & Hr & Hd & Hx).
  exists (set_lists s σ), (g1 ++ g2). split; [done|].
  assert (same_except (GLOBAL_TASK_LIST :: (VM_NODE <$> g1 ++ v :: g2)) (lists s) σ) as Hx' by (by rewrite fmap_app, fmap_cons).
  split; [split_and!; [|done..]; intros y Hy; apply Hx'; destruct y; other_nodes|].
  split; cbn [lists set_lists tasks blobs]; try done.
  - by rewrite fmap_app.
  - intros u Hu. apply H2. set_solver.
  - intros u Hu Hn. destruct (decide (u = v)) as [->|Hne]; [exact Hd|].
    eapply detached_frame; [apply H3; [done|set_solver]|exact Hx'|other_nodes].
  - intros u Hu. eapply lrep_frame; [by apply H4|exact Hx'|]. intros y Hy. other_nodes.
  - intros u Hu. eapply lrep_frame; [by apply H5|exact Hx'|]. intros y Hy. other_nodes.
Qed.

(** The second half of [call_wait4]. *)
Lemma resumed_ok s g own ws P t opts ret tg :
  waits s g own ws (λ u, P u ∨ u = t) → (0 < ret → is_Some tg) → (∀ v, tg = Some v → is_Some (tasks s !! v)) →
  ∃ r s' g' own' ws', call_wait4_resumed t opts ret tg s = Ok (r, s') ∧ outside_sched s s' ∧ waits s' g' own' ws' P.
Proof.
  intros Hw Hret Htg. unfold call_wait4_resumed.
  assert (P t ∨ t = t) as Ht by (by right).
  pose proof (lrep_size _ _ _ (w_own _ _ _ _ _ Hw t Ht)) as Hn. rewrite length_fmap in Hn.
  destruct (reap_loop_ok g _ t opts _ (foreach_fuel (lists s)) ret tg s own ws Hw Ht eq_refl Hn Hret Htg)
    as (r & tg' & s1 & own1 & ws1 & Hr & Ho & Hw1 & Hend & Hr' & Htg').
  rewrite (bind_step _ _ _ Hr). apply waits_end in Hw1; [|done].
  destruct (Z.ltb_spec 0 r) as [Hpos|Hneg].
  - destruct (Hr' Hpos) as [v ->]. rewrite (bind_step _ _ tt eq_refl), (bind_step _ _ v eq_refl). pose proof Ho as (_ & HT & _).
    destruct (unregister_ok s1 g own1 ws1 P v Hw1) as (s2 & g2 & Hu & Ho2 & Hw2); [rewrite HT; by apply Htg'|].
    rewrite (bind_step _ _ _ Hu). eexists _, s2, g2, own1, ws1. split_and!; [done|by eapply outside_trans|done].
  - eexists _, s1, g, own1, ws1. by split_and!.
Qed.

(** The first half. *)
Lemma wait4_ok s g own ws P t me hint opts :
  waits s g own ws P → ¬ P t → tasks s !! t = Some me → state me = TASK_STATE_RUNNING →
  ∃ ret tg y s1 s' own' ws', call_wait4 t hint opts s = Ok (ret, tg, y, s') ∧ outside_sched s s1 ∧
    waits s1 g own' ws' (λ u, P u ∨ u = t) ∧ (0 < ret → is_Some tg) ∧ (∀ v, tg = Some v → is_Some (tasks s !! v)) ∧
    s' = if (y : bool) then set_task s1 t (with_state me TASK_STATE_INTERRUPTIBLE) else s1.
Proof.
  intros Hw Ht Hme Hrun. unfold call_wait4. set (s0 := set_lists s (list_init (lists s) (BLOB_HEAD t))). cbv zeta.
  pose proof (waits_begin _ _ _ _ _ t Hw Ht) as Hw0. fold s0 in Hw0. pose proof (w_global _ _ _ _ _ Hw0) as Hg.
  pose proof Hg as (_ & Hh & _). rewrite (get_elem_ok _ _ _ Hh). rewrite (bind_step (Ok _) _ _ eq_refl). cbn [next].
  assert (head (VM_NODE <$> g) = VM_NODE <$> head g) as -> by (by destruct g).
  pose proof (lrep_size _ _ _ Hg) as Hn. rewrite length_fmap in Hn. apply Nat.lt_le_incl in Hn.
  destruct (wait_loop_ok _ t hint opts g [] (foreach_fuel (lists s0)) (-1) s0 _ _ Hw0) as (r & tg & s1 & own1 & ws1 & Hr & Ho & Hw1 & Hpos & Htg);
    [by right|by exists me|done|].
  rewrite (bind_step _ _ _ Hr). pose proof (w_own _ _ _ _ _ Hw1 t ltac:(by right)) as Hown.
  rewrite (list_empty_rep _ _ _ Hown), (bind_step (Ok _) _ _ eq_refl).
  assert (outside_sched s s1) as Hos.
  { eapply outside_trans; [|exact Ho]. split_and!; [|done..]. intros y Hy. unfold s0, list_init. cbn [lists set_lists].
    apply lookup_insert_ne. by intros <-. }
  assert (0 < r → is_Some tg) as Hr' by (intros Hr0; destruct (Hpos Hr0); [lia|done]).
  pose proof Ho as (_ & HT & _).
  destruct (bool_decide (BLOB_NODE <$> own1 t = [])).
  - exists r, tg, false, s1, s1, own1, ws1. by split_and!.
  - unfold transit_state, get_task. rewrite HT. unfold s0. cbn [tasks set_lists]. rewrite Hme. cbn [deref].
    rewrite (bind_step (Ok _) _ _ eq_refl), Hrun. cbn [transition_table ASSERT]. rewrite !(bind_step (Ok _) _ _ eq_refl).
    eexists r, tg, true, s1, _, own1, ws1. split; [done|]. by split_and!.
Qed.

(** ** The invariant *)

(** While a task gives up the processor: the scheduler's lists, the waiting
    tasks, and where the tasks are. *)
Record kernel_mid (k : kernel) (q : queues) (g : list Z) (own ws : Z → list Z) : Prop := {
  km_sched : sched_ok (system k) q;
  km_waits : waits (system k) g own ws (λ t, is_Some (inside k !! t));
  km_exiting : ∀ u, u ∈ q Ext → ¬ live (tasks (system k)) u;
  km_placed : ∀ t, live (tasks (system k)) t → placed (system k) q t;
  km_inside : ∀ t opts ret tg, inside k !! t = Some (opts, ret, tg) →
    (∃ x, tasks (system k) !! t = Some x ∧ (state x = TASK_STATE_RUNNING ∨ state x = TASK_STATE_INTERRUPTIBLE)) ∧
    (0 < ret → is_Some tg) ∧ ∀ v, tg = Some v → is_Some (tasks (system k) !! v)
}.

(** Between two events the task on the processor is running and in no call. *)
Definition on_cpu (k : kernel) : Prop :=
  ∀ t, current (system k) = Some (TASK t) →
    inside k !! t = None ∧ ∃ x, tasks (system k) !! t = Some x ∧ state x = TASK_STATE_RUNNING.

Definition kernel_at (k : kernel) (q : queues) : Prop := (∃ g own ws, kernel_mid k q g own ws) ∧ on_cpu k.

Definition kernel_ok (k : kernel) : Prop := ∃ q, kernel_at k q.

(** [t] waits at position [i] of the run queue and is runnable. *)
Definition ready (k : kernel) (q : queues) (t : Z) (i : nat) : Prop :=
  q Run !! i = Some t ∧ dest (tasks (system k)) t = Some Run.

(** From [k] to [k'] every ready task keeps its position; or it has got the
    processor or has moved forward. *)
Definition stays (k : kernel) (q : queues) (k' : kernel) (q' : queues) : Prop :=
  ∀ t i, ready k q t i → ready k' q' t i.

Definition advances (k : kernel) (q : queues) (k' : kernel) (q' : queues) : Prop :=
  ∀ t i, ready k q t i → current (system k') = Some (TASK t) ∨ ∃ j, (j < i)%nat ∧ ready k' q' t j.

Lemma waits_iff s g own ws P P' : (∀ t, P t ↔ P' t) → waits s g own ws P → waits s g own ws P'.
Proof.
  intros Hp [H1 H2 H3 H4 H5 H6 H7]. split; try done.
  - intros t Ht. by apply H5, Hp.
  - intros t b Ht. by apply H6, Hp.
  - intros v b (t & Ht & ? & ?)%H7. exists t. split_and!; [by apply Hp|done..].
Qed.

(** The scheduler does not see changes outside its lists and of records that keep
    a queue for their task. *)
Lemma sched_ok_change s s' q :
  sched_ok s q → (∀ y, sched_node y = true → lists s' !! y = lists s !! y) → current s' = current s →
  idle_cpustate s' = idle_cpustate s → (∀ t, is_Some (tasks s' !! t) ↔ is_Some (tasks s !! t)) →
  (∀ t, is_Some (dest (tasks s) t) → is_Some (dest (tasks s') t)) →
  (∀ t x, tasks s' !! t = Some x → host_cpustate x ≠ 0) → sched_ok s' q.
Proof.
  intros [[R1 R2 R3 R4] (c & Hc & Hcur) Hd Hcpu Hidle] Hl Hcu Hi Hdom Hdest Hcpu'. split.
  - split; [|done| |].
    + intros k. eapply lrep_same; [apply R1|]. intros y. rewrite elem_of_cons, list_elem_of_fmap.
      intros [->|(u & -> & _)]; apply Hl; by destruct k.
    + intros t Ht Hq. unfold detached. rewrite Hl by done. apply R3; [by apply Hdom|done].
    + intros t Ht. apply Hdom. by apply R4.
  - exists c. rewrite Hcu. split; [done|]. intros t Ht. destruct (Hcur t Ht) as [Hq Hdt]. split; [done|by apply Hdest].
  - intros t Ht. by apply Hdest, Hd.
  - done.
  - rewrite Hcu, Hi. exact Hidle.
Qed.

Lemma mid_outside k s' q g own ws g' own' ws' ins :
  kernel_mid k q g own ws → outside_sched (system k) s' → waits s' g' own' ws' (λ t, is_Some (ins !! t)) →
  (∀ t x, ins !! t = Some x → inside k !! t = Some x) → kernel_mid (mk_kernel s' ins) q g' own' ws'.
Proof.
  intros [H1 _ H3 H4 H5] (L & T & C & I & _) Hw Hins. split; cbn [system inside].
  - eapply sched_ok_change; [exact H1|exact L|exact C|exact I|by rewrite T|by rewrite T|rewrite T; by apply (so_cpu _ _ H1)].
  - done.
  - rewrite T. exact H3.
  - intros t. rewrite T. unfold placed. rewrite C. apply H4.
  - intros t opts ret tg Ht. rewrite T. by eapply H5, Hins.
Qed.

Lemma saved_record cpu s t x :
  tasks (saved cpu s) !! t = Some x → ∃ y, tasks s !! t = Some y ∧ state y = state x.
Proof.
  unfold saved. destruct (current s) as [[|u]|]; [by eauto| |by eauto]. destruct (tasks s !! u) as [z|] eqn:Hz; [|by eauto].
  cbn [set_task tasks]. rewrite lookup_insert_Some. intros [[<- <-]|[_ Hx]]; [|by eauto]. exists z. split; [done|by destruct z].
Qed.

Lemma saved_record_inv cpu s t y :
  tasks s !! t = Some y → ∃ x, tasks (saved cpu s) !! t = Some x ∧ state x = state y.
Proof.
  intros Hy. assert (is_Some (tasks (saved cpu s) !! t)) as [x Hx].
  { apply elem_of_dom. rewrite dom_saved. by apply elem_of_dom_2 in Hy. }
  exists x. split; [done|]. destruct (saved_record _ _ _ _ Hx) as (y' & Hy' & <-). congruence.
Qed.

Lemma dest_run ts t : dest ts t = Some Run → ∃ x, ts !! t = Some x ∧ state x = TASK_STATE_RUNNING.
Proof. unfold dest. destruct (ts !! t) as [x|]; [|done]. simpl. destruct (state x) eqn:E; try done. by exists x. Qed.

(** The trap: the invariant again, with a runnable task or the idle task. *)
Lemma trap_mid cpu k q g own ws :
  kernel_mid k q g own ws → cpu ≠ 0 →
  ∃ stack s' q', userspace_trap_handler cpu (system k) = Ok (stack, s') ∧
    kernel_mid (mk_kernel s' (inside k)) q' g own ws ∧ advances k q (mk_kernel s' (inside k)) q' ∧
    ∀ t, current s' = Some (TASK t) → ∃ x, tasks s' !! t = Some x ∧ state x = TASK_STATE_RUNNING.
Proof.
  intros [Hok Hw Hext Hpl Hin] Hcpu. set (s := system k) in *.
  destruct (trap_lemma cpu s q Hok Hcpu) as (stack & s' & Hrun & Hok' & Ht & Hc & _ & Hl & Hb).
  set (ts := tasks (saved cpu s)) in *. set (q1 := requeued s q) in *.
  exists stack, s', (switched ts q1). split; [exact Hrun|].
  assert (∀ t, live (tasks s') t ↔ live (tasks s) t) as Hlive by (intros t; unfold live; by rewrite Ht; unfold ts; rewrite dest_saved).
  assert (∀ t, is_Some (tasks s' !! t) ↔ is_Some (tasks s !! t)) as Hdom.
  { intros t. rewrite Ht, <- !elem_of_dom. unfold ts. by rewrite dom_saved. }
  split; [split; cbn [system inside]|split].
  - done.
  - by eapply waits_sched.
  - intros u. unfold switched. destruct (pick _ _) as [[n sk] rest]. cbn [mkq]. intros [Hd _]%elem_sort_to.
    rewrite Ht. unfold live. rewrite Hd. naive_solver.
  - intros t Hlt. apply Hlive in Hlt as Hlt0. pose proof (requeued_places s q t Hok Hlt0 Hext (Hpl t Hlt0)) as Hq.
    rewrite Ht in Hlt. destruct (live_switched ts q1 t Hlt Hq) as [?|Hn]; [by left|right]. by rewrite Hc, Hn.
  - intros t opts ret tg Hi. destruct (Hin _ _ _ _ Hi) as ((x & Hx & Hst) & Hr & Htg). split_and!; [|done|].
    + destruct (saved_record_inv cpu s t x Hx) as (y & Hy & Hyst). exists y. rewrite Ht, Hyst. done.
    + intros v Hv. apply Hdom. by apply Htg.
  - intros t i [Hi Hd]. unfold ready. cbn [system]. rewrite Hc, Ht. unfold ts. rewrite dest_saved. fold ts.
    destruct (switched_position cpu s q t i Hi Hd) as [Hn|(j & Hj & Hr)]; [left|right; by exists j].
    by rewrite (Hn : next_task ts q1 = Some t).
  - intros t Hct. rewrite Hc in Hct. destruct (next_task ts q1) as [t'|] eqn:Hn; [|done]. injection Hct as ->.
    apply next_runnable in Hn as [Hn _]. rewrite Ht. by apply dest_run.
Qed.

Lemma switch_ok cpu k q g own ws :
  kernel_mid k q g own ws → cpu ≠ 0 →
  ∃ k' q', switch cpu k = Ok k' ∧ kernel_at k' q' ∧ advances k q k' q'.
Proof.
  intros Hm Hcpu. destruct (trap_mid cpu k q g own ws Hm Hcpu) as (stack & s' & q' & Hrun & Hm' & Hadv & Hcur).
  unfold switch. rewrite (bind_step _ _ _ Hrun). cbv beta iota.
  destruct (current s') as [[|t]|] eqn:Hc.
  - eexists _, q'. split; [done|]. split; [|done]. split; [by exists g, own, ws|]. intros t. cbn [system]. by rewrite Hc.
  - destruct (inside k !! t) as [[[opts ret] tg]|] eqn:Hi.
    + destruct (km_inside _ _ _ _ _ Hm' t opts ret tg Hi) as (_ & Hret & Htg). cbn [system] in Htg.
      pose proof (km_waits _ _ _ _ _ Hm') as Hw. cbn [system inside] in Hw.
      destruct (resumed_ok s' g own ws (λ u, is_Some (delete t (inside k) !! u)) t opts ret tg)
        as (r & s2 & g2 & own2 & ws2 & Hr & Ho & Hw2); [|done|done|].
      { eapply waits_iff; [|exact Hw]. intros u. destruct (decide (u = t)) as [->|Hne].
        - rewrite Hi, lookup_delete_eq. naive_solver.
        - rewrite lookup_delete_ne by done. naive_solver. }
      rewrite (bind_step _ _ _ Hr). eexists _, q'. split; [done|]. split; [split|].
      * exists g2, own2, ws2. eapply mid_outside; [exact Hm'|exact Ho|exact Hw2|].
        intros u x. cbn [inside]. by intros [_ ?]%lookup_delete_Some.
      * destruct Ho as (_ & HT & HC & _). intros u. cbn [system inside]. rewrite HC, HT, Hc. intros [= <-].
        split; [apply lookup_delete_eq|by apply Hcur].
      * destruct Ho as (_ & HT & HC & _). intros u i Hu. destruct (Hadv u i Hu) as [Hu'|(j & Hj & Hr1 & Hr2)].
        -- left. cbn [system] in *. by rewrite HC.
        -- right. exists j. split; [done|]. split; [done|]. cbn [system] in *. by rewrite HT.
    + eexists _, q'. split; [done|]. split; [|done]. split; [by exists g, own, ws|].
      intros u. cbn [system inside]. rewrite Hc. intros [= <-]. auto.
  - eexists _, q'. split; [done|]. split; [|done]. split; [by exists g, own, ws|]. intros t. cbn [system]. by rewrite Hc.
Qed.

(** ** The events *)

(** A change of records that keeps every task in the queue class it has. *)
Lemma mid_records k s' q g own ws :
  kernel_mid k q g own ws → lists s' = lists (system k) → blobs s' = blobs (system k) → current s' = current (system k) →
  idle_cpustate s' = idle_cpustate (system k) →
  (∀ t, is_Some (tasks s' !! t) ↔ is_Some (tasks (system k) !! t)) →
  (∀ t x, tasks s' !! t = Some x → ∃ y, tasks (system k) !! t = Some y ∧ host_cpustate x = host_cpustate y ∧
     (state x = state y ∨ (state y = TASK_STATE_INTERRUPTIBLE ∧ state x = TASK_STATE_RUNNING) ∨
      (inside k !! t = None ∧ ¬ queued q t ∧ state x = TASK_STATE_EXITING))) →
  kernel_mid (mk_kernel s' (inside k)) q g own ws.
Proof.
  intros [H1 H2 H3 H4 H5] L B C I Hdom Hst.
  assert (∀ t, live (tasks s') t → live (tasks (system k)) t) as Hlive.
  { intros t. unfold live, dest. destruct (tasks s' !! t) as [x|] eqn:Hx; [|naive_solver].
    destruct (Hst t x Hx) as (y & -> & _ & Hs). cbn [fmap option_fmap option_map mbind option_bind].
    destruct Hs as [->|[[-> ->]|(_ & _ & ->)]]; cbn [queue_of]; naive_solver. }
  split; cbn [system inside].
  - eapply sched_ok_change; [exact H1|by rewrite L|done|done|done| |].
    + intros t. unfold dest. destruct (tasks (system k) !! t) as [y|] eqn:Hy; [|by intros []].
      destruct (proj2 (Hdom t)) as [x Hx]; [by eauto|]. rewrite Hx. destruct (Hst t x Hx) as (y' & Hy' & _ & Hs).
      rewrite Hy in Hy'. injection Hy' as <-. cbn [fmap option_fmap option_map mbind option_bind].
      destruct Hs as [->|[[-> ->]|(_ & _ & ->)]]; cbn [queue_of]; eauto.
    + intros t x Hx. destruct (Hst t x Hx) as (y & Hy & -> & _). by eapply (so_cpu _ _ H1).
  - eapply waits_sched; [exact H2|by rewrite L|done|done].
  - intros u Hu Hl. by apply (H3 u Hu), Hlive.
  - intros t Hl%Hlive%H4. unfold placed in *. by rewrite C.
  - intros t opts ret tg Hi. destruct (H5 _ _ _ _ Hi) as ((y & Hy & Hys) & Hr & Htg). split_and!; [|done|].
    + destruct (proj2 (Hdom t)) as [x Hx]; [by eauto|]. exists x. split; [done|]. destruct (Hst t x Hx) as (y' & Hy' & _ & Hs).
      rewrite Hy in Hy'. injection Hy' as <-. destruct Hs as [->|[[_ ->]|(Hn & _)]]; [done|by left|congruence].
    + intros v Hv. apply Hdom. by apply Htg.
Qed.

(** Waking touches the records only. *)
Lemma raw_wake_shape t s s' :
  raw_task_wake_up t s = Ok s' →
  current s' = current s ∧ idle_cpustate s' = idle_cpustate s ∧ ∀ u, is_Some (tasks s' !! u) ↔ is_Some (tasks s !! u).
Proof.
  unfold raw_task_wake_up. intros (x & Hx & H)%bind_Ok. unfold get_task in Hx. destruct (tasks s !! t) as [y|] eqn:Hy; [|done].
  injection Hx as ->.
  assert (∀ z, current (set_task s t z) = current s ∧ idle_cpustate (set_task s t z) = idle_cpustate s ∧
    ∀ u, is_Some (tasks (set_task s t z) !! u) ↔ is_Some (tasks s !! u)) as Hset.
  { intros z. split_and!; [done..|]. intros u. cbn [set_task tasks]. rewrite lookup_insert_is_Some'. split; [intros [->|?]; eauto|by right]. }
  destruct (state x); try done.
  - by injection H as <-.
  - unfold transit_state, get_task in H. rewrite Hy in H. cbn [deref] in H. rewrite (bind_step (Ok _) _ _ eq_refl) in H.
    apply ASSERT_Ok in H as [_ [= <-]]. apply Hset.
  - apply ASSERT_Ok in H as [_ [= <-]]. apply Hset.
Qed.

Lemma wake_loop_shape n : ∀ c s s',
  wake_loop n c s = Ok s' →
  current s' = current s ∧ idle_cpustate s' = idle_cpustate s ∧ ∀ u, is_Some (tasks s' !! u) ↔ is_Some (tasks s !! u).
Proof.
  induction n as [|n IH]; intros [x|] s s'; cbn [wake_loop]; [done|by intros [= <-]| |by intros [= <-]].
  intros (c & _ & H)%bind_Ok. apply bind_Ok in H as (b & _ & H). apply bind_Ok in H as (w & _ & H).
  apply bind_Ok in H as (s1 & H1 & H). apply raw_wake_shape in H1 as (C1 & I1 & D1). apply IH in H as (C2 & I2 & D2).
  split_and!; [congruence..|]. intros u. by rewrite D2.
Qed.

Lemma exit_mid k q g own ws t :
  kernel_mid k q g own ws → on_cpu k → current (system k) = Some (TASK t) →
  ∃ s', do_exit t (system k) = Ok s' ∧ kernel_mid (mk_kernel s' (inside k)) q g own ws ∧
    stays k q (mk_kernel s' (inside k)) q.
Proof.
  intros Hm Hcpu Hc. destruct (Hcpu t Hc) as (Hni & x & Hx & Hrun). set (s := system k) in *. unfold do_exit, get_task.
  rewrite Hx. cbn [deref]. rewrite (bind_step (Ok _) _ _ eq_refl). set (s0 := set_task s t (with_exited x)).
  pose proof (km_waits _ _ _ _ _ Hm) as Hw. pose proof (w_queue _ _ _ _ _ Hw t ltac:(by exists x)) as Hq. fold s in Hq.
  assert (∀ b, b ∈ ws t → wakeable s0 b) as Hwk.
  { intros b Hb. destruct (w_entry _ _ _ _ _ Hw t b Hb) as (u & [[[o r] tg] Hi] & Hbl & _).
    destruct (km_inside _ _ _ _ _ Hm u _ _ _ Hi) as ((y & Hy & Hst) & _). exists (mk_blob t u), y. split; [done|].
    cbn [blob_task]. assert (u ≠ t) by congruence. split; [|tauto]. unfold s0. cbn [set_task tasks]. by rewrite lookup_insert_ne. }
  pose proof Hq as (_ & Hh & Hs). unfold wake_up. change (lists s0) with (lists s). rewrite (get_elem_ok _ _ _ Hh).
  rewrite (bind_step (Ok _) _ _ eq_refl). cbn [next].
  assert (head (WAIT_LIST <$> ws t) = WAIT_LIST <$> head (ws t)) as -> by (by destruct (ws t)).
  pose proof (lrep_size _ _ _ Hq) as Hn. rewrite length_fmap in Hn. apply Nat.lt_le_incl in Hn.
  destruct (wake_loop_rep (ws t) (foreach_fuel (lists s)) s0 None Hs Hwk Hn) as (s1 & Hl & (HL & HB & HT) & _).
  destruct (wake_loop_shape _ _ _ _ Hl) as (HC & HI & HD). rewrite (bind_step _ _ _ Hl).
  assert (tasks s0 !! t = Some (with_exited x)) as Hx0 by (unfold s0; cbn [set_task tasks]; by rewrite lookup_insert_eq).
  assert (state (with_exited x) = TASK_STATE_RUNNING) as Hrun0 by (by destruct x).
  destruct (HT t _ Hx0) as [Ht1|[Hbad _]]; [|congruence].
  unfold transit_state, get_task. rewrite Ht1. cbn [deref]. rewrite (bind_step (Ok _) _ _ eq_refl), Hrun0.
  cbn [transition_table ASSERT]. rewrite (bind_step (Ok _) _ _ eq_refl). eexists. split; [done|].
  assert (∀ u, is_Some (tasks s0 !! u) ↔ is_Some (tasks s !! u)) as HD0.
  { intros u. unfold s0. cbn [set_task tasks]. rewrite lookup_insert_is_Some'. split; [intros [->|?]; eauto|by right]. }
  destruct (so_cur _ _ (km_sched _ _ _ _ _ Hm)) as (c & Hc' & Hcq). fold s in Hc'. rewrite Hc in Hc'. injection Hc' as <-.
  assert (t ∉ q Run) as Hnq by (intros Hin; apply (Hcq t eq_refl); by exists Run).
  split; [eapply mid_records; [exact Hm|done|done|done|done| |]|].
  - intros u. cbn [set_task tasks]. rewrite lookup_insert_is_Some'. rewrite HD, HD0. split; [intros [->|?]; eauto|by right].
  - intros u y. cbn [set_task tasks]. rewrite lookup_insert_Some. intros [[<- <-]|[Hne Hy]].
    + exists x. split; [done|]. split; [by destruct x|]. right. right. split_and!; [done|by apply (Hcq t)|by destruct x].
    + destruct (proj1 (HD u)) as [z Hz]; [by eauto|]. assert (tasks s !! u = Some z) as Hzs.
      { unfold s0 in Hz. cbn [set_task tasks] in Hz. by rewrite lookup_insert_ne in Hz. }
      exists z. split; [done|]. destruct (HT u z Hz) as [H'|[Hi' H']]; rewrite Hy in H'; injection H' as ->.
      * split; [done|by left].
      * split; [by destruct z|]. right. left. split; [done|by destruct z].
  - intros u i [Hi Hd]. split; [done|]. assert (u ≠ t) as Hne by (intros ->; by apply list_elem_of_lookup_2, Hnq in Hi).
    apply dest_run in Hd as (z & Hz & Hst). cbn [system set_task tasks]. unfold dest. rewrite lookup_insert_ne by done.
    assert (tasks s0 !! u = Some z) as Hz0 by (unfold s0; cbn [set_task tasks]; by rewrite lookup_insert_ne).
    destruct (HT u z Hz0) as [->|[Hi' _]]; [simpl; by rewrite Hst|congruence].
Qed.

Lemma waits_clone s s' g own ws P child :
  waits s g own ws P → tasks s !! child = None → clone_frame s s' g child →
  lrep (lists s') GLOBAL_TASK_LIST (VM_NODE <$> g ++ [child]) →
  (∀ t, is_Some (tasks s' !! t) ↔ t = child ∨ is_Some (tasks s !! t)) →
  waits s' (g ++ [child]) own (put_at ws child []) P.
Proof.
  intros [H1 H2 H3 H4 H5 H6 H7] Hfree (Hpiv & Hb & _ & Hfr) Hg Hdom.
  assert (∀ v, is_Some (tasks s !! v) → v ≠ child) as Hne by (intros v [? ?] ->; congruence).
  assert (∀ h l, (∀ y, y ∈ h :: l → sched_node y = false ∧ y ∉ PIVOT child :: GLOBAL_TASK_LIST :: (VM_NODE <$> child :: g)) →
    lrep (lists s) h l → lrep (lists s') h l) as Hlr.
  { intros h l Hy Hr. eapply lrep_same; [exact Hr|]. intros y [? ?]%Hy. by apply Hfr. }
  split.
  - exact Hg.
  - intros v. rewrite elem_of_app, list_elem_of_singleton, Hdom. intros [Hv%H2|Hv]; auto.
  - intros v [->|Hv]%Hdom Hn; [by destruct Hn; apply elem_of_app; right; apply list_elem_of_singleton|]. unfold detached. rewrite Hfr; [apply H3; [done|set_solver]|done|].
    specialize (Hne v Hv). rewrite fmap_cons. other_nodes.
  - intros v [->|Hv]%Hdom; [rewrite put_at_eq; split_and!; [apply NoDup_singleton|done|done]|].
    specialize (Hne v Hv). rewrite put_at_ne by done. apply Hlr; [|by apply H4]. intros y Hy. rewrite fmap_cons.
    split; [rewrite elem_of_cons, list_elem_of_fmap in Hy; by destruct Hy as [->|(? & -> & _)]|other_nodes].
  - intros t Ht. apply Hlr; [|by apply H5]. intros y Hy. rewrite fmap_cons.
    split; [rewrite elem_of_cons, list_elem_of_fmap in Hy; by destruct Hy as [->|(? & -> & _)]|other_nodes].
  - intros t b Ht Hbo. rewrite Hb. destruct (H6 t b Ht Hbo) as (v & Hbv & Hv & Hin). exists v.
    rewrite put_at_ne by auto. split_and!; [done|apply Hdom; auto|done].
  - intros v b Hbw. rewrite Hb. apply H7. unfold put_at in Hbw. case_decide; [set_solver|done].
Qed.

Lemma live_insert ts t x u :
  live (<[t := x]> ts) u → (u = t ∧ (queue_of (state x) = Some Run ∨ queue_of (state x) = Some Blk)) ∨ (u ≠ t ∧ live ts u).
Proof.
  unfold live, dest. destruct (decide (u = t)) as [->|Hne]; [rewrite lookup_insert_eq|rewrite lookup_insert_ne by done]; auto.
Qed.

Lemma clone_ok k q t child vs cs flags ctid cp :
  kernel_at k q → current (system k) = Some (TASK t) → tasks (system k) !! child = None → 4096 <= vs < 2 ^ 63 →
  clonable flags cs cp →
  ∃ p s' q', clone_task t child vs cs flags ctid cp (system k) = Ok (p, s') ∧
    kernel_at (mk_kernel s' (inside k)) q' ∧ stays k q (mk_kernel s' (inside k)) q'.
Proof.
  intros [(g & own & ws & [Hok Hw Hext Hpl Hin]) Hcpu] Hc Hfree Hvs Hcs. set (s := system k) in *.
  destruct (Hcpu t Hc) as (Hni & me & Hme & Hrun). fold s in Hme.
  destruct (clone_rep s q g t child vs cs flags ctid cp me Hok (w_global _ _ _ _ _ Hw)) as (s' & Hr & Hok' & Hg' & Ht' & Hfr); try done.
  { intros [? ?]%(w_member _ _ _ _ _ Hw). congruence. }
  eexists _, s', (upd q Run (q Run ++ [child])). split; [exact Hr|].
  assert (t ≠ child) as Htc by congruence. pose proof Hfr as (_ & _ & HC & _).
  assert (∀ u, is_Some (tasks s' !! u) ↔ u = child ∨ is_Some (tasks s !! u)) as Hdom.
  { intros u. rewrite Ht', !lookup_insert_is_Some'. split; [intros [->|[->|?]]; eauto|intros [->|?]; eauto]. }
  assert (∀ u x, tasks s !! u = Some x → ∃ y, tasks s' !! u = Some y ∧ state y = state x) as Hkeep.
  { intros u x Hx. rewrite Ht', lookup_insert_ne by congruence. destruct (decide (u = t)) as [->|Hne].
    - rewrite lookup_insert_eq. eexists. split; [done|]. rewrite Hx in Hme. injection Hme as ->. by destruct me.
    - rewrite lookup_insert_ne by done. eauto. }
  assert (∀ u, u ≠ child → live (tasks s') u → live (tasks s) u) as Hlive.
  { intros u Hu. rewrite Ht'. intros [[? _]|[_ [[-> _]|[_ ?]]%live_insert]]%live_insert; [done| |done].
    left. unfold dest. rewrite Hme. simpl. by rewrite Hrun. }
  split; [split|].
  - exists (g ++ [child]), own, (put_at ws child []). split; cbn [system inside].
    + done.
    + by eapply waits_clone.
    + intros u Hu Hl. rewrite upd_other in Hu by done. apply (Hext u Hu), Hlive; [|done]. intros ->.
      destruct (sr_dom _ _ (so_rep _ _ Hok) child) as [? ?]; [by exists Ext|congruence].
    + intros u Hl. destruct (decide (u = child)) as [->|Hu]; [left; apply queued_upd; by left|].
      apply Hlive, Hpl in Hl as [Hq|Hcu]; [left; apply queued_upd; by right|right; by rewrite HC|done].
    + intros u opts ret tg Hi. destruct (Hin _ _ _ _ Hi) as ((x & Hx & Hst) & Hr' & Htg). split_and!; [|done|].
      * destruct (Hkeep u x Hx) as (y & Hy & Hys). exists y. by rewrite Hys.
      * intros v Hv. apply Hdom. right. by apply Htg.
  - intros u. cbn [system inside]. rewrite HC. intros Hu. destruct (Hcpu u Hu) as (Hi & x & Hx & Hst). split; [done|].
    destruct (Hkeep u x Hx) as (y & Hy & Hys). exists y. by rewrite Hys.
  - intros u i [Hi Hd]. split; [rewrite upd_same; by apply lookup_app_l_Some|]. cbn [system].
    apply dest_run in Hd as (x & Hx & Hst). destruct (Hkeep u x Hx) as (y & Hy & Hys). unfold dest. rewrite Hy. simpl. by rewrite Hys, Hst.
Qed.

(** A blocked call: the record of the caller changes with its place. *)
Lemma blocked_mid k q g own ws t me s1 own' ws' opts ret tg :
  kernel_mid k q g own ws → current (system k) = Some (TASK t) → tasks (system k) !! t = Some me →
  outside_sched (system k) s1 → waits s1 g own' ws' (λ u, is_Some (inside k !! u) ∨ u = t) →
  (0 < ret → is_Some tg) → (∀ v, tg = Some v → is_Some (tasks (system k) !! v)) →
  kernel_mid (mk_kernel (set_task s1 t (with_state me TASK_STATE_INTERRUPTIBLE)) (<[t := (opts, ret, tg)]> (inside k)))
    q g own' ws' ∧
  stays k q (mk_kernel (set_task s1 t (with_state me TASK_STATE_INTERRUPTIBLE)) (<[t := (opts, ret, tg)]> (inside k))) q.
Proof.
  intros [Hok _ Hext Hpl Hin] Hc Hme (L & T & C & I & _) Hw Hret Htg. set (s := system k) in *.
  set (me' := with_state me TASK_STATE_INTERRUPTIBLE).
  assert (∀ u, is_Some (<[t := me']> (tasks s1) !! u) ↔ is_Some (tasks s !! u)) as Hdom.
  { intros u. rewrite lookup_insert_is_Some', T. split; [intros [->|?]; eauto|by right]. }
  assert (host_cpustate me' = host_cpustate me ∧ state me' = TASK_STATE_INTERRUPTIBLE) as [Hh Hs] by (by destruct me).
  destruct (so_cur _ _ Hok) as (c & Hc' & Hcq). fold s in Hc'. rewrite Hc in Hc'. injection Hc' as <-.
  split; [split; cbn [system inside set_task tasks]|].
  - eapply sched_ok_change; [exact Hok|exact L|exact C|exact I|exact Hdom| |]; cbn [set_task tasks].
    + intros u Hu. unfold dest. destruct (decide (u = t)) as [->|Hne]; [rewrite lookup_insert_eq; simpl; rewrite Hs; by eauto|].
      by rewrite lookup_insert_ne, T.
    + intros u x. rewrite lookup_insert_Some, T. intros [[<- <-]|[_ Hx]]; [rewrite Hh|]; by eapply (so_cpu _ _ Hok).
  - eapply waits_iff; [|eapply waits_sched; [exact Hw|done|done|]].
    + intros u. cbn beta. rewrite lookup_insert_is_Some'. naive_solver.
    + intros u. cbn [set_task tasks]. by rewrite Hdom, T.
  - intros u Hu [[-> _]|[_ Hl]]%live_insert; [|by rewrite T in Hl; apply (Hext u Hu)].
    destruct (Hcq t eq_refl) as [Hq _]. apply Hq. by exists Ext.
  - intros u [[-> _]|[_ Hl]]%live_insert; [right; change (current s1 = Some (TASK t)); by rewrite C|].
    rewrite T in Hl. destruct (Hpl u Hl) as [?|Hcu]; [by left|right]. change (current s1 = Some (TASK u)). by rewrite C.
  - intros u o r tg'. rewrite lookup_insert_Some. intros [[<- [= <- <- <-]]|[Hne Hi]].
    + split_and!; [exists me'; split; [apply lookup_insert_eq|by right]|done|]. intros v Hv. apply Hdom. by apply Htg.
    + destruct (Hin _ _ _ _ Hi) as ((x & Hx & Hst) & Hr & Hv). split_and!; [|done|].
      * exists x. by rewrite lookup_insert_ne, T.
      * intros v Hv'. apply Hdom. by apply Hv.
  - intros u i [Hi Hd]. split; [done|]. cbn [system set_task tasks]. unfold dest. rewrite T. rewrite lookup_insert_ne; [exact Hd|].
    intros <-. destruct (Hcq t eq_refl) as [Hq _]. apply Hq. exists Run. by eapply list_elem_of_lookup_2.
Qed.

(** Whether the event gives up the processor. *)
Definition gives_up (e : event) (k : kernel) : bool :=
  match current (system k), e with
  | _, (Yields _ | Exits _) => true
  | Some (TASK t), Waits pid_hint options _ =>
      match call_wait4 t pid_hint options (system k) with Ok (_, _, yields, _) => yields | Err _ => false end
  | _, _ => false
  end.

(** Every possible event is handled; ready tasks keep their position, or advance
    when the event gives up the processor. *)
Lemma kernel_step_ok e k q :
  kernel_at k q → possible e k →
  ∃ k' q', kernel_step e k = Ok k' ∧ kernel_at k' q' ∧
    if gives_up e k then advances k q k' q' else stays k q k' q'.
Proof.
  intros Hk He. pose proof Hk as [(g & own & ws & Hm) Hcpu].
  destruct (so_cur _ _ (km_sched _ _ _ _ _ Hm)) as (c & Hc & _). unfold kernel_step, gives_up. rewrite Hc.
  destruct e as [cpu|child vs cs flags ctid cp|cpu|hint opts cpu|a]; cbn [possible] in He.
  - destruct c; by eapply switch_ok.
  - destruct He as (Hni & Hfree & Hvs & Hcs). destruct c as [|t]; [done|].
    destruct (clone_ok k q t child vs cs flags ctid cp Hk Hc Hfree Hvs Hcs) as (p & s' & q' & Hr & Hok & Hst).
    rewrite (bind_step _ _ _ Hr). by eexists _, q'.
  - destruct He as [Hni Hcpu0]. destruct c as [|t]; [done|].
    destruct (exit_mid k q g own ws t Hm Hcpu Hc) as (s' & Hr & Hm' & Hst). rewrite (bind_step _ _ _ Hr).
    destruct (switch_ok cpu _ q g own ws Hm' Hcpu0) as (k' & q' & Hs & Hk' & Hadv).
    exists k', q'. split_and!; [done..|]. intros u i Hu. by apply Hadv, Hst.
  - destruct He as [Hni Hcpu0]. destruct c as [|t]; [done|]. destruct (Hcpu t Hc) as (Hi & me & Hme & Hrun).
    destruct (wait4_ok (system k) g own ws _ t me hint opts (km_waits _ _ _ _ _ Hm)) as (ret & tg & y & s1 & s' & own' & ws' & Hr & Ho & Hw & Hret & Htg & Hs');
      [rewrite Hi; by intros []|done|done|].
    rewrite (bind_step _ _ _ Hr), Hr. cbv beta iota. destruct y; subst s'.
    + destruct (blocked_mid k q g own ws t me s1 own' ws' opts ret tg) as [Hm' Hst]; [done..|].
      destruct (switch_ok cpu _ q g own' ws' Hm' Hcpu0) as (k' & q' & Hs & Hk' & Hadv).
      exists k', q'. split_and!; [done..|]. intros u i Hu. by apply Hadv, Hst.
    + pose proof Ho as (_ & T & C & _). destruct (resumed_ok s1 g own' ws' _ t opts ret tg Hw) as (r & s2 & g2 & own2 & ws2 & Hr2 & Ho2 & Hw2);
        [done|by rewrite T|].
      rewrite (bind_step _ _ _ Hr2). eexists _, q. split; [done|]. pose proof (outside_trans _ _ _ Ho Ho2) as Hos. split; [split|].
      * exists g2, own2, ws2. by eapply mid_outside.
      * destruct Hos as (_ & T2 & C2 & _). intros u. cbn [system inside]. rewrite C2, T2. apply Hcpu.
      * destruct Hos as (_ & T2 & _). intros u i [Hu Hd]. split; [done|]. cbn [system]. by rewrite T2.
  - destruct c as [|t]; [done|]. destruct (Hcpu t Hc) as (Hi & me & Hme & Hrun).
    unfold call_set_tid_address, get_task. rewrite Hme. cbn [deref]. rewrite !(bind_step (Ok _) _ _ eq_refl). eexists _, q. split; [done|].
    assert (host_cpustate (with_child_tid me a) = host_cpustate me ∧ state (with_child_tid me a) = state me) as [Hh Hs] by (by destruct me).
    split; [split|].
    + exists g, own, ws. eapply mid_records; [exact Hm|done|done|done|done| |].
      * intros u. cbn [set_task tasks]. rewrite lookup_insert_is_Some'. split; [intros [->|?]; eauto|by right].
      * intros u x. cbn [set_task tasks]. rewrite lookup_insert_Some. intros [[<- <-]|[_ Hx]]; [exists me|exists x]; auto.
    + intros u. cbn [system inside set_task current tasks]. rewrite Hc. intros [= <-]. split; [done|].
      exists (with_child_tid me a). rewrite lookup_insert_eq, Hs. done.
    + intros u i [Hu Hd]. split; [done|]. cbn [system set_task tasks]. unfold dest in *. destruct (decide (u = t)) as [->|Hne].
      * rewrite lookup_insert_eq. simpl. rewrite Hs. by rewrite Hme in Hd.
      * by rewrite lookup_insert_ne.
Qed.

(** ** The start *)

(** The record of the first task, and the lists before it is registered. *)
Definition first (stack : Z) (cpu : Z) : task :=
  mk_task TASK_STATE_RUNNING TASK_STATE_ZOMBIE false false false cpu stack 1 1 1 None 0 0 false false false.

Definition first_lists (t : Z) : gmap node (list_elem node) :=
  <[PIVOT t := mk_elem None None]> (<[HART_LIST t := mk_elem None None]> (<[VM_NODE t := mk_elem None None]>
    (lists (task_pre_init (sched_pre_init at_start))))).

Lemma application_task_init_ok t vs :
  let stack := Z.land vs (w64 (Z.lnot 4095)) + VMM_STACK_SIZE in
  application_task_init t vs (task_pre_init (sched_pre_init at_start)) =
    register_task t (mk_sys (first_lists t) {[t := first stack 0]} ∅ None 0 2).
Proof.
  intros stack. unfold application_task_init, allocate_virtual_machine_descriptor, hart_init, get_task, zero_task.
  cbn [set_task set_lists tasks lists]. rewrite lookup_insert_eq. cbn [deref].
  rewrite !(bind_step (Ok _) _ _ eq_refl). cbn [initialize_wait_queue_head new_pid set_task set_lists tasks lists].
  rewrite lookup_insert_eq. cbn [deref]. rewrite (bind_step (Ok _) _ _ eq_refl). cbn [set_task tasks lists].
  unfold set_task, set_lists. cbn [tasks lists blobs current idle_cpustate gpid_counter]. rewrite !insert_insert_eq. reflexivity.
Qed.

Lemma srep_start t x : srep (mk_sys (first_lists t) {[t := x]} ∅ None 0 2) (mkq [] [] []).
Proof.
  split.
  - intros []; (split_and!; [apply NoDup_singleton| |done]); cbn [lists]; unfold first_lists, head_of;
      rewrite !lookup_insert_ne by done; vm_compute; reflexivity.
  - intros [] [] u; simpl; set_solver.
  - intros u [y Hu] _. cbn [tasks] in Hu. apply lookup_singleton_Some in Hu as [<- _]. unfold detached, first_lists. cbn [lists].
    rewrite lookup_insert_ne by done. by rewrite lookup_insert_eq.
  - intros u [[] Hu]; simpl in Hu; set_solver.
Qed.

Lemma stack_top_nonzero vs :
  4096 <= vs < 2 ^ 63 →
  Z.land (w64 (Z.land vs (w64 (Z.lnot 4095)) + VMM_STACK_SIZE - SIZEOF_CPUSTATE)) (w64 (Z.lnot 15)) ≠ 0.
Proof. exact (child_cpustate (first 0 0) 0 0 vs 0 0). Qed.

Lemma main_ok t vs : 4096 <= vs < 2 ^ 63 → ∃ s, main t vs = Ok s ∧ ∃ q, kernel_at (mk_kernel s ∅) q ∧ q Run = [t].
Proof.
  intros Hvs. unfold main. rewrite application_task_init_ok. set (stack := Z.land vs _ + _).
  unfold register_task, on_list. cbn [lists].
  destruct (list_append_rep (first_lists t) GLOBAL_TASK_LIST [] (VM_NODE t)) as (σ & Hσ & Hg & Hx).
  { split_and!; [apply NoDup_singleton| |done]. unfold first_lists. rewrite !lookup_insert_ne by done. vm_compute. reflexivity. }
  { unfold detached, first_lists. rewrite !lookup_insert_ne by done. by rewrite lookup_insert_eq. }
  { set_solver. }
  rewrite (bind_step _ _ _ Hσ), (bind_step (Ok _) _ _ eq_refl). unfold set_lists. cbn [tasks blobs current idle_cpustate gpid_counter].
  unfold transit_state, get_task. cbn [tasks]. rewrite lookup_singleton_eq. cbn [deref]. rewrite (bind_step (Ok _) _ _ eq_refl).
  cbn [first state transition_table ASSERT]. rewrite !(bind_step (Ok _) _ _ eq_refl).
  unfold task_vmm_sched_init, get_task, set_task, first. cbn [tasks lists blobs current idle_cpustate gpid_counter with_state].
  rewrite lookup_insert_eq. cbn [deref]. rewrite !(bind_step (Ok _) _ _ eq_refl). cbn [with_cpustate vmm_stack_ptr].
  set (cpu := Z.land _ _). rewrite !insert_insert_eq. set (x := mk_task _ _ _ _ _ cpu _ _ _ _ _ _ _ _ _ _).
  assert (<[t := x]> {[t := first stack 0]} = {[t := x]}) as Hts by apply insert_singleton_eq.
  change (mk_task _ _ _ _ _ 0 stack _ _ _ _ _ _ _ _ _) with (first stack 0). rewrite Hts.
  set (s1 := mk_sys σ {[t := x]} ∅ None 0 2).
  assert (srep s1 (mkq [] [] [])) as Hs1.
  { destruct (srep_start t x) as [R1 R2 R3 R4]. split; [|done| |done].
    - intros k. eapply lrep_frame; [apply R1|exact Hx|]. intros y Hy. destruct k; simpl; set_solver.
    - intros u Hu Hq. eapply detached_frame; [by apply R3|exact Hx|set_solver]. }
  destruct (schedule_task_rep s1 _ t x Run Hs1) as (s2 & Hr & Hs2 & Hl2 & Hfr); [apply lookup_singleton_eq|done|intros [[] Hq]; simpl in Hq; set_solver|].
  rewrite (bind_step _ _ _ Hr). set (s3 := schedule_idle_task s2). exists s3. split; [done|].
  assert (tasks s3 = {[t := x]} ∧ current s3 = Some IDLE ∧ lists s3 = lists s2) as (HT & HC & HL)
    by (split_and!; [unfold s3; cbn; by rewrite Hl2|done|done]).
  assert (srep s3 (upd (mkq [] [] []) Run ([] ++ [t]))) as Hs3 by (by apply (srep_tasks s2)).
  clearbody s3. clear Hs2 Hl2.
  assert (∀ u, queued (upd (mkq [] [] []) Run ([] ++ [t])) u → u = t) as Hqt.
  { intros u [[] Hu]; unfold upd in Hu; simpl in Hu; set_solver. }
  assert (dest {[t := x]} t = Some Run) as Hd by (unfold dest; by rewrite lookup_singleton_eq).
  exists (upd (mkq [] [] []) Run ([] ++ [t])). split; [|by rewrite upd_same]. split; [|intros u; cbn [system]; by rewrite HC].
  exists [t], (λ _, []), (λ _, []). split; cbn [system inside].
  - split; [done| | | |].
    + exists IDLE. by split.
    + intros u ->%Hqt. rewrite HT, Hd. by eexists.
    + intros u y. rewrite HT. intros [<- <-]%lookup_singleton_Some. cbn [host_cpustate]. by apply stack_top_nonzero.
    + by left.
  - assert (∀ u, is_Some (tasks s3 !! u) → u = t) as Hdom by (intros u [y Hy]; rewrite HT in Hy; by apply lookup_singleton_Some in Hy as [-> _]).
    assert (lists s3 !! PIVOT t = Some (mk_elem None None)) as Hpiv.
    { rewrite HL, Hfr by done. cbn [s1 lists]. rewrite Hx by set_solver. unfold first_lists. apply lookup_insert_eq. }
    split.
    + eapply lrep_same; [exact Hg|]. intros y Hy. rewrite HL. apply Hfr. cbn [app] in Hy. set_solver.
    + intros v ->%list_elem_of_singleton. rewrite HT. eexists. apply lookup_singleton_eq.
    + intros v ->%Hdom. set_solver.
    + intros v ->%Hdom. split_and!; [apply NoDup_singleton|done|done].
    + intros u [? Hu]. by rewrite lookup_empty in Hu.
    + set_solver.
    + set_solver.
  - intros u Hu. unfold upd in Hu. simpl in Hu. set_solver.
  - intros u Hl. left. exists Run. rewrite upd_same. rewrite HT in Hl.
    unfold live, dest in Hl. destruct (decide (u = t)) as [->|Hne]; [set_solver|]. rewrite lookup_singleton_ne in Hl by done. naive_solver.
  - intros u o r tg Hi. by rewrite lookup_empty in Hi.
Qed.

Lemma reachable_ok k : reachable k → kernel_ok k.
Proof.
  induction 1 as [t vs s Hvs Hm|e k k' _ [q IH] He Hs].
  - destruct (main_ok t vs Hvs) as (s' & Hm' & q & Hok & _). exists q. congruence.
  - destruct (kernel_step_ok e k q IH He) as (k2 & q2 & Hs2 & Hok & _). exists q2. congruence.
Qed.

(** C10: [main] returns, with the first task ready, for every descriptor and every
    stack in the user half.  In every state reached from there by events that are
    possible, every possible event is handled: no assertion fails, no freed or
    foreign node is followed, no loop fails to end.  A task that has not exited is
    then in exactly one place, in a queue or on the processor, and the task on the
    processor is runnable.  Possible means: the addresses are not null, the
    descriptor of a new task is unused, the parts a clone does not share can be
    copied, a thread comes with a stack, and the idle task only yields. *)
Theorem kernel_never_stops :
  (∀ t vs, 4096 <= vs < 2 ^ 63 →
     ∃ s q, main t vs = Ok s ∧ reachable (mk_kernel s ∅) ∧ srep s q ∧ q Run = [t]) ∧
  ∀ k, reachable k →
    (∀ e, possible e k → ∃ k', kernel_step e k = Ok k' ∧ reachable k') ∧
    ∃ q, srep (system k) q ∧
      (∀ t, live (tasks (system k)) t → placed (system k) q t ∧ ¬ (queued q t ∧ current (system k) = Some (TASK t))) ∧
      (∀ t, current (system k) = Some (TASK t) → dest (tasks (system k)) t = Some Run).
Proof.
  split.
  { intros t vs Hvs. destruct (main_ok t vs Hvs) as (s & Hm & q & Hq & Hr). exists s, q.
    split_and!; [done|by eapply reach_main| |done]. destruct Hq as [(g & own & ws & Hk) _]. apply (so_rep _ _ (km_sched _ _ _ _ _ Hk)). }
  intros k Hr. pose proof (reachable_ok k Hr) as [q Hk]. split.
  - intros e He. destruct (kernel_step_ok e k q Hk He) as (k' & q' & Hs & _). exists k'. split; [done|by eapply reach_step].
  - destruct Hk as [(g & own & ws & Hm) Hcpu]. exists q. split; [apply (so_rep _ _ (km_sched _ _ _ _ _ Hm))|]. split.
    + intros t Hl. split; [by apply (km_placed _ _ _ _ _ Hm)|]. intros [Hq Hc].
      destruct (so_cur _ _ (km_sched _ _ _ _ _ Hm)) as (c & Hc' & Hno). rewrite Hc' in Hc. injection Hc as ->.
      by destruct (Hno t eq_refl).
    + intros t Hc. destruct (Hcpu t Hc) as (_ & x & Hx & Hst). unfold dest. rewrite Hx. simpl. by rewrite Hst.
Qed.

(** ** Fairness *)

(** A run of events: how often the processor is given up, and the states passed. *)
Inductive run : nat → kernel → list kernel → Prop :=
| run_nil k : run 0 k []
| run_step e k k' n visited :
    possible e k → kernel_step e k = Ok k' → run n k' visited →
    run (if gives_up e k then S n else n) k (k' :: visited).

Lemma run_switch e k k' n visited :
  possible e k → kernel_step e k = Ok k' → gives_up e k = true → run n k' visited → run (S n) k (k' :: visited).
Proof. intros He Hs Hg Hr. pose proof (run_step e k k' n visited He Hs Hr) as H. by rewrite Hg in H. Qed.

Lemma run_reaches n k visited :
  run n k visited → ∀ q t i, kernel_at k q → ready k q t i → (i < n)%nat →
  ∃ k', k' ∈ visited ∧ current (system k') = Some (TASK t).
Proof.
  induction 1 as [k|e k k' n visited He Hs _ IH]; intros q t i Hk Ht Hi; [lia|].
  destruct (kernel_step_ok e k q Hk He) as (k2 & q2 & Hs2 & Hk2 & Hmove). rewrite Hs in Hs2. injection Hs2 as <-.
  destruct (gives_up e k).
  - destruct (Hmove t i Ht) as [Hc|(j & Hj & Hr)]; [exists k'; split; [by left|done]|].
    destruct (IH q2 t j Hk2 Hr) as (k'' & Hin & Hc); [lia|]. exists k''. split; [by right|done].
  - destruct (IH q2 t i Hk2 (Hmove t i Ht) Hi) as (k'' & Hin & Hc). exists k''. split; [by right|done].
Qed.

(** C11: the scheduler is a round robin.  From a reachable state in which the task
    [t] is runnable at position [i] of the run queue, every run of possible events
    in which the processor is given up more than [i] times passes a state in which
    [t] has the processor, whatever the tasks that run before it clone, wait for,
    exit or yield. *)
Theorem round_robin k q t i n visited :
  reachable k → srep (system k) q → q Run !! i = Some t → dest (tasks (system k)) t = Some Run →
  run n k visited → (i < n)%nat →
  ∃ k', k' ∈ visited ∧ current (system k') = Some (TASK t).
Proof.
  intros Hr Hq Hi Hd Hrun Hn. destruct (reachable_ok k Hr) as [q0 Hk]. pose proof Hk as [(g & own & ws & Hm) _].
  eapply run_reaches; [exact Hrun|exact Hk| |exact Hn]. split; [|done].
  by rewrite (srep_unique (system k) q0 q Run (so_rep _ _ (km_sched _ _ _ _ _ Hm)) Hq).
Qed.

(** ** Concrete runs *)
Fixpoint kernel_run (es : list event) (k : kernel) : outcome kernel :=
  match es with [] => Ok k | e :: es => k ← kernel_step e k; kernel_run es k end.

(** The first task gets the processor and clones a second and a third one. *)
Definition booted : kernel :=
  Eval vm_compute in match main 1 8192 with Ok s => mk_kernel s ∅ | Err _ => mk_kernel at_start ∅ end.

Definition after (es : list event) : kernel :=
  match kernel_run es booted with Ok k => k | Err _ => booted end.

Definition alone : kernel := Eval vm_compute in after [Yields 512].

Definition crowded : kernel :=
  Eval vm_compute in after [Yields 512; Clones 2 65536 0 0 0 all_copied; Clones 3 131072 0 0 0 all_copied].

Lemma alone_reachable : reachable alone.
Proof.
  apply (reach_step (Yields 512) booted); [|done|by vm_compute].
  by apply (reach_main 1 8192); [lia|vm_compute].
Qed.

Lemma crowded_reachable : reachable crowded.
Proof.
  assert (clonable 0 0 all_copied) as Hcl by (by split).
  destruct (kernel_step (Clones 2 65536 0 0 0 all_copied) alone) as [k|] eqn:Hk; [|by vm_compute in Hk].
  assert (reachable k) as Hr.
  { eapply reach_step; [exact alone_reachable| |exact Hk]. split_and!; [done|by vm_compute|lia|lia|done]. }
  eapply (reach_step (Clones 3 131072 0 0 0 all_copied) k); [exact Hr| |];
    vm_compute in Hk; injection Hk as <-; [|by vm_compute]. split_and!; [done|by vm_compute|lia|lia|done].
Qed.

Lemma crowded_queues : srep (system crowded) (mkq [2; 3] [] []).
Proof.
  assert (∀ t, queued (mkq [2; 3] [] []) t → t = 2 ∨ t = 3) as Hq.
  { intros t [[] Ht]; simpl in Ht; set_solver. }
  split.
  - intros []; split_and!; try by vm_compute; repeat constructor; set_solver.
  - intros [] [] t; simpl; set_solver.
  - intros t Ht Hn. rewrite <- (elem_of_dom (D := gset Z)) in Ht.
    assert (dom (tasks (system crowded)) = ({[1; 2; 3]} : gset Z)) as Hd by (by vm_compute). rewrite Hd in Ht.
    assert (t = 1 ∨ t = 2 ∨ t = 3) as [-> | [-> | ->]] by set_solver; [by vm_compute|destruct Hn; exists Run; simpl; set_solver..].
  - intros t [-> | ->]%Hq; eexists; by vm_compute.
Qed.

Lemma kernel_never_stops_witness :
  reachable alone ∧ ∃ k', kernel_step (Clones 2 65536 0 0 0 all_copied) alone = Ok k' ∧ reachable k'.
Proof.
  split; [exact alone_reachable|]. apply (proj2 kernel_never_stops alone alone_reachable).
  split_and!; [done|by vm_compute|lia|lia|by split].
Defined.

(** Task 3 is second in the queue.  Task 1 clones once more and yields, task 2
    exits: task 3 has the processor. *)
Lemma round_robin_witness :
  ∃ visited k', run 2 crowded visited ∧ k' ∈ visited ∧ current (system k') = Some (TASK 3).
Proof.
  destruct (kernel_step (Clones 4 262144 0 0 0 all_copied) crowded) as [k1|] eqn:H1; [|by vm_compute in H1].
  destruct (kernel_step (Yields 600) k1) as [k2|] eqn:H2; [|vm_compute in H1; injection H1 as <-; by vm_compute in H2].
  destruct (kernel_step (Exits 700) k2) as [k3|] eqn:H3;
    [|vm_compute in H1; injection H1 as <-; vm_compute in H2; injection H2 as <-; by vm_compute in H3].
  assert (run 2 crowded [k1; k2; k3]) as Hrun.
  { apply (run_step (Clones 4 262144 0 0 0 all_copied) crowded k1 2); [|done|].
    { split_and!; [done|by vm_compute|lia|lia|by split]. }
    vm_compute in H1; injection H1 as <-. apply (run_switch (Yields 600) _ k2 1); [done|done|by vm_compute|].
    vm_compute in H2; injection H2 as <-. apply (run_switch (Exits 700) _ k3 0); [by split|done|by vm_compute|].
    constructor. }
  destruct (round_robin crowded (mkq [2; 3] [] []) 3 1 2 [k1; k2; k3]) as (k' & Hin & Hc).
  - exact crowded_reachable.
  - exact crowded_queues.
  - reflexivity.
  - by vm_compute.
  - exact Hrun.
  - lia.
  - exists [k1; k2; k3], k'. done.
Defined.

(** A life: the parent waits, the child runs and exits, the parent is woken, takes
    its entry back and exits; the idle task is left. *)
Example lifecycle :
  (s ← main 1 8192;
   k ← kernel_run [Yields 512; Clones 2 65536 0 0 0 all_copied; Waits (-1) 0 600; Exits 700] (mk_kernel s ∅);
   let k1 := k in
   k ← kernel_run [Exits 800] k;
   Ok (current (system k1), size (inside k1), size (blobs (system k1)), current (system k))) =
  Ok (Some (TASK 1), 0%nat, 0%nat, Some IDLE).
Proof. vm_compute. reflexivity. Qed.

End Kernel.
