(* ===== verification/Fork.v ===== *)
(** * Copies of a process: the parts of clone and execve in task.c about memory,
    files and registers

    A clone without CLONE_VM gets a copy of every region and its bytes, without
    CLONE_FILES it opens every file again; execve frees the old memory before the
    new program is loaded.  Theorems: parent and child see the same memory after
    the copy and do not see each other's writes; the copied descriptors are new
    host descriptors, so that neither closes a file of the other; freeing a
    process frees its blocks and no other.  The records and the queues of the
    tasks are in Sched. *)
From S2P Require Import Prelude SortSearch X86 PmRegion Vma VmaOps Path Vfs Sched SchedTask.
Import Macros X86 PmRegion Vma VmaOps Path Vfs.

Module Fork.

(** ** Memory *)
Section memory.
Context `{HA : HostAlloc}.

(** [memcpy] of [len] bytes between the starts of two blocks. *)
Definition copy_block (h : host_heap) (dst src : option Z) (len : Z) : outcome host_heap :=
  b ← deref src;
  l ← deref (h !! b);
  if (len <=? Z.of_nat (length l)) && (0 <=? len) then store_bytes h (dst, 0) (take (Z.to_nat len) l)
  else Err EUndef.

(** The loop of [duplicate_virtual_memory], [n] iterations from [idx]. *)
Fixpoint duplicate_loop (n : nat) (idx : Z) (current_vm child_vm : address_space) (h : host_heap)
    : outcome (address_space * host_heap) :=
  match n with
  | O => Ok (child_vm, h)
  | S n =>
      pmr ← ELEM (pmr_ops current_vm) idx;
      let pmr_len := sint 32 (addr_high pmr - addr_low pmr) in
      let '(base, h) := preallocate_physical_memory pmr_len h in
      ops ← deref (zset (pmr_ops child_vm) idx (with_bounds pmr (addr_high pmr) base));
      ASSERT (bool_decide (is_Some base));;
      h ← copy_block h base (host_base pmr) pmr_len;
      let child_vm :=
        mk_space (nr_pmr_ops child_vm) ops
          (if bool_decide (vma_heap current_vm = Some idx) then Some idx else vma_heap child_vm)
          (if bool_decide (vma_stack current_vm = Some idx) then Some idx else vma_stack child_vm) in
      duplicate_loop n (idx + 1) current_vm child_vm h
  end.

Definition duplicate_virtual_memory (current_vm child_vm : address_space) (h : host_heap)
    : outcome (address_space * host_heap) :=
  duplicate_loop (Z.to_nat (nr_pmr_ops current_vm)) 0 current_vm
    (mk_space (nr_pmr_ops current_vm) (pmr_ops child_vm) (vma_heap child_vm) (vma_stack child_vm)) h.

End memory.

(** The loop of [reclaim_virtual_memory]. *)
Fixpoint reclaim_loop (n : nat) (idx : Z) (p : process) : outcome process :=
  match n with
  | O => Ok p
  | S n =>
      pmr ← ELEM (pmr_ops (space p)) idx;
      p ← (match pmr_reclaim pmr with
           | Some vma_generic =>
               let '(pmr, h) := vma_generic_reclaim pmr (heap p) in
               vm ← set_region (space p) idx pmr;
               Ok (mk_process vm h)
           | None => Ok p
           end);
      reclaim_loop n (idx + 1) p
  end.

(** The branch of [reclaim_virtual_memory] for a process with memory of its own;
    a thread gives up its reference to its parent ([Sched.deference_task]). *)
Definition reclaim_virtual_memory (p : process) : outcome process :=
  p ← reclaim_loop (Z.to_nat (nr_pmr_ops (space p))) 0 p;
  Ok (mk_process (mk_space 0 (pmr_ops (space p)) None None) (heap p)).

(** ** Files *)
Section files.
Context {K : Type} `{HK : HostKernel K}.

(** The loop of [duplicate_files] over the entries of the parent; [k] and [h] are
    the kernel and the memory it works on. *)
Definition duplicate_file (f : file) (k : K) (h : host_heap) : outcome (file * K * host_heap) :=
  if negb (valid f) then Ok (no_file, k, h) else
  match file_type f with
  | FILE_TYPE_REGULAR =>
      match host_cpath f with
      | None => not_reach
      | Some path =>
          let '(ret, _, k, h) := kcall (h_open path (fflags f) (fmode f)) k h in
          Ok (mk_file (fd f) (sint 32 ret) true (host_cpath f) (fflags f) (fmode f) (file_type f), k, h)
      end
  | FILE_TYPE_SOCKET =>
      let '(ret, _, k, h) := kcall (h_dup (host_fd f)) k h in
      Ok (mk_file (fd f) (sint 32 ret) true (host_cpath f) (fflags f) (fmode f) (file_type f), k, h)
  | FILE_TYPE_ERROR => not_reach
  end.

Fixpoint duplicate_files (l : list file) (k : K) (h : host_heap) : outcome (list file * K * host_heap) :=
  match l with
  | [] => Ok ([], k, h)
  | f :: l =>
      '(g, k, h) ← duplicate_file f k h;
      '(l', k, h) ← duplicate_files l k h;
      Ok (g :: l', k, h)
  end.

End files.

(** ** Registers *)

(** The part of [task_cpu_init] after [hart_init]. *)
Definition child_registers (g : guest) : guest := set_pc (set_gpr g 10 0) (w32 (pc g + 4)).

(** The part of [task_threads_init] about the stack. *)
Definition thread_stack (flags child_stack : Z) (g : guest) : outcome guest :=
  if Sched.flag flags Sched.CLONE_THREAD then
    ASSERT (negb (child_stack =? 0));;
    Ok (set_gpr g 2 child_stack)
  else Ok g.

(** ** clone_task

    The part of a [struct virtual_machine] that is not in Sched, as
    [allocate_virtual_machine_descriptor] leaves it. *)
Record vm_data := mk_data {
  dspace : address_space;
  dfiles : list file;
  droot : list Z;
  dcwd : list Z;
  dregs : guest
}.

Definition zero_region : pm_region_operation := mk_region 0 0 None None None None "" 0 None.

Definition zero_data : vm_data :=
  mk_data (mk_space 0 (replicate (Z.to_nat MAX_VMA_NR) zero_region) None None)
    (replicate (Z.to_nat MAX_FILES_NR) no_file) (replicate 128 0) (replicate 128 0) (mk_guest (replicate 32 0) 0).

Section clone.
Context `{HA : HostAlloc} {K : Type} `{HK : HostKernel K}.

Definition task_vm_init (flags : Z) (current_vm child_vm : address_space) (h : host_heap)
    : outcome (address_space * host_heap) :=
  if Sched.flag flags Sched.CLONE_VM then Ok (child_vm, h)
  else duplicate_virtual_memory current_vm child_vm h.

Definition task_fs_init (flags : Z) (current_vm child_vm : vm_data) : list Z * list Z :=
  if Sched.flag flags Sched.CLONE_FS then (droot child_vm, dcwd child_vm) else (droot current_vm, dcwd current_vm).

Definition task_files_init (flags : Z) (current_vm child_vm : list file) (k : K) (h : host_heap)
    : outcome (list file * K * host_heap) :=
  if Sched.flag flags Sched.CLONE_FILES then Ok (child_vm, k, h) else duplicate_files current_vm k h.

(** [clone_task] on the memory, files and registers; what it does to the records
    and queues of the tasks is [Sched.clone_task]. *)
Definition clone_data (flags child_stack : Z) (current_vm : vm_data) (k : K) (h : host_heap)
    : outcome (vm_data * K * host_heap) :=
  let g := child_registers (dregs current_vm) in
  '(vm, h) ← task_vm_init flags (dspace current_vm) (dspace zero_data) h;
  let '(root, cwd) := task_fs_init flags current_vm zero_data in
  '(l, k, h) ← task_files_init flags (dfiles current_vm) (dfiles zero_data) k h;
  g ← thread_stack flags child_stack g;
  Ok (mk_data vm l root cwd g, k, h).

(** Whether the copies return, which is what [Sched.clone_task] needs of them. *)
Definition answer {A} (o : outcome A) : outcome unit := _ ← o; Ok tt.

Definition copies_of (flags : Z) (current_vm : vm_data) (k : K) (h : host_heap) : Sched.copies :=
  Sched.mk_copies (answer (duplicate_virtual_memory (dspace current_vm) (dspace zero_data) h))
    (answer ('(_, h) ← task_vm_init flags (dspace current_vm) (dspace zero_data) h;
             duplicate_files (dfiles current_vm) k h)).

(** Both halves of [clone_task] return in the same cases. *)
Theorem clone_halves_agree flags cs d k h :
  (∃ r, clone_data flags cs d k h = Ok r) ↔ SchedTask.clonable flags cs (copies_of flags d k h).
Proof.
  assert (∀ A (o : outcome A), (∃ r, o = Ok r) ↔ answer o = Ok tt) as Hans.
  { intros A [a|e]; split; [done|by exists a|by intros []|done]. }
  assert (clone_data flags cs d k h = '(vm, h) ← task_vm_init flags (dspace d) (dspace zero_data) h;
      '(l, k, h) ← task_files_init flags (dfiles d) (dfiles zero_data) k h;
      g ← thread_stack flags cs (child_registers (dregs d));
      Ok (mk_data vm l (task_fs_init flags d zero_data).1 (task_fs_init flags d zero_data).2 g, k, h)) as ->.
  { unfold clone_data. by destruct (task_fs_init flags d zero_data). }
  split.
  - intros [r ([vm h1] & Hvm & ([[l k1] h2] & Hf & (g & Hg & _)%bind_Ok)%bind_Ok)%bind_Ok]. split.
    + intros Hflag. apply Hans. unfold task_vm_init in Hvm. rewrite Hflag in Hvm. eauto.
    + intros Hflag. apply Hans. rewrite Hvm. cbn [mbind outcome_bind]. unfold task_files_init in Hf. rewrite Hflag in Hf. eauto.
    + intros Hflag ->. unfold thread_stack in Hg. by rewrite Hflag in Hg.
  - intros [Hm Hf Hs]. assert (∃ p, task_vm_init flags (dspace d) (dspace zero_data) h = Ok p) as [[vm h1] Hvm].
    { unfold task_vm_init. destruct (Sched.flag flags Sched.CLONE_VM); [by eexists|]. by apply Hans, Hm. }
    cbn [copies_of Sched.copy_files] in Hf. rewrite Hvm in Hf |- *. cbn [mbind outcome_bind] in Hf |- *.
    assert (∃ p, task_files_init flags (dfiles d) (dfiles zero_data) k h1 = Ok p) as [[[l k1] h2] Hfi].
    { unfold task_files_init. destruct (Sched.flag flags Sched.CLONE_FILES); [by eexists|]. by apply Hans, Hf. }
    rewrite Hfi. cbn [mbind outcome_bind]. unfold thread_stack.
    destruct (Sched.flag flags Sched.CLONE_THREAD); [|by eexists].
    rewrite (proj2 (Z.eqb_neq _ _) (Hs eq_refl)). by eexists.
Qed.

End clone.

(** ** The copy of the memory *)

(** [r'] is [r] with a block of its own, new in [h], of the same contents. *)
Definition twin (h0 h : host_heap) (r r' : pm_region_operation) : Prop :=
  ∃ b b' l, host_base r = Some b ∧ h0 !! b = Some l ∧ r' = with_bounds r (addr_high r) (Some b') ∧
    h !! b' = Some l ∧ h0 !! b' = None.

Lemma twin_mono h0 h h' r r' : h ⊆ h' → twin h0 h r r' → twin h0 h' r r'.
Proof.
  intros Hs (b & b' & l & ? & ? & ? & ? & ?). exists b, b', l. split_and!; try done. by eapply lookup_weaken.
Qed.

Record copied (h0 h : host_heap) (A A' : list pm_region_operation) : Prop := {
  cp_sub : h0 ⊆ h;
  cp_twin : Forall2 (twin h0 h) A A';
  cp_sep : NoDup (omap host_base A')
}.

Definition has_memory (r : pm_region_operation) : Prop :=
  is_Some (host_base r) ∧ addr_high r - addr_low r < 2 ^ 31.

Section copy_spec.
Context `{HA : HostAlloc} {HAok : HostAllocOk} (Hmem : ∀ h n, is_Some (aligned_alloc h n)).

(** One iteration: the block is allocated and filled. *)
Lemma copy_step h b l n :
  h !! b = Some l → Z.of_nat (length l) = n →
  ∃ b' h1 h', preallocate_physical_memory n h = (Some b', h1) ∧ h !! b' = None ∧
    copy_block h1 (Some b') (Some b) n = Ok h' ∧ h' = <[b' := l]> h.
Proof.
  intros Hb Hl. destruct (Hmem h n) as [b' Hb']. pose proof (alloc_fresh _ _ _ Hb') as Hf.
  exists b', (<[b' := replicate (Z.to_nat n) 0]> h), (<[b' := l]> h). unfold preallocate_physical_memory. rewrite Hb'.
  split; [done|]. split; [done|]. split; [|done]. unfold copy_block. cbn [deref mbind outcome_bind].
  rewrite lookup_insert_ne, Hb by congruence. cbn [deref mbind outcome_bind]. zbool; try lia. cbn [andb].
  rewrite take_ge by lia. unfold store_bytes. cbn [fst snd deref mbind outcome_bind]. rewrite lookup_insert_eq.
  cbn [deref mbind outcome_bind]. rewrite length_replicate. zbool; try lia. cbn [andb].
  rewrite insert_insert_eq. do 2 f_equal. cbn [Z.to_nat take app Nat.add]. rewrite drop_ge; [apply app_nil_r|].
  rewrite length_replicate. lia.
Qed.

Lemma duplicate_loop_spec h0 cur A B : 
  pmr_ops cur = A ++ B ++ drop (length A + length B) (pmr_ops cur) →
  (∀ r b, r ∈ B → host_base r = Some b → ∃ l, h0 !! b = Some l ∧ Z.of_nat (length l) = addr_high r - addr_low r) →
  Forall has_memory B → Forall region_ok B →
  ∀ A' rest nr vh vs h, copied h0 h A A' → (length B <= length rest)%nat →
  ∃ B' h' vh' vs', duplicate_loop (length B) (Z.of_nat (length A)) cur (mk_space nr (A' ++ rest) vh vs) h =
      Ok (mk_space nr ((A' ++ B') ++ drop (length B) rest) vh' vs', h') ∧
    copied h0 h' (A ++ B) (A' ++ B') ∧
    (∀ i, vma_heap cur = Some i → Z.of_nat (length A) <= i < Z.of_nat (length A + length B) → vh' = Some i) ∧
    (vh' = vh ∨ vma_heap cur = vh').
Proof.
  revert A. induction B as [|r B IH]; intros A Hops Hblk Hm Hrk A' rest nr vh vs h Hcp Hlen.
  { exists [], h, vh, vs. rewrite !app_nil_r, drop_0. split_and!; [done|done|intros; cbn [length] in *; lia|by left]. }
  apply Forall_cons in Hm as [[[b Hb] Hsz] Hm]. apply Forall_cons in Hrk as [(Hr1 & Hr2 & _) Hrk].
  destruct (Hblk r b) as (l & Hl & Hll); [by left|done|]. pose proof Hcp as [Hsub Htw Hsep].
  pose proof (Forall2_length _ _ _ Htw) as HAA.
  cbn [length duplicate_loop]. assert (zget (pmr_ops cur) (Z.of_nat (length A)) = Some r) as Hz.
  { rewrite Hops. apply zget_middle. }
  unfold ELEM at 1. rewrite Hz. cbn [deref mbind outcome_bind].
  rewrite (sint_unique 32 _ (addr_high r - addr_low r)) by (lia || done).
  destruct (copy_step h b l (addr_high r - addr_low r)) as (b' & h1 & h' & -> & Hf & Hcb & Hh'); [by eapply lookup_weaken|done|].
  destruct rest as [|x rest]; [simpl in Hlen; lia|].
  cbn [pmr_ops]. rewrite HAA, zset_middle. cbn [deref mbind outcome_bind].
  rewrite (bool_decide_true (is_Some (Some b'))) by done. cbn [ASSERT mbind outcome_bind]. rewrite Hb, Hcb. cbn [mbind outcome_bind nr_pmr_ops vma_heap vma_stack].
  set (r' := with_bounds r (addr_high r) (Some b')). set (vh1 := if bool_decide (vma_heap cur = _) then _ else vh).
  destruct (IH (A ++ [r])) with (A' := A' ++ [r']) (rest := rest) (nr := nr) (vh := vh1)
    (vs := if bool_decide (vma_stack cur = Some (Z.of_nat (length A'))) then Some (Z.of_nat (length A')) else vs) (h := h')
    as (B' & h2 & vh' & vs' & Hrun & Hcp' & Hvh & Hvh'); [| |done|done| |simpl in Hlen; lia|].
  { rewrite <- app_assoc. replace (length (A ++ [r]) + length B)%nat with (length A + length (r :: B))%nat; [exact Hops|].
    rewrite length_app. cbn [length]. lia. }
  { intros q c Hq. apply Hblk. by right. }
  { assert (h ⊆ h') as Hsub' by (rewrite Hh'; by apply insert_subseteq).
    split; [by transitivity h| |].
    - apply Forall2_app; [eapply Forall2_impl; [exact Htw|intros; by eapply twin_mono]|]. constructor; [|done].
      exists b, b', l. split_and!; [done..|by rewrite Hh', lookup_insert_eq|]. 
      destruct (h0 !! b') eqn:E; [|done]. by rewrite (lookup_weaken _ _ _ _ E Hsub) in Hf.
    - rewrite omap_app. cbn. apply NoDup_app. split; [done|]. split; [|apply NoDup_singleton].
      intros c (q & Hq & Hc)%list_elem_of_omap ->%list_elem_of_singleton.
      apply list_elem_of_lookup in Hq as [i Hi]. destruct (Forall2_lookup_r _ _ _ _ _ Htw Hi) as (q0 & _ & b0 & c' & l0 & _ & _ & -> & Hl0 & _).
      cbn in Hc. injection Hc as ->. congruence. }
  rewrite length_app in Hrun. cbn [length] in Hrun.
  replace (Z.of_nat (length A') + 1) with (Z.of_nat (length A + 1)) by lia.
  rewrite <- app_assoc in Hrun. cbn [app] in Hrun. exists (r' :: B'), h2, vh', vs'.
  rewrite Hrun. split; [cbn [drop]; by rewrite <- !app_assoc|]. split.
  { by rewrite <- !app_assoc in Hcp'. }
  split.
  - intros i Hi Hr. cbn [length] in Hr. destruct (decide (i = Z.of_nat (length A))) as [-> |Hne].
    + destruct Hvh' as [-> |<-]; [|done]. unfold vh1. rewrite HAA in Hi |- *. by rewrite bool_decide_true.
    + apply Hvh; [done|]. rewrite length_app. cbn [length]. lia.
  - destruct Hvh' as [-> |<-]; [|by right]. unfold vh1.
    destruct (decide (vma_heap cur = Some (Z.of_nat (length A')))) as [Hd|Hd];
      [right; by rewrite bool_decide_true|left; by rewrite bool_decide_false].
Qed.

End copy_spec.

(** Two processes that share no block. *)
Definition separate (vm1 vm2 : address_space) : Prop :=
  ∀ r1 r2 b, r1 ∈ regions vm1 → r2 ∈ regions vm2 → host_base r1 = Some b → host_base r2 ≠ Some b.

Lemma separate_sym vm1 vm2 : separate vm1 vm2 → separate vm2 vm1.
Proof. intros H r1 r2 b H1 H2 Hb Hb'. by eapply H. Qed.

(** The memory of [vm] depends on the blocks of its regions only. *)
Lemma frame_memory vm h h' :
  mem_ok (mk_process vm h) → (∀ r b, r ∈ regions vm → host_base r = Some b → h' !! b = h !! b) →
  mem_ok (mk_process vm h') ∧ ∀ x, byte_at (mk_process vm h') x = byte_at (mk_process vm h) x.
Proof.
  intros [Ht Hblk Hsep] Hsame. split.
  - split; [done| |done]. intros r b Hr Hb. cbn [heap space] in *. rewrite (Hsame r b Hr Hb). by apply (Hblk r b).
  - intros x. unfold byte_at. cbn [space]. destruct (list_find _ _) as [[i r]|] eqn:Hf; [|done].
    apply list_find_Some in Hf as (Hi & _). cbn. f_equal. unfold region_bytes. cbn [heap].
    destruct (host_base r) as [b|] eqn:Hb; [|done]. cbn. apply (Hsame r); [by eapply list_elem_of_lookup_2|done].
Qed.

Lemma write_frame vm1 vm2 h a n v p' :
  mem_ok (mk_process vm1 h) → mem_ok (mk_process vm2 h) → separate vm1 vm2 → accessible (mk_process vm1 h) a n →
  access_size_ok n → direct_write n a v (mk_process vm1 h) = Ok p' →
  mem_ok (mk_process vm2 (heap p')) ∧
  ∀ x, byte_at (mk_process vm2 (heap p')) x = byte_at (mk_process vm2 h) x.
Proof.
  intros Hok1 Hok2 Hsep (r & b & Hr & Hlo & Hhi & Hb) Hn Hw.
  assert (inside a r) as Hin by (unfold inside, access_size_ok in *; lia).
  rewrite (direct_write_store _ r b a n v Hok1 Hr Hin Hb Hn) in Hw. cbn [heap space] in Hw.
  apply bind_Ok in Hw as (h1 & Hs & [= <-]). cbn [heap]. unfold store, store_bytes in Hs. cbn [fst snd deref mbind outcome_bind] in Hs.
  destruct (h !! b) as [l|] eqn:Hl; [|done]. cbn [deref mbind outcome_bind] in Hs.
  destruct (_ && _); [|done]. injection Hs as <-.
  apply frame_memory; [done|]. intros r2 b2 Hr2 Hb2. apply lookup_insert_ne. intros ->. by eapply (Hsep r r2).
Qed.

Section copied.
Context (cur : address_space) (h0 h : host_heap) (Hok : mem_ok (mk_process cur h0)).
Context (A' rest : list pm_region_operation) (vh vs : option Z).
Context (Hcp : copied h0 h (regions cur) A').
Context (Hlen : length (A' ++ rest) = Z.to_nat MAX_VMA_NR).

Let child : address_space := mk_space (nr_pmr_ops cur) (A' ++ rest) vh vs.

Lemma child_regions : regions child = A'.
Proof.
  unfold child. apply regions_mk. rewrite <- (regions_length cur) by apply (mo_table _ Hok).
  f_equal. eapply Forall2_length. apply Hcp.
Qed.

(** A region of the child and the one it copies. *)
Lemma child_region i r' : A' !! i = Some r' → ∃ r, regions cur !! i = Some r ∧ twin h0 h r r'.
Proof. intros Hi. destruct (Forall2_lookup_r _ _ _ _ _ (cp_twin _ _ _ _ Hcp) Hi) as (r & ? & ?). by exists r. Qed.

Lemma child_table : table_ok child.
Proof.
  destruct (mo_table _ Hok) as [Hnr _ Hrk Hasc]. split; [done|done|rewrite child_regions..].
  - apply Forall_lookup. intros i r' Hi. destruct (child_region i r' Hi) as (r & Hr & b & b' & l & _ & _ & -> & _).
    apply (proj1 (Forall_lookup _ _) Hrk i r Hr).
  - intros i j a b Hij Ha Hb. destruct (child_region i a Ha) as (a0 & Ha0 & ? & ? & ? & _ & _ & -> & _).
    destruct (child_region j b Hb) as (b0 & Hb0 & ? & ? & ? & _ & _ & -> & _).
    exact (Hasc i j a0 b0 Hij Ha0 Hb0).
Qed.

Lemma child_ok : mem_ok (mk_process child h).
Proof.
  split; [apply child_table| |cbn [space]; rewrite child_regions; apply Hcp]. intros r' b'. cbn [space heap]. rewrite child_regions.
  intros [i Hi]%list_elem_of_lookup Hb. destruct (child_region i r' Hi) as (r & Hr & b & b1 & l & Hrb & Hl & -> & Hl' & _).
  cbn in Hb. injection Hb as <-. destruct (mo_block _ Hok r b) as (l0 & Hl0 & ? & ?); [by eapply list_elem_of_lookup_2|done|].
  cbn in Hl0. rewrite Hl in Hl0. injection Hl0 as <-. by exists l.
Qed.

Lemma child_bytes x : byte_at (mk_process child h) x = byte_at (mk_process cur h0) x.
Proof.
  destruct (byte_at_cases (mk_process child h) x child_table) as [(r' & Hr' & Hin & ->)|[Hno ->]].
  - cbn [space] in Hr'. rewrite child_regions in Hr'. apply list_elem_of_lookup in Hr' as [i Hi].
    destruct (child_region i r' Hi) as (r & Hr & b & b' & l & Hb & Hl & -> & Hl' & _).
    rewrite (byte_at_region _ r x (mo_table _ Hok)); [|by eapply list_elem_of_lookup_2|done].
    unfold region_bytes. rewrite Hb. cbn. by rewrite Hl, Hl'.
  - symmetry. apply byte_at_none. intros r [i Hi]%list_elem_of_lookup Hin. cbn [space] in *. rewrite child_regions in Hno.
    destruct (Forall2_lookup_l _ _ _ _ _ (cp_twin _ _ _ _ Hcp) Hi) as (r' & Hr' & b & b' & l & _ & _ & -> & _).
    by apply (Hno _ (list_elem_of_lookup_2 _ _ _ Hr')).
Qed.

Lemma child_separate : separate cur child.
Proof.
  intros r1 r2 b Hr1. rewrite child_regions. intros [i Hi]%list_elem_of_lookup Hb1 Hb2.
  destruct (child_region i r2 Hi) as (r & _ & _ & b' & _ & _ & _ & -> & _ & Hf). cbn in Hb2. injection Hb2 as ->.
  destruct (mo_block _ Hok r1 b Hr1 Hb1) as (l & Hl & _). cbn in Hl. congruence.
Qed.

Lemma parent_kept :
  mem_ok (mk_process cur h) ∧ ∀ x, byte_at (mk_process cur h) x = byte_at (mk_process cur h0) x.
Proof.
  apply frame_memory; [done|]. intros r b Hr Hb. destruct (mo_block _ Hok r b Hr Hb) as (l & Hl & _).
  cbn in Hl. rewrite Hl. eapply lookup_weaken; [exact Hl|apply Hcp].
Qed.

End copied.

Lemma duplicate_memory_spec `{HA : HostAlloc} {HAok : HostAllocOk} cur child h0 :
  (∀ h n, is_Some (aligned_alloc h n)) → mem_ok (mk_process cur h0) →
  Forall has_memory (regions cur) → length (pmr_ops child) = Z.to_nat MAX_VMA_NR →
  ∃ child' h, duplicate_virtual_memory cur child h0 = Ok (child', h) ∧
    mem_ok (mk_process cur h) ∧ mem_ok (mk_process child' h) ∧
    (∀ x, byte_at (mk_process cur h) x = byte_at (mk_process cur h0) x ∧
          byte_at (mk_process child' h) x = byte_at (mk_process cur h0) x) ∧
    (∀ i, vma_heap cur = Some i → 0 <= i < nr_pmr_ops cur → vma_heap child' = Some i) ∧
    (∀ a n v p', access_size_ok n → accessible (mk_process child' h) a n →
       direct_write n a v (mk_process child' h) = Ok p' →
       ∀ x, byte_at (mk_process cur (heap p')) x = byte_at (mk_process cur h) x) ∧
    (∀ a n v p', access_size_ok n → accessible (mk_process cur h) a n →
       direct_write n a v (mk_process cur h) = Ok p' →
       ∀ x, byte_at (mk_process child' (heap p')) x = byte_at (mk_process child' h) x).
Proof.
  intros Hmem Hok Hm Hlen. pose proof (mo_table _ Hok) as Ht. cbn [space] in Ht.
  pose proof (regions_length cur Ht) as Hrl. pose proof (ok_nr _ Ht) as Hnr. unfold MAX_VMA_NR in *.
  unfold duplicate_virtual_memory. rewrite <- Hrl, Nat2Z.id.
  destruct (duplicate_loop_spec Hmem h0 cur [] (regions cur)) with (A' := @nil pm_region_operation)
    (rest := pmr_ops child) (nr := Z.of_nat (length (regions cur))) (vh := vma_heap child) (vs := vma_stack child) (h := h0)
    as (A' & h & vh & vs & Hrun & Hcp & Hvh & _).
  { cbn [app length Nat.add]. unfold regions at 1. rewrite <- Hrl, Nat2Z.id.
    symmetry. apply take_drop. }
  { intros r b Hr Hb. destruct (mo_block _ Hok r b Hr Hb) as (l & ? & ? & _). by exists l. }
  { done. }
  { apply Ht. }
  { split; [done|constructor|constructor]. }
  { lia. }
  cbn [app length] in Hrun, Hcp, Hvh. change (Z.of_nat 0) with 0 in Hrun, Hvh. rewrite Hrun, Hrl.
  set (rest := drop _ _) in *. assert (Hl' : length (A' ++ rest) = Z.to_nat 128).
  { unfold rest. rewrite length_app, length_drop. rewrite <- (Forall2_length _ _ _ (cp_twin _ _ _ _ Hcp)). lia. }
  eexists _, h. split; [done|]. destruct (parent_kept cur h0 h Hok A' Hcp) as [Hp Hpb].
  pose proof (child_ok cur h0 h Hok A' rest vh vs Hcp Hl') as Hc.
  pose proof (child_separate cur h0 h Hok A' rest vh vs Hcp) as Hsep. split_and!; [done|done|..].
  - intros x. split; [apply Hpb|]. by apply (child_bytes cur h0 h Hok A' rest vh vs Hcp Hl').
  - intros i Hi Hr. apply Hvh; [done|]. lia.
  - intros a n v p' Hn Ha Hw. by eapply write_frame; [exact Hc|done|apply separate_sym, Hsep|done..].
  - intros a n v p' Hn Ha Hw. by eapply write_frame; [exact Hp|done|exact Hsep|done..].
Qed.

(** C19: when every region has memory (less than 2 GB each) and the host has
    memory, [duplicate_virtual_memory] succeeds; parent and child then see the
    bytes the parent saw before, both address spaces are well formed, the child's
    heap entry is the parent's, and no store of either process is seen by the
    other. *)
Theorem fork_memory_correct `{HA : HostAlloc} {HAok : HostAllocOk} cur child h0 :
  (∀ h n, is_Some (aligned_alloc h n)) → mem_ok (mk_process cur h0) →
  Forall has_memory (regions cur) → length (pmr_ops child) = Z.to_nat MAX_VMA_NR →
  ∃ child' h, duplicate_virtual_memory cur child h0 = Ok (child', h) ∧
    mem_ok (mk_process cur h) ∧ mem_ok (mk_process child' h) ∧
    (∀ x, byte_at (mk_process cur h) x = byte_at (mk_process cur h0) x ∧
          byte_at (mk_process child' h) x = byte_at (mk_process cur h0) x) ∧
    (∀ i, vma_heap cur = Some i → 0 <= i < nr_pmr_ops cur → vma_heap child' = Some i) ∧
    (∀ a n v p', access_size_ok n → accessible (mk_process child' h) a n →
       direct_write n a v (mk_process child' h) = Ok p' →
       ∀ x, byte_at (mk_process cur (heap p')) x = byte_at (mk_process cur h) x) ∧
    (∀ a n v p', access_size_ok n → accessible (mk_process cur h) a n →
       direct_write n a v (mk_process cur h) = Ok p' →
       ∀ x, byte_at (mk_process child' (heap p')) x = byte_at (mk_process child' h) x).
Proof. apply duplicate_memory_spec. Qed.

(** ** Freeing the memory *)
Definition freed (h : host_heap) (A : list pm_region_operation) : host_heap :=
  foldl (λ h r, match host_base r with Some b => delete b h | None => h end) h A.

Lemma freed_lookup h A b :
  freed h A !! b = if decide (b ∈ omap host_base A) then None else h !! b.
Proof.
  unfold freed. revert h. induction A as [|r A IH]; intros h; [by rewrite decide_False by apply not_elem_of_nil|].
  cbn [foldl omap list_omap]. rewrite IH. change (list_omap _ _ host_base A) with (omap host_base A).
  destruct (host_base r) as [c|] eqn:Hc; [|done]. destruct (decide (b ∈ omap host_base A)).
  - rewrite decide_True; [done|by right].
  - destruct (decide (b = c)) as [-> |Hne].
    + rewrite decide_True by by left. apply lookup_delete_eq.
    + rewrite decide_False by (rewrite elem_of_cons; tauto). by apply lookup_delete_ne.
Qed.

Lemma reclaim_loop_spec B : ∀ A rest nr vh vs h,
  Forall (λ r, pmr_reclaim r = Some vma_generic) B →
  ∃ B', length B' = length B ∧
    reclaim_loop (length B) (Z.of_nat (length A)) (mk_process (mk_space nr (A ++ B ++ rest) vh vs) h) =
    Ok (mk_process (mk_space nr (A ++ B' ++ rest) vh vs) (freed h B)).
Proof.
  induction B as [|r B IH]; intros A rest nr vh vs h Hr; [by exists []|].
  apply Forall_cons in Hr as [Hr HB]. cbn [length reclaim_loop space pmr_ops app]. unfold ELEM at 1. rewrite zget_middle.
  cbn [deref mbind outcome_bind]. rewrite Hr. destruct (vma_generic_reclaim r h) as [r' h'] eqn:Hv.
  cbn [heap]. rewrite Hv. unfold set_region. cbn [pmr_ops]. rewrite zset_middle. cbn [deref mbind outcome_bind nr_pmr_ops vma_heap vma_stack].
  destruct (IH (A ++ [r']) rest nr vh vs h' HB) as (B' & Hl & Hrun). exists (r' :: B'). split; [cbn [length]; lia|].
  rewrite <- !app_assoc in Hrun. cbn [app] in Hrun. rewrite length_app in Hrun. cbn [length] in Hrun.
  replace (Z.of_nat (length A) + 1) with (Z.of_nat (length A + 1)) by lia. rewrite Hrun. cbn [app]. do 2 f_equal.
  unfold freed. cbn [foldl]. f_equal. unfold vma_generic_reclaim in Hv. by destruct (host_base r); injection Hv as <- <-.
Qed.

Lemma reclaim_spec p :
  mem_ok p → Forall (λ r, pmr_reclaim r = Some vma_generic) (regions (space p)) →
  ∃ p', reclaim_virtual_memory p = Ok p' ∧ mem_ok p' ∧ regions (space p') = [] ∧
    (∀ b, heap p' !! b = if decide (b ∈ omap host_base (regions (space p))) then None else heap p !! b) ∧
    ∀ vm, mem_ok (mk_process vm (heap p)) → separate (space p) vm →
      mem_ok (mk_process vm (heap p')) ∧ ∀ x, byte_at (mk_process vm (heap p')) x = byte_at (mk_process vm (heap p)) x.
Proof.
  intros Hok Hrc. pose proof (mo_table _ Hok) as Ht. pose proof (regions_length _ Ht) as Hrl.
  destruct p as [[nr ops vh vs] h]. cbn [space heap] in *. unfold reclaim_virtual_memory. cbn [space nr_pmr_ops] in *.
  set (vm := mk_space nr ops vh vs) in *.
  destruct (reclaim_loop_spec (regions vm) [] (drop (Z.to_nat nr) ops) nr vh vs h Hrc) as (B' & Hl & Hrun).
  cbn [app length] in Hrun. change (Z.of_nat 0) with 0 in Hrun. change (regions vm ++ drop _ ops) with (take (Z.to_nat nr) ops ++ drop (Z.to_nat nr) ops) in Hrun.
  rewrite take_drop in Hrun. fold vm in Hrun.
  replace (reclaim_loop (Z.to_nat nr)) with (reclaim_loop (length (regions vm))) by (f_equal; lia). rewrite Hrun.
  cbn [mbind outcome_bind space pmr_ops heap]. eexists. split; [done|].
  assert (Hlen : length (B' ++ drop (Z.to_nat nr) ops) = Z.to_nat MAX_VMA_NR).
  { rewrite length_app, Hl, <- length_app. change (regions vm ++ _) with (take (Z.to_nat nr) ops ++ drop (Z.to_nat nr) ops).
    rewrite take_drop. apply Ht. }
  split_and!.
  - split; [split; [done|done|constructor|]|by intros ? ? ?%not_elem_of_nil|constructor]. intros i j a b _ Ha. by destruct i.
  - done.
  - intros b. cbn [heap]. apply freed_lookup.
  - intros vm2 Hok2 Hsep. cbn [heap]. apply frame_memory; [done|]. intros r2 b2 Hr2 Hb2.
    rewrite freed_lookup, decide_False; [done|]. intros (r1 & Hr1 & Hb1)%list_elem_of_omap. by eapply (Hsep r1 r2).
Qed.

(** [reclaim_virtual_memory] leaves an empty, well-formed address space
    and frees exactly the blocks of the process: a process that shares no block
    with it keeps its memory. *)
Theorem reclaim_correct p :
  mem_ok p → Forall (λ r, pmr_reclaim r = Some vma_generic) (regions (space p)) →
  ∃ p', reclaim_virtual_memory p = Ok p' ∧ mem_ok p' ∧ regions (space p') = [] ∧
    (∀ b, heap p' !! b = if decide (b ∈ omap host_base (regions (space p))) then None else heap p !! b) ∧
    ∀ vm, mem_ok (mk_process vm (heap p)) → separate (space p) vm →
      mem_ok (mk_process vm (heap p')) ∧ ∀ x, byte_at (mk_process vm (heap p')) x = byte_at (mk_process vm (heap p)) x.
Proof. apply reclaim_spec. Qed.

(** ** The copy of the files *)

(** An entry that [duplicate_files] can copy: sockets, and files with a path. *)
Definition cloneable (f : file) : Prop :=
  valid f = true →
  match file_type f with
  | FILE_TYPE_REGULAR => is_Some (host_cpath f)
  | FILE_TYPE_SOCKET => True
  | FILE_TYPE_ERROR => False
  end.

(** [g] is the entry of the child for [f]: the same file under another host
    descriptor. *)
Definition same_file (f g : file) : Prop :=
  if valid f then g = with_host f (host_fd g) else g = no_file.

Section files_spec.
Context {K : Type} `{HK : HostKernel K} (kopen : K → gset Z) {HKok : HostKernelOk K kopen}.
(** Opening and duplicating a descriptor does not touch the emulator's memory. *)
Context (Hheap : ∀ c k h ret e k' h', opens c = true → kcall c k h = (ret, e, k', h') → h' = h).

(** What is true of a new entry: its host descriptor is new, or negative when the
    host failed. *)
Definition fresh_entry (k k' : K) (g : file) : Prop :=
  valid g = true → 0 <= host_fd g → host_fd g ∈ kopen k' ∧ host_fd g ∉ kopen k.

Lemma duplicate_file_spec f k h :
  cloneable f →
  ∃ g k', duplicate_file f k h = Ok (g, k', h) ∧ same_file f g ∧ kopen k ⊆ kopen k' ∧ fresh_entry k k' g.
Proof.
  intros Hc. unfold duplicate_file, same_file, fresh_entry. destruct f as [n hf v path fl md ty]; cbn [valid file_type host_cpath fflags fmode fd host_fd] in *.
  unfold cloneable in Hc. cbn [valid file_type host_cpath] in Hc.
  destruct v; cbn [negb]; [|by exists no_file, k]. specialize (Hc eq_refl).
  assert (Hop : ∀ c, opens c = true → ∃ ret e k', kcall c k h = (ret, e, k', h) ∧ kopen k ⊆ kopen k' ∧
            (0 <= sint 32 ret → sint 32 ret ∈ kopen k' ∧ sint 32 ret ∉ kopen k)).
  { intros c Hop. destruct (kcall c k h) as [[[ret e] k'] h'] eqn:Hk. pose proof (Hheap _ _ _ _ _ _ _ Hop Hk) as ->.
    exists ret, e, k'. split; [done|]. pose proof (hk_law _ _ _ _ _ _ _ Hk) as Hlaw.
    assert ((sint 32 ret < 0 ∧ kopen k' = kopen k) ∨ (0 <= sint 32 ret ∧ sint 32 ret ∉ kopen k ∧ kopen k' = {[sint 32 ret]} ∪ kopen k)) as [[? ->]|(? & ? & ->)]
      by (destruct c; try done; cbn [opens] in *; by rewrite ?Hop in Hlaw); [split; [done|lia]|].
    split; [set_solver|]. intros _. split; [set_solver|done]. }
  destruct ty; [done| |].
  - destruct Hc as [p ->]. destruct (Hop (h_open p fl md) eq_refl) as (ret & e & k' & -> & ? & ?). by eexists _, k'.
  - destruct (Hop (h_dup hf) eq_refl) as (ret & e & k' & -> & ? & ?). by eexists _, k'.
Qed.

Lemma duplicate_files_spec l k h :
  Forall cloneable l →
  ∃ l' k', duplicate_files l k h = Ok (l', k', h) ∧ Forall2 same_file l l' ∧ kopen k ⊆ kopen k' ∧
    Forall (fresh_entry k k') l' ∧
    ∀ i j f g, l' !! i = Some f → l' !! j = Some g → valid f = true → valid g = true → 0 <= host_fd f →
      host_fd f = host_fd g → i = j.
Proof.
  revert k. induction l as [|f l IH]; intros k Hl; [by exists [], k; split_and!; [..|intros [] ?]|].
  apply Forall_cons in Hl as [Hf Hl]. cbn [duplicate_files].
  destruct (duplicate_file_spec f k h Hf) as (g & k1 & -> & Hsame & Hs1 & Hg). cbn [mbind outcome_bind].
  destruct (IH k1 Hl) as (l' & k2 & -> & Hsame' & Hs2 & Hfr & Hinj). cbn [mbind outcome_bind].
  exists (g :: l'), k2. split_and!; [done|by constructor|set_solver| |].
  - constructor; [intros Hv Hp; destruct (Hg Hv Hp); set_solver|].
    eapply Forall_impl; [exact Hfr|]. intros q Hq Hv Hp. destruct (Hq Hv Hp). set_solver.
  - intros [|i] [|j] a b Ha Hb Hva Hvb Hp Heq; cbn in Ha, Hb; simplify_eq; [done|..|f_equal; by eapply Hinj].
    + destruct (Hg Hva Hp). pose proof (Forall_lookup_1 _ _ _ _ Hfr Hb Hvb ltac:(lia)) as [_ Hn]. rewrite Heq in *. done.
    + destruct (Hg Hvb ltac:(lia)). pose proof (Forall_lookup_1 _ _ _ _ Hfr Ha Hva Hp) as [_ Hn]. rewrite Heq in *. done.
Qed.

Lemma duplicate_files_good l k h :
  table_good l (kopen k) → Forall cloneable l →
  ∃ l' k', duplicate_files l k h = Ok (l', k', h) ∧ Forall2 same_file l l' ∧
    table_good l (kopen k') ∧ table_good l' (kopen k') ∧
    ∀ f g, f ∈ l → g ∈ l' → valid f = true → valid g = true → 0 <= host_fd f → host_fd f ≠ host_fd g.
Proof.
  intros [Hlen Hfd Hfree Hopen Hinj] Hc. destruct (duplicate_files_spec l k h Hc) as (l' & k' & Hrun & Hsame & Hsub & Hfr & Hinj').
  exists l', k'. split; [done|]. split; [done|].
  assert (Hs : ∀ i g, l' !! i = Some g → ∃ f, l !! i = Some f ∧ same_file f g)
    by (intros i g Hi; destruct (Forall2_lookup_r _ _ _ _ _ Hsame Hi) as (f & ? & ?); by exists f).
  split_and!.
  - split; try done. intros i f Hi Hv Hp. apply Hsub. by eapply Hopen.
  - split; [by rewrite <- (Forall2_length _ _ _ Hsame)|..|done].
    + intros i g Hi Hv. destruct (Hs i g Hi) as (f & Hf & Hsf). unfold same_file in Hsf.
      destruct (valid f) eqn:Hvf; [rewrite Hsf; exact (Hfd i f Hf Hvf)|]. by rewrite Hsf in Hv.
    + intros i g Hi Hv. destruct (Hs i g Hi) as (f & Hf & Hsf). unfold same_file in Hsf.
      destruct (valid f) eqn:Hvf; [|done]. rewrite Hsf in Hv. cbn in Hv. congruence.
    + intros i g Hi Hv Hp. by destruct (Forall_lookup_1 _ _ _ _ Hfr Hi Hv Hp).
  - intros f g [i Hi]%list_elem_of_lookup [j Hj]%list_elem_of_lookup Hvf Hvg Hp Heq.
    pose proof (Forall_lookup_1 _ _ _ _ Hfr Hj Hvg ltac:(lia)) as [_ Hn]. apply Hn. rewrite <- Heq. by eapply Hopen.
Qed.

(** with a consistent table whose entries are sockets or have a path,
    [duplicate_files] succeeds and gives the child the same files at the same
    numbers; both tables are consistent with the host, and no open host
    descriptor of the child is one of the parent, so that neither process closes
    a file of the other. *)
Theorem fork_files_correct l k h :
  table_good l (kopen k) → Forall cloneable l →
  ∃ l' k', duplicate_files l k h = Ok (l', k', h) ∧ Forall2 same_file l l' ∧
    table_good l (kopen k') ∧ table_good l' (kopen k') ∧
    ∀ f g, f ∈ l → g ∈ l' → valid f = true → valid g = true → 0 <= host_fd f → host_fd f ≠ host_fd g.
Proof. apply duplicate_files_good. Qed.

End files_spec.

(** ** A fork *)
Section fork.
Context `{HA : HostAlloc} {HAok : HostAllocOk} {K : Type} `{HK : HostKernel K} (kopen : K → gset Z)
  {HKok : HostKernelOk K kopen}.

(** C20: a clone that asks to share nothing (fork) returns, when the caller's
    regions have memory and its files can be copied: the child has the caller's
    registers except that a0 is 0 and the pc is behind the ecall, the same memory,
    directories and files.  A thread (CLONE_VM, CLONE_FS, CLONE_FILES and
    CLONE_THREAD) copies nothing and starts on the stack it is given. *)
Theorem clone_data_correct flags cs d k h :
  (∀ h n, is_Some (aligned_alloc h n)) →
  (∀ c k h ret e k' h', opens c = true → kcall c k h = (ret, e, k', h') → h' = h) →
  wf_guest (dregs d) → mem_ok (mk_process (dspace d) h) → Forall has_memory (regions (dspace d)) →
  table_good (dfiles d) (kopen k) → Forall cloneable (dfiles d) →
  let shared := [Sched.CLONE_VM; Sched.CLONE_FS; Sched.CLONE_FILES; Sched.CLONE_THREAD] in
  (Forall (λ f, Sched.flag flags f = false) shared →
   ∃ d' k' h', clone_data flags cs d k h = Ok (d', k', h') ∧
     pc (dregs d') = w32 (pc (dregs d) + 4) ∧ gpr (dregs d') 10 = 0 ∧
     (∀ i, 0 <= i < 32 → i ≠ 10 → gpr (dregs d') i = gpr (dregs d) i) ∧
     mem_ok (mk_process (dspace d') h') ∧
     (∀ x, byte_at (mk_process (dspace d') h') x = byte_at (mk_process (dspace d) h) x) ∧
     droot d' = droot d ∧ dcwd d' = dcwd d ∧ Forall2 same_file (dfiles d) (dfiles d')) ∧
  (Forall (λ f, Sched.flag flags f = true) shared → cs ≠ 0 →
   clone_data flags cs d k h =
     Ok (mk_data (dspace zero_data) (dfiles zero_data) (droot zero_data) (dcwd zero_data)
           (set_gpr (child_registers (dregs d)) 2 cs), k, h)).
Proof.
  intros Hmem Hheap Hwf Hok Hm Hgood Hcl shared. subst shared. unfold clone_data, task_vm_init, task_fs_init, task_files_init, thread_stack.
  rewrite !Forall_cons. split.
  - intros (-> & -> & -> & -> & _).
    destruct (duplicate_memory_spec (dspace d) (dspace zero_data) h Hmem Hok Hm) as (vm & h1 & -> & _ & Hc & Hb & _); [done|].
    cbn [mbind outcome_bind]. destruct (duplicate_files_good kopen Hheap (dfiles d) k h1 Hgood Hcl) as (l' & k' & -> & Hsame & _).
    cbn [mbind outcome_bind]. eexists _, k', h1. split; [done|]. cbn [dregs dspace droot dcwd dfiles].
    unfold child_registers. split_and!; [done| | |done|intros x; apply Hb|done..].
    + change (gpr (set_gpr (dregs d) 10 0) 10 = 0). by apply gpr_set_eq.
    + intros i Hi Hne. change (gpr (set_gpr (dregs d) 10 0) i = gpr (dregs d) i). apply gpr_set_ne; lia.
  - intros (-> & -> & -> & -> & _) Hcs. cbn [mbind outcome_bind]. zbool; try done.
Qed.

End fork.

(** ** Concrete processes *)
Lemma fork_memory_correct_witness :
  ∃ child' h, duplicate_virtual_memory (HA := bump_alloc) (space demo_process) (dspace zero_data) (heap demo_process) = Ok (child', h) ∧
    ∀ x, byte_at (mk_process child' h) x = byte_at demo_process x.
Proof.
  destruct (fork_memory_correct (HA := bump_alloc) (HAok := bump_alloc_ok) (space demo_process) (dspace zero_data) (heap demo_process))
    as (child' & h & Hrun & _ & _ & Hb & _).
  - intros h n. by eexists.
  - apply demo_process_ok.
  - repeat constructor; (by eexists) || (cbn; lia).
  - reflexivity.
  - exists child', h. split; [exact Hrun|]. intros x. apply Hb.
Defined.

Lemma reclaim_correct_witness :
  ∃ p', reclaim_virtual_memory demo_process = Ok p' ∧ mem_ok p' ∧ regions (space p') = [].
Proof.
  destruct (reclaim_correct demo_process demo_process_ok) as (p' & Hrun & Hok & Hr & _).
  - repeat constructor.
  - by exists p'.
Defined.

Lemma counting_kernel_memory c k h ret e k' h' :
  opens c = true → kcall (K := gset Z) c k h = (ret, e, k', h') → h' = h.
Proof. unfold kcall, counting_kernel. destruct c; try done; intros ->; destruct (_ <? _); congruence. Qed.

Lemma demo_cloneable : Forall cloneable (files demo_vfs).
Proof.
  apply Forall_lookup. intros i f Hf. cbn [files demo_vfs] in Hf. destruct (decide (i = 0%nat)) as [-> |Hi].
  - injection Hf as <-. intros _. by eexists.
  - rewrite list_lookup_insert_ne in Hf by done. apply lookup_replicate in Hf as [-> _]. by intros ?.
Qed.

Lemma fork_files_correct_witness :
  ∃ l' k', duplicate_files (files demo_vfs) (kernel demo_vfs) (heap demo_process) = Ok (l', k', heap demo_process) ∧
    Forall2 same_file (files demo_vfs) l' ∧ table_good (files demo_vfs) k' ∧ table_good l' k' ∧
    ∀ f g, f ∈ files demo_vfs → g ∈ l' → valid f = true → valid g = true → 0 <= host_fd f → host_fd f ≠ host_fd g.
Proof.
  apply (fork_files_correct (λ k, k) counting_kernel_memory (files demo_vfs) (kernel demo_vfs) (heap demo_process));
    [apply demo_vfs_good|apply demo_cloneable].
Defined.

Definition demo_data : vm_data :=
  mk_data (space demo_process) (files demo_vfs) (cstring "/srv/root") (cstring "/") (mk_guest (replicate 32 7) 0x1000).

Lemma clone_data_correct_witness :
  ∃ d' k' h', clone_data (HA := bump_alloc) 17 0 demo_data (kernel demo_vfs) (heap demo_process) = Ok (d', k', h') ∧
    gpr (dregs d') 10 = 0 ∧ pc (dregs d') = 0x1004.
Proof.
  destruct (clone_data_correct (HA := bump_alloc) (HAok := bump_alloc_ok) (λ k, k) 17 0 demo_data (kernel demo_vfs) (heap demo_process))
    as [Hfork _].
  - intros h n. by eexists.
  - apply counting_kernel_memory.
  - split_and!; [done| |done]. apply Forall_replicate. done.
  - apply demo_process_ok.
  - repeat constructor; (by eexists) || (cbn; lia).
  - apply demo_vfs_good.
  - apply demo_cloneable.
  - destruct Hfork as (d' & k' & h' & Hrun & Hpc & Ha0 & _); [by repeat constructor|]. exists d', k', h'. done.
Defined.

(** ** Where a copy fails *)

(** Before the first brk the heap is a region of one byte without memory: a fork
    copies from a null pointer, so the clone does not return. *)
Theorem fork_before_brk :
  match heap_init 0x10000 (mk_process (dspace zero_data) ∅) with
  | Ok p => duplicate_virtual_memory (HA := bump_alloc) (space p) (dspace zero_data) (heap p) = Err EUndef ∧
      ¬ SchedTask.clonable 0 0
          (copies_of (HA := bump_alloc) 0 (mk_data (space p) (replicate 128 no_file) [] [] (mk_guest [] 0)) (∅ : gset Z) (heap p))
  | Err _ => False
  end.
Proof.
  destruct (heap_init 0x10000 (mk_process (dspace zero_data) ∅)) as [p|] eqn:Hp; [|by vm_compute in Hp].
  assert (duplicate_virtual_memory (HA := bump_alloc) (space p) (dspace zero_data) (heap p) = Err EUndef) as Hd
    by (vm_compute in Hp; injection Hp as <-; by vm_compute).
  split; [done|]. intros [Hm _ _]. specialize (Hm eq_refl). cbn [copies_of Sched.copy_memory dspace] in Hm. by rewrite Hd in Hm.
Qed.

(** A fork from a thread copies the empty table of the thread, not the memory it
    uses. *)
Theorem fork_from_thread :
  duplicate_virtual_memory (HA := bump_alloc) (dspace zero_data) (dspace zero_data) (heap demo_process) =
    Ok (dspace zero_data, heap demo_process).
Proof. reflexivity. Qed.

(** The entry of a duplicated socket has no type: the next fork stops the
    emulator. *)
Theorem fork_after_socket_dup :
  let v := mk_vfs (<[0%nat := mk_file 0 5 true None 0 0 FILE_TYPE_SOCKET]> (replicate 128 no_file)) [] [] demo_process {[ 5 ]} in
  match call_dup 0 v with
  | Ok (r, v') => r = 1 ∧ duplicate_files (files v') (kernel v') (heap demo_process) = Err EAssert
  | Err _ => False
  end.
Proof. vm_compute. done. Qed.

End Fork.
