(* ===== verification/Exec.v ===== *)
(** * execve: task.c

    [call_execve] copies the file name and the strings of the two vectors out of
    the guest, frees the old memory, resolves the name below the root, and loads
    the new program with [program_init] and [env_setup] of Loader.  Theorem: a
    process that has its memory to itself continues in the new program with the
    memory of the executable and a stack that holds the old process's strings.  A
    thread that shares its parent's memory does not: see [execve_in_thread]. *)
From S2P Require Import Prelude SortSearch X86 Hart PmRegion Vma VmaOps Path Vfs Loader Fork.
Import Macros X86 PmRegion Vma VmaOps Path Loader Fork.

Module Exec.

(** A C string at a host pointer. *)
Definition read_string (h : host_heap) (ptr : option Z * Z) : outcome (list Z) :=
  b ← deref (fst ptr);
  l ← deref (h !! b);
  let rest := drop (Z.to_nat (snd ptr)) l in
  if (0 <=? snd ptr) && bool_decide (0 ∈ rest) then Ok (upto_nul rest) else Err EUndef.

(** The loops over [argv] and [envp]: at most [n] strings, up to a null pointer. *)
Fixpoint copy_strings (n : nat) (vec : option Z * Z) (p : process) : outcome (list (list Z)) :=
  match n with
  | O => Ok []
  | S n =>
      v ← load (heap p) vec 4;
      if v =? 0 then Ok [] else
      ptr ← user_world_pointer p v;
      s ← read_string (heap p) ptr;
      rest ← copy_strings n (fst vec, snd vec + 4) p;
      Ok (s :: rest)
  end.

(** [tfp_sprintf(buf, "%s/%s", a, b)] to a buffer of MAX_PATH bytes. *)
Definition join_path (a b : list Z) : outcome (list Z) :=
  let s := a ++ [SLASH] ++ b in
  if Z.of_nat (length s) <? MAX_PATH then Ok (s ++ [0]) else Err EUndef.

(** [for (; *ptr && *ptr == ' '; ptr++);] *)
Fixpoint skip_spaces (s : list Z) : list Z :=
  match s with
  | [] => []
  | c :: rest => if c =? SPACE then skip_spaces rest else s
  end.

(** The host path of the program; [buffer] is what the local buffers hold. *)
Definition exec_path (buffer root cwd filename : list Z) : outcome (list Z) :=
  let ptr := skip_spaces filename in
  guest_cpath ←
    (if bool_decide (head ptr = Some SLASH) then canonicalize_path_name buffer (ptr ++ [0])
     else guest_path ← join_path cwd ptr; canonicalize_path_name buffer guest_path);
  host_path ← join_path root (upto_nul guest_cpath);
  host_cpath ← canonicalize_path_name buffer host_path;
  Ok (upto_nul host_cpath).

(** hart.h *)
Definition reset_registers : guest := mk_guest (replicate 32 0) 0.

Lemma reset_registers_wf : wf_guest reset_registers.
Proof. split_and!; [done| |done]. by apply Forall_replicate. Qed.

Section code.
Context `{HR : HostRead} `{HA : HostAlloc}.
(** The executable at a host path, and what the local buffers hold. *)
Context (exec_file : list Z → option (list Z)) (buffer : list Z).

(** [vm_vm] is the process whose memory the caller uses, [self] tells whether it is
    the caller itself.  The results are the registers of the caller, from which it
    is resumed, its translation cache, and the state of [vm_vm]. *)
Definition call_execve (self : bool) (filename_addr argv_addr envp_addr : Z) (cache : Hart.hart) (vm_vm : vm_data)
    (h : host_heap) : outcome (guest * Hart.hart * vm_data * host_heap) :=
  let p := mk_process (dspace vm_vm) h in
  fp ← user_world_pointer p filename_addr;
  filename ← read_string h fp;
  argv ← user_world_pointer p argv_addr;
  envp ← user_world_pointer p envp_addr;
  host_argv ← copy_strings (Z.to_nat (Loader.MAX_NR_ARGV - 1)) argv p;
  host_envp ← copy_strings (Z.to_nat Loader.MAX_NR_ENVP) envp p;
  (if size host_envp <? Loader.MAX_NR_ENVP then Ok tt else Err EUndef);;
  p ← reclaim_virtual_memory p;
  host_cpath ← exec_path buffer (upto_nul (droot vm_vm)) (upto_nul (dcwd vm_vm)) filename;
  a ← program_init (exec_file host_cpath) (mk_app p (if self then reset_registers else dregs vm_vm));
  a ← env_setup host_argv host_envp a;
  Ok (if self then cpu a else reset_registers, Hart.flush_translation_cache cache,
      mk_data (space (memory a)) (dfiles vm_vm) (droot vm_vm) (dcwd vm_vm) (cpu a), heap (memory a)).

End code.

(** ** The strings of the guest *)

(** [bytes] lie at address [a], inside one region. *)
Definition held (p : process) (a : Z) (bytes : list Z) : Prop :=
  ∃ r b, r ∈ regions (space p) ∧ host_base r = Some b ∧ pmr_direct r = Some vma_generic ∧
    addr_low r <= a ∧ a + size bytes <= addr_high r ∧ holds p a bytes.

Lemma held_block p a bytes :
  mem_ok p → 0 < size bytes → held p a bytes →
  ∃ b l off rest, user_world_pointer p a = Ok (Some b, off) ∧ heap p !! b = Some l ∧ 0 <= off ∧
    Forall is_byte l ∧ drop (Z.to_nat off) l = bytes ++ rest.
Proof.
  intros Hok Hn (r & b & Hr & Hb & Hdir & Hlo & Hhi & Hh). assert (Hin : inside a r) by (unfold inside; lia).
  destruct (access_region p r b a Hok Hr Hin Hb) as (i & l & Hs & Hz & (? & ? & _) & Hl & Hlen & Hbl & Hd).
  exists b, l, (a - addr_low r), (drop (length bytes) (drop (Z.to_nat (a - addr_low r)) l)).
  unfold user_world_pointer, ELEM. rewrite Hs. cbn [mbind outcome_bind]. rewrite Hz. cbn [deref mbind outcome_bind].
  rewrite Hdir, Hd. split_and!; [done|done|lia|done|].
  rewrite <- (take_drop (length bytes) (drop (Z.to_nat (a - addr_low r)) l)) at 1. f_equal. unfold size in *.
  apply list_eq_same_length with (n := length bytes); [done|rewrite length_take, length_drop; lia|].
  intros k x y Hk Hx Hy. rewrite lookup_take_lt, lookup_drop in Hx by done.
  specialize (Hh k y Hy). rewrite (byte_at_region p r) in Hh by (done || apply Hok || (unfold inside; lia)).
  unfold region_bytes in Hh. rewrite Hb in Hh. cbn in Hh. rewrite Hl in Hh. cbn in Hh. apply zget_Some in Hh as [_ Hh].
  replace (Z.to_nat (a + Z.of_nat k - addr_low r)) with (Z.to_nat (a - addr_low r) + k)%nat in Hh by lia.
  congruence.
Qed.

(** A C string of the guest. *)
Definition guest_string (p : process) (a : Z) (s : list Z) : Prop :=
  held p a (s ++ [0]) ∧ Forall (λ c, c ≠ 0) s.

Lemma read_string_spec p a s :
  mem_ok p → guest_string p a s →
  ∃ ptr, user_world_pointer p a = Ok ptr ∧ read_string (heap p) ptr = Ok s ∧ Forall is_byte s.
Proof.
  intros Hok [Hh Hs]. destruct (held_block p a (s ++ [0]) Hok) as (b & l & off & rest & Hu & Hl & Ho & Hby & Hd);
    [unfold size; rewrite length_app; simpl; lia|done|]. rewrite <- app_assoc in Hd. cbn [app] in Hd.
  exists (Some b, off). split; [done|]. unfold read_string. cbn [fst snd deref mbind outcome_bind].
  rewrite Hl. cbn [deref mbind outcome_bind]. rewrite Hd, bool_decide_true by (apply elem_of_app; right; by left).
  zbool; try lia. cbn [andb]. rewrite upto_nul_app by done. split; [done|].
  apply (Forall_drop is_byte (Z.to_nat off)) in Hby. rewrite Hd in Hby. by apply Forall_app in Hby as [? _].
Qed.

(** A vector of strings: pointers up to a null pointer. *)
Definition guest_vector (p : process) (a : Z) (strs : list (list Z)) : Prop :=
  ∃ ptrs, held p a (words (ptrs ++ [0])) ∧ Forall2 (λ v s, word32 v ∧ v ≠ 0 ∧ guest_string p v s) ptrs strs.

Lemma copy_loop_spec p b l ptrs strs : ∀ n off rest,
  mem_ok p → heap p !! b = Some l → 0 <= off → drop (Z.to_nat off) l = words (ptrs ++ [0]) ++ rest →
  Forall2 (λ v s, word32 v ∧ v ≠ 0 ∧ guest_string p v s) ptrs strs → (length strs <= n)%nat →
  copy_strings n (Some b, off) p = Ok strs ∧ Forall (Forall is_byte) strs.
Proof.
  intros n off rest Hok Hl Ho Hd Hf. revert n off Ho Hd.
  assert (Hload : ∀ v vs off, 0 <= off → word32 v → drop (Z.to_nat off) l = words (v :: vs) ++ rest →
    load (heap p) (Some b, off) 4 = Ok v ∧ drop (Z.to_nat (off + 4)) l = words vs ++ rest).
  { intros v vs off Ho Hv Hd. change (words (v :: vs)) with (word v ++ words vs) in Hd. rewrite <- app_assoc in Hd.
    assert (Hw : length (word v) = 4%nat) by apply le_split_length. pose proof (f_equal length Hd) as Hlen.
    rewrite length_drop, !length_app, Hw in Hlen. split.
    - unfold load. cbn [fst snd deref mbind outcome_bind]. rewrite Hl. cbn [deref mbind outcome_bind]. zbool; try lia.
      cbn [andb]. rewrite Hd, take_app_length' by done. f_equal. unfold word. rewrite le_combine_split. apply Z.mod_small, Hv.
    - replace (Z.to_nat (off + 4)) with (Z.to_nat off + 4)%nat by lia. rewrite <- drop_drop, Hd. by apply drop_app_length'. }
  induction Hf as [|v s ptrs strs (Hv & Hv0 & Hs) _ IH]; intros n off Ho Hd Hn.
  - split; [|constructor]. destruct n as [|n]; [done|]. cbn [copy_strings app] in *.
    by rewrite (proj1 (Hload 0 [] off Ho ltac:(done) Hd)).
  - destruct n as [|n]; [simpl in Hn; lia|]. cbn [copy_strings app] in *. destruct (Hload v _ off Ho Hv Hd) as [-> Hd'].
    cbn [mbind outcome_bind]. zbool; try lia.
    destruct (read_string_spec p v s Hok Hs) as (ptr & -> & Hr & Hb). cbn [mbind outcome_bind]. rewrite Hr. cbn [mbind outcome_bind fst snd].
    destruct (IH n (off + 4)) as [-> Hbs]; [lia|done|simpl in Hn; lia|]. cbn [mbind outcome_bind]. split; [done|by constructor].
Qed.

Lemma copy_strings_spec p a strs n :
  mem_ok p → guest_vector p a strs → (length strs <= n)%nat →
  ∃ ptr, user_world_pointer p a = Ok ptr ∧ copy_strings n ptr p = Ok strs ∧ Forall (Forall is_byte) strs.
Proof.
  intros Hok (ptrs & Hh & Hf) Hn.
  destruct (held_block p a (words (ptrs ++ [0])) Hok) as (b & l & off & rest & Hu & Hl & Ho & _ & Hd);
    [unfold size; rewrite words_length, length_app; simpl; lia|done|].
  exists (Some b, off). split; [done|]. by eapply copy_loop_spec.
Qed.

(** ** The path of the program *)

(** The path by the reference definition. *)
Definition guest_target (cwd filename : list Z) : list Z :=
  let ptr := skip_spaces filename in
  if bool_decide (head ptr = Some SLASH) then ptr else cwd ++ [SLASH] ++ ptr.

Definition exec_target (root cwd filename : list Z) : list Z :=
  canonical_path (root ++ [SLASH] ++ canonical_path (guest_target cwd filename)).

Lemma skip_spaces_sub s : sublist (skip_spaces s) s.
Proof. induction s as [|c s IH]; [done|]. cbn. destruct (c =? SPACE); [by apply sublist_cons|done]. Qed.

#[local] Opaque canonicalize_path_name canonical_path.

Lemma guest_target_ok cwd filename :
  cwd_ok cwd → Forall (λ c, c ≠ 0) filename →
  let g := guest_target cwd filename in
  Forall (λ c, c ≠ 0) g ∧ head g = Some SLASH ∧ (length g <= length cwd + length filename + 1)%nat.
Proof.
  intros (C & -> & HC & _) Hf g. subst g. pose proof (skip_spaces_sub filename) as Hsub.
  assert (Hp : Forall (λ c, c ≠ 0) (skip_spaces filename)) by by eapply sublist_Forall.
  apply sublist_length in Hsub. unfold guest_target. case_bool_decide as Hh; [split_and!; [done|done|lia]|]. split_and!.
  - rewrite !Forall_app. split_and!; [by apply slash_words_nonzero|by repeat constructor..|done].
  - destruct HC as [|x C (w & -> & _) _]; [done|]. by rewrite mjoin_cons.
  - rewrite !length_app. cbn [length]. lia.
Qed.

Lemma target_words g :
  Forall (λ c, c ≠ 0) g → head g = Some SLASH →
  ∃ L, [SLASH] ++ canonical_path g = mjoin L ∧ Forall slash_word L ∧ Forall (λ x, ¬ up_word x) L.
Proof.
  intros Hg Hh. destruct (guest_words g [SLASH] true Hg) as (L & HL & HL1 & HL2); [by exists []|done|].
  exists ([SLASH] :: L). cbn [app] in HL. rewrite HL, mjoin_cons. split_and!; [done|constructor; [by exists []|done]|by constructor].
Qed.

Lemma join_path_ok a b : (length a + length b + 1 < 511)%nat → join_path a b = Ok ((a ++ [SLASH] ++ b) ++ [0]).
Proof. intros. unfold join_path. rewrite (proj2 (Z.ltb_lt _ _)); [done|]. unfold MAX_PATH. rewrite !length_app. cbn [length]. lia. Qed.

Lemma Ok_bind {A B} (x : A) (f : A → outcome B) : (y ← Ok x; f y) = f x.
Proof. done. Qed.

Lemma guest_step buffer cwd filename r :
  (length cwd + length filename + 1 < 511)%nat →
  canonicalize_path_name buffer (guest_target cwd filename ++ [0]) = Ok r →
  (if bool_decide (head (skip_spaces filename) = Some SLASH)
   then canonicalize_path_name buffer (skip_spaces filename ++ [0])
   else guest_path ← join_path cwd (skip_spaces filename); canonicalize_path_name buffer guest_path) = Ok r.
Proof.
  intros Hlen. pose proof (sublist_length _ _ (skip_spaces_sub filename)) as Hsub.
  unfold guest_target. case_bool_decide; [done|]. by rewrite join_path_ok, Ok_bind by lia.
Qed.

Lemma host_step buffer root gc r b :
  (length root + length gc + 1 < 511)%nat → Forall (λ c, c ≠ 0) gc →
  canonicalize_path_name buffer ((root ++ [SLASH] ++ gc) ++ [0]) = Ok r →
  (host_path ← join_path root (upto_nul (gc ++ 0 :: b)); host_cpath ← canonicalize_path_name buffer host_path;
   Ok (upto_nul host_cpath)) = Ok (upto_nul r).
Proof.
  intros Hlen Hgc Hr. rewrite upto_nul_app by done. rewrite join_path_ok, Ok_bind, Hr, Ok_bind by done. reflexivity.
Qed.

Lemma exec_path_spec buffer root cwd filename :
  length buffer = 512%nat → root_ok root → cwd_ok cwd → Forall (λ c, c ≠ 0) filename →
  (length root + length cwd + length filename + 2 < 511)%nat →
  exec_path buffer root cwd filename = Ok (exec_target root cwd filename) ∧
  ∃ X, exec_target root cwd filename = root ++ mjoin X ∧ Forall component X.
Proof.
  intros Hbuf Hroot Hcwd Hf Hlen. destruct (guest_target_ok cwd filename Hcwd Hf) as (Hg & Hgh & Hgl).
  unfold exec_path, exec_target. generalize (guest_step buffer cwd filename).
  destruct (canonical_path_bounds _ Hg) as [Hc Hcl]. destruct (target_words _ Hg Hgh) as (L & HL & HL1 & HL2).
  destruct (canonicalize_spec _ [] buffer Hg ltac:(lia) Hbuf) as (r1 & Hc1 & _).
  generalize dependent (guest_target cwd filename). intros g Hg Hgh Hgl Hc Hcl HL Hc1 Hstep.
  assert (Hnz : Forall (λ c, c ≠ 0) (root ++ [SLASH] ++ canonical_path g))
    by (rewrite HL; apply Forall_app; split; [apply Hroot|by apply slash_words_nonzero]).
  destruct (canonicalize_spec _ [] buffer Hnz) as (r2 & Hc2 & _); [rewrite !length_app; cbn [length]; lia|done|].
  split.
  - cbv zeta. rewrite (Hstep _ ltac:(lia) Hc1). cbn [mbind outcome_bind].
    rewrite <- (upto_nul_app _ r2 (proj1 (canonical_path_bounds _ Hnz))). apply host_step; [lia|done|done].
  - rewrite HL, canonical_under_root by done. eexists. split; [done|]. by apply kept_components.
Qed.

(** ** The new program *)

(** Nothing of the old memory is left: outside the segments and the stack there is
    no byte, and the stack is zero but for what lies from [sp] on. *)
Definition only_new (segs : list elf32_program_header) (sp : Z) (p : process) : Prop :=
  ∀ x, (∀ ph, ph ∈ segs → ¬ covers ph x) →
    (¬ STACK_LOW <= x < DEFAULT_STACK_CELIING → byte_at p x = None) ∧
    (STACK_LOW <= x < DEFAULT_STACK_CELIING → ¬ sp <= x < DEFAULT_STACK_CELIING - 0x100 → byte_at p x = Some 0).

(** The stack of a loaded program takes the strings, and its segments stay. *)
Lemma stack_setup c hdr segs argv envp g p1 :
  loadable c hdr segs → program_memory c segs p1 → gpr g 2 = DEFAULT_STACK_CELIING - 0x100 →
  size argv <= 127 → size envp <= 127 → Forall (Forall is_byte) argv → Forall (Forall is_byte) envp →
  stack_need argv envp <= DEFAULT_STACK_CELIING - 0x100 - STACK_LOW →
  ∃ sp args envs p', env_setup argv envp (mk_app p1 g) = Ok (mk_app p' (set_gpr g 2 sp)) ∧
    mem_ok p' ∧ (∀ ph, ph ∈ segs → holds p' (p_vaddr ph) (segment_image c ph)) ∧
    holds p' sp (env_table (DEFAULT_STACK_CELIING - 0x100) (pc g) args envs) ∧
    Forall2 (holds p') args ((λ s, s ++ [0]) <$> argv) ∧ Forall2 (holds p') envs ((λ s, s ++ [0]) <$> envp) ∧ only_new segs sp p'.
Proof.
  intros Hld [Hok Hseg Hstk Hrest (r & Hr & Hst) _] Hsp Hna Hne Hba Hbe Hroom. destruct Hst as (Hlo & Hhi & Hdir & b & Hb).
  destruct (env_setup_spec (mk_app p1 g) argv envp r b) as (sp & args & envs & p' & Hrun & Hok' & _ & Hrange & Ht & Ha & He & Hkeep);
    cbn [memory cpu] in *; rewrite ?Hsp, ?Hlo; try done.
  { unfold inside. rewrite Hlo, Hhi. by vm_compute. }
  { unfold MAX_NR_ARGV. lia. }
  { unfold MAX_NR_ENVP. lia. }
  rewrite Hsp in *. exists sp, args, envs, p'. split_and!; try done.
  2: { intros x Hx. split; [|intros Hs Hn; rewrite Hkeep by done; by apply Hstk]. intros Hs.
    rewrite Hkeep; [by apply Hrest|]. unfold stack_need in *. lia. }
  intros ph Hph k x Hk. rewrite Hkeep; [by apply Hseg|].
  pose proof (ld_ok _ _ _ Hld) as Hsok. rewrite Forall_forall in Hsok. specialize (Hsok ph Hph).
  pose proof (segment_image_length c ph Hsok) as Hl. unfold size in Hl. apply lookup_lt_Some in Hk. destruct Hsok. lia.
Qed.

Section execve.
Context `{HR : HostRead} {HRok : HostReadOk} `{HA : HostAlloc} {HAok : HostAllocOk}.
Context (exec_file : list Z → option (list Z)) (buffer : list Z) (Hbuf : length buffer = 512%nat).
(** The host has memory. *)
Context (Hmem : ∀ h n, is_Some (aligned_alloc h n)).

(** What the guest passes and what the host finds. *)
Record execve_args (d : vm_data) (h : host_heap) (fa aa ea : Z) (filename : list Z) (argv envp : list (list Z))
    (c : list Z) (hdr : elf32_elf_header) (segs : list elf32_program_header) : Prop := {
  xa_ok : mem_ok (mk_process (dspace d) h);
  xa_regs : wf_guest (dregs d);
  xa_own : Forall (λ r, pmr_reclaim r = Some vma_generic) (regions (dspace d));
  xa_filename : guest_string (mk_process (dspace d) h) fa filename;
  xa_argv : guest_vector (mk_process (dspace d) h) aa argv;
  xa_envp : guest_vector (mk_process (dspace d) h) ea envp;
  xa_counts : size argv <= 127 ∧ size envp <= 127;
  xa_root : root_ok (upto_nul (droot d));
  xa_cwd : cwd_ok (upto_nul (dcwd d));
  xa_fits : (length (upto_nul (droot d)) + length (upto_nul (dcwd d)) + length filename + 2 < 511)%nat;
  xa_room : stack_need argv envp <= DEFAULT_STACK_CELIING - 0x100 - STACK_LOW;
  xa_found : exec_file (exec_target (upto_nul (droot d)) (upto_nul (dcwd d)) filename) = Some c;
  xa_loadable : loadable c hdr segs
}.

Lemma execve_spec (self : bool) cache d h fa aa ea filename argv envp c hdr segs :
  execve_args d h fa aa ea filename argv envp c hdr segs →
  ∃ sp args envs p',
    let g := set_gpr (set_pc (if self then reset_registers else dregs d) (e_entry hdr)) 2 sp in
    call_execve exec_file buffer self fa aa ea cache d h =
      Ok (if self then g else reset_registers, Hart.flush_translation_cache cache,
          mk_data (space p') (dfiles d) (droot d) (dcwd d) g, heap p') ∧
    mem_ok p' ∧ (∀ ph, ph ∈ segs → holds p' (p_vaddr ph) (segment_image c ph)) ∧
    holds p' sp (env_table (DEFAULT_STACK_CELIING - 0x100) (e_entry hdr) args envs) ∧
    Forall2 (holds p') args ((λ s, s ++ [0]) <$> argv) ∧ Forall2 (holds p') envs ((λ s, s ++ [0]) <$> envp) ∧ only_new segs sp p'.
Proof.
  intros [Hok Hwf Hown Hfn Hargv Henvp [Hna Hne] Hroot Hcwd Hfit Hroom Hfound Hld]. unfold call_execve.
  set (p := mk_process (dspace d) h) in *. pose proof (proj2 Hfn) as Hnz.
  destruct (read_string_spec p fa filename Hok Hfn) as (fp & -> & Hr & _). rewrite Ok_bind.
  change h with (heap p) at 1. rewrite Hr, Ok_bind. unfold size in Hna, Hne.
  destruct (copy_strings_spec p aa argv 127 Hok Hargv) as (vp & -> & Hcp & Hba); [lia|]. rewrite Ok_bind.
  destruct (copy_strings_spec p ea envp 128 Hok Henvp) as (ep & -> & Hcpe & Hbe); [lia|]. rewrite Ok_bind.
  change (Z.to_nat (MAX_NR_ARGV - 1)) with 127%nat. change (Z.to_nat MAX_NR_ENVP) with 128%nat. rewrite Hcp, Ok_bind, Hcpe, Ok_bind.
  rewrite (proj2 (Z.ltb_lt _ _)) by (unfold size, MAX_NR_ENVP; lia). rewrite Ok_bind.
  destruct (reclaim_spec p Hok Hown) as (p0 & -> & Hok0 & Hempty & _). rewrite Ok_bind.
  rewrite (proj1 (exec_path_spec buffer _ _ filename Hbuf Hroot Hcwd Hnz Hfit)), Ok_bind, Hfound.
  set (g0 := if self then reset_registers else dregs d).
  assert (Hw0 : wf_guest g0) by (unfold g0; destruct self; [apply reset_registers_wf|done]).
  destruct (program_init_spec Hmem c hdr segs (mk_app p0 g0) Hld Hok0 Hempty) as (p1 & -> & Hpm). rewrite Ok_bind.
  cbn [cpu]. set (g1 := set_gpr (set_pc g0 (e_entry hdr)) 2 (DEFAULT_STACK_CELIING - 0x100)).
  assert (Hset : ∀ sp, set_gpr g1 2 sp = set_gpr (set_pc g0 (e_entry hdr)) 2 sp)
    by (intros; unfold g1, set_gpr; cbn [registers pc]; by rewrite list_insert_insert_eq).
  destruct (stack_setup c hdr segs argv envp g1 p1 Hld Hpm) as (sp & args & envs & p' & -> & Hok' & Hseg & Ht & Ha & He & Hnew);
    try done; [|unfold size; lia..|].
  { destruct Hw0 as (Hl & _). unfold gpr, g1. cbn. apply list_lookup_total_insert_eq. rewrite Hl. lia. }
  rewrite Ok_bind, Hset. exists sp, args, envs, p'. cbn [cpu memory]. split_and!; done.
Qed.


(** A thread that calls execve gives the new program to the hart of the process it
    shares the memory of and is itself resumed at address 0 with no stack. *)
Theorem execve_in_thread cache d h fa aa ea filename argv envp c hdr segs :
  execve_args d h fa aa ea filename argv envp c hdr segs →
  ∃ cache' d' h', call_execve exec_file buffer false fa aa ea cache d h = Ok (reset_registers, cache', d', h') ∧
    pc (dregs d') = e_entry hdr ∧ pc reset_registers = 0 ∧ gpr reset_registers 2 = 0.
Proof. intros Ha. destruct (execve_spec false cache _ _ _ _ _ _ _ _ _ _ _ Ha) as (sp & args & envs & p' & -> & _). by eexists _, _, _. Qed.

End execve.

(** ** A concrete call: "/a" with itself as its only argument *)
Definition guest_page : list Z := cstring "/a" ++ [0] ++ words [0x1000; 0] ++ words [0].

Definition page_region : pm_region_operation := generic_region 0x1000 0x1010 6 "data" (Some 1).

Definition page_heap : host_heap := {[ 1 := guest_page ]}.

Definition demo_caller : vm_data :=
  mk_data (space_of [page_region]) [] (cstring "/srv/root") (cstring "/") (mk_guest (replicate 32 7) 0x1000).

Definition empty_cache : Hart.hart := Hart.mk_hart 0 [] ∅ 0.

Definition demo_files (path : list Z) : option (list Z) :=
  if bool_decide (path = chars "/srv/root/a") then Some demo_elf else None.

Lemma demo_caller_ok : mem_ok (mk_process (dspace demo_caller) page_heap).
Proof.
  split.
  - split; [done|done|repeat constructor; simpl; try lia; try done|].
    intros [|[|i]] [|[|j]] a b Hij Ha Hb; simplify_eq/=; lia.
  - intros r b Hr Hb. apply list_elem_of_singleton in Hr as ->. injection Hb as <-.
    exists guest_page. split; [done|]. split; [done|]. by apply (bool_decide_unpack _).
  - apply NoDup_singleton.
Qed.

Lemma page_held off (bytes : list Z) :
  0 <= off → take (length bytes) (drop (Z.to_nat off) guest_page) = bytes → off + size bytes <= 16 →
  held (mk_process (dspace demo_caller) page_heap) (0x1000 + off) bytes.
Proof.
  intros Ho Hb Hl. exists page_region, 1. split_and!; try done; [by apply list_elem_of_singleton|cbn; lia|cbn; lia|].
  intros k x Hk. pose proof (lookup_lt_Some _ _ _ Hk). unfold size in Hl.
  rewrite (byte_at_region _ page_region); [|apply demo_caller_ok|by apply list_elem_of_singleton|unfold inside; cbn; lia].
  change (zget guest_page (0x1000 + off + Z.of_nat k - 0x1000) = Some x). apply zget_Some. split; [lia|].
  rewrite <- Hb in Hk. rewrite lookup_take_lt, lookup_drop in Hk by done. rewrite <- Hk. f_equal. lia.
Qed.

Lemma demo_args :
  execve_args demo_files demo_caller page_heap 0x1000 0x1004 0x100c (chars "/a") [chars "/a"] [] demo_elf demo_header
    [demo_segment].
Proof.
  assert (Hs : guest_string (mk_process (dspace demo_caller) page_heap) 0x1000 (chars "/a")).
  { split; [by apply (page_held 0)|by apply (bool_decide_unpack _)]. }
  split; try done.
  - apply demo_caller_ok.
  - split_and!; [done| |done]. by apply Forall_replicate.
  - by repeat constructor.
  - exists [0x1000]. split; [by apply (page_held 4)|]. by constructor.
  - exists []. split; [by apply (page_held 12)|constructor].
  - split; [done|]. split; [by apply (bool_decide_unpack _)|].
    vm_compute. repeat constructor; try done; eexists; (split; [reflexivity|]); repeat constructor; done.
  - exists []. split; [done|]. split; constructor.
  - vm_compute. lia.
  - apply demo_loadable.
Qed.


End Exec.
