(* ===== verification/Debugger.v ===== *)
(** * The debugger: debug_breakpoint.c, debug.c and breakpoints_init of app.c

    The prologue of every translated instruction calls [enter_vmm_dbg_shell],
    which returns at once unless the pc is in the table of breakpoints; otherwise
    a shell reads lines from standard input, splits them into words, and runs the
    command with the longest matching prefix, an empty line repeating the last
    one.  Theorems: the table is a set of addresses; the prologue stops exactly at
    its elements; the shell on a sequence of lines is the sequence of their
    commands; a backtrace follows the chain of frames.

    Fixed text the commands print is left out; the addresses and words they show
    are kept in a list. *)
From S2P Require Import Prelude SortSearch X86 Hart PmRegion Vma Trap TransAmo Mmu Path.
Import Macros X86 Hart PmRegion Vma Trap TransAmo Mmu Path.

Module Debugger.

(** ** debug_breakpoint.c *)
Definition MAX_BREAKPOINTS : Z := 256.

(** [breakpoints] and [nr_breakpoints]. *)
Record bp_table := mk_bps {
  breakpoints : list Z;
  nr_breakpoints : Z
}.

Definition addr_cmp (paddr0 paddr1 : Z) : outcome Z := Ok (sint 32 (paddr0 - paddr1)).

Definition is_address_breakpoint (guest_addr : Z) (t : bp_table) : outcome bool :=
  pbp ← SEARCH addr_cmp (breakpoints t) (nr_breakpoints t) guest_addr;
  Ok (bool_decide (is_Some pbp)).

Definition add_breakpoint (guest_addr : Z) (t : bp_table) : outcome (Z * bp_table) :=
  if negb (Z.land guest_addr 0x3 =? 0) then Ok (-2, t) else
  if MAX_BREAKPOINTS <=? nr_breakpoints t then Ok (-1, t) else
  found ← is_address_breakpoint guest_addr t;
  if (found : bool) then Ok (0, t) else
  bps ← deref (zset (breakpoints t) (nr_breakpoints t) guest_addr);
  bps ← INSERTION_SORT addr_cmp bps (nr_breakpoints t + 1);
  Ok (0, mk_bps bps (nr_breakpoints t + 1)).

(** ** The C library functions on strings: a string is its characters without the NUL *)
Definition isspace (c : Z) : bool := (9 <=? c) && (c <=? 13) || (c =? 32).

Fixpoint skip_blanks (s : list Z) : list Z :=
  match s with [] => [] | c :: r => if isspace c then skip_blanks r else s end.

(** The value of a digit in [base], 10 or 16. *)
Definition digit_of (base c : Z) : option Z :=
  let d := if (48 <=? c) && (c <=? 57) then c - 48
           else if (97 <=? c) && (c <=? 122) then c - 87
           else if (65 <=? c) && (c <=? 90) then c - 55 else base in
  if d <? base then Some d else None.

Fixpoint digits (base acc : Z) (s : list Z) : Z :=
  match s with
  | [] => acc
  | c :: r => match digit_of base c with Some d => digits base (acc * base + d) r | None => acc end
  end.

(** The prefix 0x, when a digit follows. *)
Definition skip_0x (s : list Z) : list Z :=
  match s with
  | 48 :: x :: d :: r =>
      if ((x =? 120) || (x =? 88)) && bool_decide (is_Some (digit_of 16 d)) then d :: r else s
  | _ => s
  end.

Definition strtol (base : Z) (s : list Z) : Z :=
  let s := skip_blanks s in
  let '(neg, s) := match s with 45 :: r => (true, r) | 43 :: r => (false, r) | _ => (false, s) end in
  let s := if base =? 16 then skip_0x s else s in
  let v := digits base 0 s in
  Z.max (- 2 ^ 63) (Z.min (2 ^ 63 - 1) (if neg then - v else v)).

Definition atoi (s : list Z) : Z := sint 32 (strtol 10 s).

(** The tokens [strtok] returns for the delimiter " ". *)
Fixpoint strtok_words (cur s : list Z) : list (list Z) :=
  match s with
  | [] => if bool_decide (cur = []) then [] else [cur]
  | c :: r =>
      if c =? SPACE then (if bool_decide (cur = []) then [] else [cur]) ++ strtok_words [] r
      else strtok_words (cur ++ [c]) r
  end.

(** [breakpoints_init]: the addresses in the environment variable BREAK. *)
Fixpoint add_breakpoints (bps : list (list Z)) (t : bp_table) : outcome bp_table :=
  match bps with
  | [] => Ok t
  | bp :: bps => '(_, t) ← add_breakpoint (w32 (strtol 16 bp)) t; add_breakpoints bps t
  end.

Definition breakpoints_init (env : option (list Z)) (t : bp_table) : outcome bp_table :=
  match env with None => Ok t | Some s => add_breakpoints (strtok_words [] s) t end.

(** ** debug.c *)
Definition CMDLINE_SIZE : Z := 256.

Definition TOKEN_SIZE : Z := 64.

Definition MAX_CMD_TOKEN_PREFIX : Z := 8.

Definition ACTION_CONTINUE : Z := 0.

Definition ACTION_STOP : Z := 1.

(** What a command shows. *)
Inductive shown :=
| Label (addr : Z)
| Word (v : Z)
| Frame (idx pc : Z)
| Breakpoint (addr : Z)
| Added (addr rc : Z).

(** What a command works on: the machine, the breakpoints and what has been shown. *)
Record view := mk_view {
  mach : machine;
  bps : bp_table;
  out : list shown
}.

Definition show (w : view) (l : list shown) : view := mk_view (mach w) (bps w) (out w ++ l).

(** Sequencing of calls that may leave through a trap. *)
Definition andthen {W} (r : callres W) (k : Z → guest → W → callres W) : callres W :=
  match r with Returns v g w => k v g w | Traps g w => Traps g w | Dies e => Dies e end.

Definition checked {A W} (o : outcome A) (k : A → callres W) : callres W :=
  match o with Ok a => k a | Err e => Dies e end.

Definition read32 (addr : Z) (g : guest) (w : view) : callres view :=
  match mmu_read32 addr g (mach w) with
  | Returns v g m => Returns v g (mk_view m (bps w) (out w))
  | Traps g m => Traps g (mk_view m (bps w) (out w))
  | Dies e => Dies e
  end.

Definition action_continue (g : guest) (w : view) : callres view := Returns ACTION_CONTINUE g w.

(** The loop of [inspect_memory]; the pointers are offsets in the block [base], and
    there are at most as many words as bytes. *)
Fixpoint memory_loop (n : nat) (h : host_heap) (base : option Z) (low_addr pm_low pm_high counter : Z)
    : outcome (list shown) :=
  if pm_low <? pm_high then
    match n with
    | O => Err EFuel
    | S n =>
        v ← load h (base, pm_low) 4;
        rest ← memory_loop n h base low_addr (pm_low + 4) pm_high (counter + 1);
        Ok ((if counter mod 8 =? 0 then [Label (w32 (low_addr + counter * 4))] else []) ++ Word v :: rest)
    end
  else Ok [].

Definition inspect_memory (argv : list (list Z)) (g : guest) (w : view) : callres view :=
  match argv with
  | [a; b] =>
      let low_addr := w32 (strtol 16 a) in
      let high_addr := w32 (strtol 16 b) in
      if high_addr <? low_addr then action_continue g w else
      let p := mem (mach w) in
      checked (search_pm_region_callback (space p) low_addr) (λ pmr1,
      checked (search_pm_region_callback (space p) high_addr) (λ pmr2,
      match pmr1 with
      | Some i =>
          if bool_decide (pmr1 = pmr2) then
            checked (ELEM (pmr_ops (space p)) i) (λ pmr,
            if bool_decide (pmr_direct pmr = None) then action_continue g w else
            let '(base, pm_low) := vma_generic_direct low_addr pmr in
            let '(_, pm_high) := vma_generic_direct high_addr pmr in
            checked (ASSERT (pm_low <=? pm_high)) (λ _,
            checked (memory_loop (Z.to_nat (pm_high - pm_low)) (heap p) base low_addr pm_low pm_high 0) (λ l,
            action_continue g (show w l))))
          else action_continue g w
      | None => action_continue g w
      end))
  | _ => action_continue g w
  end.

Fixpoint virtual_loop (n : nat) (low_addr high_addr counter : Z) (g : guest) (w : view) : callres view :=
  if low_addr <? high_addr then
    match n with
    | O => Dies EFuel
    | S n =>
        let w := show w (if counter mod 8 =? 0 then [Label (w32 (low_addr + counter * 4))] else []) in
        andthen (read32 low_addr g w) (λ v g w,
        virtual_loop n (w32 (low_addr + 1)) high_addr (counter + 1) g (show w [Word v]))
    end
  else action_continue g w.

Definition inspect_virtual_memory (argv : list (list Z)) (g : guest) (w : view) : callres view :=
  match argv with
  | [a; b] =>
      let low_addr := w32 (strtol 16 a) in
      let high_addr := w32 (strtol 16 b) in
      if high_addr <? low_addr then action_continue g w else
      let low_addr := Z.land low_addr 0xfffffffc in
      let high_addr := Z.land high_addr 0xfffffffc in
      virtual_loop (Z.to_nat (high_addr - low_addr)) low_addr high_addr 0 g w
  | _ => action_continue g w
  end.

Fixpoint frame_loop (n : nat) (idx : Z) (leaf : bool) (current_pc current_fp : Z) (g : guest) (w : view)
    : callres view :=
  match n with
  | O => action_continue g w
  | S n =>
      let w := show w [Frame idx current_pc] in
      if (idx =? 0) && leaf then
        let current_pc := gpr g 1 in
        andthen (read32 (w32 (current_fp - 4)) g w) (λ current_fp g w,
        frame_loop n (idx + 1) leaf current_pc current_fp g w)
      else
        andthen (read32 (w32 (current_fp - 4)) g w) (λ current_pc g w,
        andthen (read32 (w32 (current_fp - 8)) g w) (λ current_fp g w,
        frame_loop n (idx + 1) leaf current_pc current_fp g w))
  end.

Definition backtrace_call (argv : list (list Z)) (g : guest) (w : view) : callres view :=
  match argv with
  | [a; b] =>
      let is_leaf_function := bool_decide (a = chars "leaf") in
      let maxframe := atoi b in
      frame_loop (Z.to_nat maxframe) 0 is_leaf_function (pc g) (gpr g 8) g w
  | _ => action_continue g w
  end.

Definition add_breakpoint_command (argv : list (list Z)) (g : guest) (w : view) : callres view :=
  match argv with
  | [] => action_continue g w
  | a :: _ =>
      let addr := w32 (strtol 16 a) in
      checked (add_breakpoint addr (bps w)) (λ '(rc, t),
      action_continue g (mk_view (mach w) t (out w ++ [Added addr rc])))
  end.

Definition dump_breakpoints_info (g : guest) (w : view) : callres view :=
  action_continue g (show w (Breakpoint <$> take (Z.to_nat (nr_breakpoints (bps w))) (breakpoints (bps w)))).

(** The functions of the table of commands; those of [Dump] and [debug_help] only
    print the registers, the tasks, the translation cache, the regions, the files
    and the list of commands. *)
Inductive command :=
| Dump
| CBreakpoints
| CContinue
| CBreak
| CInspect
| CInspectVirtual
| CBacktrace.

Definition run_command (c : command) (argv : list (list Z)) (g : guest) (w : view) : callres view :=
  match c with
  | Dump => action_continue g w
  | CBreakpoints => dump_breakpoints_info g w
  | CContinue => Returns ACTION_STOP g w
  | CBreak => add_breakpoint_command argv g w
  | CInspect => inspect_memory argv g w
  | CInspectVirtual => inspect_virtual_memory argv g w
  | CBacktrace => backtrace_call argv g w
  end.

(** [cmd_prefixs] up to its NULL, and [func]. *)
Definition cmd_registery_item : Type := list (list Z) * command.

Definition cmds_items : list cmd_registery_item :=
  [ ([chars "info"; chars "registers"], Dump);
    ([chars "info"; chars "threads"], Dump);
    ([chars "info"; chars "translation"], Dump);
    ([chars "info"; chars "breakpoints"], CBreakpoints);
    ([chars "continue"], CContinue);
    ([chars "break"], CBreak);
    ([chars "/x"], CInspect);
    ([chars "/v"], CInspectVirtual);
    ([chars "backtrace"], CBacktrace);
    ([chars "dump"; chars "vma"], Dump);
    ([chars "dump"; chars "fd"], Dump);
    ([chars "help"], Dump) ].

Definition cmd_prefixs (it : cmd_registery_item) : list (option (list Z)) :=
  (Some <$> fst it) ++ replicate (Z.to_nat MAX_CMD_TOKEN_PREFIX - length (fst it)) None.

(** The inner loop of [process_cmds_tokens]: [ptr_token] and [lpm_counter_tmp]. *)
Fixpoint prefix_loop (n : nat) (idx : Z) (ptr_token : option (list Z)) (prefixs : list (option (list Z)))
    (argv : list (list Z)) : outcome (option (list Z) * Z) :=
  match n with
  | O => Ok (ptr_token, 0)
  | S n =>
      ptr_token ← ELEM prefixs idx;
      match ptr_token with
      | None => Ok (None, idx)
      | Some t =>
          if Z.of_nat (length argv) <=? idx then Ok (Some t, 0) else
          a ← ELEM argv idx;
          if bool_decide (t = a) then prefix_loop n (idx + 1) (Some t) prefixs argv else Ok (Some t, 0)
      end
  end.

Fixpoint items_loop (items : list cmd_registery_item) (item_found : option cmd_registery_item) (lpm_counter : Z)
    (argv : list (list Z)) : outcome (option cmd_registery_item * Z) :=
  match items with
  | [] => Ok (item_found, lpm_counter)
  | pitem :: items =>
      '(ptr_token, lpm_counter_tmp) ← prefix_loop (Z.to_nat MAX_CMD_TOKEN_PREFIX) 0 None (cmd_prefixs pitem) argv;
      if bool_decide (ptr_token = None) && (0 <? lpm_counter_tmp) && (lpm_counter <? lpm_counter_tmp)
      then items_loop items (Some pitem) lpm_counter_tmp argv
      else items_loop items item_found lpm_counter argv
  end.

Definition process_cmds_tokens (argv : list (list Z)) (g : guest) (w : view) : callres view :=
  checked (items_loop cmds_items None 0 argv) (λ '(item_found, lpm_counter),
  match item_found with
  | Some it => if 0 <? lpm_counter then run_command (snd it) (drop (Z.to_nat lpm_counter) argv) g w
               else action_continue g w
  | None => action_continue g w
  end).

(** [fgets] of up to [n] characters: the line and the rest of the input. *)
Fixpoint fgets (n : nat) (s : list Z) : list Z * list Z :=
  match n, s with
  | S n, c :: r => if c =? 10 then ([c], r) else let '(line, rest) := fgets n r in (c :: line, rest)
  | _, _ => ([], s)
  end.

(** The string up to the first newline. *)
Fixpoint strip_newline (s : list Z) : list Z :=
  match s with [] => [] | c :: r => if c =? 10 then [] else c :: strip_newline r end.

(** The copies of the tokens, from row [idx] on. *)
Fixpoint copy_tokens (idx : Z) (tokens : list (list Z)) (b : list Z) : outcome (list Z) :=
  match tokens with
  | [] => Ok b
  | t :: tokens =>
      let off := Z.to_nat (TOKEN_SIZE * idx) in
      if (off + length t + 1 <=? length b)%nat
      then copy_tokens (idx + 1) tokens (take off b ++ (t ++ [0]) ++ drop (off + length t + 1) b)
      else Err EUndef
  end.

(** The static variables of the shell and its input; [token_buffer] is the 64 by 64
    array, row after row, and [last_tokens] points to its first rows. *)
Record session := mk_session {
  screen : view;
  token_buffer : list Z;
  last_nr_token : Z;
  stdin : list Z
}.

Definition last_tokens (w : session) : list (list Z) :=
  (λ i : nat, upto_nul (drop (Z.to_nat TOKEN_SIZE * i) (token_buffer w))) <$> seq 0 (Z.to_nat (last_nr_token w)).

(** A command of the shell and what follows it. *)
Definition command_then (r : callres view) (w : session) (k : Z → guest → session → callres session)
    : callres session :=
  match r with
  | Returns action g v => k action g (mk_session v (token_buffer w) (last_nr_token w) (stdin w))
  | Traps g v => Traps g (mk_session v (token_buffer w) (last_nr_token w) (stdin w))
  | Dies e => Dies e
  end.

Fixpoint shell_loop (fuel : nat) (g : guest) (w : session) : callres session :=
  match fuel with
  | O => Dies EFuel
  | S fuel =>
      let '(cmdline, rest) := fgets (Z.to_nat (CMDLINE_SIZE - 2)) (stdin w) in
      let w := mk_session (screen w) (token_buffer w) (last_nr_token w) rest in
      let tokens := take (Z.to_nat TOKEN_SIZE) (strtok_words [] (strip_newline (upto_nul cmdline))) in
      let next action g w :=
        if action =? ACTION_STOP then Returns 0 g w
        else if action =? ACTION_CONTINUE then shell_loop fuel g w else Dies EAssert in
      if bool_decide (tokens = []) then command_then (process_cmds_tokens (last_tokens w) g (screen w)) w next
      else
        command_then (process_cmds_tokens tokens g (screen w)) w (λ action g w,
        checked (copy_tokens 0 tokens (token_buffer w)) (λ b,
        next action g (mk_session (screen w) b (Z.of_nat (length tokens)) (stdin w))))
  end.

Definition enter_vmm_dbg_shell (fuel : nat) (check_bps : bool) (g : guest) (w : session) : callres session :=
  checked (if check_bps then is_address_breakpoint (pc g) (bps (screen w)) else Ok true) (λ stop,
  if stop then shell_loop fuel g w else Returns 0 g w).

(** [ebreak_callback] of translate_privileged_instr.c. *)
Definition ebreak_callback (fuel : nat) (g : guest) (w : session) : callres session :=
  enter_vmm_dbg_shell fuel false g w.

(** ** The table of breakpoints is a set *)
Definition bp_list (t : bp_table) : list Z := take (Z.to_nat (nr_breakpoints t)) (breakpoints t).

(** The breakpoints lie in a window the wrapping comparison orders. *)
Record bps_ok (lo : Z) (t : bp_table) : Prop := {
  bo_length : length (breakpoints t) = Z.to_nat MAX_BREAKPOINTS;
  bo_nr : 0 <= nr_breakpoints t <= MAX_BREAKPOINTS;
  bo_sorted : sorted_by id (bp_list t);
  bo_window : Forall (in_window lo) (bp_list t)
}.

Lemma addr_keyed lo l : Forall (in_window lo) l → keyed addr_cmp id l.
Proof.
  rewrite Forall_forall. intros Hl a b Ha Hb. exists (a - b). split; [|done].
  destruct (Hl a Ha) as [_ ?], (Hl b Hb) as [_ ?]. unfold addr_cmp. f_equal. apply sint_unique; [lia| |done]. simpl. lia.
Qed.

Lemma bp_list_length lo t : bps_ok lo t → Z.of_nat (length (bp_list t)) = nr_breakpoints t.
Proof. intros [Hl Hn _ _]. unfold bp_list, MAX_BREAKPOINTS in *. rewrite length_take. lia. Qed.

Lemma is_address_breakpoint_spec lo t a :
  bps_ok lo t → in_window lo a → is_address_breakpoint a t = Ok (bool_decide (a ∈ bp_list t)).
Proof.
  intros Hok Ha. unfold is_address_breakpoint. pose proof (bp_list_length lo t Hok) as Hn.
  destruct (SEARCH_sorted addr_cmp id a (bp_list t) (drop (Z.to_nat (nr_breakpoints t)) (breakpoints t))) as (r & Hr & Hm).
  { apply (addr_keyed lo). constructor; [done|apply Hok]. }
  { apply Hok. }
  unfold bp_list at 1 in Hr. rewrite take_drop, Hn in Hr. rewrite Hr. cbn [mbind outcome_bind]. f_equal.
  apply bool_decide_ext. destruct r as [i|].
  - destruct Hm as (e & _ & _ & He & Hk). cbn in Hk. subst e. split; [done|by eexists].
  - split; [by intros []|]. intros Hin. by destruct (Hm a Hin).
Qed.

Lemma land3 a : Z.land a 3 = a mod 4.
Proof. apply (Z.land_ones a 2). lia. Qed.

Lemma add_breakpoint_spec lo t a :
  bps_ok lo t → in_window lo a → nr_breakpoints t < MAX_BREAKPOINTS →
  ∃ rc t', add_breakpoint a t = Ok (rc, t') ∧ bps_ok lo t' ∧ rc = (if a mod 4 =? 0 then 0 else -2) ∧
    nr_breakpoints t' <= nr_breakpoints t + 1 ∧ ∀ x, x ∈ bp_list t' ↔ (x = a ∧ a mod 4 = 0) ∨ x ∈ bp_list t.
Proof.
  intros Hok Ha Hn. unfold add_breakpoint. rewrite land3. destruct (Z.eqb_spec (a mod 4) 0) as [Hal|Hal]; cbn [negb].
  2:{ exists (-2), t. split_and!; [done|done|done|lia|]. intros x. tauto. }
  destruct (Z.leb_spec MAX_BREAKPOINTS (nr_breakpoints t)); [lia|].
  rewrite (is_address_breakpoint_spec lo) by done. cbn [mbind outcome_bind].
  destruct (decide (a ∈ bp_list t)) as [Hin|Hin]; [rewrite bool_decide_true by done|rewrite bool_decide_false by done].
  { exists 0, t. split_and!; [done|done|done|lia|]. intros x. split; [tauto|]. by intros [[-> _]|?]. }
  pose proof (bp_list_length lo t Hok) as Hlen. destruct Hok as [Hl Hr Hs Hw]. unfold MAX_BREAKPOINTS in *.
  destruct (drop (Z.to_nat (nr_breakpoints t)) (breakpoints t)) as [|y rest] eqn:Hd.
  { apply (f_equal length) in Hd. rewrite length_drop in Hd. simpl in Hd. lia. }
  assert (Heq : breakpoints t = bp_list t ++ y :: rest) by (unfold bp_list; by rewrite <- Hd, take_drop).
  rewrite Heq, <- Hlen, zset_middle. cbn [deref mbind outcome_bind].
  destruct (INSERTION_SORT_spec addr_cmp id (bp_list t) a rest) as (l1 & l2 & Hl12 & -> & Hs' & Hp).
  { apply (addr_keyed lo). apply Forall_app. by split; [|apply Forall_singleton]. }
  { done. }
  cbn [mbind outcome_bind]. set (n' := Z.of_nat (length (bp_list t)) + 1).
  assert (Hb' : bp_list (mk_bps (l1 ++ a :: l2 ++ rest) n') = l1 ++ a :: l2).
  { unfold bp_list at 1. cbn [breakpoints nr_breakpoints]. rewrite (app_assoc l1 (a :: l2) rest : l1 ++ a :: l2 ++ rest = _).
    apply take_app_length'. rewrite Hp, length_app. unfold n'. simpl. lia. }
  eexists 0, _. split; [done|]. split_and!; [split|done|cbn [nr_breakpoints]; unfold n'; lia|].
  - cbn [breakpoints]. pose proof (f_equal length Heq) as Hc. rewrite Hl in Hc. rewrite Hl12 in Hc.
    rewrite !length_app in *. cbn [length] in *. rewrite !length_app in *. unfold MAX_BREAKPOINTS in *. lia.
  - cbn [nr_breakpoints]. unfold n', MAX_BREAKPOINTS. lia.
  - by rewrite Hb'.
  - rewrite Hb', Hp. apply Forall_app. by split; [|apply Forall_singleton].
  - intros x. rewrite Hb', Hp, elem_of_app, list_elem_of_singleton. split; [|tauto]. intros [?| ->]; tauto.
Qed.

Definition addresses (words : list (list Z)) : list Z := (λ s, w32 (strtol 16 s)) <$> words.

Lemma add_breakpoints_spec lo words : ∀ t,
  bps_ok lo t → Forall (in_window lo) (addresses words) →
  nr_breakpoints t + Z.of_nat (length words) <= MAX_BREAKPOINTS →
  ∃ t', add_breakpoints words t = Ok t' ∧ bps_ok lo t' ∧
    ∀ x, x ∈ bp_list t' ↔ (x ∈ addresses words ∧ x mod 4 = 0) ∨ x ∈ bp_list t.
Proof.
  induction words as [|s words IH]; intros t Hok Hw Hn.
  { exists t. split_and!; [done..|]. intros x. split; [tauto|]. intros [[?%not_elem_of_nil _]|?]; done. }
  cbn [addresses fmap list_fmap length] in Hw, Hn. apply Forall_cons in Hw as [Hs Hw]. cbn [add_breakpoints].
  destruct (add_breakpoint_spec lo t _ Hok Hs) as (rc & t1 & -> & Hok1 & _ & Hn1 & Hx1); [lia|]. cbn [mbind outcome_bind].
  destruct (IH t1 Hok1 Hw) as (t' & -> & Hok' & Hx'); [lia|]. exists t'. split_and!; [done..|].
  intros x. rewrite Hx', Hx1. unfold addresses. cbn [fmap list_fmap]. rewrite elem_of_cons.
  split; [intros [?|[[-> ?]|?]]|intros [[[-> |?] ?]|?]]; tauto.
Qed.

Definition no_breakpoints : bp_table := mk_bps (replicate (Z.to_nat MAX_BREAKPOINTS) 0) 0.

Lemma no_breakpoints_ok lo : bps_ok lo no_breakpoints.
Proof. split; [done|done| |constructor]. intros i j a b _ Hi. by destruct i. Qed.

(** C21: the words of BREAK, at most 256, read as hexadecimal numbers in a
    window of 2 GB, become breakpoints; at a pc in the window the prologue of an
    instruction enters the shell exactly when the pc is one of those addresses and
    a multiple of four, and otherwise returns with nothing changed. *)
Theorem breakpoints_correct lo env :
  Forall (in_window lo) (addresses (strtok_words [] env)) →
  Z.of_nat (length (strtok_words [] env)) <= MAX_BREAKPOINTS →
  ∃ t, breakpoints_init (Some env) no_breakpoints = Ok t ∧ bps_ok lo t ∧
    ∀ fuel g w, bps (screen w) = t → in_window lo (pc g) →
      enter_vmm_dbg_shell fuel true g w =
        if decide (pc g ∈ addresses (strtok_words [] env) ∧ pc g mod 4 = 0) then shell_loop fuel g w
        else Returns 0 g w.
Proof.
  intros Hw Hn. destruct (add_breakpoints_spec lo _ no_breakpoints (no_breakpoints_ok lo) Hw) as (t & Ht & Hok & Hx);
    [exact Hn|]. exists t. split; [exact Ht|]. split; [done|]. intros fuel g w <- Hpc. unfold enter_vmm_dbg_shell.
  rewrite (is_address_breakpoint_spec lo) by done. cbn [checked].
  destruct (decide (pc g ∈ bp_list (bps (screen w)))) as [Hin|Hin];
    [rewrite bool_decide_true by done|rewrite bool_decide_false by done]; rewrite Hx in Hin.
  - rewrite decide_True; [done|]. destruct Hin as [?|?%not_elem_of_nil]; done.
  - by rewrite decide_False by tauto.
Qed.

(** ** The command of a line *)
Definition matches (argv : list (list Z)) (it : cmd_registery_item) : Prop := fst it `prefix_of` argv.

#[export] Instance matches_dec argv it : Decision (matches argv it).
Proof. unfold matches. apply _. Defined.

Lemma ELEM_middle {A} (pre suf : list A) x n : length pre = n → ELEM (pre ++ x :: suf) (Z.of_nat n) = Ok x.
Proof. intros <-. unfold ELEM. by rewrite zget_middle. Qed.

Lemma prefix_loop_spec suf : ∀ pre arest n ptr,
  (length suf < n)%nat → (n + length pre = 8)%nat →
  ∃ r, prefix_loop n (Z.of_nat (length pre)) ptr ((Some <$> pre ++ suf) ++ replicate (8 - length (pre ++ suf)) None)
      (pre ++ arest) = Ok r ∧
    if decide (suf `prefix_of` arest) then r = (None, Z.of_nat (length (pre ++ suf))) else fst r ≠ None.
Proof.
  induction suf as [|t suf IH]; intros pre arest n ptr Hn Heq; (destruct n as [|n]; [simpl in Hn; lia|]); cbn [prefix_loop].
  - rewrite app_nil_r. destruct (8 - length pre)%nat as [|m] eqn:Hm; [simpl in Heq; lia|]. cbn [replicate].
    rewrite (ELEM_middle (Some <$> pre)) by apply length_fmap.
    cbn [mbind outcome_bind]. eexists. split; [done|]. by rewrite decide_True by apply prefix_nil.
  - rewrite fmap_app, <- app_assoc. cbn [fmap list_fmap app].
    rewrite (ELEM_middle (Some <$> pre)) by apply length_fmap.
    cbn [mbind outcome_bind]. rewrite (length_app pre arest). destruct arest as [|x arest].
    { cbn [length]. destruct (Z.leb_spec (Z.of_nat (length pre + 0)) (Z.of_nat (length pre))); [|lia].
      eexists. split; [done|]. by rewrite decide_False by apply prefix_nil_not. }
    cbn [length]. destruct (Z.leb_spec (Z.of_nat (length pre + S (length arest))) (Z.of_nat (length pre))); [lia|].
    rewrite (ELEM_middle pre) by done. cbn [mbind outcome_bind]. case_bool_decide as Ht.
    + subst x. destruct (IH (pre ++ [t]) arest n (Some t)) as (r & Hr & Hd);
        [simpl in Hn; lia|rewrite length_app; simpl in *; lia|].
      exists r. rewrite <- !app_assoc in Hr, Hd. cbn [app] in Hr, Hd. rewrite fmap_app, <- app_assoc, length_snoc_Z in Hr.
      rewrite <- (app_assoc pre [t] arest) in Hr. cbn [fmap list_fmap app] in Hr. split; [exact Hr|].
      destruct (decide (suf `prefix_of` arest)) as [Hp|Hp].
      * by rewrite decide_True by by apply prefix_cons.
      * rewrite decide_False; [done|]. by intros ?%prefix_cons_inv_2.
    + eexists. split; [done|]. rewrite decide_False; [done|]. by intros ?%prefix_cons_inv_1.
Qed.

(** No command is a prefix of another. *)
Fixpoint incomparable (items : list cmd_registery_item) : Prop :=
  match items with
  | [] => True
  | it :: r => Forall (λ b, ¬ fst it `prefix_of` fst b ∧ ¬ fst b `prefix_of` fst it) r ∧ incomparable r
  end.

Definition short (it : cmd_registery_item) : Prop := (0 < length (fst it) < 8)%nat.

Lemma items_step it items found lpm argv :
  short it → 0 <= lpm →
  items_loop (it :: items) found lpm argv =
    if decide (matches argv it ∧ lpm < Z.of_nat (length (fst it)))
    then items_loop items (Some it) (Z.of_nat (length (fst it))) argv else items_loop items found lpm argv.
Proof.
  intros [H0 H8] Hl. cbn [items_loop]. change (Z.to_nat MAX_CMD_TOKEN_PREFIX) with 8%nat. unfold cmd_prefixs.
  change (Z.to_nat MAX_CMD_TOKEN_PREFIX) with 8%nat.
  destruct (prefix_loop_spec (fst it) [] argv 8 None) as ([ptr tmp] & Hr & Hd); [done|simpl; lia|].
  cbn [app length] in Hr, Hd. change (Z.of_nat 0) with 0 in Hr. rewrite Hr. cbn [mbind outcome_bind]. unfold matches.
  destruct (decide (fst it `prefix_of` argv)) as [Hp|Hp].
  - injection Hd as -> ->. rewrite bool_decide_true by done. cbn [andb].
    destruct (Z.ltb_spec 0 (Z.of_nat (length (fst it)))); [|lia]. cbn [andb].
    destruct (Z.ltb_spec lpm (Z.of_nat (length (fst it)))); [by rewrite decide_True|rewrite decide_False; [done|lia]].
  - rewrite bool_decide_false by done. cbn [andb]. rewrite decide_False; [done|tauto].
Qed.

Lemma items_loop_none items : ∀ found lpm argv,
  Forall short items → 0 <= lpm → Forall (λ it, ¬ matches argv it) items →
  items_loop items found lpm argv = Ok (found, lpm).
Proof.
  induction items as [|it items IH]; intros found lpm argv Hs Hl Hn; [done|].
  apply Forall_cons in Hs as [? ?], Hn as [? ?]. rewrite items_step, decide_False by (done || tauto). by apply IH.
Qed.

Lemma items_loop_spec items : ∀ argv, Forall short items → incomparable items →
  items_loop items None 0 argv =
    Ok (match head (filter (matches argv) items) with
        | Some it => (Some it, Z.of_nat (length (fst it)))
        | None => (None, 0)
        end).
Proof.
  induction items as [|it items IH]; intros argv Hs Hi; [done|].
  apply Forall_cons in Hs as [Hit Hs]. destruct Hi as [Hi1 Hi2]. rewrite items_step by done.
  destruct (decide (matches argv it)) as [Hm|Hm].
  - rewrite filter_cons_True by done. destruct Hit. rewrite decide_True by (split; [done|lia]). cbn [head].
    apply items_loop_none; [done|lia|]. eapply Forall_impl; [exact Hi1|]. intros b [H1 H2] Hb.
    by destruct (prefix_weak_total _ _ _ Hm Hb).
  - rewrite filter_cons_False by done. rewrite decide_False by tauto. by apply IH.
Qed.

(** The command of [argv] and its arguments. *)
Definition command_of (argv : list (list Z)) : option (command * list (list Z)) :=
  match head (filter (matches argv) cmds_items) with
  | Some it => Some (snd it, drop (length (fst it)) argv)
  | None => None
  end.

Definition run_words (argv : list (list Z)) (g : guest) (w : view) : callres view :=
  match command_of argv with Some (c, args) => run_command c args g w | None => action_continue g w end.

Lemma cmds_items_ok : Forall short cmds_items ∧ incomparable cmds_items.
Proof. split; [by repeat constructor; simpl; lia|]. repeat (split; [by apply (bool_decide_unpack _)|]). done. Qed.

Lemma process_cmds_spec argv g w : process_cmds_tokens argv g w = run_words argv g w.
Proof.
  unfold process_cmds_tokens, run_words, command_of. destruct cmds_items_ok as [Hs Hi].
  rewrite items_loop_spec by done. cbn [checked]. destruct (head _) as [it|] eqn:Hh; [|done].
  assert (short it) as [H0 _].
  { rewrite Forall_forall in Hs. apply Hs. apply head_Some_elem_of in Hh. by apply list_elem_of_filter in Hh as [_ ?]. }
  destruct (Z.ltb_spec 0 (Z.of_nat (length (fst it)))); [|lia]. by rewrite Nat2Z.id.
Qed.

(** ** The lines of a session *)
Lemma fgets_line n line rest :
  Forall (λ c, c ≠ 0 ∧ c ≠ 10) line → (length line < n)%nat → fgets n (line ++ 10 :: rest) = (line ++ [10], rest).
Proof.
  intros Hl. revert n. induction Hl as [|c line [_ Hc] _ IH]; intros n Hn; (destruct n as [|n]; [simpl in Hn; lia|]); [done|].
  cbn [app fgets]. destruct (Z.eqb_spec c 10); [done|]. by rewrite IH by (simpl in Hn; lia).
Qed.

Lemma line_string line :
  Forall (λ c, c ≠ 0 ∧ c ≠ 10) line → strip_newline (upto_nul (line ++ [10])) = line.
Proof.
  induction 1 as [|c line [H0 Hc] _ IH]; [done|]. cbn [app upto_nul]. destruct (Z.eqb_spec c 0); [done|].
  cbn [strip_newline]. destruct (Z.eqb_spec c 10); [done|]. by rewrite IH.
Qed.

Lemma strtok_forall (P : Z → Prop) s : ∀ cur, Forall P cur → Forall P s → Forall (Forall P) (strtok_words cur s).
Proof.
  induction s as [|c s IH]; intros cur Hc Hs; cbn [strtok_words].
  - case_bool_decide; by repeat constructor.
  - apply Forall_cons in Hs as [? Hs]. destruct (c =? SPACE).
    + apply Forall_app. split; [case_bool_decide; by repeat constructor|]. apply IH; [constructor|done].
    + apply IH; [|done]. apply Forall_app. by split; [|apply Forall_singleton].
Qed.

(** The copies of the tokens are read back as the tokens. *)
Lemma copy_tokens_spec tokens : ∀ idx b,
  Forall (λ t, Forall (λ c, c ≠ 0) t ∧ (length t < 64)%nat) tokens →
  (idx + length tokens <= 64)%nat → length b = 4096%nat →
  ∃ b', copy_tokens (Z.of_nat idx) tokens b = Ok b' ∧ length b' = 4096%nat ∧
    take (64 * idx) b' = take (64 * idx) b ∧
    ∀ i t, tokens !! i = Some t → upto_nul (drop (64 * (idx + i)) b') = t.
Proof.
  induction tokens as [|t tokens IH]; intros idx b Ht Hi Hb; [by exists b|].
  apply Forall_cons in Ht as [[Hnz Hlen] Ht]. cbn [copy_tokens]. unfold TOKEN_SIZE.
  replace (Z.to_nat (64 * Z.of_nat idx)) with (64 * idx)%nat by lia. cbn [length] in Hi.
  destruct (Nat.leb_spec (64 * idx + length t + 1) (length b)); [|lia].
  set (b1 := take (64 * idx) b ++ (t ++ [0]) ++ drop (64 * idx + length t + 1) b).
  assert (Hb1 : length b1 = 4096%nat).
  { unfold b1. rewrite !length_app, length_take, length_drop. simpl. lia. }
  replace (Z.of_nat idx + 1) with (Z.of_nat (S idx)) by lia.
  destruct (IH (S idx) b1 Ht) as (b' & -> & Hb' & Htake & Hrows); [lia|done|]. exists b'. split; [done|]. split; [done|].
  assert (Hfirst : ∃ u, take (64 * S idx) b' = take (64 * idx) b ++ t ++ 0 :: u).
  { rewrite Htake. unfold b1. rewrite take_app, length_take, Nat.min_l by lia. rewrite (take_ge (take _ _)) by (rewrite length_take; lia).
    rewrite <- app_assoc. eexists. f_equal.
    rewrite take_app, (take_ge t) by lia. f_equal.
    replace (64 * S idx - 64 * idx - length t)%nat with (S (64 * S idx - 64 * idx - length t - 1)) by lia. done. }
  destruct Hfirst as [u Hu]. split.
  - replace (64 * idx)%nat with ((64 * idx) `min` (64 * S idx))%nat at 1 by lia. rewrite <- take_take, Hu.
    rewrite take_app_le by (rewrite length_take; lia). by rewrite take_take, Nat.min_id.
  - intros [|i] t' Hi'.
    + injection Hi' as <-. rewrite Nat.add_0_r, <- (take_drop (64 * S idx) b'), Hu.
      rewrite <- !app_assoc. rewrite drop_app_length' by (rewrite length_take; lia). cbn [app].
      by apply upto_nul_app.
    + replace (idx + S i)%nat with (S idx + i)%nat by lia. by apply Hrows.
Qed.

Definition words (line : list Z) : list (list Z) := strtok_words [] line.

(** A line the buffers hold: of at most 253 characters and 64 words of less than 64. *)
Definition line_ok (line : list Z) : Prop :=
  Forall (λ c, c ≠ 0 ∧ c ≠ 10) line ∧ (length line <= 253)%nat ∧ (length (words line) <= 64)%nat ∧
  Forall (λ t, (length t < 64)%nat) (words line).

(** The reference: a sequence of commands, an empty one repeating the last. *)
Fixpoint commands (last : list (list Z)) (lines : list (list (list Z))) (g : guest) (v : view) : callres view :=
  match lines with
  | [] => Dies EFuel
  | ws :: lines =>
      let ws := if bool_decide (ws = []) then last else ws in
      andthen (run_words ws g v) (λ action g v,
      if action =? ACTION_STOP then Returns 0 g v
      else if action =? ACTION_CONTINUE then commands ws lines g v else Dies EAssert)
  end.

(** The shell ends as the reference does. *)
Definition ends_as (r : callres session) (a : callres view) : Prop :=
  match a with
  | Returns x g v => ∃ w, r = Returns x g w ∧ screen w = v
  | Traps g v => ∃ w, r = Traps g w ∧ screen w = v
  | Dies e => r = Dies e
  end.

Lemma last_after w b tokens v r :
  copy_tokens 0 tokens (token_buffer w) = Ok b → length (token_buffer w) = 4096%nat →
  (length tokens <= 64)%nat → Forall (λ t, Forall (λ c, c ≠ 0) t ∧ (length t < 64)%nat) tokens →
  length b = 4096%nat ∧ last_tokens (mk_session v b (Z.of_nat (length tokens)) r) = tokens.
Proof.
  intros Hc Hb Hn Ht. destruct (copy_tokens_spec tokens 0 (token_buffer w) Ht) as (b' & Hc' & Hb' & _ & Hrows); [lia|done|].
  change (Z.of_nat 0) with 0 in Hc'. rewrite Hc in Hc'. injection Hc' as <-. split; [done|].
  unfold last_tokens. cbn [last_nr_token token_buffer]. rewrite Nat2Z.id. change (Z.to_nat TOKEN_SIZE) with 64%nat.
  apply list_eq_same_length with (n := length tokens); [done|by rewrite length_fmap, length_seq|].
  intros i x y Hi Hx Hy. rewrite list_lookup_fmap, lookup_seq_lt in Hx by done. injection Hx as <-.
  by apply Hrows.
Qed.

Lemma shell_spec lines : ∀ last g w rest,
  Forall line_ok lines → stdin w = concat ((λ l, l ++ [10]) <$> lines) ++ rest →
  length (token_buffer w) = 4096%nat → last_tokens w = last →
  ends_as (shell_loop (length lines) g w) (commands last (words <$> lines) g (screen w)).
Proof.
  induction lines as [|line lines IH]; intros last g w rest Hl Hin Hbuf Hlast; [done|].
  apply Forall_cons in Hl as [(Hc & Hlen & Hn & Hshort) Hl]. cbn [length shell_loop commands fmap list_fmap].
  cbn [fmap list_fmap concat] in Hin. rewrite Hin, <- !app_assoc. cbn [app].
  rewrite fgets_line by (done || (change (Z.to_nat (CMDLINE_SIZE - 2)) with 254%nat; lia)).
  rewrite line_string by done. fold (words line). rewrite take_ge by (change (Z.to_nat TOKEN_SIZE) with 64%nat; lia).
  set (w1 := mk_session _ _ _ (concat _ ++ rest)).
  assert (Hlast1 : last_tokens w1 = last) by exact Hlast.
  destruct (decide (words line = [])) as [He|He]; [rewrite (bool_decide_true _ He)|rewrite (bool_decide_false _ He)].
  - rewrite Hlast1, process_cmds_spec. cbn [screen w1].
    destruct (run_words last g (screen w)) as [a g' v|g' v|e]; cbn [command_then andthen ends_as]; [|by eexists|done].
    destruct (a =? ACTION_STOP); [by eexists|]. destruct (a =? ACTION_CONTINUE); [|done].
    by apply (IH last g' (mk_session v _ _ _) rest).
  - rewrite process_cmds_spec. cbn [screen w1].
    destruct (run_words (words line) g (screen w)) as [a g' v|g' v|e]; cbn [command_then andthen ends_as]; [|by eexists|done].
    assert (Ht : Forall (λ t, Forall (λ c, c ≠ 0) t ∧ (length t < 64)%nat) (words line)).
    { apply Forall_and. split; [|done]. apply strtok_forall; [constructor|]. eapply Forall_impl; [exact Hc|]. by intros c [? _]. }
    cbn [token_buffer w1]. destruct (copy_tokens_spec (words line) 0 (token_buffer w) Ht) as (b & Hb & _); [lia|done|].
    change (Z.of_nat 0) with 0 in Hb. rewrite Hb. cbn [checked].
    destruct (last_after w b (words line) v (concat ((λ l, l ++ [10]) <$> lines) ++ rest) Hb Hbuf Hn Ht) as [Hb4 Hlast'].
    destruct (a =? ACTION_STOP); [by eexists|]. destruct (a =? ACTION_CONTINUE); [|done].
    by apply (IH (words line) g' (mk_session v b _ _) rest).
Qed.

(** C22: on input that consists of lines the buffers hold, the shell runs the
    commands of the lines in order, each on the words behind its name, an empty
    line repeating the last command, until one of them ends the session: it
    returns, traps or dies as that sequence of commands does, and leaves the same
    machine, breakpoints and output. *)
Theorem shell_correct lines last g w rest :
  Forall line_ok lines → stdin w = concat ((λ l, l ++ [10]) <$> lines) ++ rest →
  length (token_buffer w) = 4096%nat → last_tokens w = last →
  ends_as (shell_loop (length lines) g w) (commands last (words <$> lines) g (screen w)).
Proof. apply shell_spec. Qed.

(** ** backtrace *)

(** From the frame pointer [fp] on lie the return addresses [ras]: each frame holds
    its return address below its frame pointer, and below that the frame pointer
    of its caller. *)
Fixpoint chain (m : machine) (fp : Z) (ras : list Z) : Prop :=
  match ras with
  | [] => True
  | ra :: ras => ∃ fp', direct_read 4 (w32 (fp - 4)) (mem m) = Ok ra ∧
      direct_read 4 (w32 (fp - 8)) (mem m) = Ok fp' ∧ chain m fp' ras
  end.

Lemma read32_direct a v g w :
  paging (mach w) = false → direct_read 4 a (mem (mach w)) = Ok v → read32 a g w = Returns v g w.
Proof. intros Hp Hv. unfold read32, mmu_read32, vmread. rewrite Hp, Hv. by destruct w. Qed.

Definition frames_from (idx : Z) (pcs : list Z) : list shown := imap (λ i p, Frame (idx + Z.of_nat i) p) pcs.

Lemma frames_cons idx p pcs : frames_from idx (p :: pcs) = Frame idx p :: frames_from (idx + 1) pcs.
Proof.
  unfold frames_from. cbn [imap]. rewrite Z.add_0_r. f_equal. apply imap_ext. intros i x _. cbn. f_equal. lia.
Qed.

Lemma frame_loop_spec leaf g ras : ∀ idx p fp w,
  (idx =? 0) && leaf = false → 0 <= idx → paging (mach w) = false → chain (mach w) fp ras →
  frame_loop (length ras) idx leaf p fp g w =
    Returns ACTION_CONTINUE g (show w (frames_from idx (take (length ras) (p :: ras)))).
Proof.
  induction ras as [|ra ras IH]; intros idx p fp w Hleaf Hi Hp Hc.
  { cbn. unfold action_continue, show. cbn. rewrite app_nil_r. by destruct w. }
  destruct Hc as (fp' & H4 & H8 & Hc). cbn [length frame_loop]. rewrite Hleaf.
  rewrite (read32_direct _ ra) by done. cbn [andthen]. rewrite (read32_direct _ fp') by done. cbn [andthen].
  rewrite IH; [|destruct (Z.eqb_spec (idx + 1) 0); [lia|done]|lia|done|done].
  cbn [take]. rewrite frames_cons. unfold show. cbn [mach bps out]. by rewrite <- app_assoc.
Qed.

(** Without paging and with a chain of frames in memory from the frame
    pointer on, "backtrace noleaf n" shows the pc and the return addresses of the
    first n - 1 frames; "backtrace leaf n" takes the return address of the current
    function from ra and its caller's frame pointer from below its own.  Neither
    changes anything. *)
Theorem backtrace_correct kind num g w n ras :
  atoi num = Z.of_nat n → paging (mach w) = false → length ras = n →
  (kind ≠ chars "leaf" → chain (mach w) (gpr g 8) ras →
     backtrace_call [kind; num] g w =
       Returns ACTION_CONTINUE g (show w (frames_from 0 (take n (pc g :: ras))))) ∧
  ∀ fp', kind = chars "leaf" → direct_read 4 (w32 (gpr g 8 - 4)) (mem (mach w)) = Ok fp' →
     chain (mach w) fp' (tail ras) → head ras = Some (gpr g 1) →
     backtrace_call [kind; num] g w =
       Returns ACTION_CONTINUE g (show w (frames_from 0 (take n (pc g :: ras)))).
Proof.
  intros Hn Hp Hl. unfold backtrace_call. rewrite Hn, Nat2Z.id, <- Hl. split.
  - intros Hk Hc. rewrite bool_decide_false by done. by apply frame_loop_spec.
  - intros fp' -> H4 Hc Hh. rewrite bool_decide_true by done. destruct ras as [|ra ras]; [done|]. injection Hh as ->.
    cbn [length frame_loop Z.eqb andb]. rewrite (read32_direct _ fp') by done. cbn [andthen tail] in *.
    rewrite frame_loop_spec by done. cbn [take]. rewrite frames_cons. unfold show. cbn [mach bps out].
    by rewrite <- app_assoc.
Qed.

(** ** Concrete sessions *)

(** A process with two frames on a stack of 64 bytes at 0x1000: the frame pointer
    0x1020 with return address 0x500 and caller 0x1030, and that one with 0x600. *)
Definition stack_words : list Z :=
  concat (le_split 4 <$> [0; 0; 0; 0; 0; 0; 0x1030; 0x500; 0; 0; 0x1040; 0x600; 0; 0; 0; 0]).

Definition frame_process : process :=
  mk_process (space_of [generic_region 0x1000 0x1040 6 "stack" (Some 1)]) {[ 1 := stack_words ]}.

Definition frame_machine : machine :=
  mk_machine (mk_control ∅ 0 0 0 (mk_status false false false false false false 0 0) PRIVILEGE_LEVEL_MACHINE)
    (mk_hart 0 [] ∅ 0) frame_process [] [] 0 0.

Definition blank_view : view := mk_view frame_machine no_breakpoints [].

Definition lines_of (l : list string) : list Z := concat ((λ s, chars s ++ [10]) <$> l).

Definition demo_session (input : list string) : session :=
  mk_session blank_view (replicate 4096 0) 0 (lines_of input).

Definition frame_guest : guest := mk_guest (<[8%nat := 0x1020]> (replicate 32 0)) 0x400.

Lemma breakpoints_correct_witness :
  ∃ t, breakpoints_init (Some (chars "0x10000 10006 1abcd8")) no_breakpoints = Ok t ∧ bps_ok 0 t ∧
    enter_vmm_dbg_shell 0 true (mk_guest (replicate 32 0) 0x10006) (mk_session (mk_view frame_machine t []) [] 0 []) =
      Returns 0 (mk_guest (replicate 32 0) 0x10006) (mk_session (mk_view frame_machine t []) [] 0 []) ∧
    enter_vmm_dbg_shell 0 true (mk_guest (replicate 32 0) 0x10000) (mk_session (mk_view frame_machine t []) [] 0 []) =
      Dies EFuel.
Proof.
  destruct (breakpoints_correct 0 (chars "0x10000 10006 1abcd8")) as (t & Ht & Hok & Hhook).
  - replace (addresses _) with [0x10000; 0x10006; 0x1abcd8] by (vm_compute; reflexivity).
    repeat first [apply Forall_nil_2 | apply Forall_cons_2]; (split; unfold word32; lia).
  - vm_compute. discriminate.
  - exists t. split; [done|]. split; [done|]. split; rewrite Hhook by done; reflexivity.
Defined.

Lemma shell_correct_witness :
  ends_as (shell_loop 3 frame_guest (demo_session ["break 10000"; ""; "continue"]))
    (Returns 0 frame_guest
       (mk_view frame_machine (mk_bps (0x10000 :: replicate 255 0) 1) [Added 0x10000 0; Added 0x10000 0])).
Proof.
  apply (shell_correct [chars "break 10000"; []; chars "continue"] [] frame_guest
    (demo_session ["break 10000"; ""; "continue"]) []).
  - repeat constructor; first [by apply (bool_decide_unpack _) | vm_compute; lia].
  - reflexivity.
  - reflexivity.
  - reflexivity.
Defined.

Lemma backtrace_correct_witness :
  backtrace_call [chars "noleaf"; chars "2"] frame_guest blank_view =
    Returns ACTION_CONTINUE frame_guest (show blank_view [Frame 0 0x400; Frame 1 0x500]).
Proof.
  apply (backtrace_correct (chars "noleaf") (chars "2") frame_guest blank_view 2 [0x500; 0x600]).
  - reflexivity.
  - reflexivity.
  - reflexivity.
  - by apply (bool_decide_unpack _).
  - exists 0x1030. split; [by vm_compute|]. split; [by vm_compute|]. exists 0x1040. split_and!; [by vm_compute..|done].
Defined.

(** ** Where the debugger departs from its intent *)

(** The comparison wraps: of five breakpoints further apart than 2 GB one is not
    found. *)
Theorem distant_breakpoint_missed :
  match breakpoints_init (Some (chars "10000000 20000000 90000000 a0000000 e0000000")) no_breakpoints with
  | Ok t => 0xa0000000 ∈ bp_list t ∧ is_address_breakpoint 0xa0000000 t = Ok false
  | Err _ => False
  end.
Proof. vm_compute. split; [|done]. repeat constructor. Qed.

(** At the end of its input the shell repeats the last command for ever. *)
Theorem shell_spins n g w :
  stdin w = [] → run_words (last_tokens w) g (screen w) = Returns ACTION_CONTINUE g (screen w) →
  shell_loop n g w = Dies EFuel.
Proof.
  intros Hin Hrun. induction n as [|n IH]; [done|]. cbn [shell_loop]. rewrite Hin.
  replace (fgets _ []) with (@nil Z, @nil Z) by by destruct (Z.to_nat _). cbn [upto_nul strip_newline strtok_words].
  rewrite (bool_decide_true (@nil Z = [])) by done. rewrite take_nil, bool_decide_true by done.
  set (w1 := mk_session _ _ _ []). assert (w1 = w) as -> by (unfold w1; destruct w; cbn in *; by subst).
  rewrite process_cmds_spec, Hrun. cbn [command_then]. replace (mk_session _ _ _ _) with w by by destruct w. exact IH.
Qed.

(** A word of 64 characters runs into the row of the next one: the repeated command
    has another word. *)
Theorem long_word_lost :
  match copy_tokens 0 [replicate 64 97; [98]] (replicate 4096 0) with
  | Ok b => last_tokens (mk_session blank_view b 2 []) = [replicate 64 97 ++ [98]; [98]]
  | Err _ => False
  end.
Proof. vm_compute. done. Qed.

(** /v steps by one byte from word to word and adds four times the counter to an
    address that has moved already: the second line of eight is labelled 0x1028
    instead of 0x1020, and a range of three words is shown as twelve. *)
Theorem virtual_dump_wrong :
  match inspect_virtual_memory [chars "1000"; chars "100c"] frame_guest blank_view with
  | Returns _ _ v => length (out v) = 14%nat ∧ out v !! 9%nat = Some (Label 0x1028)
  | _ => False
  end.
Proof. vm_compute. done. Qed.

End Debugger.
