(* ===== verification/Syscall.v ===== *)
(** * System calls: syscall.c, sysnet.c, signal.c and ecall_callback

    [do_syscall] looks the number up in a table of handlers and calls the handler
    with the six argument registers.  Here are the table, the handlers that are in
    syscall.c itself, and the ones that pass their arguments on to vfs.c, the
    memory calls and the host; exit, clone, execve, wait4 and set_tid_address are
    handed over to the tasks (Sched, Fork, Exec), whose answers [task_answer]
    gives.  Theorems: every call that answers keeps the descriptor table, the root
    and the working directory in order; chdir and getcwd. *)
From S2P Require Import Prelude SortSearch X86 PmRegion Vma VmaOps Path Vfs Loader Sched SchedTrap Fork Exec.
Import Macros X86 PmRegion Vma VmaOps Path Vfs Loader Exec.

Module Syscall.

Definition NR_SYSCALL_LINUX : Z := 512.

Definition ESRCH : Z := 3.

(** The state a call sees: files, root, working directory, memory and kernel, and
    the ids of the calling task. *)
Record caller (K : Type) := mk_caller {
  fs : vfs K;
  ppid : Z;
  tgid : Z
}.
Arguments mk_caller {K}.
Arguments fs {K}.
Arguments ppid {K}.
Arguments tgid {K}.

(** The calls that change tasks. *)
Inductive task_call :=
| t_exit (status : Z)
| t_clone (flags child_stack ptid_addr tls_addr ctid_addr : Z)
| t_execve (filename_addr argv_addr envp_addr : Z)
| t_wait4 (pid_hint wstatus_addr options rusage_addr : Z)
| t_set_tid_address (tid_address : Z).

Inductive sysres (K : Type) :=
| Answer (ret : Z) (c : caller K)
| Tasks (t : task_call).
Arguments Answer {K}.
Arguments Tasks {K}.

(** The bytes of a host string, from a pointer on. *)
Definition string_at (p : process) (ptr : host_ptr) : outcome (list Z) :=
  b ← deref (fst ptr);
  l ← deref (heap p !! b);
  if (0 <=? snd ptr) && (snd ptr <=? Z.of_nat (length l)) then Ok (drop (Z.to_nat (snd ptr)) l) else Err EUndef.

Definition user_string (p : process) (addr : Z) : outcome (list Z) :=
  ptr ← user_world_pointer p addr;
  string_at p ptr.

Section calls.
Context {K : Type} `{HK : HostKernel K} `{HA : HostAlloc}.
(** What the local buffers hold. *)
Context (buffer : list Z).
Implicit Types (c : caller K) (v : vfs K).

Definition with_fs c v : caller K := mk_caller v (ppid c) (tgid c).

Definition with_proc v (p : process) : vfs K := mk_vfs (files v) (vroot v) (vcwd v) p (kernel v).

Definition answer c (o : outcome (Z * vfs K)) : outcome (sysres K) :=
  '(ret, v) ← o; Ok (Answer ret (with_fs c v)).

(** A call on the memory. *)
Definition answer_memory c (o : outcome (Z * process)) : outcome (sysres K) :=
  '(ret, p) ← o; Ok (Answer ret (with_fs c (with_proc (fs c) p))).

Definition constant (ret : Z) c : outcome (sysres K) := Ok (Answer (w32 ret) c).

(** A host call whose result is answered as it is. *)
Definition raw v (h : host_call) : outcome (Z * vfs K) :=
  let '(ret, _, v) := host v h in Ok (w32 ret, v).

Definition call_getuid c : outcome (sysres K) := constant 0 c.

(** The six strings, 65 bytes apart. *)
Fixpoint store_names (names : list string) (utsname : host_ptr) (h : host_heap) : outcome host_heap :=
  match names with
  | [] => Ok h
  | s :: names =>
      h ← store_bytes h utsname (cstring s);
      store_names names (fst utsname, snd utsname + 65) h
  end.

Definition call_uname (utsname_addr : Z) c : outcome (sysres K) :=
  let p := proc (fs c) in
  utsname ← user_world_pointer p utsname_addr;
  h ← store_names ["ZeldaLinux"; "hyrule"; "5.4.0"; "v2020.03"; "riscv32"; "castle"] utsname (heap p);
  answer_memory c (Ok (0, mk_process (space p) h)).

Definition call_openat (dirfd pathaddr flags mode : Z) c : outcome (sysres K) :=
  path ← user_string (proc (fs c)) pathaddr;
  answer c (do_openat buffer dirfd path flags mode (fs c)).

Definition call_writev (i iov_addr iovcnt : Z) c : outcome (sysres K) :=
  iov_base ← user_world_pointer (proc (fs c)) iov_addr;
  answer c (do_writev i iov_base iovcnt (fs c)).

Definition call_statx (dirfd pathname_addr flags mask statxbuf_addr : Z) c : outcome (sysres K) :=
  pathname ← user_string (proc (fs c)) pathname_addr;
  statxbuf ← user_world_pointer (proc (fs c)) statxbuf_addr;
  answer c (do_statx buffer dirfd pathname flags mask statxbuf (fs c)).

Definition call_write (i buf_addr nr_to_write : Z) c : outcome (sysres K) :=
  buf ← user_world_pointer (proc (fs c)) buf_addr;
  answer c (do_write i buf nr_to_write (fs c)).

Definition call_read (i buf_addr count : Z) c : outcome (sysres K) :=
  buf ← user_world_pointer (proc (fs c)) buf_addr;
  answer c (do_read i buf count (fs c)).

Definition call_close (i : Z) c : outcome (sysres K) := answer c (do_close i (fs c)).

Definition call_ioctl (i request argp_addr : Z) c : outcome (sysres K) :=
  answer c (do_ioctl i request argp_addr (fs c)).

Definition call_getdents64 (i dirp_addr count : Z) c : outcome (sysres K) :=
  answer c (do_getdents64 i dirp_addr count (fs c)).

Definition call_readlinkat (dirfd pathname_addr buff_addr buf_size : Z) c : outcome (sysres K) :=
  pathname ← user_string (proc (fs c)) pathname_addr;
  buff ← user_world_pointer (proc (fs c)) buff_addr;
  answer c (do_readlinkat buffer dirfd pathname buff buf_size (fs c)).

Definition call_sendfile (out_fd i offset_addr count : Z) c : outcome (sysres K) :=
  offset ← (if offset_addr =? 0 then Ok (None, 0) else user_world_pointer (proc (fs c)) offset_addr);
  answer c (do_sendfile out_fd i offset count (fs c)).

Definition call_unlinkat (dirfd pathname_addr flags : Z) c : outcome (sysres K) :=
  pathname ← user_string (proc (fs c)) pathname_addr;
  answer c (do_unlinkat buffer dirfd pathname flags (fs c)).

Definition call_lseek (i offset whence : Z) c : outcome (sysres K) := answer c (do_lseek i offset whence (fs c)).

Definition call_faccessat c : outcome (sysres K) := constant 0 c.

Definition call_socket c : outcome (sysres K) := constant (- ENOSYS) c.

Definition call_mmap (proposal_addr len prot flags i offset : Z) c : outcome (sysres K) :=
  answer_memory c (do_mmap proposal_addr len prot flags i offset (proc (fs c))).

Definition call_munmap (addr len : Z) c : outcome (sysres K) :=
  answer_memory c (do_munmap addr len (proc (fs c))).

Definition call_gettimeofday (tv_addr tz_addr : Z) c : outcome (sysres K) :=
  tv ← (if tv_addr =? 0 then Ok (None, 0) else user_world_pointer (proc (fs c)) tv_addr);
  tz ← (if tz_addr =? 0 then Ok (None, 0) else user_world_pointer (proc (fs c)) tz_addr);
  answer c (raw (fs c) (h_gettimeofday tv tz)).

Definition call_clock_gettime (clk_id timespec_addr : Z) c : outcome (sysres K) :=
  timespec_ptr ← user_world_pointer (proc (fs c)) timespec_addr;
  answer c (raw (fs c) (h_clock_gettime clk_id timespec_ptr)).

Definition call_getrlimit (resource rlim_addr : Z) c : outcome (sysres K) :=
  rlim ← user_world_pointer (proc (fs c)) rlim_addr;
  answer c (pass (fs c) (h_getrlimit resource rlim)).

Definition call_getpid c : outcome (sysres K) := Ok (Answer (tgid c) c).

Definition call_getppid c : outcome (sysres K) := Ok (Answer (ppid c) c).

Definition call_getpgid c : outcome (sysres K) := Ok (Answer (ppid c) c).

(** [size] is not used. *)
Definition call_getcwd (buf_addr size : Z) c : outcome (sysres K) :=
  if buf_addr =? 0 then constant 0 c else
  let p := proc (fs c) in
  buf ← user_world_pointer p buf_addr;
  let cwd := upto_nul (vcwd (fs c)) in
  h ← store_bytes (heap p) buf (cwd ++ [0]);
  answer_memory c (Ok (w32 (Z.of_nat (length cwd) + 1), mk_process (space p) h)).

(** [strcpy(dst, s)] to an array. *)
Definition strcpy (dst s : list Z) : outcome (list Z) :=
  if (length s + 1 <=? length dst)%nat then Ok (s ++ [0] ++ drop (length s + 1) dst) else Err EUndef.

(** [tfp_sprintf(cpath, "%s/", cpath)] prints each character over itself. *)
Definition call_chdir (path_addr : Z) c : outcome (sysres K) :=
  let v := fs c in
  path ← user_string (proc v) path_addr;
  (if bool_decide (0 ∈ path) then Ok tt else Err EUndef);;
  let ptr := skip_spaces (upto_nul path) in
  cpath ←
    (if bool_decide (head ptr = Some SLASH) then canonicalize_path_name buffer (ptr ++ [0])
     else ncpath ← join_path (upto_nul (vcwd v)) ptr; canonicalize_path_name buffer ncpath);
  let cpath := upto_nul cpath ++ [SLASH] in
  (if Z.of_nat (length cpath) <? MAX_PATH then Ok tt else Err EUndef);;
  cwd ← strcpy (vcwd v) cpath;
  Ok (Answer 0 (with_fs c (mk_vfs (files v) (vroot v) cwd (proc v) (kernel v)))).

Definition call_sysinfo c : outcome (sysres K) := constant (- ENOSYS) c.

Definition call_mprotect c : outcome (sysres K) := constant 0 c.

Definition call_madvice c : outcome (sysres K) := constant 0 c.

(** FD_ISSET on a set in the guest's memory and FD_SET on one of the three local sets
    of 1024 bits, which nothing reads. *)
Definition select_fd (idx host_fd : Z) (set : option host_ptr) (h : host_heap) : outcome unit :=
  match set with
  | None => Ok tt
  | Some ptr =>
      bits ← load h (fst ptr, snd ptr + 8 * (idx / 64)) 8;
      if Z.testbit bits (idx mod 64) then
        if (0 <=? host_fd) && (host_fd <? 1024) then Ok tt else Err EUndef
      else Ok tt
  end.

Fixpoint pselect_loop (n : nat) (idx nfds : Z) (sets : list (option host_ptr)) (l : list file) (h : host_heap)
    : outcome unit :=
  match n with
  | O => Ok tt
  | S n =>
      if idx <? w32 (nfds + 1) then
        f ← deref (zget l idx);
        (if valid f then
           _ ← mapM (λ s, select_fd idx (host_fd f) s h) sets; Ok tt
         else Ok tt);;
        pselect_loop n (idx + 1) nfds sets l h
      else Ok tt
  end.

Definition select_set (addr : Z) (p : process) : outcome (option host_ptr) :=
  acc ← user_accessible p addr;
  if (acc : bool) then ptr ← user_world_pointer p addr; Ok (Some ptr) else Ok None.

Definition call_pselect (nfds readfds_addr writefds_addr exceptfds_addr : Z) c : outcome (sysres K) :=
  let p := proc (fs c) in
  readfds ← select_set readfds_addr p;
  writefds ← select_set writefds_addr p;
  exceptfds ← select_set exceptfds_addr p;
  _ ← pselect_loop (Z.to_nat MAX_FILES_NR) 0 nfds [readfds; writefds; exceptfds] (files (fs c)) (heap p);
  constant 0 c.

(** signal.c *)
Definition call_sigaction c : outcome (sysres K) := constant 0 c.

Definition call_kill c : outcome (sysres K) := constant (- ESRCH) c.

Definition call_sigprocmask c : outcome (sysres K) := constant 0 c.

(** ** The table *)
Definition sys_handler : Type := Z → Z → Z → Z → Z → Z → caller K → outcome (sysres K).

(** A call of task.c: its answer is that of [task_answer]. *)
Definition to_tasks (t : task_call) : outcome (sysres K) := Ok (Tasks t).

(** [syscall_init] *)
Definition handlers : list (Z * sys_handler) :=
  [ (17, λ a0 a1 _ _ _ _, call_getcwd a0 a1);
    (23, λ a0 _ _ _ _ _ c, answer c (call_dup a0 (fs c)));
    (24, λ a0 a1 a2 _ _ _ c, answer c (call_dup3 a0 a1 a2 (fs c)));
    (25, λ a0 a1 a2 _ _ _ c, answer c (call_fnctl a0 a1 a2 (fs c)));
    (29, λ a0 a1 a2 _ _ _, call_ioctl a0 a1 a2);
    (35, λ a0 a1 a2 _ _ _, call_unlinkat a0 a1 a2);
    (48, λ _ _ _ _ _ _, call_faccessat);
    (49, λ a0 _ _ _ _ _, call_chdir a0);
    (56, λ a0 a1 a2 a3 _ _, call_openat a0 a1 a2 a3);
    (57, λ a0 _ _ _ _ _, call_close a0);
    (61, λ a0 a1 a2 _ _ _, call_getdents64 a0 a1 a2);
    (62, λ a0 a1 a2 _ _ _, call_lseek a0 a1 a2);
    (63, λ a0 a1 a2 _ _ _, call_read a0 a1 a2);
    (64, λ a0 a1 a2 _ _ _, call_write a0 a1 a2);
    (66, λ a0 a1 a2 _ _ _, call_writev a0 a1 a2);
    (71, λ a0 a1 a2 a3 _ _, call_sendfile a0 a1 a2 a3);
    (72, λ a0 a1 a2 a3 _ _, call_pselect a0 a1 a2 a3);
    (78, λ a0 a1 a2 a3 _ _, call_readlinkat a0 a1 a2 a3);
    (93, λ a0 _ _ _ _ _ _, to_tasks (t_exit a0));
    (94, λ a0 _ _ _ _ _ _, to_tasks (t_exit a0));
    (96, λ a0 _ _ _ _ _ _, to_tasks (t_set_tid_address a0));
    (99, λ _ _ _ _ _ _, constant 0);
    (113, λ a0 a1 _ _ _ _, call_clock_gettime a0 a1);
    (129, λ _ _ _ _ _ _, call_kill);
    (134, λ _ _ _ _ _ _, call_sigaction);
    (135, λ _ _ _ _ _ _, call_sigprocmask);
    (155, λ _ _ _ _ _ _, call_getpgid);
    (160, λ a0 _ _ _ _ _, call_uname a0);
    (163, λ a0 a1 _ _ _ _, call_getrlimit a0 a1);
    (169, λ a0 a1 _ _ _ _, call_gettimeofday a0 a1);
    (172, λ _ _ _ _ _ _, call_getpid);
    (173, λ _ _ _ _ _ _, call_getppid);
    (174, λ _ _ _ _ _ _, call_getuid);
    (175, λ _ _ _ _ _ _, call_getuid);
    (176, λ _ _ _ _ _ _, call_getuid);
    (177, λ _ _ _ _ _ _, call_getuid);
    (179, λ _ _ _ _ _ _, call_sysinfo);
    (198, λ _ _ _ _ _ _, call_socket);
    (214, λ a0 _ _ _ _ _ c, answer_memory c (call_brk a0 (proc (fs c))));
    (215, λ a0 a1 _ _ _ _, call_munmap a0 a1);
    (220, λ a0 a1 a2 a3 a4 _ _, to_tasks (t_clone a0 a1 a2 a3 a4));
    (221, λ a0 a1 a2 _ _ _ _, to_tasks (t_execve a0 a1 a2));
    (222, call_mmap);
    (226, λ _ _ _ _ _ _, call_mprotect);
    (233, λ _ _ _ _ _ _, call_madvice);
    (260, λ a0 a1 a2 a3 _ _ _, to_tasks (t_wait4 (sint 32 a0) a1 a2 a3));
    (291, λ a0 a1 a2 a3 a4 _, call_statx a0 a1 a2 a3 a4) ].

Definition handler_of (n : Z) : option sys_handler :=
  snd <$> head (filter (λ e, fst e = n) handlers).

Definition do_syscall (syscall_number_a7 a0 a1 a2 a3 a4 a5 : Z) c : outcome (sysres K) :=
  ASSERT (syscall_number_a7 <? NR_SYSCALL_LINUX);;
  match handler_of syscall_number_a7 with
  | None => not_reach
  | Some handler => handler a0 a1 a2 a3 a4 a5 c
  end.

(** What the handlers of task.c answer to the task [me], and what they do to the
    tasks; no answer where the caller does not return from the call at once: after
    an exit, after an execve, which resumes it in the new program ([Exec]), and in a
    wait that blocks.  [child], [vmm_stack] and [cp] are what the allocations and
    the copies of a clone return. *)
Definition task_answer (me child vmm_stack : Z) (cp : Sched.copies) (t : task_call) (s : Sched.sys)
    : outcome (option Z * Sched.sys) :=
  match t with
  | t_exit _ => s ← Sched.do_exit me s; Ok (None, s)
  | t_clone flags child_stack _ _ ctid_addr =>
      '(ret, s) ← Sched.clone_task me child vmm_stack child_stack flags ctid_addr cp s; Ok (Some ret, s)
  | t_execve _ _ _ => Ok (None, s)
  | t_wait4 pid_hint _ options _ =>
      '(ret, target, yields, s) ← Sched.call_wait4 me pid_hint options s;
      if (yields : bool) then Ok (None, s)
      else '(ret, s) ← Sched.call_wait4_resumed me options ret target s; Ok (Some ret, s)
  | t_set_tid_address a => '(ret, s) ← Sched.call_set_tid_address me a s; Ok (Some ret, s)
  end.

(** [ecall_callback]: the result goes to a0. *)
Definition ecall_callback (g : guest) c : outcome (guest * caller K + task_call) :=
  r ← do_syscall (gpr g 17) (gpr g 10) (gpr g 11) (gpr g 12) (gpr g 13) (gpr g 14) (gpr g 15) c;
  match r with
  | Answer ret c => Ok (inl (set_gpr g 10 (w32 ret), c))
  | Tasks t => Ok (inr t)
  end.

End calls.

(** ** What every call keeps *)
Section invariant.
Context {K : Type} `{HK : HostKernel K} {kopen : K → gset Z} {HKok : HostKernelOk K kopen} `{HA : HostAlloc}.
Context (buffer : list Z).
Implicit Types (c : caller K) (v : vfs K).
Notation vfs_good := (vfs_good (kopen := kopen)).

(** If the call returns, the table is consistent with the kernel and the directories
    are as before. *)
Definition keeps v (o : outcome (Z * vfs K)) : Prop :=
  ∀ r v', o = Ok (r, v') → vfs_good v' ∧ vroot v' = vroot v ∧ vcwd v' = vcwd v.

Lemma keeps_bind {A} v (o : outcome A) (k : A → outcome (Z * vfs K)) :
  (∀ a, o = Ok a → keeps v (k a)) → keeps v (o ≫= k).
Proof. intros Hk r v' (a & Ha & Hr)%bind_Ok. by eapply Hk. Qed.

Lemma keeps_here v r : vfs_good v → keeps v (Ok (r, v)).
Proof. by intros Hg r' v' [= -> ->]. Qed.

Lemma keeps_total v o : (∃ r v', o = Ok (r, v') ∧ vfs_good v' ∧ same_place v v') → keeps v o.
Proof. intros (r & v' & -> & Hg & H1 & H2 & _) r1 v1 [= <- <-]. done. Qed.

Lemma keeps_host v h (f : Z → Z → Z) :
  opens h = false → (∀ n, h ≠ h_close n) → vfs_good v →
  keeps v (let '(ret, e, v) := host v h in Ok (f ret e, v)).
Proof.
  intros Ho Hc Hg r v'. destruct (host v h) as [[ret e] v1] eqn:Hh. intros [= <- <-].
  destruct (host_neutral v h ret e v1 Ho Hc Hh Hg) as (? & ? & ? & _). done.
Qed.

Lemma lookup_fd_ok l O i o : table_good l O → lookup_fd l i = Ok o → fd_ok i.
Proof.
  intros Hg. unfold lookup_fd, fd_ok. pose proof (tg_len _ _ Hg). unfold MAX_FILES_NR in *.
  destruct (Z.ltb_spec 128 i); [intros _; lia|]. destruct (zget l i) as [f|] eqn:Hf; [|done]. intros _.
  apply zget_Some in Hf as [? Hf%lookup_lt_Some]. lia.
Qed.

Lemma keeps_lookup v i (k : option file → outcome (Z * vfs K)) :
  vfs_good v → (fd_ok i → ∀ o, lookup_fd (files v) i = Ok o → keeps v (k o)) → keeps v (lookup_fd (files v) i ≫= k).
Proof. intros Hg Hk. apply keeps_bind. intros o Ho. apply Hk; [by eapply lookup_fd_ok|done]. Qed.

(** A call that first looks a descriptor up. *)
Lemma keeps_fd v i (o : outcome (Z * vfs K)) (k : option file → outcome (Z * vfs K)) :
  vfs_good v → o = (lookup_fd (files v) i ≫= k) →
  (fd_ok i → ∃ r v', o = Ok (r, v') ∧ vfs_good v' ∧ same_place v v') → keeps v o.
Proof.
  intros Hg -> Hk. apply keeps_lookup; [done|]. intros Hi x Hx r v' Hr.
  eapply (keeps_total v _ (Hk Hi)). by rewrite (bind_step _ _ _ Hx).
Qed.

Lemma keeps_on_fd v i h :
  (∀ x, opens (h x) = false) → (∀ x n, h x ≠ h_close n) → vfs_good v → keeps v (on_fd i h v).
Proof. intros Ho Hc Hg. eapply keeps_fd; [done|reflexivity|]. intros Hi. by apply on_fd_spec. Qed.

Lemma keeps_dup3 v i j fl : vfs_good v → keeps v (call_dup3 i j fl v).
Proof.
  intros Hg. destruct (decide (fd_ok j)) as [Hj|Hj].
  { eapply keeps_fd; [done|reflexivity|]. intros Hi. by apply dup3_spec. }
  apply keeps_lookup; [done|]. intros Hi [f|] _; [|by apply keeps_here].
  destruct (Z.ltb_spec MAX_FILES_NR j); [by apply keeps_here|].
  destruct (Z.eqb_spec j i) as [->|]; [done|]. apply keeps_bind. intros t Ht. exfalso. apply Hj.
  unfold deref in Ht. destruct (zget (files v) j) eqn:Hz; [|done]. apply zget_Some in Hz as [? Hz%lookup_lt_Some].
  rewrite (tg_len _ _ Hg) in Hz. unfold fd_ok, MAX_FILES_NR in *. lia.
Qed.

Lemma keeps_fcntl v i cmd arg : vfs_good v → keeps v (call_fnctl i cmd arg v).
Proof.
  intros Hg. unfold call_fnctl.
  destruct (Z.eqb_spec cmd F_DUPFD); [eapply keeps_fd; [done|reflexivity|]; intros; apply fcntl_dup_spec; [done|by left|done]|].
  destruct (Z.eqb_spec cmd F_DUPFD_CLOEXEC);
    [eapply keeps_fd; [done|reflexivity|]; intros; apply fcntl_dup_spec; [done|by right|done]|]. cbn [orb].
  repeat case_match; try (by apply keeps_on_fd). by apply keeps_here.
Qed.

#[local] Opaque canonicalize_path_name host_path_of append_string.

Lemma keeps_openat v dirfd path flags mode : vfs_good v → keeps v (do_openat buffer dirfd path flags mode v).
Proof.
  intros Hg. apply keeps_bind. intros [[cpath dir] gc] _.
  destruct (allocate_spec _ _ Hg) as [[_ ->]|(i & Hi & _ & ->)]; cbn [mbind outcome_bind]; [by apply keeps_here|].
  unfold host, set_files. cbn [files kernel proc vroot vcwd]. destruct (kcall _ _ _) as [[[ret e] k] h] eqn:Hk.
  set (t := mk_file (Z.of_nat i) (sint 32 ret) true (Some (upto_nul cpath)) flags mode FILE_TYPE_REGULAR).
  destruct (opened_good v (<[i := mk_file (Z.of_nat i) 0 true None 0 0 FILE_TYPE_ERROR]> (files v))
    (h_open (upto_nul cpath) flags mode) ret e k h i t Hg Hi (or_intror (ex_intro _ _ eq_refl)) eq_refl Hk)
    as [Hgood Hfail]; [done..|].
  cbn [files kernel proc vroot vcwd]. destruct (Z.ltb_spec (sint 32 ret) 0).
  - rewrite undo_allocate by done. intros r v' [= <- <-]. split; [by apply Hfail|done].
  - pose proof (lookup_lt_Some _ _ _ Hi). do 2 (apply keeps_bind; intros [? ?] _). apply keeps_bind. intros _ _.
    rewrite zset_ok by (rewrite length_insert; lia). intros r v' [= <- <-]. rewrite Nat2Z.id. done.
Qed.

(** The state of a caller between calls. *)
Record caller_good c : Prop := {
  cg_files : vfs_good (fs c);
  cg_length : length (vcwd (fs c)) = 128%nat;
  cg_cwd : cwd_ok (upto_nul (vcwd (fs c)))
}.

(** A call that answers leaves the caller in order, with its root and ids. *)
Definition in_order c (o : outcome (sysres K)) : Prop :=
  ∀ r c', o = Ok (Answer r c') →
    caller_good c' ∧ vroot (fs c') = vroot (fs c) ∧ ppid c' = ppid c ∧ tgid c' = tgid c.

Lemma in_order_bind {A} c (o : outcome A) (k : A → outcome (sysres K)) :
  (∀ a, o = Ok a → in_order c (k a)) → in_order c (o ≫= k).
Proof. intros Hk r c' (a & Ha & Hr)%bind_Ok. by eapply Hk. Qed.

Lemma in_order_answer c o : caller_good c → keeps (fs c) o → in_order c (answer c o).
Proof.
  intros [_ Hl Hc] Hk r c' ([ret v] & Hv & [= <- <-])%bind_Ok. destruct (Hk _ _ Hv) as (Hg & Hroot & Hcwd).
  cbn. split; [|done]. split; cbn; [done|by rewrite Hcwd..].
Qed.

Lemma in_order_memory c o : caller_good c → in_order c (answer_memory c o).
Proof. intros [Hg Hl Hc] r c' ([ret p] & _ & [= <- <-])%bind_Ok. done. Qed.

Lemma in_order_same c r : caller_good c → in_order c (Ok (Answer r c)).
Proof. by intros Hg r' c' [= -> ->]. Qed.

Lemma in_order_tasks c t : in_order c (to_tasks t).
Proof. done. Qed.

Lemma keeps_sendfile v o i off n : vfs_good v → keeps v (do_sendfile o i off n v).
Proof.
  intros Hg. apply keeps_lookup; [done|]. intros _ [f|] _; [|by apply keeps_here].
  apply keeps_lookup; [done|]. intros _ [g|] _; [|by apply keeps_here]. by apply (keeps_host v _ ERRNO).
Qed.

Lemma keeps_writev v i iov n : vfs_good v → keeps v (do_writev i iov n v).
Proof.
  intros Hg. apply keeps_lookup; [done|]. intros _ [f|] _; [|by apply keeps_here].
  apply keeps_bind. intros l _. by apply (keeps_host v _ ERRNO).
Qed.

Lemma keeps_ioctl v i r a : vfs_good v → keeps v (do_ioctl i r a v).
Proof.
  intros Hg. apply keeps_lookup; [done|]. intros _ [f|] _; [|by apply keeps_here].
  do 2 (apply keeps_bind; intros ? _). by apply (keeps_host v _ ERRNO).
Qed.

Lemma keeps_getdents v i d n : vfs_good v → keeps v (do_getdents64 i d n v).
Proof.
  intros Hg. apply keeps_lookup; [done|]. intros _ [f|] _; [|by apply keeps_here].
  apply keeps_bind. intros dirp _. by apply (keeps_host v _ (λ ret _, w32 ret)).
Qed.

Lemma keeps_close v i : vfs_good v → keeps v (do_close i v).
Proof.
  intros Hg. eapply keeps_fd; [done|reflexivity|]. intros Hi.
  destruct (close_spec v i Hi Hg) as (r & v' & ? & ? & ? & _). by exists r, v'.
Qed.

Lemma keeps_dup v i : vfs_good v → keeps v (call_dup i v).
Proof. intros Hg. eapply keeps_fd; [done|reflexivity|]. intros Hi. by apply dup_spec. Qed.

Lemma keeps_path v (h : list Z → host_call) strict dirfd path :
  (∀ x, opens (h x) = false) → (∀ x n, h x ≠ h_close n) → vfs_good v →
  keeps v ('(cpath, _, _) ← host_path_of buffer strict (vroot v) (vcwd v) dirfd path; pass v (h (upto_nul cpath))).
Proof. intros Ho Hc Hg. apply keeps_bind. intros [[cpath ?] ?] _. by apply (keeps_host v _ ERRNO). Qed.

Lemma keeps_raw v h : opens h = false → (∀ n, h ≠ h_close n) → vfs_good v → keeps v (raw v h).
Proof. intros. by apply (keeps_host v h (λ ret _, w32 ret)). Qed.

(** ** chdir and getcwd *)
Definition with_cwd c (s : list Z) : caller K :=
  with_fs c (mk_vfs (files (fs c)) (vroot (fs c)) (s ++ [0] ++ drop (length s + 1) (vcwd (fs c)))
               (proc (fs c)) (kernel (fs c))).

Definition new_cwd c (path : list Z) : list Z :=
  canonical_path (guest_target (upto_nul (vcwd (fs c))) path) ++ [SLASH].

Lemma upto_nul_length l : (length (upto_nul l) <= length l)%nat.
Proof. induction l as [|x l IH]; cbn; [lia|]. destruct (x =? 0); cbn; lia. Qed.

Lemma user_string_spec p a s :
  mem_ok p → guest_string p a s → ∃ rest, user_string p a = Ok (s ++ 0 :: rest).
Proof.
  intros Hok [Hh Hs]. destruct (held_block p a (s ++ [0]) Hok) as (b & l & off & rest & Hu & Hl & Ho & _ & Hd);
    [unfold size; rewrite length_app; simpl; lia|done|]. rewrite <- app_assoc in Hd. cbn [app] in Hd.
  exists rest. unfold user_string, string_at. rewrite Hu. cbn [mbind outcome_bind fst snd deref]. rewrite Hl.
  cbn [mbind outcome_bind deref]. assert (Hlen : off <= Z.of_nat (length l)).
  { apply (f_equal length) in Hd. rewrite length_drop, length_app in Hd. simpl in Hd. lia. }
  zbool; try lia. cbn [andb]. by rewrite Hd.
Qed.

Lemma new_cwd_ok c path :
  caller_good c → Forall (λ x, x ≠ 0) path → cwd_ok (new_cwd c path) ∧ Forall (λ x, x ≠ 0) (new_cwd c path).
Proof.
  intros [_ _ Hc] Hp. destruct (guest_target_ok _ path Hc Hp) as (Hg & Hh & _).
  destruct (guest_words _ [SLASH] true Hg) as (L & HL & HL1 & HL2); [by exists []|done|]. cbn [app] in HL.
  unfold new_cwd. rewrite HL. split; [by exists L|]. apply Forall_app. split; [by apply slash_words_nonzero|].
  by repeat constructor.
Qed.

Lemma chdir_spec c a path :
  length buffer = 512%nat → mem_ok (proc (fs c)) → caller_good c → guest_string (proc (fs c)) a path →
  (length path <= 380)%nat →
  call_chdir buffer a c =
    if (length (new_cwd c path) <? 128)%nat then Ok (Answer 0 (with_cwd c (new_cwd c path))) else Err EUndef.
Proof.
  intros Hbuf Hok Hgood Hpath Hlen. pose proof Hgood as [_ H128 Hc]. pose proof (proj2 Hpath) as Hnz.
  destruct (user_string_spec _ _ _ Hok Hpath) as (rest & Hu). unfold call_chdir. rewrite Hu, Ok_bind.
  rewrite (bool_decide_true (0 ∈ path ++ 0 :: rest)) by (apply elem_of_app; right; by left). rewrite Ok_bind, upto_nul_app by done. cbv zeta.
  destruct (guest_target_ok _ path Hc Hnz) as (Hg & _ & Hgl). pose proof (upto_nul_length (vcwd (fs c))).
  destruct (canonicalize_spec _ [] buffer Hg ltac:(lia) Hbuf) as (r & Hr & _).
  rewrite (guest_step buffer (upto_nul (vcwd (fs c))) path _ ltac:(lia) Hr), Ok_bind.
  destruct (canonical_path_bounds _ Hg) as [Hcn Hcl]. rewrite upto_nul_app by done. fold (new_cwd c path).
  assert (Hl : (length (new_cwd c path) < 511)%nat) by (unfold new_cwd; rewrite length_app; cbn [length]; lia).
  rewrite (proj2 (Z.ltb_lt _ _)) by (unfold MAX_PATH; lia). rewrite Ok_bind. unfold strcpy. rewrite H128.
  destruct (Nat.ltb_spec (length (new_cwd c path)) 128), (Nat.leb_spec (length (new_cwd c path) + 1) 128); try lia; done.
Qed.

Lemma with_cwd_good c s :
  caller_good c → cwd_ok s → Forall (λ x, x ≠ 0) s → (length s < 128)%nat →
  caller_good (with_cwd c s) ∧ upto_nul (vcwd (fs (with_cwd c s))) = s.
Proof.
  intros [Hg Hl _] Hs Hnz Hlen. assert (Hu : upto_nul (vcwd (fs (with_cwd c s))) = s) by (cbn; by apply upto_nul_app).
  split; [|done]. split; [done| |by rewrite Hu]. cbn. rewrite length_app. cbn [length]. rewrite length_drop. lia.
Qed.

(** The path of a chdir is in the memory of the caller and not longer than 380
    characters. *)
Definition chdir_args c (a : Z) : Prop :=
  mem_ok (proc (fs c)) ∧ ∃ path, guest_string (proc (fs c)) a path ∧ (length path <= 380)%nat.

Lemma in_order_chdir c a : length buffer = 512%nat → caller_good c → chdir_args c a → in_order c (call_chdir buffer a c).
Proof.
  intros Hbuf Hg (Hok & path & Hp & Hlen) r c'. rewrite (chdir_spec c a path) by done.
  destruct (Nat.ltb_spec (length (new_cwd c path)) 128); [|done]. intros [= <- <-].
  destruct (new_cwd_ok c path Hg (proj2 Hp)). split; [by apply with_cwd_good|done].
Qed.

Ltac keep := first
  [ by apply keeps_openat | by apply keeps_close | by apply keeps_dup | by apply keeps_dup3 | by apply keeps_fcntl
  | by apply keeps_on_fd | by apply keeps_sendfile | by apply keeps_writev | by apply keeps_ioctl
  | by apply keeps_getdents | by apply (keeps_host _ _ ERRNO) | by apply keeps_raw
  | by apply (keeps_path _ (λ x, h_statx x _ _ _)) | by apply (keeps_path _ (λ x, h_readlinkat x _ _))
  | by apply (keeps_path _ (λ x, h_unlinkat x _)) ].

Ltac one_call Hg :=
  lazymatch goal with
  | |- in_order _ (to_tasks _) => apply in_order_tasks
  | |- in_order _ (answer _ _) => apply in_order_answer; [done|destruct Hg; keep]
  | |- in_order _ (answer_memory _ _) => by apply in_order_memory
  | |- in_order _ (Ok (Answer _ _)) => by apply in_order_same
  | |- in_order _ (constant _ _) => by apply in_order_same
  | |- in_order _ (if _ then _ else _) => case_match; one_call Hg
  | |- in_order _ (_ ≫= _) => apply in_order_bind; intros ? _; one_call Hg
  end.

Lemma handlers_in_order c :
  length buffer = 512%nat → caller_good c →
  Forall (λ e : Z * sys_handler, ∀ a0 a1 a2 a3 a4 a5, (fst e = 49 → chdir_args c a0) → in_order c (snd e a0 a1 a2 a3 a4 a5 c))
    (handlers buffer).
Proof.
  intros Hbuf Hg. unfold handlers. repeat (apply Forall_cons; split; [intros a0 a1 a2 a3 a4 a5 Hch; cbn [snd]|]); [..|apply Forall_nil_2].
  all: try (apply in_order_chdir; [done|done|by apply Hch]).
  all: try unfold call_getcwd, call_uname, call_openat, call_writev, call_statx, call_write, call_read, call_close, call_ioctl,
    call_getdents64, call_readlinkat, call_sendfile, call_unlinkat, call_lseek, call_faccessat, call_socket, call_mmap,
    call_munmap, call_gettimeofday, call_clock_gettime, call_getrlimit, call_getpid, call_getppid, call_getpgid,
    call_sysinfo, call_mprotect, call_madvice, call_pselect, call_sigaction, call_kill, call_sigprocmask, call_getuid.
  all: cbv zeta; one_call Hg.
Qed.

Lemma handler_of_elem n h : handler_of buffer n = Some h → ∃ e, e ∈ handlers buffer ∧ fst e = n ∧ snd e = h.
Proof.
  unfold handler_of. destruct (head _) as [e|] eqn:He; [|done]. intros [= <-].
  apply head_Some_elem_of, list_elem_of_filter in He as [Hn He]. by exists e.
Qed.

(** The calls of task.c. *)
Definition task_numbers : list Z := [93; 94; 96; 220; 221; 260].

(** A call that is not handed over. *)
Definition own_call (o : outcome (sysres K)) : Prop := ∀ t, o ≠ Ok (Tasks t).

Lemma own_call_bind {A} (o : outcome A) (k : A → outcome (sysres K)) : (∀ a, own_call (k a)) → own_call (o ≫= k).
Proof. intros Hk t (a & _ & Hr)%bind_Ok. by eapply Hk. Qed.

Lemma own_call_Ok r c : own_call (Ok (Answer r c)).
Proof. done. Qed.

Ltac own :=
  lazymatch goal with
  | |- own_call (Ok (Answer _ _)) => apply own_call_Ok
  | |- own_call (constant _ _) => apply own_call_Ok
  | |- own_call (answer _ _) => apply own_call_bind; intros [? ?]; apply own_call_Ok
  | |- own_call (answer_memory _ _) => apply own_call_bind; intros [? ?]; apply own_call_Ok
  | |- own_call (if _ then _ else _) => case_match; own
  | |- own_call (_ ≫= _) => apply own_call_bind; intros ?; own
  end.

Lemma handlers_own :
  Forall (λ e : Z * sys_handler, ∀ a0 a1 a2 a3 a4 a5 c,
    if decide (fst e ∈ task_numbers) then ∃ t, snd e a0 a1 a2 a3 a4 a5 c = Ok (Tasks t)
    else own_call (snd e a0 a1 a2 a3 a4 a5 c)) (handlers buffer).
Proof.
  unfold handlers. repeat (apply Forall_cons; split; [intros a0 a1 a2 a3 a4 a5 c; cbn [snd]|]); [..|apply Forall_nil_2].
  all: match goal with |- if decide ?P then _ else _ =>
    first [rewrite decide_True by (by apply (bool_decide_unpack _)); by eexists
          |rewrite decide_False by (by apply (bool_decide_unpack _))] end.
  all: unfold call_getcwd, call_uname, call_openat, call_writev, call_statx, call_write, call_read, call_close, call_ioctl,
    call_getdents64, call_readlinkat, call_sendfile, call_unlinkat, call_lseek, call_faccessat, call_socket, call_mmap,
    call_munmap, call_gettimeofday, call_clock_gettime, call_getrlimit, call_getpid, call_getppid, call_getpgid,
    call_sysinfo, call_mprotect, call_madvice, call_pselect, call_sigaction, call_kill, call_sigprocmask, call_getuid, call_chdir.
  all: cbv zeta; own.
Qed.

Lemma handed_over n : n ∈ task_numbers → is_Some (handler_of buffer n).
Proof. intros Hn. repeat (apply elem_of_cons in Hn as [->|Hn]; [by eexists|]). by apply not_elem_of_nil in Hn. Qed.

(** C16: let the caller be in order: the entries of its descriptor table are
    numbered by their position, free ones are zeroed, and the host descriptors of
    the others, those a failed dup has left negative aside, are open on the host and
    pairwise different; its working directory is an absolute path without "..".  A
    number without a handler stops the emulator.  The six calls of task.c (exit,
    exit_group, set_tid_address, clone, execve, wait4), and no others, are handed
    over to the tasks.  Every other call, whatever its number and arguments, when it
    answers leaves the caller in order again, with the same root and ids, provided
    that a chdir has its path in memory and the path has at most 380 characters. *)
Theorem syscall_invariant c n a0 a1 a2 a3 a4 a5 :
  length buffer = 512%nat → caller_good c → (n = 49 → chdir_args c a0) →
  (∀ r c', do_syscall buffer n a0 a1 a2 a3 a4 a5 c = Ok (Answer r c') →
     caller_good c' ∧ vroot (fs c') = vroot (fs c) ∧ ppid c' = ppid c ∧ tgid c' = tgid c) ∧
  (n ∈ task_numbers ↔ ∃ t, do_syscall buffer n a0 a1 a2 a3 a4 a5 c = Ok (Tasks t)) ∧
  (handler_of buffer n = None → do_syscall buffer n a0 a1 a2 a3 a4 a5 c = Err EAssert).
Proof.
  intros Hbuf Hg Hch. unfold do_syscall. pose proof handlers_own as Hown. rewrite Forall_forall in Hown. split_and!.
  - intros r c' [_ Hr]%ASSERT_Ok. destruct (handler_of buffer n) as [h|] eqn:Hh; [|done].
    apply handler_of_elem in Hh as (e & He & <- & <-). pose proof (handlers_in_order c Hbuf Hg) as Hall.
    rewrite Forall_forall in Hall. by eapply (Hall e He).
  - split.
    + intros Hn. pose proof (handed_over n Hn) as [h Hh]. rewrite Hh.
      assert (n < NR_SYSCALL_LINUX) as Hlt by (unfold task_numbers in Hn; unfold NR_SYSCALL_LINUX; set_solver by lia).
      rewrite (proj2 (Z.ltb_lt _ _) Hlt). apply handler_of_elem in Hh as (e & He & <- & <-).
      specialize (Hown e He a0 a1 a2 a3 a4 a5 c). by rewrite decide_True in Hown.
    + intros [t [_ Ht]%ASSERT_Ok]. destruct (handler_of buffer n) as [h|] eqn:Hh; [|done].
      apply handler_of_elem in Hh as (e & He & <- & <-). specialize (Hown e He a0 a1 a2 a3 a4 a5 c).
      case_decide; [done|]. by destruct (Hown t).
  - intros ->. by destruct (n <? NR_SYSCALL_LINUX).
Qed.

(** Writing bytes through a pointer into a region. *)
Lemma store_region p r b a (bytes : list Z) :
  mem_ok p → r ∈ regions (space p) → host_base r = Some b → addr_low r <= a → a + size bytes <= addr_high r →
  Forall is_byte bytes →
  ∃ h, store_bytes (heap p) (Some b, a - addr_low r) bytes = Ok h ∧
    mem_ok (mk_process (space p) h) ∧ holds (mk_process (space p) h) a bytes ∧
    ∀ x, ¬ (a <= x < a + size bytes) → byte_at (mk_process (space p) h) x = byte_at p x.
Proof.
  intros Hok Hr Hb Hlo Hhi Hby. destruct (mo_block _ Hok r b Hr Hb) as (l & Hl & Hlen & Hbl). unfold size in *.
  unfold store_bytes. cbn [fst snd deref mbind outcome_bind]. rewrite Hl. cbn [deref mbind outcome_bind].
  zbool; try lia. cbn [andb]. eexists. split; [done|]. set (l' := take _ l ++ bytes ++ drop _ l).
  assert (Hl' : length l' = length l) by (unfold l'; rewrite !length_app, length_take, length_drop; lia).
  destruct (byte_at_update p r b l l' Hok Hr Hb Hl Hl') as [Hok' Hget].
  { unfold l'. apply Forall_app_2; [by apply Forall_take|]. apply Forall_app_2; [done|by apply Forall_drop]. }
  assert (Hz : ∀ k, zget l' k = if decide (a - addr_low r <= k < a - addr_low r + Z.of_nat (length bytes))
                                 then zget bytes (k - (a - addr_low r)) else zget l k).
  { intros k. apply (store_lookup l bytes (a - addr_low r) k); lia. }
  split; [done|]. split.
  - intros k x Hk. pose proof (lookup_lt_Some _ _ _ Hk). rewrite Hget, decide_True by (unfold inside; lia).
    rewrite Hz, decide_True by lia. apply zget_Some. split; [lia|]. rewrite <- Hk. f_equal. lia.
  - intros x Hx. rewrite Hget. case_decide as Hin; [|done]. rewrite Hz, decide_False by lia.
    rewrite (byte_at_region p r x) by (done || apply Hok). unfold region_bytes. rewrite Hb. cbn. by rewrite Hl.
Qed.

(** C17: chdir to a path of at most 380 characters in memory, absolute or relative, with blanks in front or
    dots inside, sets the working directory to its canonical form with a final
    slash when that fits the 128 bytes; a getcwd after it answers the length with
    the final zero, stores the new working directory at the buffer and changes no
    other byte. *)
Theorem chdir_getcwd_roundtrip c a path buf sz r b x1 x2 x3 x4 x5 y2 y3 y4 y5 :
  let new := new_cwd c path in
  let p := proc (fs c) in
  length buffer = 512%nat → mem_ok p → caller_good c → guest_string p a path → (length path <= 380)%nat →
  (length new < 128)%nat → Forall is_byte new → buf ≠ 0 →
  r ∈ regions (space p) → host_base r = Some b → pmr_direct r = Some vma_generic →
  addr_low r <= buf → buf + size new + 1 <= addr_high r →
  ∃ c1 c2, do_syscall buffer 49 a x1 x2 x3 x4 x5 c = Ok (Answer 0 c1) ∧ caller_good c1 ∧ proc (fs c1) = p ∧
    upto_nul (vcwd (fs c1)) = new ∧
    do_syscall buffer 17 buf sz y2 y3 y4 y5 c1 = Ok (Answer (size new + 1) c2) ∧
    mem_ok (proc (fs c2)) ∧ holds (proc (fs c2)) buf (new ++ [0]) ∧
    ∀ z, ¬ (buf <= z < buf + size new + 1) → byte_at (proc (fs c2)) z = byte_at p z.
Proof.
  intros new p Hbuf Hok Hg Hpath Hlen Hfit Hby Hb0 Hr Hb Hdir Hlo Hhi.
  destruct (new_cwd_ok c path Hg (proj2 Hpath)) as [Hcwd Hnz].
  destruct (with_cwd_good c new Hg Hcwd Hnz Hfit) as [Hg1 Hu1]. exists (with_cwd c new).
  destruct (store_region p r b buf (new ++ [0]) Hok Hr Hb Hlo) as (h & Hst & Hok2 & Hh & Hrest).
  { unfold size in *. rewrite length_app. cbn [length]. lia. }
  { apply Forall_app. split; [done|]. repeat constructor; lia. }
  exists (with_fs (with_cwd c new) (with_proc (fs (with_cwd c new)) (mk_process (space p) h))).
  split; [|split; [done|split; [done|split; [done|]]]].
  - change (call_chdir buffer a c = Ok (Answer 0 (with_cwd c new))). rewrite (chdir_spec c a path) by done. fold new.
    destruct (Nat.ltb_spec (length new) 128); [done|lia].
  - split.
    + unfold do_syscall. change (handler_of buffer 17) with (Some (λ a0 a1 _ _ _ _ : Z, call_getcwd (K := K) a0 a1)).
      cbn [Z.ltb Z.compare ASSERT mbind outcome_bind]. change (17 <? NR_SYSCALL_LINUX) with true. cbn [ASSERT mbind outcome_bind].
      unfold call_getcwd. destruct (Z.eqb_spec buf 0); [done|]. rewrite Hu1. change (proc (fs (with_cwd c new))) with p.
      destruct (access_region p r b buf Hok Hr) as (i & l & Hs & Hz & _ & _ & _ & _ & Hd); [unfold inside, size in *; lia|done|].
      unfold user_world_pointer, ELEM. rewrite Hs. cbn [mbind outcome_bind]. rewrite Hz. cbn [deref mbind outcome_bind].
      rewrite Hdir, Hd. cbn [mbind outcome_bind]. rewrite Hst. cbn [mbind outcome_bind answer_memory].
      unfold size. rewrite w32_small; [done|unfold word32; lia].
    + split; [done|]. split; [done|]. intros z Hz. apply Hrest. unfold size in *. rewrite length_app. cbn [length]. lia.
Qed.

(** A canonical path of 127 characters or more is written past the 128 bytes of the
    working directory. *)
Theorem chdir_overflows c a path :
  length buffer = 512%nat → mem_ok (proc (fs c)) → caller_good c → guest_string (proc (fs c)) a path →
  (length path <= 380)%nat → (128 <= length (new_cwd c path))%nat → call_chdir buffer a c = Err EUndef.
Proof.
  intros Hbuf Hok Hg Hp Hl Hlong. rewrite (chdir_spec c a path) by done.
  by destruct (Nat.ltb_spec (length (new_cwd c path)) 128); [lia|].
Qed.

End invariant.

(** ** A concrete caller *)
Definition demo_call : caller (gset Z) :=
  mk_caller (mk_vfs (files demo_vfs) (cstring "/srv/root") (cstring "/" ++ replicate 126 0)
    (mk_process (Fork.dspace demo_caller) page_heap) (kernel demo_vfs)) 1 2.

Lemma demo_call_good : caller_good (kopen := λ k, k) demo_call.
Proof. split; [apply demo_vfs_good|done|]. exists []. split; [done|]. split; constructor. Qed.

Lemma demo_path : guest_string (proc (fs demo_call)) 0x1000 (chars "/a").
Proof. split; [by apply (page_held 0)|by apply (bool_decide_unpack _)]. Qed.

Lemma syscall_invariant_witness :
  (∀ r c', do_syscall (HA := bump_alloc) blank 57 0 0 0 0 0 0 demo_call = Ok (Answer r c') →
     caller_good (kopen := λ k, k) c' ∧ vroot (fs c') = cstring "/srv/root" ∧ ppid c' = 1 ∧ tgid c' = 2) ∧
  (∃ t, do_syscall (HA := bump_alloc) blank 220 0 0 0 0 0 0 demo_call = Ok (Tasks t)) ∧
  do_syscall (HA := bump_alloc) blank 58 0 0 0 0 0 0 demo_call = Err EAssert.
Proof.
  split_and!.
  - apply (syscall_invariant (HA := bump_alloc) (kopen := λ k, k) blank demo_call 57 0 0 0 0 0 0 eq_refl demo_call_good).
    discriminate.
  - apply (syscall_invariant (HA := bump_alloc) (kopen := λ k, k) blank demo_call 220 0 0 0 0 0 0 eq_refl demo_call_good);
      [discriminate|by apply (bool_decide_unpack _)].
  - apply (syscall_invariant (HA := bump_alloc) (kopen := λ k, k) blank demo_call 58 0 0 0 0 0 0 eq_refl demo_call_good);
      [discriminate|reflexivity].
Defined.

(** A fork handed over to the tasks answers the new pid, and the call itself returns. *)
Example fork_answers :
  match do_syscall (HA := bump_alloc) blank 220 0 0 0 0 0 0 demo_call with
  | Ok (Tasks t) => ('(r, _) ← task_answer 1 4 131072 SchedTrap.all_copied t SchedTrap.demo_sys; Ok r) = Ok (Some 4)
  | _ => False
  end.
Proof. vm_compute. reflexivity. Qed.

Lemma chdir_getcwd_roundtrip_witness :
  ∃ c1 c2, do_syscall (HA := bump_alloc) blank 49 0x1000 0 0 0 0 0 demo_call = Ok (Answer 0 c1) ∧
    do_syscall (HA := bump_alloc) blank 17 0x100c 4 0 0 0 0 c1 = Ok (Answer 4 c2) ∧
    holds (proc (fs c2)) 0x100c (chars "/a/" ++ [0]).
Proof.
  destruct (chdir_getcwd_roundtrip (HA := bump_alloc) (kopen := λ k, k) blank demo_call 0x1000 (chars "/a") 0x100c 4 page_region 1
    0 0 0 0 0 0 0 0 0) as (c1 & c2 & H1 & _ & _ & _ & H2 & _ & H3 & _); try done.
  - apply demo_caller_ok.
  - apply demo_call_good.
  - apply demo_path.
  - vm_compute. lia.
  - vm_compute. lia.
  - by apply (bool_decide_unpack _).
  - by apply list_elem_of_singleton.
  - exists c1, c2. split; [exact H1|]. split; [exact H2|exact H3].
Defined.

End Syscall.
