(* ===== verification/Sandbox.v ===== *)
(** * The sandbox: the translated code on its own C side

    The templates call C functions through [HostCalls].  Here the functions the
    other files model are put behind that interface: the loads and stores of
    mmu.c, the atomics, the debugger's prologue, the privileged callbacks and the
    system calls, all on one state.  The interface's laws are proved for it, and
    the refinement of [Vmm] is restated for the emulator as a whole: what is left
    to assume is about the guest program.  A program of the sandbox never turns
    paging on: no CSR is registered, and satp starts as zero. *)
From S2P Require Import Prelude SortSearch Decode X86 Rv32 Hart Sim TransAmo Translation Refine Vmm PmRegion Trap.
From S2P Require Import Vma VmaOps Mmu Csr Path Vfs Loader Fork Exec Debugger Syscall.
Import Macros Decode X86 Rv32 Hart Sim TransAmo Translation Refine PmRegion Trap Vma Mmu.

Module Sandbox.

(** ** The state *)

(** The hart beside its registers, its process, and the static variables of the
    C files: the reservations of translate_amo.c, the breakpoints and the shell's
    buffers, the files, the root, the working directory and the ids of the task. *)
Record world (K : Type) := mk_world {
  board : machine;
  hart_id : Z;
  atomics : amo_globals;
  breaks : Debugger.bp_table;
  shown : list Debugger.shown;
  tokens : list Z;
  nr_tokens : Z;
  input : list Z;
  fds : list Vfs.file;
  root : list Z;
  cwd : list Z;
  kern : K;
  parent : Z;
  group : Z
}.
Arguments mk_world {K}.
Arguments board {K}.
Arguments hart_id {K}.
Arguments atomics {K}.
Arguments breaks {K}.
Arguments shown {K}.
Arguments tokens {K}.
Arguments nr_tokens {K}.
Arguments input {K}.
Arguments fds {K}.
Arguments root {K}.
Arguments cwd {K}.
Arguments kern {K}.
Arguments parent {K}.
Arguments group {K}.

(** ** What the C side keeps *)

(** The CSRs are words and satp does not turn paging on. *)
Record ctl_good (c : hart_control) : Prop := {
  cg_words : ∀ a, word32 (csr_blob c a);
  cg_satp : Z.land (csr_blob c CSR_ADDRESS_SATP) 0x80000000 = 0
}.

Definition board_good (m : machine) : Prop := ctl_good (ctl m).

Section code.
Context {K : Type} `{HK : Vfs.HostKernel K} `{HA : HostAlloc}.
(** What local buffers and clobbered registers hold, and the calls that the tasks
    answer (exit, clone, execve, wait4, set_tid_address). *)
Context (buffer : list Z) (junk : symbol → world K → reg → Z).
Context (tasks : Syscall.task_call → guest → world K → callres (world K)).
Implicit Types (w : world K) (m : machine).

Definition with_board w m : world K :=
  mk_world m (hart_id w) (atomics w) (breaks w) (shown w) (tokens w) (nr_tokens w) (input w) (fds w) (root w) (cwd w)
    (kern w) (parent w) (group w).

Definition with_atomics w (G : amo_globals) : world K :=
  mk_world (board w) (hart_id w) G (breaks w) (shown w) (tokens w) (nr_tokens w) (input w) (fds w) (root w) (cwd w)
    (kern w) (parent w) (group w).

(** The part the debugger works on, and the part a system call works on. *)
Definition session_of w : Debugger.session :=
  Debugger.mk_session (Debugger.mk_view (board w) (breaks w) (shown w)) (tokens w) (nr_tokens w) (input w).

Definition with_session w (s : Debugger.session) : world K :=
  let v := Debugger.screen s in
  mk_world (Debugger.mach v) (hart_id w) (atomics w) (Debugger.bps v) (Debugger.out v) (Debugger.token_buffer s)
    (Debugger.last_nr_token s) (Debugger.stdin s) (fds w) (root w) (cwd w) (kern w) (parent w) (group w).

Definition caller_of w : Syscall.caller K :=
  Syscall.mk_caller (Vfs.mk_vfs (fds w) (root w) (cwd w) (mem (board w)) (kern w)) (parent w) (group w).

Definition with_caller w (c : Syscall.caller K) : world K :=
  let v := Syscall.fs c in
  mk_world (set_mem (board w) (Vfs.proc v)) (hart_id w) (atomics w) (breaks w) (shown w) (tokens w) (nr_tokens w)
    (input w) (Vfs.files v) (Vfs.vroot v) (Vfs.vcwd v) (Vfs.kernel v) (Syscall.ppid c) (Syscall.tgid c).

(** A call on a part of the state, as a call on the whole. *)
Definition lift {A} (put : A → world K) (r : callres A) : callres (world K) :=
  match r with
  | Returns v g a => Returns v g (put a)
  | Traps g a => Traps g (put a)
  | Dies e => Dies e
  end.

Definition from_leaves w (l : leaves Trap.cpu) : callres (world K) :=
  let put x := with_board w (mk_machine (Trap.control x) (Trap.cache x) (mem (board w)) (itlb (board w)) (dtlb (board w))
                               (itlb_cap (board w)) (dtlb_cap (board w))) in
  match l with
  | Return x => Returns 0 (Trap.regs x) (put x)
  | Trapped x => Traps (Trap.regs x) (put x)
  | Ends e => Dies e
  end.

(** The shell reads at most one line per character; without input it loops. *)
Definition shell_fuel w : nat := S (length (input w)).

(** [csr_registery_init] over the empty registry. *)
Definition csr_table : gmap Z Csr.csr_entry := ∅.

Definition cpu_of (g : guest) m : Trap.cpu := Trap.mk_cpu g (ctl m) (tcache m).

Definition ecall (g : guest) w : callres (world K) :=
  match Syscall.ecall_callback buffer g (caller_of w) with
  | Ok (inl (g, c)) => Returns 0 g (with_caller w c)
  | Ok (inr t) => tasks t g w
  | Err e => Dies e
  end.

(** The C functions, by the symbol a template takes the address of. *)
Definition c_call (f : symbol) (l : list Z) (g : guest) w : callres (world K) :=
  let m := board w in
  match f, l with
  | sym_enter_vmm_dbg_shell, [check_bps] =>
      lift (with_session w) (Debugger.enter_vmm_dbg_shell (shell_fuel w) (negb (check_bps =? 0)) g (session_of w))
  | sym_mmu_read8, [a] => lift (with_board w) (mmu_read8 a g m)
  | sym_mmu_read16, [a] => lift (with_board w) (mmu_read16 a g m)
  | sym_mmu_read32, [a] => lift (with_board w) (mmu_read32 a g m)
  | sym_mmu_write8, [a; v] => lift (with_board w) (mmu_write8 a v g m)
  | sym_mmu_write16, [a; v] => lift (with_board w) (mmu_write16 a v g m)
  | sym_mmu_write32, [a; v] => lift (with_board w) (mmu_write32 a v g m)
  | sym_amo_instruction_slowpath, [rs1; rs2; rd; f5] =>
      lift (λ s, with_board (with_atomics w s.1) s.2)
        (amo_instruction_slowpath (hart_id w) rs1 rs2 rd f5 g (atomics w, m))
  | sym_flush_translation_cache, [] =>
      Returns 0 g (with_board w (mk_machine (ctl m) (flush_translation_cache (tcache m)) (mem m) (itlb m) (dtlb m)
                                   (itlb_cap m) (dtlb_cap m)))
  | sym_ecall_callback, [] => ecall g w
  | sym_ebreak_callback, [] =>
      lift (with_session w) (Debugger.ebreak_callback (shell_fuel w) g (session_of w))
  | sym_mret_callback, [] => from_leaves w (mret_callback (cpu_of g m))
  | sym_sret_callback, [] => from_leaves w (sret_callback (cpu_of g m))
  | sym_wfi_callback, [] => from_leaves w (wfi_callback (cpu_of g m))
  | sym_sfence_vma_callback, [] =>
      match sfence_vma_callback m with Ok m => Returns 0 g (with_board w m) | Err e => Dies e end
  | sym_riscv_generic_csr_callback, [i] =>
      lift (λ h, with_board w (Csr.mach h)) (Csr.csr_call csr_table i g (Csr.mk_csr_hart m (hart_id w) 0))
  | _, _ => Dies EUndef
  end.

#[export] Instance sandbox_calls : HostCalls (world K) := {|
  hc_call := c_call;
  scratch := junk;
  hc_good w := board_good (board w)
|}.

End code.

(** ** The functions on the hart *)

Lemma no_paging m : board_good m → paging m = false.
Proof. intros [_ Hs]. unfold paging. rewrite Hs. by rewrite andb_false_r. Qed.

Lemma good_set c a v : ctl_good c → word32 v → a ≠ CSR_ADDRESS_SATP → ctl_good (set_csr c a v).
Proof.
  intros [Hw Hs] Hv Ha. split; [intros b|]; rewrite csr_set; [by case_decide|]. by rewrite decide_False.
Qed.

Lemma good_status c st pl : ctl_good c → ctl_good (set_status c st pl).
Proof. by intros [? ?]. Qed.

Lemma trap_pc_word tvec cause : word32 tvec → word32 (trap_pc tvec cause).
Proof. intros Ht. unfold trap_pc. case_match; [by apply word32_land|apply w32_word]. Qed.

Lemma x0_registers g g' : registers g' = registers g → x0_zero g → x0_zero g'.
Proof. unfold x0_zero, gpr. by intros ->. Qed.

(** A trap: new pc and CSRs, the registers as before. *)
Definition trapped (g : guest) (g' : guest) (c : hart_control) : Prop :=
  wf_guest g' ∧ registers g' = registers g ∧ ctl_good c.

(** The three CSRs a trap writes. *)
Lemma good_set3 c a1 a2 a3 v1 v2 v3 :
  ctl_good c → word32 v1 → word32 v2 → word32 v3 → a1 ≠ CSR_ADDRESS_SATP → a2 ≠ CSR_ADDRESS_SATP →
  a3 ≠ CSR_ADDRESS_SATP → ctl_good (set_csr (set_csr (set_csr c a1 v1) a2 v2) a3 v3).
Proof. intros Hc ? ? ? ? ? ?. by apply good_set; [apply good_set; [apply good_set|..]|..]. Qed.

Lemma setup_good cause tval x :
  word32 cause → word32 tval → wf_guest (regs x) → ctl_good (control x) →
  trapped (regs x) (regs (setup_mmode_trap cause tval x)) (control (setup_mmode_trap cause tval x)) ∧
  trapped (regs x) (regs (setup_smode_trap cause tval x)) (control (setup_smode_trap cause tval x)).
Proof.
  intros Hc Ht Hg Hk. assert (word32 (pc (regs x))) as Hpc by apply Hg.
  unfold setup_mmode_trap, setup_smode_trap, trapped. cbn [regs control].
  split; (split; [apply set_pc_wf; [done|apply trap_pc_word; rewrite csr_set_status; by apply good_set3]|]);
    (split; [done|]); apply good_status; by apply good_set3.
Qed.

Lemma raise_good cause tval x :
  word32 cause → word32 tval → wf_guest (regs x) → ctl_good (control x) →
  match raise_exception_internal cause tval x with
  | Trapped x' => trapped (regs x) (regs x') (control x')
  | Return _ => False
  | Ends _ => True
  end.
Proof.
  intros Hc Ht Hg Hk. destruct (setup_good cause tval x Hc Ht Hg Hk) as [Hm Hs].
  unfold raise_exception_internal. destruct (exception_target_privilege_level _ _) as [pl|]; [|done].
  destruct (_ <? 16); [|done]. unfold raise_trap_raw.
  destruct (pl =? PRIVILEGE_LEVEL_MACHINE); [exact Hm|]. destruct (pl =? PRIVILEGE_LEVEL_SUPERVISOR); [exact Hs|done].
Qed.

(** [raise_exception_with_tvalue] *)
Lemma raise_tvalue_good cause tval g m :
  word32 cause → word32 tval → wf_guest g → board_good m →
  match raise_exception_with_tvalue cause tval g m with
  | Traps g' m' => trapped g g' (ctl m')
  | Returns _ _ _ => False
  | Dies _ => True
  end.
Proof.
  intros Hc Ht Hg Hk. unfold raise_exception_with_tvalue.
  pose proof (raise_good cause tval (mk_cpu g (ctl m) (tcache m)) Hc Ht Hg Hk) as Hr.
  by destruct (raise_exception_internal _ _ _).
Qed.

Lemma read_direct size a g m : board_good m → vmread size a g m = ret_read (direct_read size a (mem m)) g m.
Proof. intros Hm. unfold vmread. by rewrite no_paging. Qed.

Lemma write_direct size a v g m :
  board_good m → vmwrite size a v g m = ret_write (direct_write size a v (mem m)) g m.
Proof. intros Hm. unfold vmwrite. by rewrite no_paging. Qed.

(** A load or store returns with the guest as it was. *)
Definition quiet (g : guest) (r : callres machine) : Prop :=
  match r with
  | Returns _ g' m' => g' = g ∧ board_good m'
  | Traps _ _ => False
  | Dies _ => True
  end.

Lemma read_quiet size a g m : board_good m → quiet g (vmread size a g m).
Proof. intros Hm. rewrite read_direct by done. by destruct (direct_read _ _ _). Qed.

Lemma write_quiet size a v g m : board_good m → quiet g (vmwrite size a v g m).
Proof. intros Hm. rewrite write_direct by done. by destruct (direct_write _ _ _ _). Qed.

(** *** The atomics *)
Lemma aligned_read a g m :
  board_good m → wf_guest g → word32 a →
  match mmu_read32_aligned a g m with
  | Returns v g' m' => g' = g ∧ m' = m ∧ Z.land a 3 = 0
  | Traps g' m' => trapped g g' (ctl m')
  | Dies _ => True
  end.
Proof.
  intros Hm Hg Ha. cbn [mmu_read32_aligned machine_mmu]. destruct (Z.eqb_spec (Z.land a 3) 0); cbn [negb].
  - rewrite read_direct by done. by destruct (direct_read _ _ _).
  - pose proof (raise_tvalue_good EXCEPTION_LOAD_ADDRESS_MISALIGN a g m ltac:(done) Ha Hg Hm).
    by destruct (raise_exception_with_tvalue _ _ _ _).
Qed.

Lemma aligned_write a v g m :
  board_good m → wf_guest g → word32 a →
  match mmu_write32_aligned a v g m with
  | Returns _ g' m' => g' = g ∧ board_good m'
  | Traps g' m' => trapped g g' (ctl m') ∧ Z.land a 3 ≠ 0
  | Dies _ => True
  end.
Proof.
  intros Hm Hg Ha. cbn [mmu_write32_aligned machine_mmu]. destruct (Z.eqb_spec (Z.land a 3) 0); cbn [negb].
  - rewrite write_direct by done. by destruct (direct_write _ _ _ _).
  - pose proof (raise_tvalue_good EXCEPTION_LOAD_ADDRESS_MISALIGN a g m ltac:(done) Ha Hg Hm).
    by destruct (raise_exception_with_tvalue _ _ _ _).
Qed.

(** What an atomic leaves: when it returns, the pc as it was; when it traps, x0 as
    it was.  A store after a load at the same address does not trap, so that no
    trap follows a write to rd. *)
Definition amo_calm (g : guest) (r : callres (amo_globals * machine)) : Prop :=
  match r with
  | Returns _ g' s => wf_guest g' ∧ pc g' = pc g ∧ board_good s.2
  | Traps g' s => wf_guest g' ∧ (x0_zero g → x0_zero g') ∧ board_good s.2
  | Dies _ => True
  end.

Lemma rmw_calm op rs1 rs2 rd g G m : board_good m → wf_guest g → amo_calm g (amo_rmw op rs1 rs2 rd g (G, m)).
Proof.
  intros Hm Hg. unfold amo_rmw, mmu_call. cbn [fst snd].
  pose proof (aligned_read (gpr g rs1) g m Hm Hg (gpr_word _ _ Hg)) as Hr.
  destruct (mmu_read32_aligned _ _ _) as [v g1 m1|g1 m1|]; [|destruct Hr as (? & ? & ?)|done].
  - destruct Hr as (-> & -> & Hal). cbn [fst snd]. set (g2 := set_gpr g rd (w32 v)).
    assert (wf_guest g2) as Hg2 by (apply set_gpr_wf; auto with hyrule).
    pose proof (aligned_write (gpr g rs1) (op (gpr g2 rd) (gpr g rs2)) g2 m Hm Hg2 (gpr_word _ _ Hg)) as Hw.
    destruct (mmu_write32_aligned _ _ _ _) as [? g3 m3|g3 m3|]; [|by destruct Hw|done].
    by destruct Hw as [-> ?].
  - split_and!; try done. by eapply x0_registers.
Qed.

Lemma lr_calm id rs1 rs2 rd g G m : board_good m → wf_guest g → amo_calm g (lr_slowpath id rs1 rs2 rd g (G, m)).
Proof.
  intros Hm Hg. unfold lr_slowpath, mmu_call. cbn [fst snd].
  pose proof (aligned_read (gpr g rs1) g m Hm Hg (gpr_word _ _ Hg)) as Hr.
  destruct (mmu_read32_aligned _ _ _) as [v g1 m1|g1 m1|]; [|destruct Hr as (? & ? & ?)|done].
  - destruct Hr as (-> & -> & _). cbn [fst snd]. destruct (zset _ _ _); [|done].
    split_and!; [|done|done]. apply set_gpr_wf; auto with hyrule.
  - split_and!; try done. by eapply x0_registers.
Qed.

Lemma set_zero_x0 g rd : wf_guest g → x0_zero g → x0_zero (set_gpr g rd 0).
Proof. 
  intros Hg Hz. unfold x0_zero, gpr, set_gpr in *. cbn [registers]. 
  destruct (decide (Z.to_nat rd = 0%nat)) as [->|].
  - rewrite list_lookup_total_insert_eq; [done|]. destruct Hg as [-> _]. lia.
  - by rewrite list_lookup_total_insert_ne.
Qed.

Lemma sc_calm id rs1 rs2 rd g G m : board_good m → wf_guest g → amo_calm g (sc_slowpath id rs1 rs2 rd g (G, m)).
Proof.
  intros Hm Hg. unfold sc_slowpath, mmu_call. cbn [fst snd]. destruct (find_reservation _ _ _ _).
  - assert (wf_guest (set_gpr g rd 0)) as Hg2 by (apply set_gpr_wf; auto with hyrule; done).
    pose proof (aligned_write (gpr g rs1) (gpr g rs2) _ m Hm Hg2 (gpr_word _ _ Hg)) as Hw.
    destruct (mmu_write32_aligned _ _ _ _) as [? g3 m3|g3 m3|]; [|destruct Hw as [(? & ? & ?) _]|done].
    + destruct Hw as [-> ?]. cbn [fst snd]. by destruct (clear_reservation _ _).
    + split_and!; try done. intros Hz. eapply x0_registers; [done|]. by apply set_zero_x0.
  - split_and!; try done. by apply set_gpr_wf.
Qed.

Lemma amo_is_calm id rs1 rs2 rd f5 g G m :
  board_good m → wf_guest g → amo_calm g (amo_instruction_slowpath id rs1 rs2 rd f5 g (G, m)).
Proof.
  intros Hm Hg. unfold amo_instruction_slowpath, amoadd_slowpath, amoswap_slowpath, amoxor_slowpath, amoor_slowpath,
    amoand_slowpath, amomaxu_slowpath.
  repeat case_match; auto using rmw_calm, lr_calm, sc_calm; done.
Qed.

(** *** The privileged callbacks *)
Definition leaves_calm (x : Trap.cpu) (l : leaves Trap.cpu) : Prop :=
  match l with
  | Return x' | Trapped x' => trapped (regs x) (regs x') (control x')
  | Ends _ => True
  end.

Lemma in_mode_calm pl k x :
  wf_guest (regs x) → ctl_good (control x) →
  (∀ x', k x = Ok x' → trapped (regs x) (regs x') (control x')) → leaves_calm x (assert_hart_running_in pl k x).
Proof.
  intros Hg Hc Hk. unfold assert_hart_running_in. destruct (_ =? pl).
  - destruct (k x) as [x'|]; [by apply Hk|done].
  - pose proof (raise_good EXCEPTION_ILLEEGAL_INSTRUCTION 0 x ltac:(done) ltac:(done) Hg Hc) as Hr.
    by destruct (raise_exception_internal _ _ _).
Qed.

Lemma xret_calm x :
  wf_guest (regs x) → ctl_good (control x) → leaves_calm x (mret_callback x) ∧ leaves_calm x (sret_callback x).
Proof.
  intros Hg Hc. split; apply in_mode_calm; try done; intros x' (y & Hy & [= <-])%bind_Ok.
  - apply ASSERT_Ok in Hy as [_ [= <-]]. cbn. split; [|by split; [|apply good_status]].
    apply set_pc_wf; [done|]. rewrite csr_set_status. apply Hc.
  - apply ASSERT_Ok in Hy as [_ [= <-]]. cbn. split; [|by split; [|apply good_status]].
    apply set_pc_wf; [done|]. rewrite csr_set_status. apply Hc.
Qed.

(** *** The debugger *)
Import Debugger.

(** The shell looks and returns: guest and machine are as before. *)
Definition looks (g : guest) (m : machine) (r : callres view) : Prop :=
  match r with
  | Returns _ g' v => g' = g ∧ mach v = m
  | Traps _ _ => False
  | Dies _ => True
  end.

Lemma looks_here g v x : looks g (mach v) (Returns x g v).
Proof. done. Qed.

Lemma looks_checked {A} g m (o : outcome A) k : (∀ a, looks g m (k a)) → looks g m (checked o k).
Proof. intros Hk. destruct o; [apply Hk|done]. Qed.

Lemma looks_read a g v k :
  board_good (mach v) → (∀ x v', mach v' = mach v → looks g (mach v) (k x g v')) →
  looks g (mach v) (andthen (read32 a g v) k).
Proof.
  intros Hm Hk. unfold read32, mmu_read32. rewrite read_direct by done.
  destruct (direct_read _ _ _); cbn [ret_read andthen]; [by apply Hk|done].
Qed.

Lemma virtual_looks n lo hi c g v : board_good (mach v) → looks g (mach v) (virtual_loop n lo hi c g v).
Proof.
  revert lo c v. induction n as [|n IH]; intros lo c v Hm; cbn [virtual_loop]; (destruct (lo <? hi); [|done]); [done|].
  apply (looks_read _ _ (show v _)); [done|]. intros x v' Hv. cbn [mach show] in *.
  rewrite <- Hv. apply (IH _ _ (show v' [Word x])). cbn. by rewrite Hv.
Qed.

Lemma frame_looks n i leaf p fp g v : board_good (mach v) → looks g (mach v) (frame_loop n i leaf p fp g v).
Proof.
  revert i p fp v. induction n as [|n IH]; intros i p fp v Hm; cbn [frame_loop]; [done|].
  destruct (_ && _); apply (looks_read _ _ (show v _)); try done; intros x v' Hv; cbn [mach show] in *.
  - rewrite <- Hv. apply IH. by rewrite Hv.
  - rewrite <- Hv. apply looks_read; [by rewrite Hv|]. intros y v2 Hv2. rewrite <- Hv2. apply IH. by rewrite Hv2, Hv.
Qed.

Lemma command_looks c argv g v : board_good (mach v) → looks g (mach v) (run_command c argv g v).
Proof.
  intros Hm. destruct c; try done; cbn [run_command].
  - unfold add_breakpoint_command. destruct argv; [done|]. by apply looks_checked; intros [].
  - unfold inspect_memory. destruct argv as [|a [|b [|]]]; try done. destruct (_ <? _); [done|].
    apply looks_checked; intros o1. apply looks_checked; intros o2. destruct o1; [|done].
    case_bool_decide; [|done]. apply looks_checked; intros r. case_bool_decide; [done|].
    destruct (vma_generic_direct _ _), (vma_generic_direct _ _). by do 2 (apply looks_checked; intros ?).
  - unfold inspect_virtual_memory. destruct argv as [|a [|b [|]]]; try done. destruct (_ <? _); [done|].
    by apply virtual_looks.
  - unfold backtrace_call. destruct argv as [|a [|b [|]]]; try done. by apply frame_looks.
Qed.

Lemma process_looks argv g v : board_good (mach v) → looks g (mach v) (process_cmds_tokens argv g v).
Proof.
  intros Hm. apply looks_checked. intros [[it|] n]; [|done]. destruct (0 <? n); [by apply command_looks|done].
Qed.

Definition stays (g : guest) (m : machine) (r : callres session) : Prop :=
  match r with
  | Returns _ g' s => g' = g ∧ mach (screen s) = m
  | Traps _ _ => False
  | Dies _ => True
  end.

Lemma shell_stays fuel g s :
  board_good (mach (screen s)) → stays g (mach (screen s)) (shell_loop fuel g s).
Proof.
  revert s. induction fuel as [|fuel IH]; intros s Hm; [done|]. cbn [shell_loop].
  destruct (fgets _ _) as [line rest]. set (s1 := mk_session _ _ _ rest).
  set (words := take _ _). clearbody words.
  assert (∀ argv k, (∀ a s2, mach (screen s2) = mach (screen s) → stays g (mach (screen s)) (k a g s2)) →
    stays g (mach (screen s)) (command_then (process_cmds_tokens argv g (screen s)) s1 k)) as Hcmd.
  { intros argv k Hk. pose proof (process_looks argv g (screen s) Hm) as Hl.
    destruct (process_cmds_tokens _ _ _) as [a g' v|g' v|]; cbn in Hl |- *; [|done|done].
    destruct Hl as [-> Hv]. by apply Hk. }
  assert (∀ a s2, mach (screen s2) = mach (screen s) → stays g (mach (screen s))
    (if a =? ACTION_STOP then Returns 0 g s2 else if a =? ACTION_CONTINUE then shell_loop fuel g s2 else Dies EAssert))
    as Hnext.
  { intros a s2 Hs. destruct (a =? ACTION_STOP); [done|]. destruct (a =? ACTION_CONTINUE); [|done].
    rewrite <- Hs. apply IH. by rewrite Hs. }
  case_bool_decide.
  - apply Hcmd. intros a s2 Hs. by apply Hnext.
  - apply Hcmd. intros a s2 Hs. destruct (copy_tokens _ _ _); [|done]. by apply Hnext.
Qed.

Lemma prologue_stays fuel check g s :
  board_good (mach (screen s)) → stays g (mach (screen s)) (enter_vmm_dbg_shell fuel check g s).
Proof.
  intros Hm. unfold enter_vmm_dbg_shell. destruct (if check then _ else _) as [b|]; [|done].
  cbn [checked]. destruct b; [by apply shell_stays|done].
Qed.

(** ** The laws of the interface *)
Section laws.
Context {K : Type} `{HK : Vfs.HostKernel K} `{HA : HostAlloc}.
Context (buffer : list Z) (junk : symbol → world K → reg → Z).
Context (tasks : Syscall.task_call → guest → world K → callres (world K)).
Implicit Types (w : world K).

(** What the calls on tasks must keep: exit does not return; the others change a0
    and the process. *)
Definition tasks_ok : Prop :=
  ∀ t g w, board_good (board w) → wf_guest g →
    match tasks t g w with
    | Returns _ g' w' | Traps g' w' => wf_guest g' ∧ (x0_zero g → x0_zero g') ∧ board_good (board w')
    | Dies _ => True
    end.

(** Everything the interface asks of one call. *)
Definition lawful (f : symbol) (g : guest) (r : callres (world K)) : Prop :=
  match r with
  | Returns _ g' w' =>
      wf_guest g' ∧ board_good (board w') ∧ (writes_x0 f = false → x0_zero g → x0_zero g') ∧
      (memory_call f = true → pc g' = pc g)
  | Traps g' w' => wf_guest g' ∧ board_good (board w') ∧ (x0_zero g → x0_zero g')
  | Dies _ => True
  end.

Lemma quiet_lawful f g w r : wf_guest g → quiet g r → lawful f g (lift (with_board w) r).
Proof. intros Hg Hq. destruct r; cbn in *; [|done|done]. by destruct Hq as [-> ?]. Qed.

Lemma stays_lawful f g w r : wf_guest g → board_good (board w) → stays g (board w) r → lawful f g (lift (with_session w) r).
Proof. intros Hg Hm Hs. destruct r; cbn in *; [|done|done]. destruct Hs as [-> ->]. done. Qed.

Lemma leaves_lawful f g w l :
  memory_call f = false → leaves_calm (cpu_of g (board w)) l → lawful f g (from_leaves w l).
Proof.
  intros Hf Hl. destruct l as [x|x|]; cbn in *; [| |done]; destruct Hl as (? & Hr & ?); split_and!; try done.
  - intros _. by apply x0_registers.
  - by rewrite Hf.
  - by apply x0_registers.
Qed.

Lemma csr_dies i g h : ∃ e, Csr.csr_call csr_table i g h = Dies e.
Proof.
  unfold Csr.csr_call, Csr.riscv_generic_csr_callback, csr_table. destruct (ASSERT _); [|by eexists]. cbn [mbind outcome_bind].
  destruct (instruction_decoding_per_type _ _); [|by eexists]. cbn [mbind outcome_bind]. rewrite lookup_empty. by eexists.
Qed.

Lemma ecall_lawful g w : tasks_ok → wf_guest g → board_good (board w) → lawful sym_ecall_callback g (ecall buffer tasks g w).
Proof.
  intros Ht Hg Hm. unfold ecall, Syscall.ecall_callback. destruct (Syscall.do_syscall _ _ _ _ _ _ _ _ _) as [[ret c|t]|]; [| |done].
  - split; [apply set_gpr_wf; auto with hyrule|]. split; [done|]. split; [|done].
    intros _ Hz. unfold x0_zero in *. by rewrite gpr_set_ne by lia.
  - cbn. pose proof (Ht t g w Hm Hg) as Hr. destruct (tasks t g w); cbn; naive_solver.
Qed.

Lemma call_lawful f l g w :
  tasks_ok → wf_guest g → board_good (board w) → lawful f g (c_call buffer tasks f l g w).
Proof.
  intros Ht Hg Hm.
  destruct f; try done; unfold c_call.
  - destruct l as [|a [|]]; try done. apply stays_lawful; [done..|]. by apply prologue_stays.
  - destruct l as [|a [|]]; try done. by apply quiet_lawful; [|apply read_quiet].
  - destruct l as [|a [|]]; try done. by apply quiet_lawful; [|apply read_quiet].
  - destruct l as [|a [|]]; try done. by apply quiet_lawful; [|apply read_quiet].
  - destruct l as [|a [|v [|]]]; try done. by apply quiet_lawful; [|apply write_quiet].
  - destruct l as [|a [|v [|]]]; try done. by apply quiet_lawful; [|apply write_quiet].
  - destruct l as [|a [|v [|]]]; try done. by apply quiet_lawful; [|apply write_quiet].
  - destruct l as [|rs1 [|rs2 [|rd [|f5 [|]]]]]; try done.
    pose proof (amo_is_calm (hart_id w) rs1 rs2 rd f5 g (atomics w) _ Hm Hg) as Ha.
    destruct (amo_instruction_slowpath _ _ _ _ _ _ _); cbn in *; naive_solver.
  - by destruct l.
  - destruct l; [|done]. by apply ecall_lawful.
  - destruct l; [|done]. apply stays_lawful; [done..|]. by apply prologue_stays.
  - destruct l; [|done]. apply leaves_lawful; [done|]. by apply xret_calm.
  - destruct l; [|done]. apply leaves_lawful; [done|]. by apply xret_calm.
  - destruct l; [|done]. unfold sfence_vma_callback.
    destruct (invalidate_tlb (itlb _) _); [|done]. cbn [mbind outcome_bind].
    destruct (invalidate_tlb (dtlb _) _); [|done]. done.
  - by destruct l.
  - destruct l as [|i [|]]; try done. by destruct (csr_dies i g (Csr.mk_csr_hart (board w) (hart_id w) 0)) as [e ->].
Qed.

(** The C side keeps what the translated code relies on. *)
Lemma sandbox_calls_ok : tasks_ok → @HostCallsOk (world K) (sandbox_calls buffer junk tasks).
Proof.
  intros Htasks. split; cbn.
  - intros f l g w Hm Hg. pose proof (call_lawful f l g w Htasks Hg Hm) as Hl.
    destruct (c_call _ _ _ _ _ _); cbn in Hl; naive_solver.
  - intros f l g w v g' w' Hf Hm Hg Hz E. pose proof (call_lawful f l g w Htasks Hg Hm) as Hl.
    rewrite E in Hl. by apply Hl.
  - intros f l g w g' w' Hm Hg Hz E. pose proof (call_lawful f l g w Htasks Hg Hm) as Hl.
    rewrite E in Hl. by apply Hl.
  - intros f l g w v g' w' Hf Hm Hg E. pose proof (call_lawful f l g w Htasks Hg Hm) as Hl.
    rewrite E in Hl. by apply Hl.
Qed.

End laws.

(** ** The whole emulator *)
Section whole.
Context {K : Type} `{HK : Vfs.HostKernel K} `{HA : HostAlloc}.
Context (buffer : list Z) (junk : symbol → world K → reg → Z).
Context (tasks : Syscall.task_call → guest → world K → callres (world K)).
Context (H : Z) (HH : hart_addr H) (TRANSLATION_SIZE : string → Z) (jumper_size : Z).
Context (Hsz : sizes_ok TRANSLATION_SIZE jumper_size).
Context (program : Z → option instr) (lo : Z).
Context (offset_of_vmm_stack vmm_stack_ptr : Z) (yield_cpu : Z → world K → Z * world K).
Context (n : nat) (smin smax : Z).
#[local] Instance calls : HostCalls (world K) := sandbox_calls buffer junk tasks.
Implicit Types (w : world K).

(** What [mmu_instruction_read32] returns while paging is off. *)
Definition instruction_at w (a : Z) : outcome Z := direct_read 4 a (mem (board w)).

Lemma instruction_fetch a g w :
  board_good (board w) → mmu_instruction_read32 a g (board w) = ret_read (instruction_at w a) g (board w).
Proof. intros Hm. unfold mmu_instruction_read32. by rewrite no_paging. Qed.

(** The program: valid instructions in a window of 2^31 bytes, where only an
    instruction that ends a unit is last. *)
Record program_good : Prop := {
  pg_valid : ∀ p i, program p = Some i → valid i;
  pg_window : ∀ p i, program p = Some i → in_window lo p;
  pg_next : ∀ p i, program p = Some i → ends_unit i = false → is_Some (program (w32 (p + 4)))
}.

Definition text_in_memory w : Prop := ∀ a i, program a = Some i → instruction_at w a = Ok (encode i).

(** Wherever the task gets, the program's text is in memory, and it runs neither
    into a breakpoint nor into a division the host faults on. *)
Definition well_behaved (g : guest) w (c : Z) : Prop :=
  ∀ nows g' w' c', Vmm.task_run program yield_cpu nows g w c (Vmm.Running g' w' c') →
    is_Some (program (pc g')) ∧ text_in_memory w' ∧
    ∀ g1 w1, seq_reach program g' w' g1 w1 →
      is_address_breakpoint (pc g1) (breaks w1) = Ok false ∧ ∀ i, program (pc g1) = Some i → host_divides i g1.

Lemma with_session_same w : with_session w (session_of w) = w.
Proof. by destruct w. Qed.

Lemma not_stopped g w : is_address_breakpoint (pc g) (breaks w) = Ok false → no_breakpoint g w.
Proof.
  intros Hb. exists 0. cbn. unfold enter_vmm_dbg_shell. cbn [screen session_of bps]. rewrite Hb.
  cbn [checked lift]. by rewrite with_session_same.
Qed.

Lemma well_behaved_safe g w c :
  program_good → well_behaved g w c → Vmm.safe program instruction_at lo yield_cpu g w c.
Proof.
  intros [Hv Hw Hn] Hb nows g' w' c' Hr. destruct (Hb _ _ _ _ Hr) as (Hp & Ht & Hs). split; [done|]. split; [|by split].
  intros g1 w1 Hg1. destruct (Hs _ _ Hg1) as [Hbp Hd]. split; [by apply not_stopped|done].
Qed.

(** C1: the emulator as a whole, for a task under these conditions: the program
    is made of RV32IMA instructions other than ebreak, amomin.w, amomax.w and
    amominu.w ([valid]) and lies in one window of 2 GB ([program_good]); its units are
    short against the cache ([short_units]); along its own run the pc stays in the
    program, the text stays in memory, and no pc is a breakpoint and no division one
    the host faults on ([well_behaved]); task.c and the switch to other tasks keep the registers and the
    board in order ([tasks_ok] and the condition on [yield_cpu]).  Then the task, with
    the C side of the development (loads, stores and atomics on its memory, the
    debugger's prologue, the privileged callbacks, the system calls), runs for any
    number of rounds of [vmresume], translated code, [vmm_entry_point] and [vmexit] as
    the program runs on the RV32IMA machine over that C side, with the other tasks run
    when 5 ms of processor time have passed: it ends with the registers, the pc and
    the process of that run, or in its error.  Between rounds the translation cache is
    well formed whatever was flushed, x0 is zero, paging is off, and the host stack
    holds no more than the frames of the last round.  Outside the conditions the
    emulator differs: see [division_faults], [wrapping_comparison_misses]. *)
Theorem sandbox_refines ts v :
  tasks_ok tasks → (∀ c w, board_good (board w) → board_good (board (yield_cpu c w).2)) →
  program_good → short_units TRANSLATION_SIZE jumper_size program n smin smax →
  well_behaved (Vmm.cpu v) (Vmm.process v) (Vmm.counter v) →
  Vmm.task_ok H TRANSLATION_SIZE jumper_size program lo v →
  ∃ r, Vmm.task_run program yield_cpu (Vmm.now <$> ts) (Vmm.cpu v) (Vmm.process v) (Vmm.counter v) r ∧
    let run := Vmm.rounds H TRANSLATION_SIZE jumper_size instruction_at offset_of_vmm_stack vmm_stack_ptr yield_cpu ts v in
    match r with
    | Vmm.Running g w c =>
        ∃ h, let v' := Vmm.mk_task h g w c
               match last ts with Some t => Vmm.frames t ++ [VInt H] | None => Vmm.host_stack v end in
          run = Ok v' ∧ Vmm.task_ok H TRANSLATION_SIZE jumper_size program lo v'
    | Vmm.Failed e => run = Err e
    end.
Proof.
  intros Ht Hy Hp Hs Hb Hok. pose proof (sandbox_calls_ok buffer junk tasks Ht) as Hlaws.
  eapply Vmm.rounds_run; try done. by apply well_behaved_safe.
Qed.

End whole.

(** ** A concrete sandbox

    The program asks for its pid, stores it, loads it and starts again. *)
Definition pid_code : list (Z * instr) :=
  [ (0x400, OpImm ADDI 17 0 172);
    (0x404, Ecall);
    (0x408, Store SW 0 10 0x414);
    (0x40c, Load LW 11 0 0x414);
    (0x410, Jal 0 (-16)) ].

Definition pid_program (p : Z) : option instr := snd <$> head (filter (λ e, fst e = p) pid_code).

Definition pid_process : process :=
  mk_process (space_of [generic_region 0x400 0x420 6 "" (Some 1)])
    {[ 1 := concat ((λ e, le_split 4 (encode (snd e))) <$> pid_code) ++ replicate 12 0 ]}.

Definition pid_board : machine :=
  mk_machine (mk_control ∅ 0 0 0 (mk_status false false false false false false 0 0) PRIVILEGE_LEVEL_MACHINE)
    (mk_hart 0 [] ∅ 0) pid_process [] [] 0 0.

Definition pid_world : world (gset Z) :=
  mk_world pid_board 0 amo_initial no_breakpoints [] (replicate 4096 0) 0 [] (Vfs.files Vfs.demo_vfs)
    (Path.cstring "/") (Path.cstring "/") {[ 5 ]} 1 2.

Definition no_tasks (_ : Syscall.task_call) (_ : guest) (_ : world (gset Z)) : callres (world (gset Z)) := Dies EAssert.

Definition no_junk (_ : symbol) (_ : world (gset Z)) (_ : reg) : Z := 0.

#[local] Instance pid_calls : HostCalls (world (gset Z)) :=
  sandbox_calls (HK := Vfs.counting_kernel) (HA := VmaOps.bump_alloc) [] no_junk no_tasks.

(** The states the program passes through: after the first round they repeat. *)
Definition pid_next (s : guest * world (gset Z)) : guest * world (gset Z) :=
  match pid_program (pc s.1) with
  | Some i => match rv_exec i s.1 s.2 with RvOk _ g w => (g, w) | RvErr _ => s end
  | None => s
  end.

Definition pid_state (k : nat) : guest * world (gset Z) := Nat.iter k pid_next (demo_guest 0x400, pid_world).

Lemma pid_cycle : pid_state 10 = pid_state 5.
Proof. vm_compute. reflexivity. Qed.

(** What holds in each of these states, as a test. *)
Definition pid_fine (s : guest * world (gset Z)) : bool :=
  match pid_program (pc s.1) with
  | Some i =>
      bool_decide (host_divides i s.1) &&
      match rv_exec i s.1 s.2, is_address_breakpoint (pc s.1) (breaks s.2) with
      | RvOk _ _ _, Ok false => true
      | _, _ => false
      end
  | None => false
  end &&
  forallb (λ e, match instruction_at s.2 (fst e) with Ok v => v =? encode (snd e) | Err _ => false end) pid_code.

Lemma pid_all_fine : forallb pid_fine (pid_state <$> seq 0 10) = true.
Proof. vm_compute. reflexivity. Qed.

Definition visited (g : guest) (w : world (gset Z)) : Prop := ∃ k, (k < 10)%nat ∧ (g, w) = pid_state k.

Lemma visited_fine g w : visited g w → pid_fine (g, w) = true.
Proof.
  intros (k & Hk & ->). pose proof pid_all_fine as Hf. rewrite forallb_forall in Hf. apply Hf.
  apply list_elem_of_In, list_elem_of_fmap. exists k. split; [done|]. apply elem_of_seq. lia.
Qed.

Lemma visited_step i g w b g' w' :
  visited g w → pid_program (pc g) = Some i → rv_exec i g w = RvOk b g' w' → visited g' w'.
Proof.
  intros (k & Hk & Heq) Hi He.
  assert ((g', w') = pid_state (S k)) as Hn.
  { change (pid_state (S k)) with (pid_next (pid_state k)). rewrite <- Heq. unfold pid_next. cbn [fst snd].
    by rewrite Hi, He. }
  destruct (decide (k = 9%nat)) as [->|].
  - exists 5%nat. split; [lia|]. by rewrite Hn, pid_cycle.
  - exists (S k). split; [lia|done].
Qed.

Lemma visited_seq g w g' w' : seq_reach pid_program g w g' w' → visited g w → visited g' w'.
Proof. induction 1; eauto using visited_step. Qed.

Lemma visited_unit g w b g' w' : unit_run pid_program g w (RvOk b g' w') → visited g w → visited g' w'.
Proof.
  intros Hu. remember (RvOk b g' w') as r eqn:Er. induction Hu; simplify_eq; eauto using visited_step.
Qed.

Definition pid_yield (c : Z) (w : world (gset Z)) : Z * world (gset Z) := (c, w).

Lemma visited_run nows g w c g' w' c' :
  Vmm.task_run pid_program pid_yield nows g w c (Vmm.Running g' w' c') → visited g w → visited g' w'.
Proof.
  intros Hr. remember (Vmm.Running g' w' c') as r eqn:Er.
  induction Hr; simplify_eq; [done|eauto using visited_unit|]. unfold pid_yield in *. simplify_eq. eauto using visited_unit.
Qed.

Lemma pid_program_elem p i : pid_program p = Some i → (p, i) ∈ pid_code.
Proof.
  unfold pid_program. destruct (head _) as [[q j]|] eqn:He; [|done]. intros [= <-].
  apply head_Some_elem_of, list_elem_of_filter in He as [<- He]. done.
Qed.

Lemma pid_well_behaved c : well_behaved (HK := Vfs.counting_kernel) (HA := VmaOps.bump_alloc) [] no_junk no_tasks pid_program pid_yield (demo_guest 0x400) pid_world c.
Proof.
  intros nows g' w' c' Hr. assert (visited g' w') as Hv by (eapply visited_run; [done|by exists 0%nat; split; [lia|]]).
  pose proof (visited_fine _ _ Hv) as Hf. unfold pid_fine in Hf. apply andb_true_iff in Hf as [Hi Hm].
  cbn [fst snd] in *. split; [by destruct (pid_program _)|]. split.
  - intros a i Ha%pid_program_elem. rewrite forallb_forall in Hm. apply list_elem_of_In, Hm in Ha. cbn [fst snd] in Ha.
    destruct (instruction_at _ _); [|done]. apply Z.eqb_eq in Ha. by subst.
  - intros g1 w1 Hs. pose proof (visited_fine _ _ (visited_seq _ _ _ _ Hs Hv)) as Hf1.
    apply andb_true_iff in Hf1 as [Hf1 _]. cbn [fst snd] in Hf1. destruct (pid_program (pc g1)); [|done].
    apply andb_true_iff in Hf1 as [Hd Hb]. apply bool_decide_eq_true in Hd.
    destruct (rv_exec _ _ _); [|done]. clear Hi. destruct (is_address_breakpoint (pc g1) (breaks w1)) as [[]|]; try done.
    split; [done|]. by intros ? [= <-].
Qed.

Lemma pid_good : program_good pid_program 0.
Proof.
  split; intros p i Hp; apply pid_program_elem in Hp as Hin; unfold pid_code in Hin;
    repeat (apply elem_of_cons in Hin as [[= -> ->]|Hin]); try by apply elem_of_nil in Hin.
  all: try done. all: try (by split_and!). all: try (split; [done|lia]). all: intros _; by eexists.
Qed.

Lemma pid_short : short_units demo_size 12 pid_program 4 100 100.
Proof.
  split; try done. intros p i Hp. apply pid_program_elem in Hp as Hin. unfold pid_code in Hin.
  repeat (apply elem_of_cons in Hin as [[= -> ->]|Hin]; [done|]). by apply elem_of_nil in Hin.
Qed.

Definition pid_task : Vmm.running_task (world (gset Z)) := Vmm.mk_task empty_hart (demo_guest 0x400) pid_world 0 [].

Lemma pid_task_ok : Vmm.task_ok 64 demo_size 12 pid_program 0 pid_task.
Proof.
  split; [|by apply demo_wf|done|by split]. exists []. split; [apply empty_rep|]. done.
Qed.

Definition pid_ticks : list Vmm.tick :=
  [Vmm.mk_tick false 3000 demo_regs []; Vmm.mk_tick true 7000 demo_regs [VInt 1]; Vmm.mk_tick false 9000 demo_regs [VInt 2]].

(** After three rounds the loaded word is the pid. *)
Definition pid_run : outcome (Vmm.running_task (world (gset Z))) :=
  Vmm.rounds 64 demo_size 12 instruction_at 0 0 pid_yield pid_ticks pid_task.

Lemma sandbox_refines_witness :
  match pid_run with Ok v => Some (pc (Vmm.cpu v), gpr (Vmm.cpu v) 11) | Err _ => None end = Some (0x408, 2) ∧
  ∃ r, Vmm.task_run pid_program pid_yield [3000; 7000; 9000] (demo_guest 0x400) pid_world 0 r ∧
    match r with
    | Vmm.Running g w c =>
        ∃ h, let v' := Vmm.mk_task h g w c [VInt 2; VInt 64] in
          pid_run = Ok v' ∧ Vmm.task_ok 64 demo_size 12 pid_program 0 v'
    | Vmm.Failed e => pid_run = Err e
    end.
Proof.
  split; [vm_compute; reflexivity|].
  apply (sandbox_refines (HK := Vfs.counting_kernel) (HA := VmaOps.bump_alloc) [] no_junk no_tasks 64 demo_addr demo_size
    12 demo_sizes pid_program 0 0 0 pid_yield 4 100 100 pid_ticks pid_task).
  - done.
  - done.
  - apply pid_good.
  - apply pid_short.
  - apply pid_well_behaved.
  - apply pid_task_ok.
Defined.

End Sandbox.
