(* ===== verification/Fdt.v ===== *)
(** * The device tree blob: fdt.c, fdt.h and the uart node of emulate_uart.c

    The builder appends tokens to a zeroed buffer, collects the property names in
    a second buffer and joins the two at the end; [scan_fdt_tokens] walks the
    result.  Theorem: what is built is the blob of the format, and what is scanned.  The code is switched off
    in the build; it is modelled as it stands.

    A buffer is its list of bytes, a pointer into it an offset (malloc aligns the
    buffer, so that [ALIGNADDR] aligns the offset); an access outside the list is
    [Err EUndef].  A C string is its characters, without the NUL. *)
From S2P Require Import Prelude Decode Vma Path Debugger.
Import Decode Vma Path.

Module Fdt.

(** ** util.h *)
Definition LITTLE_ENDIAN32 (v : Z) : Z :=
  Z.lor (Z.lor (Z.lor (w32 (Z.shiftl (Z.land v 0xff) 24)) (w32 (Z.shiftl (Z.land v 0xff00) 8)))
    (Z.shiftr (Z.land v 0xff0000) 8)) (Z.shiftr (Z.land v 0xff000000) 24).

Definition BIG_ENDIAN32 (v : Z) : Z := LITTLE_ENDIAN32 v.

(** [ALIGN32(var, align)] and [ALIGNADDR(addr, align)] *)
Definition ALIGN32 (var align : Z) : Z :=
  if Z.land var (align - 1) =? 0 then var else w32 (Z.land var (w32 (Z.lnot (align - 1))) + align).

Definition ALIGNADDR (addr align : Z) : Z :=
  if Z.land addr (align - 1) =? 0 then addr else Z.land addr (Z.lnot (align - 1)) + align.

(** ** fdt.h *)
Definition FDT_MAGIC : Z := 0xd00dfeed.

Definition FDT_BEGIN_NODE : Z := 0x00000001.

Definition FDT_END_NODE : Z := 0x00000002.

Definition FDT_PROP : Z := 0x00000003.

Definition FDT_NOP : Z := 0x00000004.

Definition FDT_END : Z := 0x00000009.

Definition MAX_NR_HARTS : Z := 64.

Record fdt_build_blob := mk_blob {
  buffer : list Z;
  buffer_size : Z;
  buffer_iptr : Z;
  string_buffer : list Z;
  string_buffer_size : Z;
  string_buffer_iptr : Z;
  harts_phandles : list Z;
  hart_interrupt_controllers_phandles : list Z;
  phandle_generator : Z
}.

(** The offsets of [struct fdt_header], ten words, and the two of [struct fdt_property]. *)
Definition off_magic : Z := 0.

Definition off_totalsize : Z := 4.

Definition off_off_dt_struct : Z := 8.

Definition off_off_dt_strings : Z := 12.

Definition off_off_mem_rsvmap : Z := 16.

Definition off_version : Z := 20.

Definition off_last_comp_version : Z := 24.

Definition off_size_dt_strings : Z := 32.

Definition off_size_dt_struct : Z := 36.

Definition sizeof_header : Z := 40.

Definition sizeof_property : Z := 8.

Definition generate_phandle (b : fdt_build_blob) : Z * fdt_build_blob :=
  (phandle_generator b,
   mk_blob (buffer b) (buffer_size b) (buffer_iptr b) (string_buffer b) (string_buffer_size b) (string_buffer_iptr b)
     (harts_phandles b) (hart_interrupt_controllers_phandles b) (phandle_generator b + 1)).

(** ** Accesses to a buffer *)
Definition put (buf : list Z) (off : Z) (bytes : list Z) : outcome (list Z) :=
  let o := Z.to_nat off in
  if (0 <=? off) && (o + length bytes <=? length buf)%nat
  then Ok (take o buf ++ bytes ++ drop (o + length bytes) buf) else Err EUndef.

Definition put32 (buf : list Z) (off v : Z) : outcome (list Z) := put buf off (le_split 4 v).

Definition get32 (buf : list Z) (off : Z) : outcome Z :=
  let o := Z.to_nat off in
  if (0 <=? off) && (o + 4 <=? length buf)%nat then Ok (le_combine (take 4 (drop o buf))) else Err EUndef.

(** The string at [off]; [strlen] needs its NUL. *)
Definition string_at (buf : list Z) (off : Z) : outcome (list Z) :=
  let s := drop (Z.to_nat off) buf in
  if (0 <=? off) && bool_decide (0 ∈ s) then Ok (upto_nul s) else Err EUndef.

(** The blob with new contents, and with more room used. *)
Definition with_buffer (b : fdt_build_blob) (buf : list Z) (room : Z) : fdt_build_blob :=
  mk_blob buf (buffer_size b) (w32 (buffer_iptr b + room)) (string_buffer b) (string_buffer_size b)
    (string_buffer_iptr b) (harts_phandles b) (hart_interrupt_controllers_phandles b) (phandle_generator b).

Definition with_strings (b : fdt_build_blob) (buf : list Z) (room : Z) : fdt_build_blob :=
  mk_blob (buffer b) (buffer_size b) (buffer_iptr b) buf (string_buffer_size b) (w32 (string_buffer_iptr b + room))
    (harts_phandles b) (hart_interrupt_controllers_phandles b) (phandle_generator b).

(** ** The builder *)
Section builder.
(** Whether [malloc] of so many bytes succeeds. *)
Context (malloc : Z → bool).

Definition fdt_build_init (buffer_size string_buffer_size : Z) : outcome fdt_build_blob :=
  ASSERT (malloc buffer_size);;
  let buf := replicate (Z.to_nat buffer_size) 0 in
  ASSERT (malloc string_buffer_size);;
  let strs := replicate (Z.to_nat string_buffer_size) 0 in
  buf ← put32 buf off_magic (BIG_ENDIAN32 FDT_MAGIC);
  buf ← put32 buf off_version (BIG_ENDIAN32 17);
  buf ← put32 buf off_last_comp_version (BIG_ENDIAN32 2);
  let iptr := sizeof_header in
  let iptr := ALIGN32 iptr 4 in
  buf ← put32 buf off_off_mem_rsvmap (BIG_ENDIAN32 iptr);
  let iptr := w32 (iptr + 16) in
  let iptr := ALIGN32 iptr 4 in
  buf ← put32 buf off_off_dt_struct (BIG_ENDIAN32 iptr);
  Ok (mk_blob buf (w32 buffer_size) iptr strs (w32 string_buffer_size) 0
        (replicate (Z.to_nat MAX_NR_HARTS) 0) (replicate (Z.to_nat MAX_NR_HARTS) 0) 1).

End builder.

Definition room_available (b : fdt_build_blob) : Z := w32 (buffer_size b - buffer_iptr b).

Definition strlen (s : list Z) : Z := Z.of_nat (length s).

Definition fdt_begin_node (node_name : list Z) (b : fdt_build_blob) : outcome fdt_build_blob :=
  let room_needed := w32 (4 + strlen node_name + 1) in
  let room_needed := ALIGN32 room_needed 4 in
  ASSERT (room_needed <=? room_available b);;
  buf ← put32 (buffer b) (buffer_iptr b) (BIG_ENDIAN32 FDT_BEGIN_NODE);
  buf ← put buf (buffer_iptr b + 4) node_name;
  Ok (with_buffer b buf room_needed).

(** [prop_value] is the [prop_len] bytes at the pointer. *)
Definition fdt_prop (prop_name prop_value : list Z) (b : fdt_build_blob) : outcome fdt_build_blob :=
  let prop_len := strlen prop_value in
  let room_needed := w32 (4 + sizeof_property + prop_len) in
  let room_needed := ALIGN32 room_needed 4 in
  ASSERT (room_needed <=? room_available b);;
  let iptr := buffer_iptr b in
  buf ← put32 (buffer b) iptr (BIG_ENDIAN32 FDT_PROP);
  buf ← put32 buf (iptr + 4) (BIG_ENDIAN32 prop_len);
  buf ← put32 buf (iptr + 8) (BIG_ENDIAN32 (string_buffer_iptr b));
  buf ← put buf (iptr + 4 + sizeof_property) prop_value;
  let b := with_buffer b buf room_needed in
  let name_size := w32 (strlen prop_name + 1) in
  ASSERT (name_size <? w32 (string_buffer_size b - string_buffer_iptr b));;
  strs ← put (string_buffer b) (string_buffer_iptr b) (prop_name ++ [0]);
  Ok (with_strings b strs name_size).

(** [fdt_end_node] and [fdt_nop], one word each. *)
Definition one_token (token : Z) (b : fdt_build_blob) : outcome fdt_build_blob :=
  let room_needed := 4 in
  ASSERT (room_needed <=? room_available b);;
  buf ← put32 (buffer b) (buffer_iptr b) (BIG_ENDIAN32 token);
  Ok (with_buffer b buf room_needed).

Definition fdt_end_node : fdt_build_blob → outcome fdt_build_blob := one_token FDT_END_NODE.

Definition fdt_nop : fdt_build_blob → outcome fdt_build_blob := one_token FDT_NOP.

Definition fdt_end (b : fdt_build_blob) : outcome fdt_build_blob :=
  b ← one_token FDT_END b;
  buf ← put32 (buffer b) off_off_dt_strings (BIG_ENDIAN32 (buffer_iptr b));
  buf ← put32 buf off_size_dt_strings (BIG_ENDIAN32 (string_buffer_iptr b));
  off_dt_struct ← get32 buf off_off_dt_struct;
  let size_struct := w32 (buffer_iptr b - LITTLE_ENDIAN32 off_dt_struct) in
  buf ← put32 buf off_size_dt_struct (BIG_ENDIAN32 size_struct);
  let size_total := w32 (buffer_iptr b + string_buffer_iptr b) in
  buf ← put32 buf off_totalsize (BIG_ENDIAN32 size_total);
  let room_needed := string_buffer_iptr b in
  ASSERT (room_needed <=? room_available b);;
  buf ← put buf (buffer_iptr b) (take (Z.to_nat (string_buffer_iptr b)) (string_buffer b));
  Ok (with_buffer b buf room_needed).

(** [free] of both buffers and [memset]. *)
Definition fdt_blob_destroy (b : fdt_build_blob) : fdt_build_blob := mk_blob [] 0 0 [] 0 0 (replicate 64 0) (replicate 64 0) 0.

(** ** The scanner *)

(** A line of the log: the last node begun, the property's name, the length and
    the offset of its value. *)
Record line := mk_line {
  node_name : option (list Z);
  node_prop_name : list Z;
  node_prop_length : Z;
  node_prop_value : Z
}.

Fixpoint token_loop (fuel : nat) (dtb : list Z) (ptr : Z) (node : option (list Z)) : outcome (list line) :=
  match fuel with
  | O => Err EFuel
  | S fuel =>
      token ← get32 dtb ptr;
      let token := LITTLE_ENDIAN32 token in
      let ptr := ptr + 4 in
      if token =? FDT_BEGIN_NODE then
        name ← string_at dtb ptr;
        token_loop fuel dtb (ALIGNADDR (ptr + strlen name + 1) 4) (Some name)
      else if token =? FDT_PROP then
        len ← get32 dtb ptr;
        let len := sint 32 (LITTLE_ENDIAN32 len) in
        off_strings ← get32 dtb off_off_dt_strings;
        nameoff ← get32 dtb (ptr + 4);
        name ← string_at dtb (LITTLE_ENDIAN32 off_strings + LITTLE_ENDIAN32 nameoff);
        let ptr := ptr + sizeof_property in
        rest ← token_loop fuel dtb (ALIGNADDR (ptr + len) 4) node;
        Ok (mk_line node name len ptr :: rest)
      else if (token =? FDT_NOP) || (token =? FDT_END_NODE) then token_loop fuel dtb ptr node
      else if token =? FDT_END then Ok []
      else not_reach
  end.

(** A token takes four bytes or more. *)
Definition scan_fdt_tokens (dtb : list Z) : outcome (list line) :=
  off_dt_struct ← get32 dtb off_off_dt_struct;
  token_loop (length dtb) dtb (LITTLE_ENDIAN32 off_dt_struct) None.

(** ** Byte order *)
Lemma land_byte v k : 0 <= k → Z.land v (Z.shiftl 0xff k) = Z.shiftl ((v / 2 ^ k) mod 256) k.
Proof.
  intros Hk. change 256 with (2 ^ 8). rewrite <- Z.shiftr_div_pow2, <- Z.land_ones by lia. change (Z.ones 8) with 0xff.
  apply Z.bits_inj'. intros i Hi. rewrite Z.land_spec, !Z.shiftl_spec by done.
  destruct (Z.lt_ge_cases i k).
  - by rewrite !(Z.testbit_neg_r _ (i - k)), andb_false_r by lia.
  - rewrite Z.land_spec, Z.shiftr_spec by lia. by replace (i - k + k) with i by lia.
Qed.

Lemma swap_value v :
  LITTLE_ENDIAN32 v =
  (v / 2 ^ 24) mod 256 + (v / 2 ^ 16) mod 256 * 2 ^ 8 + (v / 2 ^ 8) mod 256 * 2 ^ 16 + v mod 256 * 2 ^ 24.
Proof.
  unfold LITTLE_ENDIAN32. change 0xff00 with (Z.shiftl 0xff 8). change 0xff0000 with (Z.shiftl 0xff 16).
  change 0xff000000 with (Z.shiftl 0xff 24). rewrite !land_byte by lia. rewrite (land_mask v 0xff 8) by (done || lia).
  rewrite !Z.shiftr_div_pow2, !Z.shiftl_mul_pow2 by lia. change (2 ^ 8) with 256.
  set (b3 := (v / 2 ^ 24) mod 256). set (b2 := (v / 2 ^ 16) mod 256). set (b1 := (v / 256) mod 256). set (b0 := v mod 256).
  assert (0 <= b0 < 256 ∧ 0 <= b1 < 256 ∧ 0 <= b2 < 256 ∧ 0 <= b3 < 256) as (H0 & H1 & H2 & H3)
    by (split_and!; apply Z.mod_pos_bound; lia).
  clearbody b0 b1 b2 b3. rewrite !w32_small by (unfold word32; lia).
  replace (b3 * 2 ^ 24 / 2 ^ 24) with b3 by lia_div. replace (b2 * 2 ^ 16 / 256) with (b2 * 2 ^ 8) by lia_div.
  replace (b1 * 256 * 256) with (b1 * 2 ^ 16) by lia.
  replace (Z.lor _ b3) with (Z.lor (Z.lor (Z.lor b3 (b2 * 2 ^ 8)) (b1 * 2 ^ 16)) (b0 * 2 ^ 24)).
  - rewrite (lor_add b3) by lia. rewrite (lor_add _ b1) by lia. by rewrite lor_add by lia.
  - apply Z.bits_inj'. intros i _. rewrite !Z.lor_spec. by repeat destruct (Z.testbit _ i).
Qed.

(** A word as the builder writes it, and what the scanner reads back. *)
Definition be32 (v : Z) : list Z := le_split 4 (BIG_ENDIAN32 v).

Lemma swap_bytes c0 c1 c2 c3 :
  0 <= c0 < 256 → 0 <= c1 < 256 → 0 <= c2 < 256 → 0 <= c3 < 256 →
  LITTLE_ENDIAN32 (c0 + c1 * 2 ^ 8 + c2 * 2 ^ 16 + c3 * 2 ^ 24) = c3 + c2 * 2 ^ 8 + c1 * 2 ^ 16 + c0 * 2 ^ 24.
Proof.
  intros. rewrite swap_value. set (x := c0 + _ + _ + _).
  replace ((x / 2 ^ 24) mod 256) with c3 by (subst x; lia_div).
  replace ((x / 2 ^ 16) mod 256) with c2 by (subst x; lia_div).
  replace ((x / 2 ^ 8) mod 256) with c1 by (subst x; lia_div).
  replace (x mod 256) with c0 by (subst x; lia_div). done.
Qed.

Lemma be32_read v : word32 v → LITTLE_ENDIAN32 (le_combine (be32 v)) = v.
Proof.
  intros Hv. unfold be32, BIG_ENDIAN32. rewrite le_combine_split, (swap_value v). unfold word32 in Hv.
  assert (∀ x, 0 <= x mod 256 < 256) as Hb by (intros; apply Z.mod_pos_bound; lia).
  change (256 ^ Z.of_nat 4) with (2 ^ 32). rewrite Z.mod_small.
  - rewrite swap_bytes by apply Hb. lia_div.
  - pose proof (Hb (v / 2 ^ 24)). pose proof (Hb (v / 2 ^ 16)). pose proof (Hb (v / 2 ^ 8)). pose proof (Hb v). lia.
Qed.

(** ** Alignment *)
Definition align4 (x : Z) : Z := x + (- x) mod 4.

Lemma land_3 x : Z.land x (4 - 1) = x mod 4.
Proof. change (4 - 1) with (Z.ones 2). by rewrite Z.land_ones by lia. Qed.

Lemma ALIGN32_spec x : 0 <= x < 2 ^ 31 → ALIGN32 x 4 = align4 x.
Proof.
  intros Hx. unfold ALIGN32, align4. rewrite land_3. change (w32 (Z.lnot (4 - 1))) with 0xfffffffc.
  rewrite (clear_low x 2 0xfffffffc) by (done || lia || (unfold word32; lia)). change (2 ^ 2) with 4.
  destruct (Z.eqb_spec (x mod 4) 0); [lia_div|]. rewrite w32_small; [|unfold word32]; lia_div.
Qed.

Lemma ALIGNADDR_spec x : ALIGNADDR x 4 = align4 x.
Proof.
  unfold ALIGNADDR, align4. rewrite land_3. change (Z.lnot (4 - 1)) with (Z.lnot (Z.ones 2)).
  rewrite <- Z.ldiff_land, Z.ldiff_ones_r, Z.shiftl_mul_pow2, Z.shiftr_div_pow2 by lia. change (2 ^ 2) with 4.
  destruct (Z.eqb_spec (x mod 4) 0); lia_div.
Qed.

(** ** What the builder writes *)
Inductive op :=
| OBegin (name : list Z)
| OProp (name value : list Z)
| OEnd
| ONop.

Definition apply_op (o : op) : fdt_build_blob → outcome fdt_build_blob :=
  match o with
  | OBegin name => fdt_begin_node name
  | OProp name value => fdt_prop name value
  | OEnd => fdt_end_node
  | ONop => fdt_nop
  end.

Fixpoint run (ops : list op) (b : fdt_build_blob) : outcome fdt_build_blob :=
  match ops with
  | [] => Ok b
  | o :: ops => b ← apply_op o b; run ops b
  end.

Definition zeros (n : nat) : list Z := replicate n 0.

Definition pad4 (l : list Z) : list Z := l ++ zeros (Z.to_nat ((- strlen l) mod 4)).

(** The bytes of a call when the names so far take [so] bytes, and its name. *)
Definition op_bytes (so : Z) (o : op) : list Z :=
  match o with
  | OBegin name => be32 FDT_BEGIN_NODE ++ pad4 (name ++ [0])
  | OProp _ value => be32 FDT_PROP ++ be32 (strlen value) ++ be32 so ++ pad4 value
  | OEnd => be32 FDT_END_NODE
  | ONop => be32 FDT_NOP
  end.

Definition op_name (o : op) : list Z := match o with OProp name _ => name ++ [0] | _ => [] end.

Fixpoint ops_bytes (so : Z) (ops : list op) : list Z :=
  match ops with
  | [] => []
  | o :: ops => op_bytes so o ++ ops_bytes (so + strlen (op_name o)) ops
  end.

Definition ops_names (ops : list op) : list Z := concat (op_name <$> ops).

(** A blob with buffers of [n] and [m] bytes under construction: header, tokens and zeros; names and zeros. *)
Record building (n m : Z) (b : fdt_build_blob) (hdr S T : list Z) : Prop := {
  bd_header : length hdr = 56%nat;
  bd_buffer : ∃ k, buffer b = hdr ++ S ++ zeros k;
  bd_size : buffer_size b = strlen (buffer b);
  bd_iptr : buffer_iptr b = 56 + strlen S;
  bd_strings : ∃ k, string_buffer b = T ++ zeros k;
  bd_ssize : string_buffer_size b = strlen (string_buffer b);
  bd_siptr : string_buffer_iptr b = strlen T;
  bd_small : strlen (buffer b) < 2 ^ 30;
  bd_ssmall : strlen (string_buffer b) < 2 ^ 30;
  bd_n : buffer_size b = n;
  bd_m : string_buffer_size b = m
}.

Lemma be32_length v : length (be32 v) = 4%nat.
Proof. apply le_split_length. Qed.

Lemma put_zeros A k bs : (length bs <= k)%nat → put (A ++ zeros k) (strlen A) bs = Ok (A ++ bs ++ zeros (k - length bs)).
Proof.
  intros Hk. unfold put, strlen. rewrite (proj2 (Z.leb_le 0 _)), Nat2Z.id by lia. rewrite (proj2 (Nat.leb_le _ _)).
  - cbn [andb]. rewrite take_app_length, <- drop_drop, drop_app_length. unfold zeros. by rewrite drop_replicate.
  - unfold zeros. rewrite length_app, length_replicate. lia.
Qed.

Lemma zeros_app a b : zeros (a + b) = zeros a ++ zeros b.
Proof. apply replicate_add. Qed.

Lemma pad4_length l : strlen (pad4 l) = align4 (strlen l).
Proof.
  unfold pad4, align4, strlen, zeros. rewrite length_app, length_replicate.
  pose proof (Z.mod_pos_bound (- Z.of_nat (length l)) 4). lia.
Qed.

Lemma strlen_app l1 l2 : strlen (l1 ++ l2) = strlen l1 + strlen l2.
Proof. unfold strlen. rewrite length_app. lia. Qed.

Lemma strlen_zeros k : strlen (zeros k) = Z.of_nat k.
Proof. unfold strlen, zeros. by rewrite length_replicate. Qed.

Lemma strlen_be32 v : strlen (be32 v) = 4.
Proof. unfold strlen. by rewrite be32_length. Qed.

Lemma strlen_nonneg l : 0 <= strlen l.
Proof. unfold strlen. lia. Qed.

(** The free room, and the blob after [bs] was written there. *)
Lemma building_room n m b hdr S T :
  building n m b hdr S T → ∃ k, buffer b = (hdr ++ S) ++ zeros k ∧ room_available b = Z.of_nat k ∧
    strlen (hdr ++ S) = buffer_iptr b ∧ buffer_iptr b + Z.of_nat k = buffer_size b.
Proof.
  intros [Hh [k Hk] Hs Hi _ _ _ Hb _ _ _]. exists k. rewrite Hk in *. unfold room_available. rewrite Hs, Hi.
  rewrite !strlen_app, strlen_zeros in *. assert (strlen hdr = 56) as Hhl by (unfold strlen; lia).
  rewrite Hhl in *. pose proof (strlen_nonneg S). split; [by rewrite app_assoc|]. rewrite w32_small by (unfold word32; lia). lia.
Qed.

Lemma building_grow n m b hdr S T bs k :
  building n m b hdr S T → buffer b = (hdr ++ S) ++ zeros k → (length bs <= k)%nat →
  building n m (with_buffer b (((hdr ++ S) ++ bs) ++ zeros (k - length bs)) (strlen bs)) hdr (S ++ bs) T.
Proof.
  intros Hb Hk Hl. destruct Hb as [Hh _ Hs Hi Ht Hss Hsi Hsm Hssm Hn' Hm'].
  assert (strlen (((hdr ++ S) ++ bs) ++ zeros (k - length bs)) = strlen (buffer b)) as Hlen.
  { rewrite Hk, !strlen_app, !strlen_zeros. unfold strlen. lia. }
  assert (strlen (buffer b) = strlen hdr + strlen S + Z.of_nat k) as Hlen2 by (by rewrite Hk, !strlen_app, strlen_zeros).
  pose proof (strlen_nonneg S). pose proof (strlen_nonneg bs).
  split; cbn [with_buffer buffer buffer_size buffer_iptr string_buffer string_buffer_size string_buffer_iptr]; try done.
  - exists (k - length bs)%nat. by rewrite <- !app_assoc.
  - by rewrite Hlen.
  - rewrite Hi, strlen_app, w32_small; [lia|]. unfold word32, strlen in *. lia.
  - by rewrite Hlen.
Qed.

(** The first word of a call, in a buffer with room for it. *)
Lemma put_word A k v :
  (4 <= k)%nat → put32 (A ++ zeros k) (strlen A) (BIG_ENDIAN32 v) = Ok ((A ++ be32 v) ++ zeros (k - 4)).
Proof.
  intros Hk. unfold put32. fold (be32 v). rewrite put_zeros by (by rewrite be32_length).
  by rewrite be32_length, app_assoc.
Qed.

Lemma one_token_ok n m token b hdr S T :
  building n m b hdr S T → buffer_iptr b + 4 <= buffer_size b →
  ∃ b', one_token token b = Ok b' ∧ building n m b' hdr (S ++ be32 token) T.
Proof.
  intros Hb Hroom. destruct (building_room _ _ _ _ _ _ Hb) as (k & Hk & Hav & Hpos & Hend). unfold one_token.
  rewrite Hav, (proj2 (Z.leb_le 4 _)) by lia. cbn [ASSERT mbind outcome_bind]. rewrite Hk, <- Hpos, put_word by lia.
  cbn [mbind outcome_bind]. eexists. split; [done|].
  pose proof (building_grow _ _ _ _ _ _ (be32 token) k Hb Hk) as Hg. rewrite be32_length, strlen_be32 in Hg.
  apply Hg. lia.
Qed.

(** Bytes written over zeros, with the padding that was there. *)
Lemma pad_zeros l n m :
  Z.of_nat n = align4 (strlen l) → (n <= m)%nat → l ++ zeros (m - length l) = pad4 l ++ zeros (m - n).
Proof.
  unfold align4, pad4, strlen. intros Hn Hm. rewrite <- app_assoc, <- zeros_app. f_equal. f_equal.
  pose proof (Z.mod_pos_bound (- Z.of_nat (length l)) 4). lia.
Qed.

Lemma begin_node_ok n m name b hdr S T :
  building n m b hdr S T → strlen name < 2 ^ 30 → buffer_iptr b + strlen (op_bytes (strlen T) (OBegin name)) <= buffer_size b →
  ∃ b', fdt_begin_node name b = Ok b' ∧ building n m b' hdr (S ++ op_bytes (strlen T) (OBegin name)) T.
Proof.
  intros Hb Hn Hroom. destruct (building_room _ _ _ _ _ _ Hb) as (k & Hk & Hav & Hpos & Hend). unfold fdt_begin_node.
  set (bs := op_bytes (strlen T) (OBegin name)) in *. pose proof (strlen_nonneg name).
  assert (ALIGN32 (w32 (4 + strlen name + 1)) 4 = strlen bs) as ->.
  { subst bs. cbn [op_bytes]. rewrite w32_small by (unfold word32; lia). rewrite ALIGN32_spec by lia.
    rewrite strlen_app, strlen_be32, pad4_length, strlen_app. unfold align4. change (strlen [0]) with 1. lia_div. }
  assert (length bs <= k)%nat as Hfit by (unfold strlen in Hroom; lia).
  assert (strlen bs = 4 + align4 (strlen (name ++ [0]))) as Hlen.
  { subst bs. cbn [op_bytes]. by rewrite strlen_app, strlen_be32, pad4_length. }
  rewrite strlen_app in Hlen. change (strlen [0]) with 1 in Hlen.
  assert (strlen name + 1 <= align4 (strlen name + 1)) by (unfold align4; pose proof (Z.mod_pos_bound (- (strlen name + 1)) 4); lia).
  rewrite Hav, (proj2 (Z.leb_le _ _)) by (unfold strlen; lia). cbn [ASSERT mbind outcome_bind].
  rewrite Hk, <- Hpos, put_word by (unfold strlen in *; lia). cbn [mbind outcome_bind].
  replace (strlen (hdr ++ S) + 4) with (strlen ((hdr ++ S) ++ be32 FDT_BEGIN_NODE)) by (by rewrite strlen_app, strlen_be32).
  rewrite put_zeros by (unfold strlen in *; lia). cbn [mbind outcome_bind]. eexists. split; [done|].
  pose proof (building_grow _ _ _ _ _ _ bs k Hb Hk Hfit) as Hg.
  enough (((hdr ++ S) ++ be32 FDT_BEGIN_NODE) ++ name ++ zeros (k - 4 - length name) =
          ((hdr ++ S) ++ bs) ++ zeros (k - length bs)) as -> by exact Hg.
  assert (name ++ zeros (k - 4 - length name) = pad4 (name ++ [0]) ++ zeros (k - length bs)) as ->.
  { replace (k - length bs)%nat with (k - 4 - (length bs - 4))%nat by (unfold strlen in *; lia).
    rewrite <- pad_zeros; [|rewrite strlen_app; change (strlen [0]) with 1; unfold strlen in *; lia|lia].
    rewrite length_app, <- app_assoc. f_equal. change (length [0]) with 1%nat.
    replace (k - 4 - length name)%nat with (1 + (k - 4 - (length name + 1)))%nat by (unfold strlen in *; lia).
    by rewrite zeros_app. }
  subst bs. cbn [op_bytes]. by rewrite <- !app_assoc.
Qed.

Lemma building_name n m b hdr S T name :
  building n m b hdr S T → strlen name < 2 ^ 30 → string_buffer_iptr b + strlen name + 1 < string_buffer_size b →
  ∃ b', (ASSERT (w32 (strlen name + 1) <? w32 (string_buffer_size b - string_buffer_iptr b));;
         strs ← put (string_buffer b) (string_buffer_iptr b) (name ++ [0]);
         Ok (with_strings b strs (w32 (strlen name + 1)))) = Ok b' ∧ building n m b' hdr S (T ++ name ++ [0]).
Proof.
  intros [Hh Hk Hs Hi [j Hj] Hss Hsi Hsm Hssm Hn' Hm'] Hn Hroom. rewrite Hss, Hsi in *. pose proof (strlen_nonneg name).
  pose proof (strlen_nonneg T). rewrite !w32_small by (unfold word32; lia). rewrite (proj2 (Z.ltb_lt _ _)) by lia.
  rewrite Hj in *. rewrite strlen_app, strlen_zeros in Hroom. cbn [ASSERT mbind outcome_bind].
  assert ((length (name ++ [0%Z]) <= j)%nat) as Hl by (rewrite length_app; unfold strlen in *; cbn; lia).
  rewrite put_zeros by done. cbn [mbind outcome_bind]. eexists. split; [done|].
  assert (strlen (T ++ (name ++ [0]) ++ zeros (j - length (name ++ [0]))) = strlen (T ++ zeros j)) as Hlen.
  { rewrite !strlen_app, !strlen_zeros. unfold strlen in *. rewrite length_app in *. cbn in *. lia. }
  split; cbn [with_strings buffer buffer_size buffer_iptr string_buffer string_buffer_size string_buffer_iptr]; try done.
  - exists (j - length (name ++ [0%Z]))%nat. by rewrite <- !app_assoc.
  - by rewrite Hss, Hlen.
  - rewrite Hsi, !strlen_app. change (strlen [0]) with 1. rewrite strlen_app, strlen_zeros in *. rewrite w32_small; [lia|].
    unfold word32. lia.
  - by rewrite Hlen.
  - by rewrite Hss.
Qed.

Lemma prop_ok n m name value b hdr S T :
  building n m b hdr S T → strlen value < 2 ^ 30 → strlen name < 2 ^ 30 →
  buffer_iptr b + strlen (op_bytes (strlen T) (OProp name value)) <= buffer_size b →
  string_buffer_iptr b + strlen name + 1 < string_buffer_size b →
  ∃ b', fdt_prop name value b = Ok b' ∧ building n m b' hdr (S ++ op_bytes (strlen T) (OProp name value)) (T ++ name ++ [0]).
Proof.
  intros Hb Hv Hn Hroom Hsroom. destruct (building_room _ _ _ _ _ _ Hb) as (k & Hk & Hav & Hpos & Hend). unfold fdt_prop.
  set (bs := op_bytes (strlen T) (OProp name value)) in *. pose proof (strlen_nonneg name). pose proof (strlen_nonneg value).
  assert (strlen bs = 12 + align4 (strlen value)) as Hlen.
  { subst bs. cbn [op_bytes]. rewrite !strlen_app, !strlen_be32, pad4_length. lia. }
  assert (ALIGN32 (w32 (4 + sizeof_property + strlen value)) 4 = strlen bs) as ->.
  { rewrite Hlen. unfold sizeof_property. rewrite w32_small by (unfold word32; lia). rewrite ALIGN32_spec by lia.
    unfold align4. lia_div. }
  assert (strlen value <= align4 (strlen value)) by (unfold align4; pose proof (Z.mod_pos_bound (- strlen value) 4); lia).
  assert (length bs <= k)%nat as Hfit by (unfold strlen in Hroom; lia).
  rewrite Hav, (proj2 (Z.leb_le _ _)) by (unfold strlen; lia). cbn [ASSERT mbind outcome_bind].
  rewrite Hk, <- Hpos, put_word by (unfold strlen in *; lia). cbn [mbind outcome_bind]. set (A1 := (hdr ++ S) ++ be32 FDT_PROP).
  replace (strlen (hdr ++ S) + 4) with (strlen A1) by (subst A1; by rewrite (strlen_app (hdr ++ S)), strlen_be32).
  rewrite put_word by (unfold strlen in *; lia). cbn [mbind outcome_bind]. set (A2 := A1 ++ be32 (strlen value)).
  replace (strlen (hdr ++ S) + 8) with (strlen A2) by (subst A2 A1; rewrite !(strlen_app (_ ++ _)), !strlen_be32; lia).
  rewrite put_word by (unfold strlen in *; lia). cbn [mbind outcome_bind]. set (A3 := A2 ++ be32 _).
  replace (strlen A1 + sizeof_property) with (strlen A3)
    by (subst A3 A2; unfold sizeof_property; rewrite !strlen_app, !strlen_be32; lia).
  rewrite put_zeros by (unfold strlen in *; lia). cbn [mbind outcome_bind].
  pose proof (building_grow _ _ _ _ _ _ bs k Hb Hk Hfit) as Hg.
  enough (A3 ++ value ++ zeros (k - 4 - 4 - 4 - length value) = ((hdr ++ S) ++ bs) ++ zeros (k - length bs)) as ->
    by (by apply building_name).
  replace (k - 4 - 4 - 4 - length value)%nat with (k - 12 - length value)%nat by lia.
  rewrite (pad_zeros value (length bs - 12)) by (unfold strlen in *; lia).
  replace (k - 12 - (length bs - 12))%nat with (k - length bs)%nat by (unfold strlen in *; lia).
  subst A3 A2 A1 bs. cbn [op_bytes]. rewrite (bd_siptr _ _ _ _ _ _ Hb). by rewrite <- !app_assoc.
Qed.

(** *** A sequence of calls *)
Lemma align4_le x : x <= align4 x.
Proof. unfold align4. pose proof (Z.mod_pos_bound (- x) 4). lia. Qed.

Lemma op_ok n m o b hdr S T :
  building n m b hdr S T → 56 + strlen S + strlen (op_bytes (strlen T) o) <= n → strlen T + strlen (op_name o) < m →
  ∃ b', apply_op o b = Ok b' ∧ building n m b' hdr (S ++ op_bytes (strlen T) o) (T ++ op_name o).
Proof.
  intros Hb Hroom Hsroom. pose proof Hb as [_ _ Hs Hi _ Hss Hsi Hsm Hssm Hn Hm].
  pose proof (strlen_nonneg S). pose proof (strlen_nonneg T).
  rewrite <- Hi, <- Hn in Hroom. rewrite <- Hsi, <- Hm in Hsroom.
  destruct o as [name|name value| |]; cbn [apply_op op_name].
  - rewrite app_nil_r. apply begin_node_ok; [done| |done]. cbn [op_bytes] in Hroom.
    rewrite strlen_app, strlen_be32, pad4_length, strlen_app in Hroom. change (strlen [0]) with 1 in Hroom.
    pose proof (align4_le (strlen name + 1)). lia.
  - cbn [op_name] in Hsroom. rewrite strlen_app in Hsroom. change (strlen [0]) with 1 in Hsroom.
    apply prop_ok; [done| | |done|lia].
    + cbn [op_bytes] in Hroom. rewrite !strlen_app, !strlen_be32, pad4_length in Hroom. pose proof (align4_le (strlen value)). lia.
    + lia.
  - rewrite app_nil_r. cbn [op_bytes] in Hroom. rewrite strlen_be32 in Hroom. by apply one_token_ok.
  - rewrite app_nil_r. cbn [op_bytes] in Hroom. rewrite strlen_be32 in Hroom. by apply one_token_ok.
Qed.

Lemma ops_ok n m ops b hdr S T :
  building n m b hdr S T → 56 + strlen S + strlen (ops_bytes (strlen T) ops) <= n → strlen T + strlen (ops_names ops) < m →
  ∃ b', run ops b = Ok b' ∧ building n m b' hdr (S ++ ops_bytes (strlen T) ops) (T ++ ops_names ops).
Proof.
  revert b S T. induction ops as [|o ops IH]; intros b S T Hb Hroom Hsroom.
  { exists b. cbn. by rewrite !app_nil_r. }
  cbn [run ops_bytes] in *. unfold ops_names in *. cbn [fmap list_fmap concat] in *. rewrite strlen_app in Hroom, Hsroom.
  destruct (op_ok n m o b hdr S T Hb) as (b1 & -> & Hb1).
  { pose proof (strlen_nonneg (ops_bytes (strlen T + strlen (op_name o)) ops)). lia. }
  { pose proof (strlen_nonneg (concat (op_name <$> ops))). lia. }
  cbn [mbind outcome_bind]. destruct (IH b1 _ _ Hb1) as (b2 & Hr & Hb2).
  - rewrite !strlen_app. lia.
  - rewrite strlen_app. lia.
  - exists b2. split; [done|]. rewrite strlen_app, <- !app_assoc in Hb2. done.
Qed.

(** *** The header *)
Definition header (totalsize off_strings size_strings size_struct : Z) : list Z :=
  be32 FDT_MAGIC ++ be32 totalsize ++ be32 56 ++ be32 off_strings ++ be32 40 ++ be32 17 ++ be32 2 ++ be32 0 ++
  be32 size_strings ++ be32 size_struct ++ zeros 16.

Lemma put_at buf A B C off bs :
  buf = A ++ B ++ C → off = strlen A → length bs = length B → put buf off bs = Ok (A ++ bs ++ C).
Proof.
  intros -> -> Hl. unfold put, strlen. rewrite (proj2 (Z.leb_le 0 _)), Nat2Z.id by lia.
  rewrite (proj2 (Nat.leb_le _ _)) by (rewrite !length_app; lia). cbn [andb].
  by rewrite take_app_length, Hl, <- drop_drop, drop_app_length, drop_app_length.
Qed.

Lemma get_at buf A B C off : buf = A ++ B ++ C → off = strlen A → length B = 4%nat → get32 buf off = Ok (le_combine B).
Proof.
  intros -> -> Hl. unfold get32, strlen. rewrite (proj2 (Z.leb_le 0 _)), Nat2Z.id by lia.
  rewrite (proj2 (Nat.leb_le _ _)) by (rewrite !length_app; lia). cbn [andb].
  rewrite drop_app_length. by rewrite take_app_length' by done.
Qed.

(** The field of the header behind [A] is written. *)
Ltac header_field A B :=
  unfold put32, header; erewrite (put_at _ A B); [|by rewrite <- !app_assoc|done|done]; by rewrite <- !app_assoc.

Lemma header_totalsize t o s z x rest :
  put32 (header t o s z ++ rest) off_totalsize (BIG_ENDIAN32 x) = Ok (header x o s z ++ rest).
Proof. header_field (be32 FDT_MAGIC) (be32 t). Qed.

Lemma header_strings t o s z x rest :
  put32 (header t o s z ++ rest) off_off_dt_strings (BIG_ENDIAN32 x) = Ok (header t x s z ++ rest).
Proof. header_field (be32 FDT_MAGIC ++ be32 t ++ be32 56) (be32 o). Qed.

Lemma header_size_strings t o s z x rest :
  put32 (header t o s z ++ rest) off_size_dt_strings (BIG_ENDIAN32 x) = Ok (header t o x z ++ rest).
Proof.
  header_field (be32 FDT_MAGIC ++ be32 t ++ be32 56 ++ be32 o ++ be32 40 ++ be32 17 ++ be32 2 ++ be32 0) (be32 s).
Qed.

Lemma header_size_struct t o s z x rest :
  put32 (header t o s z ++ rest) off_size_dt_struct (BIG_ENDIAN32 x) = Ok (header t o s x ++ rest).
Proof.
  header_field (be32 FDT_MAGIC ++ be32 t ++ be32 56 ++ be32 o ++ be32 40 ++ be32 17 ++ be32 2 ++ be32 0 ++ be32 s) (be32 z).
Qed.

Lemma header_struct t o s z rest : get32 (header t o s z ++ rest) off_off_dt_struct = Ok (le_combine (be32 56)).
Proof. unfold header. erewrite (get_at _ (be32 FDT_MAGIC ++ be32 t) (be32 56)); [done|by rewrite <- !app_assoc|done|done]. Qed.

Lemma header_off_strings t o s z rest : get32 (header t o s z ++ rest) off_off_dt_strings = Ok (le_combine (be32 o)).
Proof.
  unfold header. erewrite (get_at _ (be32 FDT_MAGIC ++ be32 t ++ be32 56) (be32 o)); [done|by rewrite <- !app_assoc|done|done].
Qed.

Lemma header_length t o s z : length (header t o s z) = 56%nat.
Proof. done. Qed.

(** The words [fdt_build_init] writes over zeros. *)
Lemma init_header :
  (buf ← put32 (zeros 56) off_magic (BIG_ENDIAN32 FDT_MAGIC);
   buf ← put32 buf off_version (BIG_ENDIAN32 17);
   buf ← put32 buf off_last_comp_version (BIG_ENDIAN32 2);
   buf ← put32 buf off_off_mem_rsvmap (BIG_ENDIAN32 40);
   put32 buf off_off_dt_struct (BIG_ENDIAN32 56)) = Ok (header 0 0 0 0).
Proof. vm_compute. reflexivity. Qed.

Lemma put_left A B off v A' : put32 A off v = Ok A' → put32 (A ++ B) off v = Ok (A' ++ B).
Proof.
  unfold put32, put. destruct (_ && _) eqn:Hc; [|done]. intros [= <-]. apply andb_true_iff in Hc as [-> Hl%Nat.leb_le].
  rewrite (proj2 (Nat.leb_le _ _)) by (rewrite length_app; lia). cbn [andb].
  rewrite take_app_le, drop_app_le by lia. by rewrite <- !app_assoc.
Qed.

Lemma init_ok malloc n m :
  malloc n = true → malloc m = true → 56 <= n < 2 ^ 30 → 0 <= m < 2 ^ 30 →
  ∃ b, fdt_build_init malloc n m = Ok b ∧ building n m b (header 0 0 0 0) [] [].
Proof.
  intros Hn Hm Hnr Hmr. unfold fdt_build_init. rewrite Hn, Hm. cbn [ASSERT mbind outcome_bind].
  change (ALIGN32 sizeof_header 4) with 40. change (ALIGN32 (w32 (40 + 16)) 4) with 56.
  replace (replicate (Z.to_nat n) 0) with (zeros 56 ++ zeros (Z.to_nat (n - 56)))
    by (rewrite <- zeros_app; unfold zeros; f_equal; lia).
  pose proof init_header as Hi.
  apply bind_Ok in Hi as (b1 & H1 & Hi). rewrite (put_left _ _ _ _ _ H1). cbn [mbind outcome_bind].
  apply bind_Ok in Hi as (b2 & H2 & Hi). rewrite (put_left _ _ _ _ _ H2). cbn [mbind outcome_bind].
  apply bind_Ok in Hi as (b3 & H3 & Hi). rewrite (put_left _ _ _ _ _ H3). cbn [mbind outcome_bind].
  apply bind_Ok in Hi as (b4 & H4 & H5). rewrite (put_left _ _ _ _ _ H4). cbn [mbind outcome_bind].
  rewrite (put_left _ _ _ _ _ H5). cbn [mbind outcome_bind]. eexists. split; [done|].
  split; cbn [buffer buffer_size buffer_iptr string_buffer string_buffer_size string_buffer_iptr].
  - done.
  - by eexists.
  - rewrite strlen_app, strlen_zeros, w32_small by (unfold word32; lia). change (strlen (header 0 0 0 0)) with 56. lia.
  - done.
  - by exists (Z.to_nat m).
  - unfold strlen. rewrite length_replicate, w32_small by (unfold word32; lia). lia.
  - done.
  - rewrite strlen_app, strlen_zeros. change (strlen (header 0 0 0 0)) with 56. lia.
  - unfold strlen. rewrite length_replicate. lia.
  - apply w32_small. unfold word32. lia.
  - apply w32_small. unfold word32. lia.
Qed.

(** The finished blob: its header, the tokens and the end token, the names, and what follows. *)
Definition finished (S T tl : list Z) : list Z :=
  header (60 + strlen S + strlen T) (60 + strlen S) (strlen T) (4 + strlen S) ++ (S ++ be32 FDT_END) ++ T ++ tl.

Lemma end_ok n m b S T :
  building n m b (header 0 0 0 0) S T → 60 + strlen S + strlen T <= n →
  ∃ b' tl, fdt_end b = Ok b' ∧ buffer b' = finished S T tl ∧ buffer_iptr b' = 60 + strlen S + strlen T.
Proof.
  intros Hb Hroom. pose proof (strlen_nonneg S). pose proof (strlen_nonneg T). unfold fdt_end.
  destruct (one_token_ok n m FDT_END b _ S T Hb) as (b1 & -> & Hb1).
  { rewrite (bd_iptr _ _ _ _ _ _ Hb), (bd_n _ _ _ _ _ _ Hb). lia. }
  cbn [mbind outcome_bind]. destruct (building_room _ _ _ _ _ _ Hb1) as (k & Hk & Hav & Hpos & Hend).
  pose proof Hb1 as [_ _ Hs Hi [j Hj] Hss Hsi Hsm Hssm Hn Hm]. rewrite strlen_app, strlen_be32 in Hi.
  rewrite Hk, <- app_assoc, header_strings. cbn [mbind outcome_bind]. rewrite header_size_strings. cbn [mbind outcome_bind].
  rewrite header_struct. cbn [mbind outcome_bind]. rewrite be32_read by done. rewrite header_size_struct. cbn [mbind outcome_bind].
  rewrite header_totalsize. cbn [mbind outcome_bind]. rewrite Hav, Hsi, (proj2 (Z.leb_le _ _)) by lia.
  cbn [ASSERT mbind outcome_bind]. rewrite Hj.
  replace (Z.to_nat (strlen T)) with (length T) by (unfold strlen; lia). rewrite take_app_length.
  rewrite Hi, !w32_small by (unfold word32; lia). set (h := header _ _ _ _).
  rewrite (app_assoc h). replace (56 + (strlen S + 4)) with (strlen (h ++ S ++ be32 FDT_END))
    by (rewrite !strlen_app, strlen_be32; subst h; change (strlen (header _ _ _ _)) with 56; lia).
  rewrite put_zeros by (unfold strlen in *; lia). cbn [mbind outcome_bind].
  eexists _, (zeros (k - length T)). split; [done|]. cbn [with_buffer buffer buffer_iptr]. split.
  - unfold finished. rewrite <- app_assoc. f_equal. subst h. f_equal; lia.
  - rewrite Hi, w32_small by (unfold word32; lia). lia.
Qed.

(** ** What the scanner finds *)

(** The properties of a sequence of calls, each with the node begun last. *)
Fixpoint seen (node : option (list Z)) (ops : list op) : list (option (list Z) * list Z * Z * list Z) :=
  match ops with
  | [] => []
  | OBegin name :: ops => seen (Some name) ops
  | OProp name value :: ops => (node, name, strlen value, value) :: seen node ops
  | _ :: ops => seen node ops
  end.

(** A line of the scanner with the bytes it points to. *)
Definition shows (dtb : list Z) (l : line) : option (list Z) * list Z * Z * list Z :=
  (node_name l, node_prop_name l, node_prop_length l,
   take (Z.to_nat (node_prop_length l)) (drop (Z.to_nat (node_prop_value l)) dtb)).

(** Names are C strings. *)
Definition op_named (o : op) : Prop :=
  match o with OBegin name | OProp name _ => Forall (λ c, c ≠ 0) name | _ => True end.

Lemma ops_bytes_app so ops1 ops2 :
  ops_bytes so (ops1 ++ ops2) = ops_bytes so ops1 ++ ops_bytes (so + strlen (ops_names ops1)) ops2.
Proof.
  revert so. induction ops1 as [|o ops1 IH]; intros so; cbn [app ops_bytes].
  - unfold ops_names. cbn [fmap list_fmap concat]. change (strlen []) with 0. by rewrite Z.add_0_r.
  - rewrite IH, <- app_assoc. unfold ops_names. cbn [fmap list_fmap concat]. rewrite strlen_app. do 2 f_equal. f_equal. lia.
Qed.

Lemma ops_names_app ops1 ops2 : ops_names (ops1 ++ ops2) = ops_names ops1 ++ ops_names ops2.
Proof. unfold ops_names. by rewrite fmap_app, concat_app. Qed.

Lemma align4_mod x : align4 x mod 4 = 0.
Proof. unfold align4. lia_div. Qed.

Lemma align4_shift p x : p mod 4 = 0 → align4 (p + x) = p + align4 x.
Proof. unfold align4. intros. lia_div. Qed.

Lemma op_bytes_mod so o : strlen (op_bytes so o) mod 4 = 0.
Proof.
  destruct o as [name|name value| |]; cbn [op_bytes]; rewrite ?strlen_app, ?strlen_be32, ?pad4_length; try done.
  - pose proof (align4_mod (strlen (name ++ [0]))). lia_div.
  - pose proof (align4_mod (strlen value)). lia_div.
Qed.

Lemma ops_bytes_mod so ops : strlen (ops_bytes so ops) mod 4 = 0.
Proof.
  revert so. induction ops as [|o ops IH]; intros so; [done|]. cbn [ops_bytes]. rewrite strlen_app.
  pose proof (op_bytes_mod so o). specialize (IH (so + strlen (op_name o))). lia_div.
Qed.

Lemma ops_count so ops : 4 * Z.of_nat (length ops) <= strlen (ops_bytes so ops).
Proof.
  revert so. induction ops as [|o ops IH]; intros so; [done|]. cbn [ops_bytes length]. rewrite strlen_app.
  specialize (IH (so + strlen (op_name o))). enough (4 <= strlen (op_bytes so o)) by lia.
  destruct o; cbn [op_bytes]; rewrite ?strlen_app, ?strlen_be32; unfold strlen; lia.
Qed.

(** Reading a string that lies at [off]. *)
Lemma string_at_ok buf A s C off :
  buf = A ++ s ++ 0 :: C → off = strlen A → Forall (λ c, c ≠ 0) s → string_at buf off = Ok s.
Proof.
  intros -> -> Hs. unfold string_at, strlen. rewrite (proj2 (Z.leb_le 0 _)), Nat2Z.id, drop_app_length by lia.
  rewrite bool_decide_eq_true_2 by set_solver. cbn [andb]. by rewrite upto_nul_app.
Qed.

Section layout.
Context (ops : list op) (tl : list Z).
Let S := ops_bytes 0 ops.
Let T := ops_names ops.
Let hdr := header (60 + strlen S + strlen T) (60 + strlen S) (strlen T) (4 + strlen S).
Let dtb := finished S T tl.
Context (Hnamed : Forall op_named ops).

Lemma dtb_eq : dtb = hdr ++ (S ++ be32 FDT_END) ++ T ++ tl.
Proof. done. Qed.

(** Where the bytes and the name of a call lie. *)
Lemma tokens_split ops1 o ops2 :
  ops = ops1 ++ o :: ops2 → ∃ R, S = ops_bytes 0 ops1 ++ op_bytes (strlen (ops_names ops1)) o ++ R.
Proof. intros Heq. eexists. unfold S. rewrite Heq, ops_bytes_app, Z.add_0_l. by cbn [ops_bytes]. Qed.

Lemma names_split ops1 name value ops2 :
  ops = ops1 ++ OProp name value :: ops2 → ∃ R, T = ops_names ops1 ++ name ++ 0 :: R.
Proof.
  intros Heq. exists (ops_names ops2). unfold T. rewrite Heq, ops_names_app. f_equal. unfold ops_names.
  cbn [fmap list_fmap concat op_name]. by rewrite <- app_assoc.
Qed.

Lemma layout_bytes ops1 o ops2 :
  ops = ops1 ++ o :: ops2 →
  ∃ R, dtb = (hdr ++ ops_bytes 0 ops1) ++ op_bytes (strlen (ops_names ops1)) o ++ R.
Proof.
  intros [R HR]%tokens_split. exists ((R ++ be32 FDT_END) ++ T ++ tl). rewrite dtb_eq.
  clearbody hdr T. rewrite HR. by rewrite <- !app_assoc.
Qed.

Lemma layout_name ops1 name value ops2 :
  ops = ops1 ++ OProp name value :: ops2 →
  ∃ R, dtb = (hdr ++ S ++ be32 FDT_END ++ ops_names ops1) ++ name ++ 0 :: R.
Proof.
  intros [R HR]%names_split. exists (R ++ tl). rewrite dtb_eq. clearbody hdr S. rewrite HR. rewrite <- !app_assoc. done.
Qed.

Lemma hdr_strlen : strlen hdr = 56.
Proof. done. Qed.

Lemma name_bound ops1 name value ops2 :
  ops = ops1 ++ OProp name value :: ops2 → 0 <= strlen (ops_names ops1) <= strlen T.
Proof. intros [R ->]%names_split. rewrite strlen_app. unfold strlen. lia. Qed.

Lemma value_bound ops1 name value ops2 : ops = ops1 ++ OProp name value :: ops2 → strlen value <= strlen S.
Proof.
  intros [R ->]%tokens_split. cbn [op_bytes]. rewrite !strlen_app, pad4_length.
  pose proof (align4_le (strlen value)). unfold strlen in *. lia.
Qed.

(** The words of a property, its name and its value. *)
Lemma layout_prop ops1 name value ops2 :
  ops = ops1 ++ OProp name value :: ops2 →
  let p := 56 + strlen (ops_bytes 0 ops1) in
  get32 dtb p = Ok (le_combine (be32 FDT_PROP)) ∧ get32 dtb (p + 4) = Ok (le_combine (be32 (strlen value))) ∧
  get32 dtb (p + 8) = Ok (le_combine (be32 (strlen (ops_names ops1)))) ∧
  string_at dtb (60 + strlen S + strlen (ops_names ops1)) = Ok name ∧
  take (length value) (drop (Z.to_nat (p + 12)) dtb) = value.
Proof.
  intros Heq p. destruct (layout_bytes _ _ _ Heq) as [R HR]. destruct (layout_name _ _ _ _ Heq) as [R2 HR2].
  set (so := strlen (ops_names ops1)) in *. cbn [op_bytes] in HR.
  assert (strlen (hdr ++ ops_bytes 0 ops1) = p) as Hp by (by rewrite strlen_app, hdr_strlen).
  set (A := hdr ++ ops_bytes 0 ops1) in *. clearbody p A dtb. split_and!.
  - eapply (get_at _ A (be32 FDT_PROP)); [rewrite HR, <- !app_assoc; reflexivity|by rewrite Hp|apply be32_length].
  - eapply (get_at _ (A ++ be32 FDT_PROP)); [rewrite HR, <- !app_assoc; reflexivity| |apply be32_length].
    rewrite strlen_app, strlen_be32. lia.
  - eapply (get_at _ (A ++ be32 FDT_PROP ++ be32 (strlen value))); [rewrite HR, <- !app_assoc; reflexivity| |apply be32_length].
    rewrite !strlen_app, !strlen_be32. lia.
  - eapply string_at_ok; [exact HR2| |].
    + rewrite !strlen_app, strlen_be32, hdr_strlen. subst so. lia.
    + rewrite Forall_forall in Hnamed. apply (Hnamed (OProp name value)). rewrite Heq. set_solver.
  - replace (Z.to_nat (p + 12)) with (length (A ++ be32 FDT_PROP ++ be32 (strlen value) ++ be32 so)).
    + rewrite HR. unfold pad4.
      assert (∀ a b c d e f g : list Z, a ++ (b ++ c ++ d ++ e ++ f) ++ g = (a ++ b ++ c ++ d) ++ e ++ f ++ g) as ->
        by (intros; by rewrite <- !app_assoc).
      by rewrite drop_app_length, take_app_length.
    + rewrite !length_app, !be32_length. unfold strlen in Hp. lia.
Qed.

Lemma layout_begin ops1 name ops2 :
  ops = ops1 ++ OBegin name :: ops2 →
  let p := 56 + strlen (ops_bytes 0 ops1) in
  get32 dtb p = Ok (le_combine (be32 FDT_BEGIN_NODE)) ∧ string_at dtb (p + 4) = Ok name.
Proof.
  intros Heq p. destruct (layout_bytes _ _ _ Heq) as [R HR]. cbn [op_bytes] in HR.
  assert (strlen (hdr ++ ops_bytes 0 ops1) = p) as Hp by (by rewrite strlen_app, hdr_strlen).
  set (A := hdr ++ ops_bytes 0 ops1) in *. clearbody p A dtb. split.
  - eapply (get_at _ A (be32 FDT_BEGIN_NODE)); [rewrite HR, <- !app_assoc; reflexivity|by rewrite Hp|apply be32_length].
  - eapply (string_at_ok _ (A ++ be32 FDT_BEGIN_NODE) name).
    + rewrite HR. unfold pad4. rewrite <- !app_assoc. reflexivity.
    + rewrite strlen_app, strlen_be32. lia.
    + rewrite Forall_forall in Hnamed. apply (Hnamed (OBegin name)). rewrite Heq. set_solver.
Qed.

(** The words of [fdt_end_node] and [fdt_nop], and the last one. *)
Lemma layout_token ops1 o ops2 token :
  ops = ops1 ++ o :: ops2 → op_bytes (strlen (ops_names ops1)) o = be32 token →
  get32 dtb (56 + strlen (ops_bytes 0 ops1)) = Ok (le_combine (be32 token)).
Proof.
  intros Heq Ho. destruct (layout_bytes _ _ _ Heq) as [R HR]. rewrite Ho in HR.
  apply (get_at _ _ _ _ _ HR); [by rewrite strlen_app, hdr_strlen|apply be32_length].
Qed.

Lemma layout_end : get32 dtb (56 + strlen S) = Ok (le_combine (be32 FDT_END)).
Proof.
  apply (get_at _ (hdr ++ S) _ (T ++ tl)); [|by rewrite strlen_app, hdr_strlen|apply be32_length].
  rewrite dtb_eq. by rewrite <- !app_assoc.
Qed.

Lemma layout_strings : get32 dtb off_off_dt_strings = Ok (le_combine (be32 (60 + strlen S))).
Proof. apply header_off_strings. Qed.

End layout.

Lemma sint_small v : 0 <= v < 2 ^ 30 → sint 32 v = v.
Proof. intros. apply sint_unique; [lia|lia|done]. Qed.

(** The step of the position over a call. *)
Lemma position_step ops1 o :
  56 + strlen (ops_bytes 0 (ops1 ++ [o])) = 56 + strlen (ops_bytes 0 ops1) + strlen (op_bytes (strlen (ops_names ops1)) o).
Proof. rewrite ops_bytes_app. cbn [ops_bytes]. rewrite app_nil_r, strlen_app, Z.add_0_l. lia. Qed.

Lemma position_mod ops1 : (56 + strlen (ops_bytes 0 ops1)) mod 4 = 0.
Proof. pose proof (ops_bytes_mod 0 ops1). lia_div. Qed.

Lemma begin_step p name so :
  p mod 4 = 0 → ALIGNADDR (p + 4 + strlen name + 1) 4 = p + strlen (op_bytes so (OBegin name)).
Proof.
  intros Hp. rewrite ALIGNADDR_spec. replace (p + 4 + strlen name + 1) with ((p + 4) + (strlen name + 1)) by lia.
  rewrite align4_shift by lia_div. cbn [op_bytes]. rewrite strlen_app, strlen_be32, pad4_length, strlen_app.
  change (strlen [0]) with 1. lia.
Qed.

Lemma prop_step p name value so :
  p mod 4 = 0 → ALIGNADDR (p + 4 + sizeof_property + strlen value) 4 = p + strlen (op_bytes so (OProp name value)).
Proof.
  intros Hp. rewrite ALIGNADDR_spec. unfold sizeof_property.
  replace (p + 4 + 8 + strlen value) with (p + 12 + strlen value) by lia.
  rewrite align4_shift by lia_div. cbn [op_bytes]. rewrite !strlen_app, !strlen_be32, pad4_length. lia.
Qed.

(** The first word of a round, and the round over a property. *)
Lemma token_word fuel dtb ptr node token :
  word32 token → get32 dtb ptr = Ok (le_combine (be32 token)) →
  token_loop (S fuel) dtb ptr node =
    (if token =? FDT_BEGIN_NODE then
        name ← string_at dtb (ptr + 4);
        token_loop fuel dtb (ALIGNADDR (ptr + 4 + strlen name + 1) 4) (Some name)
      else if token =? FDT_PROP then
        len ← get32 dtb (ptr + 4);
        off_strings ← get32 dtb off_off_dt_strings;
        nameoff ← get32 dtb (ptr + 4 + 4);
        name ← string_at dtb (LITTLE_ENDIAN32 off_strings + LITTLE_ENDIAN32 nameoff);
        rest ← token_loop fuel dtb (ALIGNADDR (ptr + 4 + sizeof_property + sint 32 (LITTLE_ENDIAN32 len)) 4) node;
        Ok (mk_line node name (sint 32 (LITTLE_ENDIAN32 len)) (ptr + 4 + sizeof_property) :: rest)
      else if (token =? FDT_NOP) || (token =? FDT_END_NODE) then token_loop fuel dtb (ptr + 4) node
      else if token =? FDT_END then Ok []
      else not_reach).
Proof.
  intros Ht Hg. cbn [token_loop]. rewrite Hg. cbn [mbind outcome_bind].
  cbv zeta. rewrite (be32_read token Ht). reflexivity.
Qed.

Lemma scan_prop_words fuel dtb p node name value so os :
  p mod 4 = 0 → 0 <= strlen value < 2 ^ 30 → word32 so → word32 os →
  get32 dtb p = Ok (le_combine (be32 FDT_PROP)) → get32 dtb (p + 4) = Ok (le_combine (be32 (strlen value))) →
  get32 dtb (p + 8) = Ok (le_combine (be32 so)) → get32 dtb off_off_dt_strings = Ok (le_combine (be32 os)) →
  string_at dtb (os + so) = Ok name →
  token_loop (S fuel) dtb p node =
    (rest ← token_loop fuel dtb (p + strlen (op_bytes so (OProp name value))) node;
     Ok (mk_line node name (strlen value) (p + 12) :: rest)).
Proof.
  intros Hp Hv Hso Hos H1 H2 H3 H4 H5. rewrite (token_word _ _ _ _ FDT_PROP) by done.
  rewrite (eq_refl : (FDT_PROP =? FDT_BEGIN_NODE) = false), (eq_refl : (FDT_PROP =? FDT_PROP) = true).
    rewrite (bind_step _ _ _ H2). rewrite (bind_step _ _ _ H4).
  replace (p + 4 + 4) with (p + 8) by lia. rewrite (bind_step _ _ _ H3).
  rewrite !be32_read by (done || unfold word32; lia). rewrite (bind_step _ _ _ H5).
  rewrite sint_small by lia. rewrite (prop_step p name value so) by done.
  unfold sizeof_property. by replace (p + 4 + 8) with (p + 12) by lia.
Qed.

Section scan.
Context (ops : list op) (tl : list Z) (Hnamed : Forall op_named ops).
Context (Hsmall : 60 + strlen (ops_bytes 0 ops) + strlen (ops_names ops) < 2 ^ 30).

Lemma scan_prop dtb ops1 name value ops2 node fuel :
  dtb = finished (ops_bytes 0 ops) (ops_names ops) tl → ops = ops1 ++ OProp name value :: ops2 →
  token_loop (S fuel) dtb (56 + strlen (ops_bytes 0 ops1)) node =
    (rest ← token_loop fuel dtb (56 + strlen (ops_bytes 0 (ops1 ++ [OProp name value]))) node;
     Ok (mk_line node name (strlen value) (56 + strlen (ops_bytes 0 ops1) + 12) :: rest)).
Proof.
  intros Hd Heq. destruct (layout_prop ops tl Hnamed _ _ _ _ Heq) as (H1 & H2 & H3 & H4 & _).
  pose proof (value_bound ops tl _ _ _ _ Heq). pose proof (name_bound ops tl _ _ _ _ Heq) as Hso.
  pose proof (layout_strings ops tl) as H5. rewrite <- Hd in H1, H2, H3, H4, H5.
  pose proof (strlen_nonneg value). pose proof (strlen_nonneg (ops_bytes 0 ops)). rewrite position_step.
  eapply scan_prop_words; try eassumption; [apply position_mod|lia|unfold word32; lia..].
Qed.

Lemma scan_begin dtb ops1 name ops2 node fuel :
  dtb = finished (ops_bytes 0 ops) (ops_names ops) tl → ops = ops1 ++ OBegin name :: ops2 →
  token_loop (S fuel) dtb (56 + strlen (ops_bytes 0 ops1)) node =
    token_loop fuel dtb (56 + strlen (ops_bytes 0 (ops1 ++ [OBegin name]))) (Some name).
Proof.
  intros Hd Heq. destruct (layout_begin ops tl Hnamed _ _ _ Heq) as (H1 & H2). rewrite <- Hd in H1, H2. clear Hd.
  cbn [token_loop]. rewrite H1. cbn [mbind outcome_bind]. rewrite be32_read by done.
  change (FDT_BEGIN_NODE =? FDT_BEGIN_NODE) with true. cbn iota. rewrite H2. cbn [mbind outcome_bind].
  rewrite (begin_step _ name (strlen (ops_names ops1))) by apply position_mod. by rewrite position_step.
Qed.

Lemma scan_token dtb ops1 o ops2 token node fuel :
  dtb = finished (ops_bytes 0 ops) (ops_names ops) tl → ops = ops1 ++ o :: ops2 →
  op_bytes (strlen (ops_names ops1)) o = be32 token → token = FDT_NOP ∨ token = FDT_END_NODE →
  token_loop (S fuel) dtb (56 + strlen (ops_bytes 0 ops1)) node =
    token_loop fuel dtb (56 + strlen (ops_bytes 0 (ops1 ++ [o]))) node.
Proof.
  intros Hd Heq Ho Ht. pose proof (layout_token ops tl _ _ _ _ Heq Ho) as H1. rewrite <- Hd in H1. clear Hd.
  rewrite position_step, Ho, strlen_be32. cbn [token_loop]. rewrite H1. cbn [mbind outcome_bind].
  destruct Ht as [-> | ->]; by rewrite be32_read.
Qed.

Lemma token_loop_ok dtb ops2 ops1 node fuel :
  dtb = finished (ops_bytes 0 ops) (ops_names ops) tl → ops = ops1 ++ ops2 → (length ops2 < fuel)%nat →
  ∃ ls, token_loop fuel dtb (56 + strlen (ops_bytes 0 ops1)) node = Ok ls ∧ shows dtb <$> ls = seen node ops2.
Proof.
  intros Hd. revert ops1 node fuel.
  induction ops2 as [|o ops2 IH]; intros ops1 node fuel Heq Hf; (destruct fuel as [|fuel]; [simpl in Hf; lia|]); simpl in Hf.
  - rewrite app_nil_r in Heq. rewrite <- Heq. pose proof (layout_end ops tl) as H1. rewrite <- Hd in H1.
    cbn [token_loop]. rewrite H1. cbn [mbind outcome_bind]. rewrite be32_read by done. by exists [].
  - specialize (IH (ops1 ++ [o])). rewrite <- app_assoc in IH. destruct o as [name|name value| |].
    + rewrite (scan_begin dtb _ _ _ _ _ Hd Heq). apply IH; [done|lia].
    + rewrite (scan_prop dtb _ _ _ _ _ _ Hd Heq). destruct (IH node fuel Heq) as (ls & -> & Hsh); [lia|].
      cbn [mbind outcome_bind]. eexists. split; [done|]. cbn [fmap list_fmap seen]. rewrite Hsh. f_equal.
      unfold shows. cbn [node_name node_prop_name node_prop_length node_prop_value]. f_equal.
      replace (Z.to_nat (strlen value)) with (length value) by (unfold strlen; lia). rewrite Hd.
      by destruct (layout_prop ops tl Hnamed _ _ _ _ Heq) as (_ & _ & _ & _ & ->).
    + rewrite (scan_token dtb _ _ _ FDT_END_NODE _ _ Hd Heq) by (done || by right). apply IH; [done|lia].
    + rewrite (scan_token dtb _ _ _ FDT_NOP _ _ Hd Heq) by (done || by left). apply IH; [done|lia].
Qed.

End scan.

(** ** Round trip *)

(** The blob of a sequence of calls. *)
Definition build (malloc : Z → bool) (n m : Z) (ops : list op) : outcome fdt_build_blob :=
  b ← fdt_build_init malloc n m; b ← run ops b; fdt_end b.

Lemma build_ok malloc n m ops :
  malloc n = true → malloc m = true → n < 2 ^ 30 → m < 2 ^ 30 →
  60 + strlen (ops_bytes 0 ops) + strlen (ops_names ops) <= n → strlen (ops_names ops) < m →
  ∃ b tl, build malloc n m ops = Ok b ∧ buffer b = finished (ops_bytes 0 ops) (ops_names ops) tl ∧
    buffer_iptr b = 60 + strlen (ops_bytes 0 ops) + strlen (ops_names ops).
Proof.
  intros Hn Hm Hn30 Hm30 Hfit Hsfit. pose proof (strlen_nonneg (ops_bytes 0 ops)). pose proof (strlen_nonneg (ops_names ops)).
  destruct (init_ok malloc n m Hn Hm) as (b0 & Hi & Hb0); [lia..|]. unfold build. rewrite (bind_step _ _ _ Hi).
  destruct (ops_ok n m ops b0 _ [] [] Hb0) as (b1 & Hr & Hb1); change (strlen []) with 0; [lia..|].
  rewrite (bind_step _ _ _ Hr). change (strlen []) with 0 in Hb1. cbn [app] in Hb1. by apply (end_ok n m b1).
Qed.

Lemma scan_ok ops tl :
  Forall op_named ops → 60 + strlen (ops_bytes 0 ops) + strlen (ops_names ops) < 2 ^ 30 →
  let dtb := finished (ops_bytes 0 ops) (ops_names ops) tl in
  ∃ ls, scan_fdt_tokens dtb = Ok ls ∧ shows dtb <$> ls = seen None ops.
Proof.
  intros Hnamed Hsmall dtb. unfold scan_fdt_tokens.
  assert (get32 dtb off_off_dt_struct = Ok (le_combine (be32 56))) as Hs by apply header_struct. rewrite (bind_step _ _ _ Hs).
  rewrite be32_read by done. apply (token_loop_ok ops tl Hnamed Hsmall dtb ops [] None (length dtb)); [done|done|].
  pose proof (ops_count 0 ops). assert (strlen (ops_bytes 0 ops) < strlen dtb) as Hl; [|unfold strlen in *; lia].
  subst dtb. unfold finished. rewrite !strlen_app, strlen_be32. unfold strlen. lia.
Qed.

(** ** The format

    The blob as the devicetree format lays it out, written from the specification:
    big-endian words, a header of ten of them, an empty reservation block, the
    structure block with its end token, the strings block. *)
Definition word (v : Z) : list Z := [(v / 2 ^ 24) mod 256; (v / 2 ^ 16) mod 256; (v / 2 ^ 8) mod 256; v mod 256].

Fixpoint structure (nameoff : Z) (ops : list op) : list Z :=
  match ops with
  | [] => word 9
  | OBegin name :: ops => word 1 ++ pad4 (name ++ [0]) ++ structure nameoff ops
  | OProp name value :: ops =>
      word 3 ++ word (strlen value) ++ word nameoff ++ pad4 value ++ structure (nameoff + strlen name + 1) ops
  | OEnd :: ops => word 2 ++ structure nameoff ops
  | ONop :: ops => word 4 ++ structure nameoff ops
  end.

Definition devicetree (ops : list op) : list Z :=
  let st := structure 0 ops in
  let names := ops_names ops in
  word 0xd00dfeed ++ word (56 + strlen st + strlen names) ++ word 56 ++ word (56 + strlen st) ++ word 40 ++
  word 17 ++ word 2 ++ word 0 ++ word (strlen names) ++ word (strlen st) ++ zeros 16 ++ st ++ names.

Lemma be32_word v : be32 v = word v.
Proof.
  unfold be32, BIG_ENDIAN32, word. rewrite swap_value. cbn [le_split].
  assert (∀ x, 0 <= x mod 256 < 256) as Hb by (intros; apply Z.mod_pos_bound; lia).
  pose proof (Hb (v / 2 ^ 24)) as H3. pose proof (Hb (v / 2 ^ 16)) as H2. pose proof (Hb (v / 2 ^ 8)) as H1. pose proof (Hb v) as H0.
  set (b3 := (v / 2 ^ 24) mod 256) in *. set (b2 := (v / 2 ^ 16) mod 256) in *. set (b1 := (v / 2 ^ 8) mod 256) in *.
  set (b0 := v mod 256) in *. clearbody b0 b1 b2 b3. rewrite !Z.div_div by lia. repeat f_equal; lia_div.
Qed.

Lemma structure_bytes so ops : structure so ops = ops_bytes so ops ++ be32 FDT_END.
Proof.
  revert so. induction ops as [|o ops IH]; intros so; cbn [structure ops_bytes]; [by rewrite be32_word|].
  destruct o; cbn [op_bytes op_name]; rewrite IH, <- ?be32_word, <- ?app_assoc, ?strlen_app, ?Z.add_assoc, ?Z.add_0_r; done.
Qed.

Lemma finished_devicetree ops tl : finished (ops_bytes 0 ops) (ops_names ops) tl = devicetree ops ++ tl.
Proof.
  unfold finished, devicetree, header. rewrite structure_bytes, strlen_app, strlen_be32, <- !be32_word, <- !app_assoc.
  replace (56 + (strlen (ops_bytes 0 ops) + 4)) with (60 + strlen (ops_bytes 0 ops)) by lia.
  by rewrite (Z.add_comm 4).
Qed.

(** C38: when the device tree of the calls [ops] fits the buffers (of less than
    1 GB, names without NULs), [fdt_build_init], the calls and [fdt_end] succeed; the
    used part of the buffer is byte for byte the blob of the devicetree format: the
    header with magic 0xd00dfeed, version 17 (compatible down to 2), sizes and
    offsets, an empty reservation block, the tokens, the property names; and
    [scan_fdt_tokens] reads back every property in order: the node begun last, the
    name, the length and the value. *)
Theorem fdt_roundtrip malloc n m ops :
  malloc n = true → malloc m = true → n < 2 ^ 30 → m < 2 ^ 30 → Forall op_named ops →
  strlen (devicetree ops) <= n → strlen (ops_names ops) < m →
  ∃ b ls, build malloc n m ops = Ok b ∧ scan_fdt_tokens (buffer b) = Ok ls ∧
    shows (buffer b) <$> ls = seen None ops ∧
    buffer_iptr b = strlen (devicetree ops) ∧ take (Z.to_nat (buffer_iptr b)) (buffer b) = devicetree ops.
Proof.
  intros Hn Hm Hn30 Hm30 Hnamed Hfit Hsfit.
  assert (strlen (devicetree ops) = 60 + strlen (ops_bytes 0 ops) + strlen (ops_names ops)) as Hl.
  { pose proof (finished_devicetree ops []) as Hd. rewrite app_nil_r in Hd. rewrite <- Hd. unfold finished.
    rewrite !strlen_app, strlen_be32. change (strlen (header _ _ _ _)) with 56. change (strlen []) with 0. lia. }
  rewrite Hl in Hfit. destruct (build_ok malloc n m ops Hn Hm Hn30 Hm30 Hfit Hsfit) as (b & tl & Hb & Hbuf & Hi).
  destruct (scan_ok ops tl Hnamed) as (ls & Hs & Hsh); [lia|]. exists b, ls. rewrite Hi, Hbuf, Hl. split_and!; try done.
  rewrite <- Hl, finished_devicetree. unfold strlen. by rewrite Nat2Z.id, take_app_length.
Qed.

(** The calls of [fdt_test], whose buffers have 8192 and 512 bytes. *)
Definition fdt_test : list op :=
  [ OBegin (chars "");
    OProp (chars "#address-cells") (le_split 4 (BIG_ENDIAN32 2));
    OProp (chars "#size-cells") (le_split 4 (BIG_ENDIAN32 2));
    OProp (chars "compatible") (cstring "riscv-virtio");
    OProp (chars "model") (cstring "riscv-virtio,qemu");
    OBegin (chars "uart@10000000");
    OProp (chars "compatible") (cstring "ns16550a");
    OEnd;
    OEnd ].

(** The test of the source, scanned: five properties, the last one in its node. *)
Lemma fdt_roundtrip_witness :
  ∃ b ls, build (λ _, true) 8192 512 fdt_test = Ok b ∧ scan_fdt_tokens (buffer b) = Ok ls ∧
    shows (buffer b) <$> ls = seen None fdt_test ∧ buffer_iptr b = 267 ∧
    take 24 (buffer b) = [0xd0; 0x0d; 0xfe; 0xed; 0; 0; 1; 11; 0; 0; 0; 56; 0; 0; 0; 212; 0; 0; 0; 40; 0; 0; 0; 17] ∧
    last (shows (buffer b) <$> ls) = Some (Some (chars "uart@10000000"), chars "compatible", 9, cstring "ns16550a").
Proof.
  destruct (fdt_roundtrip (λ _, true) 8192 512 fdt_test) as (b & ls & Hb & Hs & Hsh & Hi & Ht).
  1-4: done.
  - by repeat constructor.
  - by vm_compute.
  - by vm_compute.
  - exists b, ls. rewrite Hsh, Hi. split_and!; [exact Hb|exact Hs|done|vm_compute; reflexivity| |vm_compute; reflexivity].
    apply (f_equal (take 24)) in Ht. rewrite take_take, Hi in Ht. exact Ht.
Defined.

End Fdt.
