(* ===== verification/Board.v ===== *)
(** * The board of the full-system emulator: the device tree of fdt.c and the uart of emulate_uart.c

    The code is switched off in the build and uses fields that vm.h has commented
    out; it is modelled as it stands, the fields as those of [board].

    [fdt_init] builds the tree of the board into the boot rom.  Theorem: for every
    configuration that fits the buffers, scanning the rom gives back the board's
    properties.  With two harts the names do not fit the buffer of 512 bytes.

    The uart collects bytes in a buffer of 1024 and logs it when it is full or a
    line ends.  Theorem: no write leaves the buffer, and what is logged, with what
    is still held, is what was written. *)
From S2P Require Import Prelude Decode Vma Path Debugger Loader Fdt.
Import Decode Vma Path Debugger Fdt.

Module Board.

(** ** [sprintf] of a number: [%x] and [%d] *)
Definition digit_char (d : Z) : Z := if d <? 10 then 48 + d else 87 + d.

Fixpoint number (fuel : nat) (base v : Z) (acc : list Z) : list Z :=
  match fuel with
  | O => acc
  | S fuel =>
      let acc := digit_char (v mod base) :: acc in
      if v / base =? 0 then acc else number fuel base (v / base) acc
  end.

Definition hex (v : Z) : list Z := number 32 16 v [].

Definition dec (v : Z) : list Z := if v <? 0 then 45 :: number 32 10 (- v) [] else number 32 10 v [].

(** ** The node builders of fdt.c *)

(** The fields of [struct virtual_machine] that the builders read; the one hart of
    [hart_by_id]; [ini_get] on the loaded configuration; the size of a host file,
    [None] when it does not open; what [write] returns, call by call; the words on
    the stack where [interrupt_extended] lies. *)
Record board := mk_board {
  main_mem_base : Z;
  main_mem_size : Z;
  nr_harts : Z;
  hart_id : Z;
  ini_get : string → string → option (list Z);
  file_size : list Z → option Z;
  write_results : list Z;
  stack_words : list Z;
  bootrom : list Z
}.

Section nodes.
Context (vm : board).

Definition str_prop (name value : string) : fdt_build_blob → outcome fdt_build_blob :=
  fdt_prop (chars name) (cstring value).

Definition word_prop (name : string) (w : Z) : fdt_build_blob → outcome fdt_build_blob :=
  fdt_prop (chars name) (Loader.words [w]).

Definition begin_named (name : string) : fdt_build_blob → outcome fdt_build_blob := fdt_begin_node (chars name).

Definition build_memory_fdt_node (b : fdt_build_blob) : outcome fdt_build_blob :=
  b ← fdt_begin_node (chars "memory@" ++ hex (w32 (main_mem_base vm))) b;
  b ← str_prop "device_type" "memory" b;
  let regs := [0; BIG_ENDIAN32 (main_mem_base vm); 0; BIG_ENDIAN32 (main_mem_size vm)] in
  b ← fdt_prop (chars "reg") (Loader.words regs) b;
  fdt_end_node b.

Definition build_bootrom_fdt_node (b : fdt_build_blob) : outcome fdt_build_blob :=
  ASSERT (bool_decide (is_Some (ini_get vm "rom" "rom_start")));;
  ASSERT (bool_decide (is_Some (ini_get vm "rom" "rom_size")));;
  rom_start_string ← deref (ini_get vm "rom" "rom_start");
  rom_size_string ← deref (ini_get vm "rom" "rom_size");
  let rom_start := w32 (strtol 16 rom_start_string) in
  let rom_size := w32 (strtol 16 rom_size_string) in
  b ← fdt_begin_node (chars "bootrom@" ++ hex rom_start) b;
  b ← str_prop "device_type" "bootrom" b;
  b ← str_prop "compatible" "zelda 16MB flash" b;
  let regs := [0; BIG_ENDIAN32 rom_start; 0; BIG_ENDIAN32 rom_size] in
  b ← fdt_prop (chars "reg") (Loader.words regs) b;
  fdt_end_node b.

Definition with_harts (b : fdt_build_blob) (hs : list Z) : fdt_build_blob :=
  mk_blob (buffer b) (buffer_size b) (buffer_iptr b) (string_buffer b) (string_buffer_size b) (string_buffer_iptr b)
    hs (hart_interrupt_controllers_phandles b) (phandle_generator b).

Definition with_controllers (b : fdt_build_blob) (hs : list Z) : fdt_build_blob :=
  mk_blob (buffer b) (buffer_size b) (buffer_iptr b) (string_buffer b) (string_buffer_size b) (string_buffer_iptr b)
    (harts_phandles b) hs (phandle_generator b).

(** The two loops over the harts; [n] harts are left, [idx] is the next one. *)
Fixpoint core_loop (n : nat) (idx : Z) (b : fdt_build_blob) : outcome fdt_build_blob :=
  match n with
  | O => Ok b
  | S n =>
      b ← fdt_begin_node (chars "core" ++ dec (hart_id vm)) b;
      let '(phandle, b) := generate_phandle b in
      hs ← deref (zset (harts_phandles b) idx phandle);
      let b := with_harts b hs in
      cpu_phandle ← deref (zget (harts_phandles b) idx);
      b ← word_prop "cpu" (BIG_ENDIAN32 cpu_phandle) b;
      b ← fdt_end_node b;
      core_loop n (idx + 1) b
  end.

Fixpoint cpu_loop (n : nat) (idx : Z) (b : fdt_build_blob) : outcome fdt_build_blob :=
  match n with
  | O => Ok b
  | S n =>
      b ← fdt_begin_node (chars "cpu@" ++ dec (hart_id vm)) b;
      cpu_phandle ← deref (zget (harts_phandles b) idx);
      b ← word_prop "phandle" (BIG_ENDIAN32 cpu_phandle) b;
      b ← str_prop "device_type" "cpu" b;
      b ← str_prop "status" "okay" b;
      b ← str_prop "compatible" "riscv" b;
      b ← str_prop "riscv,isa" "rv32ima" b;
      b ← str_prop "mmu-type" "riscv,sv32" b;
      b ← word_prop "reg" (BIG_ENDIAN32 (hart_id vm)) b;
      b ← begin_named "interrupt-controller" b;
      b ← word_prop "#interrupt-cells" (BIG_ENDIAN32 1) b;
      b ← fdt_prop (chars "interrupt-controller") [] b;
      let '(phandle, b) := generate_phandle b in
      hs ← deref (zset (hart_interrupt_controllers_phandles b) idx phandle);
      let b := with_controllers b hs in
      controller ← deref (zget (hart_interrupt_controllers_phandles b) idx);
      b ← word_prop "phandle" (BIG_ENDIAN32 controller) b;
      b ← str_prop "compatible" "riscv,cpu-intc" b;
      b ← fdt_end_node b;
      b ← fdt_end_node b;
      cpu_loop n (idx + 1) b
  end.

Definition build_cpu_fdt_node (b : fdt_build_blob) : outcome fdt_build_blob :=
  b ← begin_named "cpus" b;
  b ← word_prop "#address-cells" (BIG_ENDIAN32 1) b;
  b ← word_prop "#size_cells" 0 b;
  b ← word_prop "timebase-frequency" (BIG_ENDIAN32 0x989680) b;
  b ← begin_named "cpu-map" b;
  b ← begin_named "cluster0" b;
  b ← core_loop (Z.to_nat (nr_harts vm)) 0 b;
  b ← fdt_end_node b;
  b ← fdt_end_node b;
  b ← cpu_loop (Z.to_nat (nr_harts vm)) 0 b;
  fdt_end_node b.

(** The array of the clint's interrupts: the fourth word of a hart is left as it was. *)
Fixpoint interrupts_loop (n : nat) (idx : Z) (controllers ie : list Z) : outcome (list Z) :=
  match n with
  | O => Ok ie
  | S n =>
      c ← deref (zget controllers idx);
      ie ← deref (zset ie (idx * 4 + 0) (BIG_ENDIAN32 c));
      ie ← deref (zset ie (idx * 4 + 1) (BIG_ENDIAN32 0x3));
      ie ← deref (zset ie (idx * 4 + 2) (BIG_ENDIAN32 c));
      ie ← deref (zset ie (idx * 4 + 1) (BIG_ENDIAN32 0x7));
      interrupts_loop n (idx + 1) controllers ie
  end.

Definition build_soc_fdt_node (b : fdt_build_blob) : outcome fdt_build_blob :=
  b ← begin_named "soc" b;
  b ← word_prop "#address-cells" (BIG_ENDIAN32 2) b;
  b ← word_prop "#size-cells" (BIG_ENDIAN32 2) b;
  b ← str_prop "compatible" "simple-bus" b;
  b ← fdt_prop (chars "ranges") [] b;
  ASSERT (bool_decide (is_Some (ini_get vm "cpu" "clint_base")));;
  ASSERT (bool_decide (is_Some (ini_get vm "cpu" "clint_size")));;
  clint_base_string ← deref (ini_get vm "cpu" "clint_base");
  clint_size_string ← deref (ini_get vm "cpu" "clint_size");
  let clint_base := w32 (strtol 16 clint_base_string) in
  let clint_size := w32 (strtol 16 clint_size_string) in
  b ← fdt_begin_node (chars "clint@" ++ hex clint_base) b;
  let regs := [0; BIG_ENDIAN32 clint_base; 0; BIG_ENDIAN32 clint_size] in
  b ← fdt_prop (chars "reg") (Loader.words regs) b;
  b ← str_prop "compatible" "riscv,clint0" b;
  ie ← interrupts_loop (Z.to_nat (nr_harts vm)) 0 (hart_interrupt_controllers_phandles b) (stack_words vm);
  b ← fdt_prop (chars "interrupts-extended") (take (Z.to_nat (16 * nr_harts vm)) (Loader.words ie)) b;
  b ← fdt_end_node b;
  fdt_end_node b.

Definition initramdisk_size (initrd_path : list Z) : Z :=
  match file_size vm initrd_path with None => 0 | Some image_length => sint 32 image_length end.

Definition build_chosen_fdt_node (b : fdt_build_blob) : outcome fdt_build_blob :=
  ASSERT (bool_decide (is_Some (ini_get vm "image" "bootarg")));;
  bootarg ← deref (ini_get vm "image" "bootarg");
  b ← begin_named "chosen" b;
  b ← match ini_get vm "image" "initrd", ini_get vm "image" "initrd_load_base" with
      | Some initrd_path, Some initrd_load_base_string =>
          let initrd_start := w32 (strtol 16 initrd_load_base_string) in
          let initrd_end := w32 (initrd_start + initramdisk_size initrd_path) in
          b ← word_prop "linux,initrd-end" (BIG_ENDIAN32 initrd_end) b;
          word_prop "linux,initrd-start" (BIG_ENDIAN32 initrd_start) b
      | _, _ => Ok b
      end;
  b ← fdt_prop (chars "bootargs") (bootarg ++ [0]) b;
  b ← fdt_prop (chars "stdout-path") (chars "/uart@" ++ hex 0x10000000 ++ [0]) b;
  fdt_end_node b.

(** ** emulate_uart.c: the node *)
Definition UART_16550_BASE : Z := 0x10000000.

Definition build_uart_fdt_node (b : fdt_build_blob) : outcome fdt_build_blob :=
  b ← fdt_begin_node (chars "uart@" ++ hex UART_16550_BASE) b;
  b ← word_prop "interrupts" (BIG_ENDIAN32 0x0000000a) b;
  b ← word_prop "interrupt-parent" (BIG_ENDIAN32 0x0000000d) b;
  b ← word_prop "clock-frequency" (BIG_ENDIAN32 0x00384000) b;
  b ← str_prop "compatible" "ns16550a" b;
  let regs := [BIG_ENDIAN32 0; BIG_ENDIAN32 UART_16550_BASE; BIG_ENDIAN32 0; BIG_ENDIAN32 0x100] in
  b ← fdt_prop (chars "reg") (Loader.words regs) b;
  fdt_end_node b.

(** ** The whole tree *)

(** The bytes that reach the file, [rcs] what the calls of [write] return. *)
Fixpoint dump_device_tree_to_file (rcs : list Z) (buf : list Z) (iptr nr_left : Z) : list Z :=
  match rcs with
  | [] => []
  | rc :: rcs =>
      if nr_left <=? 0 then [] else if rc <=? 0 then [] else
      take (Z.to_nat rc) (drop (Z.to_nat iptr) buf) ++ dump_device_tree_to_file rcs buf (iptr + rc) (nr_left - rc)
  end.

(** The blob, the file that was dumped and the boot rom. *)
Definition fdt_init (malloc : Z → bool) : outcome (fdt_build_blob * option (list Z * list Z) * list Z) :=
  b ← fdt_build_init malloc 4096 512;
  b ← begin_named "" b;
  b ← word_prop "#address-cells" (BIG_ENDIAN32 2) b;
  b ← word_prop "#size-cells" (BIG_ENDIAN32 2) b;
  b ← str_prop "compatible" "riscv-virtio" b;
  b ← str_prop "model" "riscv-virtio,qemu" b;
  b ← build_bootrom_fdt_node b;
  b ← build_chosen_fdt_node b;
  b ← build_uart_fdt_node b;
  b ← build_memory_fdt_node b;
  b ← build_cpu_fdt_node b;
  b ← build_soc_fdt_node b;
  b ← fdt_end_node b;
  b ← fdt_end b;
  let dumped := (λ dump_dtb, (dump_dtb, dump_device_tree_to_file (write_results vm) (buffer b) 0 (buffer_iptr b)))
                  <$> ini_get vm "misc" "dump_dtb" in
  ASSERT (buffer_iptr b <? 4096 * 3);;
  rom ← put (bootrom vm) 0 (take (Z.to_nat (buffer_iptr b)) (buffer b));
  Ok (b, dumped, rom).

End nodes.

(** ** What the builders call *)
Definition PStr (name value : string) : op := OProp (chars name) (cstring value).

Definition PWord (name : string) (w : Z) : op := OProp (chars name) (Loader.words [w]).

Definition PReg (base size : Z) : op := OProp (chars "reg") (Loader.words [0; BIG_ENDIAN32 base; 0; BIG_ENDIAN32 size]).

Definition memory_ops (base size : Z) : list op :=
  [OBegin (chars "memory@" ++ hex (w32 base)); PStr "device_type" "memory"; PReg base size; OEnd].

Definition bootrom_ops (start size : Z) : list op :=
  [OBegin (chars "bootrom@" ++ hex start); PStr "device_type" "bootrom"; PStr "compatible" "zelda 16MB flash";
   PReg start size; OEnd].

Definition uart_ops : list op :=
  [OBegin (chars "uart@10000000"); PWord "interrupts" (BIG_ENDIAN32 10); PWord "interrupt-parent" (BIG_ENDIAN32 13);
   PWord "clock-frequency" (BIG_ENDIAN32 0x384000); PStr "compatible" "ns16550a"; PReg UART_16550_BASE 0x100; OEnd].

Definition initrd_ops (vm : board) : list op :=
  match ini_get vm "image" "initrd", ini_get vm "image" "initrd_load_base" with
  | Some path, Some base =>
      let start := w32 (strtol 16 base) in
      [PWord "linux,initrd-end" (BIG_ENDIAN32 (w32 (start + initramdisk_size vm path)));
       PWord "linux,initrd-start" (BIG_ENDIAN32 start)]
  | _, _ => []
  end.

Definition chosen_ops (vm : board) (bootarg : list Z) : list op :=
  OBegin (chars "chosen") :: initrd_ops vm ++
  [OProp (chars "bootargs") (bootarg ++ [0]); PStr "stdout-path" "/uart@10000000"; OEnd].

(** [n] harts, the phandles from [p], those of the controllers from [c]. *)
Fixpoint core_ops (hart : Z) (n : nat) (p : Z) : list op :=
  match n with
  | O => []
  | S n => [OBegin (chars "core" ++ dec hart); PWord "cpu" (BIG_ENDIAN32 p); OEnd] ++ core_ops hart n (p + 1)
  end.

Fixpoint cpu_ops (hart : Z) (n : nat) (p c : Z) : list op :=
  match n with
  | O => []
  | S n =>
      [OBegin (chars "cpu@" ++ dec hart); PWord "phandle" (BIG_ENDIAN32 p); PStr "device_type" "cpu"; PStr "status" "okay";
       PStr "compatible" "riscv"; PStr "riscv,isa" "rv32ima"; PStr "mmu-type" "riscv,sv32"; PWord "reg" (BIG_ENDIAN32 hart);
       OBegin (chars "interrupt-controller"); PWord "#interrupt-cells" (BIG_ENDIAN32 1);
       OProp (chars "interrupt-controller") []; PWord "phandle" (BIG_ENDIAN32 c); PStr "compatible" "riscv,cpu-intc";
       OEnd; OEnd] ++ cpu_ops hart n (p + 1) (c + 1)
  end.

Definition cpus_ops (hart : Z) (n : nat) : list op :=
  [OBegin (chars "cpus"); PWord "#address-cells" (BIG_ENDIAN32 1); PWord "#size_cells" 0;
   PWord "timebase-frequency" (BIG_ENDIAN32 0x989680); OBegin (chars "cpu-map"); OBegin (chars "cluster0")] ++
  core_ops hart n 1 ++ [OEnd; OEnd] ++ cpu_ops hart n 1 (1 + Z.of_nat n) ++ [OEnd].

(** The interrupts of the clint: of a hart's four words the fourth is the stack's. *)
Fixpoint interrupt_words (n : nat) (c : Z) (stack : list Z) : list Z :=
  match n with
  | O => []
  | S n =>
      [BIG_ENDIAN32 c; BIG_ENDIAN32 7; BIG_ENDIAN32 c; default 0 (stack !! 3%nat)] ++ interrupt_words n (c + 1) (drop 4 stack)
  end.

Definition soc_ops (n : nat) (base size : Z) (stack : list Z) : list op :=
  [OBegin (chars "soc"); PWord "#address-cells" (BIG_ENDIAN32 2); PWord "#size-cells" (BIG_ENDIAN32 2);
   PStr "compatible" "simple-bus"; OProp (chars "ranges") []; OBegin (chars "clint@" ++ hex base); PReg base size;
   PStr "compatible" "riscv,clint0";
   OProp (chars "interrupts-extended") (Loader.words (interrupt_words n (1 + Z.of_nat n) stack)); OEnd; OEnd].

Definition root_ops : list op :=
  [OBegin (chars ""); PWord "#address-cells" (BIG_ENDIAN32 2); PWord "#size-cells" (BIG_ENDIAN32 2);
   PStr "compatible" "riscv-virtio"; PStr "model" "riscv-virtio,qemu"].

(** The strings of the configuration. *)
Record config := mk_config {
  rom_start_string : list Z;
  rom_size_string : list Z;
  bootarg : list Z;
  clint_base_string : list Z;
  clint_size_string : list Z
}.

Definition configured (vm : board) (c : config) : Prop :=
  ini_get vm "rom" "rom_start" = Some (rom_start_string c) ∧ ini_get vm "rom" "rom_size" = Some (rom_size_string c) ∧
  ini_get vm "image" "bootarg" = Some (bootarg c) ∧ ini_get vm "cpu" "clint_base" = Some (clint_base_string c) ∧
  ini_get vm "cpu" "clint_size" = Some (clint_size_string c).

Definition address (s : list Z) : Z := w32 (strtol 16 s).

Definition board_ops (vm : board) (c : config) : list op :=
  let n := Z.to_nat (nr_harts vm) in
  root_ops ++ bootrom_ops (address (rom_start_string c)) (address (rom_size_string c)) ++ chosen_ops vm (bootarg c) ++
  uart_ops ++ memory_ops (main_mem_base vm) (main_mem_size vm) ++ cpus_ops (hart_id vm) n ++
  soc_ops n (address (clint_base_string c)) (address (clint_size_string c)) (stack_words vm) ++ [OEnd].

(** ** The builders make these calls *)
Lemma bind_ext {A B} (x : outcome A) (f g : A → outcome B) : (∀ a, f a = g a) → (x ≫= f) = (x ≫= g).
Proof. destruct x; cbn; auto. Qed.

Lemma run_one o b : run [o] b = apply_op o b.
Proof. cbn [run]. by destruct (apply_op o b). Qed.

Lemma run_app ops1 ops2 b : run (ops1 ++ ops2) b = (b ← run ops1 b; run ops2 b).
Proof.
  revert b. induction ops1 as [|o ops1 IH]; intros b; [done|]. cbn [app run]. destruct (apply_op o b) as [b'|e]; [|done].
  apply IH.
Qed.

(** A builder without a loop: call by call. *)
Ltac calls := cbn [run app]; repeat (apply bind_ext; intros ?); symmetry; apply run_one.

Lemma memory_run vm b : build_memory_fdt_node vm b = run (memory_ops (main_mem_base vm) (main_mem_size vm)) b.
Proof. unfold build_memory_fdt_node, memory_ops. calls. Qed.

Lemma uart_run b : build_uart_fdt_node b = run uart_ops b.
Proof. unfold build_uart_fdt_node, uart_ops. calls. Qed.

(** [ASSERT(string)] and the string. *)
Lemma assert_string {A} (o : option (list Z)) s (k : outcome A) :
  o = Some s → (ASSERT (bool_decide (is_Some o));; k) = k.
Proof. by intros ->. Qed.

Lemma bootrom_run vm c b :
  configured vm c →
  build_bootrom_fdt_node vm b = run (bootrom_ops (address (rom_start_string c)) (address (rom_size_string c))) b.
Proof.
  intros (H1 & H2 & _). unfold build_bootrom_fdt_node, bootrom_ops. rewrite (assert_string _ _ _ H1), (assert_string _ _ _ H2).
  rewrite H1, H2. cbn [deref]. rewrite !(bind_step (Ok _) _ _ eq_refl). calls.
Qed.

Lemma chosen_run vm c b : configured vm c → build_chosen_fdt_node vm b = run (chosen_ops vm (bootarg c)) b.
Proof.
  intros (_ & _ & H & _). unfold build_chosen_fdt_node, chosen_ops. rewrite (assert_string _ _ _ H), H. cbn [deref].
  rewrite (bind_step (Ok _) _ _ eq_refl). cbn [run]. apply bind_ext. intros b1. rewrite run_app. unfold initrd_ops.
  destruct (ini_get vm "image" "initrd") as [path|]; [destruct (ini_get vm "image" "initrd_load_base") as [base|]|].
  - replace (run [_; _] b1) with
      (b ← word_prop "linux,initrd-end" (BIG_ENDIAN32 (w32 (w32 (strtol 16 base) + initramdisk_size vm path))) b1;
       word_prop "linux,initrd-start" (BIG_ENDIAN32 (w32 (strtol 16 base))) b) by calls.
    apply bind_ext. intros b2. calls.
  - calls.
  - calls.
Qed.

(** ** A blob with the calls [ops] made, and its phandles *)
Definition fits (n m : Z) (ops : list op) : Prop :=
  60 + strlen (ops_bytes 0 ops) + strlen (ops_names ops) <= n ∧ strlen (ops_names ops) < m.

Lemma fits_prefix n m ops1 ops2 : fits n m (ops1 ++ ops2) → fits n m ops1.
Proof.
  unfold fits. rewrite ops_bytes_app, ops_names_app, !strlen_app. unfold strlen. lia.
Qed.

Record stage (n m : Z) (b : fdt_build_blob) (ops : list op) (hs cs : list Z) (p : Z) : Prop := {
  st_building : building n m b (header 0 0 0 0) (ops_bytes 0 ops) (ops_names ops);
  st_harts : harts_phandles b = hs;
  st_controllers : hart_interrupt_controllers_phandles b = cs;
  st_generator : phandle_generator b = p
}.

(** A call writes the buffers only. *)
Lemma op_keeps o b b' :
  apply_op o b = Ok b' →
  harts_phandles b' = harts_phandles b ∧
  hart_interrupt_controllers_phandles b' = hart_interrupt_controllers_phandles b ∧
  phandle_generator b' = phandle_generator b.
Proof.
  destruct o; cbn [apply_op]; unfold fdt_begin_node, fdt_prop, fdt_end_node, fdt_nop, one_token;
    intros [_ H]%ASSERT_Ok; repeat apply bind_Ok in H as (? & ? & H); simplify_eq; done.
Qed.

Lemma stage_op n m o b ops hs cs p :
  stage n m b ops hs cs p → fits n m (ops ++ [o]) →
  ∃ b', apply_op o b = Ok b' ∧ stage n m b' (ops ++ [o]) hs cs p.
Proof.
  intros [Hb Hh Hc Hp] [Hf1 Hf2]. rewrite ops_bytes_app, ops_names_app, !strlen_app in *.
  unfold ops_names at 3 in Hf1. unfold ops_names at 2 in Hf2. cbn [ops_bytes fmap list_fmap concat] in *.
  rewrite !app_nil_r, ?Z.add_0_l in *. pose proof (strlen_nonneg (ops_names ops)). pose proof (strlen_nonneg (op_name o)).
  destruct (op_ok n m o b _ _ _ Hb) as (b' & Ho & Hb'); [lia..|]. destruct (op_keeps _ _ _ Ho) as (Eh & Ec & Ep).
  exists b'. split; [done|]. split; [|by rewrite Eh|by rewrite Ec|by rewrite Ep].
  rewrite ops_bytes_app, ops_names_app. unfold ops_names at 3. cbn [ops_bytes fmap list_fmap concat]. by rewrite !app_nil_r, Z.add_0_l.
Qed.

Lemma stage_run n m ops' b ops hs cs p :
  stage n m b ops hs cs p → fits n m (ops ++ ops') →
  ∃ b', run ops' b = Ok b' ∧ stage n m b' (ops ++ ops') hs cs p.
Proof.
  revert b ops. induction ops' as [|o ops' IH]; intros b ops Hst Hf.
  { exists b. by rewrite app_nil_r. }
  rewrite (cons_middle o ops ops'), app_assoc in Hf |- *.
  destruct (stage_op n m o b ops hs cs p Hst) as (b1 & H1 & Hst1); [by apply fits_prefix in Hf|].
  destruct (IH b1 _ Hst1 Hf) as (b2 & H2 & Hst2). exists b2. split; [|done]. cbn [run]. by rewrite (bind_step _ _ _ H1).
Qed.

(** A part of the calls fits when all of them do. *)
Ltac part_fits Hf := eapply fits_prefix; rewrite <- ?app_assoc; cbn [app]; exact Hf.

(** The next call of a builder. *)
Ltac next_call o Hst Hf :=
  let b := fresh "b" in let H := fresh "H" in let Hst' := fresh "Hst" in
  destruct (stage_op _ _ o _ _ _ _ _ Hst) as (b & H & Hst'); [part_fits Hf|];
  cbn [apply_op] in H; rewrite (bind_step _ _ _ H); clear Hst H; rename Hst' into Hst.

Lemma stage_phandle n m b ops hs cs p :
  stage n m b ops hs cs p →
  fst (generate_phandle b) = p ∧ stage n m (snd (generate_phandle b)) ops hs cs (p + 1).
Proof. intros [[] Hh Hc Hp]. cbn. split; [done|]. split; [by split| | |]; cbn; congruence. Qed.

Lemma stage_harts n m b ops hs cs p hs' : stage n m b ops hs cs p → stage n m (with_harts b hs') ops hs' cs p.
Proof. intros [[] Hh Hc Hp]. split; [by split|done..]. Qed.

Lemma stage_controllers n m b ops hs cs p cs' : stage n m b ops hs cs p → stage n m (with_controllers b cs') ops hs cs' p.
Proof. intros [[] Hh Hc Hp]. split; [by split|done..]. Qed.

(** An array with the phandles from [p] at the indices from [idx]. *)
Definition numbered (l : list Z) (idx : Z) (n : nat) (p : Z) : Prop :=
  ∀ i, 0 <= i < Z.of_nat n → zget l (idx + i) = Some (p + i).

Lemma numbered_cons l idx n p : zget l idx = Some p → numbered l (idx + 1) n (p + 1) → numbered l idx (S n) p.
Proof.
  intros H0 Hn i Hi. destruct (Z.eq_dec i 0) as [->|Hne]; [by rewrite !Z.add_0_r|].
  specialize (Hn (i - 1)). replace (idx + 1 + (i - 1)) with (idx + i) in Hn by lia.
  replace (p + 1 + (i - 1)) with (p + i) in Hn by lia. apply Hn. lia.
Qed.

Lemma numbered_uncons l idx n p : numbered l idx (S n) p → zget l idx = Some p ∧ numbered l (idx + 1) n (p + 1).
Proof.
  intros Hn. split.
  - specialize (Hn 0). rewrite !Z.add_0_r in Hn. apply Hn. lia.
  - intros i Hi. rewrite <- !Z.add_assoc. apply Hn. lia.
Qed.

Lemma zset_some {A} (l : list A) i x :
  0 <= i < Z.of_nat (length l) → ∃ l', zset l i x = Some l' ∧ length l' = length l ∧ zget l' i = Some x ∧
    ∀ j, j ≠ i → zget l' j = zget l j.
Proof.
  intros Hi. exists (<[Z.to_nat i := x]> l). rewrite zset_ok by done. split_and!.
  - done.
  - apply length_insert.
  - rewrite zget_lookup by lia. rewrite list_lookup_insert_eq; [done|lia].
  - intros j Hj. unfold zget. destruct (Z.leb_spec 0 j); [|done]. rewrite list_lookup_insert_ne; [done|lia].
Qed.

Lemma core_loop_ok vm bn bm n idx b ops hs cs p :
  stage bn bm b ops hs cs p → 0 <= idx → idx + Z.of_nat n <= strlen hs →
  fits bn bm (ops ++ core_ops (hart_id vm) n p) →
  ∃ b' hs', core_loop vm n idx b = Ok b' ∧
    stage bn bm b' (ops ++ core_ops (hart_id vm) n p) hs' cs (p + Z.of_nat n) ∧
    length hs' = length hs ∧ (∀ i, i < idx → zget hs' i = zget hs i) ∧ numbered hs' idx n p.
Proof.
  revert idx b ops hs p. induction n as [|n IH]; intros idx b ops hs p Hst Hi Hl Hf.
  { exists b, hs. rewrite app_nil_r, Z.add_0_r. split_and!; [done..|]. intros i Hb. simpl in Hb. lia. }
  cbn [core_loop core_ops app] in *. next_call (OBegin (chars "core" ++ dec (hart_id vm))) Hst Hf.
  destruct (stage_phandle _ _ _ _ _ _ _ Hst) as [Hp Hst1]. destruct (generate_phandle b0) as [ph b1]. cbn in Hp, Hst1. subst ph.
  destruct (zset_some hs idx p) as (hs1 & Hs1 & Hl1 & Hg1 & Ho1); [unfold strlen in Hl; lia|].
  rewrite (st_harts _ _ _ _ _ _ _ Hst1), Hs1. cbn [deref]. rewrite (bind_step (Ok _) _ _ eq_refl).
  cbn [with_harts harts_phandles]. rewrite Hg1. cbn [deref]. rewrite (bind_step (Ok _) _ _ eq_refl).
  apply (stage_harts _ _ _ _ _ _ _ hs1) in Hst1.
  next_call (PWord "cpu" (BIG_ENDIAN32 p)) Hst1 Hf. next_call OEnd Hst1 Hf.
  destruct (IH (idx + 1) _ _ _ _ Hst1) as (bz & hs4 & Hr & Hst4 & Hl4 & Ho4 & Hn4).
  - lia.
  - unfold strlen in *. lia.
  - rewrite <- !app_assoc. exact Hf.
  - exists bz, hs4. split; [exact Hr|]. rewrite <- !app_assoc in Hst4. cbn [app] in Hst4.
    split; [by replace (p + Z.of_nat (S n)) with (p + 1 + Z.of_nat n) by lia|]. split; [lia|]. split.
    + intros i Hib. rewrite Ho4, Ho1 by lia. done.
    + apply numbered_cons; [by rewrite Ho4 by lia|done].
Qed.

Lemma cpu_loop_ok vm bn bm n idx b ops hs cs p c :
  stage bn bm b ops hs cs c → 0 <= idx → idx + Z.of_nat n <= strlen cs → numbered hs idx n p →
  fits bn bm (ops ++ cpu_ops (hart_id vm) n p c) →
  ∃ b' cs', cpu_loop vm n idx b = Ok b' ∧
    stage bn bm b' (ops ++ cpu_ops (hart_id vm) n p c) hs cs' (c + Z.of_nat n) ∧
    length cs' = length cs ∧ (∀ i, i < idx → zget cs' i = zget cs i) ∧ numbered cs' idx n c.
Proof.
  revert idx b ops cs p c. induction n as [|n IH]; intros idx b ops cs p c Hst Hi Hl Hh Hf.
  { exists b, cs. rewrite app_nil_r, Z.add_0_r. split_and!; [done..|]. intros i Hb. simpl in Hb. lia. }
  apply numbered_uncons in Hh as [Hh0 Hh]. cbn [cpu_loop cpu_ops app] in *.
  next_call (OBegin (chars "cpu@" ++ dec (hart_id vm))) Hst Hf.
  rewrite (st_harts _ _ _ _ _ _ _ Hst), Hh0. cbn [deref]. rewrite (bind_step (Ok _) _ _ eq_refl).
  next_call (PWord "phandle" (BIG_ENDIAN32 p)) Hst Hf. next_call (PStr "device_type" "cpu") Hst Hf.
  next_call (PStr "status" "okay") Hst Hf. next_call (PStr "compatible" "riscv") Hst Hf.
  next_call (PStr "riscv,isa" "rv32ima") Hst Hf. next_call (PStr "mmu-type" "riscv,sv32") Hst Hf.
  next_call (PWord "reg" (BIG_ENDIAN32 (hart_id vm))) Hst Hf. next_call (OBegin (chars "interrupt-controller")) Hst Hf.
  next_call (PWord "#interrupt-cells" (BIG_ENDIAN32 1)) Hst Hf. next_call (OProp (chars "interrupt-controller") []) Hst Hf.
  destruct (stage_phandle _ _ _ _ _ _ _ Hst) as [Hp Hst1]. destruct (generate_phandle _) as [ph bp]. cbn in Hp, Hst1. subst ph.
  destruct (zset_some cs idx c) as (cs1 & Hs1 & Hl1 & Hg1 & Ho1); [unfold strlen in Hl; lia|].
  rewrite (st_controllers _ _ _ _ _ _ _ Hst1), Hs1. cbn [deref]. rewrite (bind_step (Ok _) _ _ eq_refl).
  cbn [with_controllers hart_interrupt_controllers_phandles]. rewrite Hg1. cbn [deref]. rewrite (bind_step (Ok _) _ _ eq_refl).
  apply (stage_controllers _ _ _ _ _ _ _ cs1) in Hst1.
  next_call (PWord "phandle" (BIG_ENDIAN32 c)) Hst1 Hf. next_call (PStr "compatible" "riscv,cpu-intc") Hst1 Hf.
  next_call OEnd Hst1 Hf. next_call OEnd Hst1 Hf.
  destruct (IH (idx + 1) _ _ _ (p + 1) _ Hst1) as (bz & cs4 & Hr & Hst4 & Hl4 & Ho4 & Hn4).
  - lia.
  - unfold strlen in *. lia.
  - done.
  - rewrite <- !app_assoc. exact Hf.
  - exists bz, cs4. split; [exact Hr|]. rewrite <- !app_assoc in Hst4. cbn [app] in Hst4.
    split; [by replace (c + Z.of_nat (S n)) with (c + 1 + Z.of_nat n) by lia|]. split; [lia|]. split.
    + intros i Hib. rewrite Ho4, Ho1 by lia. done.
    + apply numbered_cons; [by rewrite Ho4 by lia|done].
Qed.

(** A part of the tree built by a sequence of calls. *)
Ltac next_run ops Hst Hf :=
  let b := fresh "b" in let H := fresh "H" in let Hst' := fresh "Hst" in
  destruct (stage_run _ _ ops _ _ _ _ _ Hst) as (b & H & Hst'); [part_fits Hf|];
  rewrite (bind_step _ _ _ H); clear Hst H; rename Hst' into Hst.

Lemma cpus_ok vm bn bm b ops hs cs :
  stage bn bm b ops hs cs 1 → strlen hs = 64 → strlen cs = 64 → 0 <= nr_harts vm <= 64 →
  let n := Z.to_nat (nr_harts vm) in
  fits bn bm (ops ++ cpus_ops (hart_id vm) n) →
  ∃ b' hs' cs', build_cpu_fdt_node vm b = Ok b' ∧
    stage bn bm b' (ops ++ cpus_ops (hart_id vm) n) hs' cs' (1 + Z.of_nat n + Z.of_nat n) ∧
    strlen cs' = 64 ∧ numbered cs' 0 n (1 + Z.of_nat n).
Proof.
  intros Hst Hh Hc Hn n Hf. unfold build_cpu_fdt_node. fold n. unfold cpus_ops in *. cbn [app] in Hf.
  next_call (OBegin (chars "cpus")) Hst Hf. next_call (PWord "#address-cells" (BIG_ENDIAN32 1)) Hst Hf.
  next_call (PWord "#size_cells" 0) Hst Hf. next_call (PWord "timebase-frequency" (BIG_ENDIAN32 0x989680)) Hst Hf.
  next_call (OBegin (chars "cpu-map")) Hst Hf. next_call (OBegin (chars "cluster0")) Hst Hf.
  destruct (core_loop_ok vm _ _ n 0 _ _ _ _ _ Hst) as (bx & hs1 & Hr1 & Hst1 & Hl1 & _ & Hn1); [lia|lia|part_fits Hf|].
  rewrite (bind_step _ _ _ Hr1). next_call OEnd Hst1 Hf. next_call OEnd Hst1 Hf.
  destruct (cpu_loop_ok vm _ _ n 0 _ _ _ _ 1 _ Hst1) as (b2' & cs2 & Hr2 & Hst2 & Hl2 & _ & Hn2);
    [lia|lia|done|part_fits Hf|].
  rewrite (bind_step _ _ _ Hr2).
  destruct (stage_op _ _ OEnd _ _ _ _ _ Hst2) as (b3' & H3 & Hst3); [part_fits Hf|].
  exists b3', hs1, cs2. split; [exact H3|]. rewrite <- !app_assoc in Hst3. cbn [app] in Hst3 |- *.
  split_and!; [exact Hst3|unfold strlen in *; lia|done].
Qed.

(** *** The interrupts *)
Lemma zset_at {A} (l P Q : list A) i x y : l = P ++ y :: Q → i = Z.of_nat (length P) → zset l i x = Some (P ++ x :: Q).
Proof. intros -> ->. apply zset_middle. Qed.

(** The word [P] is followed by is set. *)
Ltac set_word P :=
  erewrite (zset_at _ P); [|rewrite <- ?app_assoc; reflexivity|rewrite ?length_app; cbn [length]; lia];
  cbn [deref]; rewrite (bind_step (Ok _) _ _ eq_refl); rewrite <- ?app_assoc; cbn [app].

Lemma interrupts_loop_ok n idx controllers A rest c :
  0 <= idx → strlen A = idx * 4 → (4 * n <= length rest)%nat → numbered controllers idx n c →
  interrupts_loop n idx controllers (A ++ rest) = Ok (A ++ interrupt_words n c rest ++ drop (4 * n) rest).
Proof.
  revert idx A rest c. induction n as [|n IH]; intros idx A rest c Hi HA Hl Hc; [done|].
  apply numbered_uncons in Hc as [Hc0 Hc]. destruct rest as [|w0 [|w1 [|w2 [|w3 rest]]]]; try (simpl in Hl; lia).
  cbn [interrupts_loop]. rewrite Hc0. cbn [deref]. rewrite (bind_step (Ok _) _ _ eq_refl). unfold strlen in HA.
  set (v := BIG_ENDIAN32 c). set (v3 := BIG_ENDIAN32 3). set (v7 := BIG_ENDIAN32 7).
  set_word A. set_word (A ++ [v]). set_word (A ++ [v; v3]). set_word (A ++ [v]).
  replace (A ++ v :: v7 :: v :: w3 :: rest) with ((A ++ [v; v7; v; w3]) ++ rest) by (by rewrite <- app_assoc).
  rewrite (IH (idx + 1) _ _ (c + 1)); [|lia|unfold strlen; rewrite length_app; cbn [length]; lia|simpl in Hl; lia|done].
  rewrite <- app_assoc. cbn [interrupt_words app]. replace (4 * S n)%nat with (4 + 4 * n)%nat by lia. done.
Qed.

Lemma interrupt_words_length n c stack : length (interrupt_words n c stack) = (4 * n)%nat.
Proof. revert c stack. induction n as [|n IH]; intros; [done|]. cbn [interrupt_words app length]. rewrite IH. lia. Qed.

Lemma soc_ok vm c bn bm b ops hs cs p :
  configured vm c → stage bn bm b ops hs cs p → 0 <= nr_harts vm <= 64 → strlen (stack_words vm) = 256 →
  let n := Z.to_nat (nr_harts vm) in
  let ops' := soc_ops n (address (clint_base_string c)) (address (clint_size_string c)) (stack_words vm) in
  numbered cs 0 n (1 + Z.of_nat n) → fits bn bm (ops ++ ops') →
  ∃ b', build_soc_fdt_node vm b = Ok b' ∧ stage bn bm b' (ops ++ ops') hs cs p.
Proof.
  intros (_ & _ & _ & H1 & H2) Hst Hn Hs n ops' Hc Hf. unfold build_soc_fdt_node. fold n. subst ops'. unfold soc_ops in *.
  next_call (OBegin (chars "soc")) Hst Hf. next_call (PWord "#address-cells" (BIG_ENDIAN32 2)) Hst Hf.
  next_call (PWord "#size-cells" (BIG_ENDIAN32 2)) Hst Hf. next_call (PStr "compatible" "simple-bus") Hst Hf.
  next_call (OProp (chars "ranges") []) Hst Hf.
  rewrite (assert_string _ _ _ H1), (assert_string _ _ _ H2), H1, H2. cbn [deref]. rewrite !(bind_step (Ok _) _ _ eq_refl).
  fold (address (clint_base_string c)) (address (clint_size_string c)).
  set (base := address (clint_base_string c)) in *. set (size := address (clint_size_string c)) in *.
  next_call (OBegin (chars "clint@" ++ hex base)) Hst Hf. next_call (PReg base size) Hst Hf.
  next_call (PStr "compatible" "riscv,clint0") Hst Hf.
  rewrite (st_controllers _ _ _ _ _ _ _ Hst).
  rewrite (bind_step _ _ _ (interrupts_loop_ok n 0 cs [] (stack_words vm) _ ltac:(lia) eq_refl
             ltac:(unfold strlen in Hs; lia) Hc)).
  cbn [app]. rewrite Loader.words_app, take_app_length' by (rewrite Loader.words_length, interrupt_words_length; lia).
  next_call (OProp (chars "interrupts-extended") (Loader.words (interrupt_words n (1 + Z.of_nat n) (stack_words vm)))) Hst Hf.
  next_call OEnd Hst Hf. destruct (stage_op _ _ OEnd _ _ _ _ _ Hst) as (bz & H3 & Hst3); [part_fits Hf|].
  exists bz. split; [exact H3|]. rewrite <- !app_assoc in Hst3. exact Hst3.
Qed.

(** *** The names are C strings *)
Lemma number_plain fuel base v acc :
  0 < base → Forall (λ c, c ≠ 0) acc → Forall (λ c, c ≠ 0) (number fuel base v acc).
Proof.
  intros Hb. revert v acc. induction fuel as [|fuel IH]; intros v acc Ha; [done|]. cbn [number].
  assert (Forall (λ c, c ≠ 0) (digit_char (v mod base) :: acc)) as Hd.
  { constructor; [|done]. unfold digit_char. pose proof (Z.mod_pos_bound v base Hb). destruct (Z.ltb_spec (v mod base) 10); lia. }
  destruct (_ =? 0); [done|]. by apply IH.
Qed.

Lemma hex_plain v : Forall (λ c, c ≠ 0) (hex v).
Proof. by apply number_plain. Qed.

Lemma dec_plain v : Forall (λ c, c ≠ 0) (dec v).
Proof. unfold dec. destruct (v <? 0); [constructor; [done|]|]; by apply number_plain. Qed.

#[local] Hint Resolve hex_plain dec_plain Forall_nil_2 : core.

(** Literal names are computed, the numbers in them are [hex_plain] and [dec_plain]. *)
Ltac plain_names :=
  repeat match goal with
  | |- Forall op_named (_ ++ _) => apply Forall_app; split
  | |- Forall op_named (_ :: _) => constructor
  | |- op_named (OBegin (_ ++ _)) => cbn [op_named]; apply Forall_app; split; [|by auto]
  | |- op_named _ => cbn [op_named PStr PWord PReg]
  end; try done; try (by repeat constructor).

Lemma core_named hart n p : Forall op_named (core_ops hart n p).
Proof. revert p. induction n as [|n IH]; intros p; [done|]. cbn [core_ops app]. plain_names. Qed.

Lemma cpu_named hart n p c : Forall op_named (cpu_ops hart n p c).
Proof. revert p c. induction n as [|n IH]; intros p c; [done|]. cbn [cpu_ops app]. plain_names. Qed.

Lemma initrd_named vm : Forall op_named (initrd_ops vm).
Proof.
  unfold initrd_ops. destruct (ini_get vm "image" "initrd"), (ini_get vm "image" "initrd_load_base"); plain_names.
Qed.

Lemma board_named vm c : Forall op_named (board_ops vm c).
Proof.
  unfold board_ops, root_ops, bootrom_ops, chosen_ops, uart_ops, memory_ops, cpus_ops, soc_ops.
  pose proof core_named. pose proof cpu_named. pose proof initrd_named. plain_names.
Qed.

(** ** The tree in the rom *)
Lemma init_stage malloc n m :
  malloc n = true → malloc m = true → 56 <= n < 2 ^ 30 → 0 <= m < 2 ^ 30 →
  ∃ b, fdt_build_init malloc n m = Ok b ∧ stage n m b [] (replicate 64 0) (replicate 64 0) 1.
Proof.
  intros Hn Hm Hnr Hmr. destruct (init_ok malloc n m Hn Hm Hnr Hmr) as (b & Hi & Hb). exists b. split; [done|].
  unfold fdt_build_init in Hi. apply ASSERT_Ok in Hi as [_ Hi]. apply ASSERT_Ok in Hi as [_ Hi].
  do 5 (apply bind_Ok in Hi as (? & _ & Hi)). injection Hi as <-. by split.
Qed.

Lemma finished_take S T tl R :
  take (Z.to_nat (60 + strlen S + strlen T)) (finished S T tl) ++ R = finished S T R.
Proof.
  unfold finished. set (h := header _ _ _ _). assert (length h = 56%nat) as Hh by done. clearbody h.
  rewrite !(app_assoc h), (app_assoc _ T). rewrite take_app_length'; [by rewrite <- !app_assoc|].
  rewrite !length_app, Hh, be32_length. unfold strlen. lia.
Qed.

Lemma put_front l bytes : (length bytes <= length l)%nat → put l 0 bytes = Ok (bytes ++ drop (length bytes) l).
Proof. intros Hl. unfold put. cbn [Z.to_nat Z.leb Z.compare andb]. by rewrite (proj2 (Nat.leb_le _ _)) by done. Qed.

(** The calls of [fdt_init] up to the last one. *)
Lemma tree_ok vm c malloc :
  configured vm c → malloc 4096 = true → malloc 512 = true → 0 <= nr_harts vm <= 64 → strlen (stack_words vm) = 256 →
  fits 4096 512 (board_ops vm c) →
  ∃ b hs cs p, stage 4096 512 b (board_ops vm c) hs cs p ∧
    fdt_init vm malloc =
      (b ← fdt_end b;
       let dumped := (λ dump_dtb, (dump_dtb, dump_device_tree_to_file (write_results vm) (buffer b) 0 (buffer_iptr b)))
                       <$> ini_get vm "misc" "dump_dtb" in
       ASSERT (buffer_iptr b <? 4096 * 3);;
       rom ← put (bootrom vm) 0 (take (Z.to_nat (buffer_iptr b)) (buffer b));
       Ok (b, dumped, rom)).
Proof.
  intros Hc Hm1 Hm2 Hn Hs Hf. destruct (init_stage malloc 4096 512 Hm1 Hm2) as (b0 & Hi & Hst); [lia..|].
  unfold fdt_init. rewrite (bind_step _ _ _ Hi). clear Hi. unfold board_ops in *. set (n := Z.to_nat (nr_harts vm)) in *.
  change (root_ops ++ ?x) with ([] ++ root_ops ++ x) in Hf.
  unfold root_ops in Hf at 1. next_call (OBegin (chars "")) Hst Hf. next_call (PWord "#address-cells" (BIG_ENDIAN32 2)) Hst Hf.
  next_call (PWord "#size-cells" (BIG_ENDIAN32 2)) Hst Hf. next_call (PStr "compatible" "riscv-virtio") Hst Hf.
  next_call (PStr "model" "riscv-virtio,qemu") Hst Hf.
  rewrite (bootrom_run vm c) by done. next_run (bootrom_ops (address (rom_start_string c)) (address (rom_size_string c))) Hst Hf.
  rewrite (chosen_run vm c) by done. next_run (chosen_ops vm (bootarg c)) Hst Hf.
  rewrite uart_run. next_run uart_ops Hst Hf.
  rewrite memory_run. next_run (memory_ops (main_mem_base vm) (main_mem_size vm)) Hst Hf.
  destruct (cpus_ok vm _ _ _ _ _ _ Hst) as (bc & hs & cs & Hr & Hst1 & Hl & Hnum); [done|done|done|part_fits Hf|].
  rewrite (bind_step _ _ _ Hr).
  destruct (soc_ok vm c _ _ _ _ _ _ _ Hc Hst1) as (bs & Hr2 & Hst2); [done|done|done|part_fits Hf|].
  rewrite (bind_step _ _ _ Hr2). next_call OEnd Hst2 Hf.
  rewrite <- !app_assoc in Hst2. cbn [app] in Hst2. eexists _, _, _, _. split; [exact Hst2|]. reflexivity.
Qed.

(** For every configuration whose tree fits the buffers of [fdt_init], the
    function succeeds and leaves a device tree at the start of the boot rom that
    [scan_fdt_tokens] reads as the board: the root's properties, the rom, the
    chosen node with the boot arguments (and the ramdisk when configured), the uart,
    the memory, a core and a cpu with its interrupt controller for every hart, the
    phandles numbered from 1, and the clint with an entry for every hart. *)
Theorem board_tree vm c malloc :
  configured vm c → malloc 4096 = true → malloc 512 = true → 0 <= nr_harts vm <= 64 → strlen (stack_words vm) = 256 →
  fits 4096 512 (board_ops vm c) → 4096 <= strlen (bootrom vm) →
  ∃ b dumped rom ls, fdt_init vm malloc = Ok (b, dumped, rom) ∧ scan_fdt_tokens rom = Ok ls ∧
    shows rom <$> ls = seen None (board_ops vm c).
Proof.
  intros Hc Hm1 Hm2 Hn Hs Hf Hrom. destruct (tree_ok vm c malloc Hc Hm1 Hm2 Hn Hs Hf) as (b & hs & cs & p & Hst & ->).
  pose proof Hf as [Hf1 Hf2]. destruct (end_ok _ _ _ _ _ (st_building _ _ _ _ _ _ _ Hst) Hf1) as (b' & tl & He & Hbuf & Hi).
  rewrite (bind_step _ _ _ He). cbv zeta. rewrite Hi, (proj2 (Z.ltb_lt _ _)) by lia. cbn [ASSERT].
  rewrite (bind_step (Ok _) _ _ eq_refl), Hbuf. set (S := ops_bytes 0 _) in *. set (T := ops_names _) in *.
  assert (length (take (Z.to_nat (60 + strlen S + strlen T)) (finished S T tl)) <= length (bootrom vm))%nat as Hfit.
  { rewrite length_take. unfold strlen in *. lia. }
  rewrite (bind_step _ _ _ (put_front _ _ Hfit)). rewrite finished_take.
  destruct (scan_ok (board_ops vm c) (drop (length (take (Z.to_nat (60 + strlen S + strlen T)) (finished S T tl))) (bootrom vm))
    (board_named vm c)) as (ls & Hls & Hsh); [fold S T; lia|].
  eexists _, _, _, ls. split; [reflexivity|]. split; [exact Hls|exact Hsh].
Qed.

(** A configuration, and the board with so many harts. *)
Definition demo_ini (section key : string) : option (list Z) :=
  if String.eqb key "rom_start" then Some (chars "0x0") else
  if String.eqb key "rom_size" then Some (chars "0x1000000") else
  if String.eqb key "bootarg" then Some (chars "console=ttyS0") else
  if String.eqb key "clint_base" then Some (chars "0x2000000") else
  if String.eqb key "clint_size" then Some (chars "0x10000") else None.

Definition demo (harts : Z) : board :=
  mk_board 0x80000000 0x10000000 harts 0 demo_ini (λ _, None) [] (replicate 256 0xabababab) (replicate 4096 0).

Definition demo_config : config :=
  mk_config (chars "0x0") (chars "0x1000000") (chars "console=ttyS0") (chars "0x2000000") (chars "0x10000").

Lemma board_tree_witness :
  ∃ b dumped rom ls, fdt_init (demo 1) (λ _, true) = Ok (b, dumped, rom) ∧ scan_fdt_tokens rom = Ok ls ∧
    shows rom <$> ls = seen None (board_ops (demo 1) demo_config) ∧ length ls = 38%nat.
Proof.
  destruct (board_tree (demo 1) demo_config (λ _, true)) as (b & d & rom & ls & Hi & Hs & Hsh).
  1-5: done.
  - split; by vm_compute.
  - done.
  - exists b, d, rom, ls. split; [exact Hi|]. split; [exact Hs|]. split; [exact Hsh|].
    rewrite <- (length_fmap (shows rom)), Hsh. vm_compute. reflexivity.
Defined.

(** The names of a second hart no longer fit the 512 bytes that [fdt_init] gives
    them: the program stops. *)
Theorem two_harts_stop : fdt_init (demo 2) (λ _, true) = Err EAssert.
Proof. vm_compute. reflexivity. Qed.

(** Of the four words of a hart the second is written twice, 3 and then 7, and the
    fourth not at all. *)
Theorem interrupts_extended_entry :
  interrupts_loop 1 0 [2] (replicate 4 0xabababab) = Ok [BIG_ENDIAN32 2; BIG_ENDIAN32 7; BIG_ENDIAN32 2; 0xabababab].
Proof. reflexivity. Qed.

End Board.

(** ** emulate_uart.c: the registers *)
Module Uart.

Definition UART_REG_QUEUE : Z := 0.

Definition UART_REG_FCR : Z := 2.

Definition UART_REG_LCR : Z := 3.

Definition UART_REG_LSR : Z := 5.

Definition UART_LSR_TEMT : Z := 0x40.

Definition UART_LSR_THRE : Z := 0x20.

Definition UART_BUFFER_SIZE : Z := 1024.

Record uart := mk_uart {
  uart_buffer : list Z;
  uart_buffer_ptr : Z
}.

Definition uart_zero : uart := mk_uart (replicate (Z.to_nat (UART_BUFFER_SIZE + 1)) 0) 0.

Definition uart_mmio_read (addr access_size : Z) : outcome Z :=
  ASSERT (access_size =? 1);;
  let reg := w64 (addr - Board.UART_16550_BASE) in
  Ok (if reg =? UART_REG_LSR then Z.lor UART_LSR_TEMT UART_LSR_THRE else 0).

(** The new state and the string that [log_uart] prints. *)
Definition uart_mmio_write (addr access_size value : Z) (u : uart) : outcome (uart * option (list Z)) :=
  if negb (access_size =? 1) then Ok (u, None) else
  ASSERT (access_size =? 1);;
  let reg := w64 (addr - Board.UART_16550_BASE) in
  if (reg =? UART_REG_FCR) || (reg =? UART_REG_LCR) then Ok (mk_uart (uart_buffer u) 0, None)
  else if reg =? UART_REG_QUEUE then
    buf ← deref (zset (uart_buffer u) (uart_buffer_ptr u) (w8 value));
    let ptr := uart_buffer_ptr u + 1 in
    if (ptr =? UART_BUFFER_SIZE) || (10 =? w8 value) then
      buf ← deref (zset buf ptr 0);
      Ok (mk_uart buf 0, Some (upto_nul buf))
    else Ok (mk_uart buf ptr, None)
  else Ok (u, None).

(** Accesses one after the other, and the strings printed. *)
Fixpoint uart_writes (ws : list (Z * Z * Z)) (u : uart) : outcome (uart * list (list Z)) :=
  match ws with
  | [] => Ok (u, [])
  | (addr, size, value) :: ws =>
      '(u, o) ← uart_mmio_write addr size value u;
      '(u, outs) ← uart_writes ws u;
      Ok (u, match o with Some s => s :: outs | None => outs end)
  end.

(** What the buffer holds; the pointer stays below the size. *)
Definition pending (u : uart) : list Z := take (Z.to_nat (uart_buffer_ptr u)) (uart_buffer u).

Definition uart_ok (u : uart) : Prop :=
  length (uart_buffer u) = Z.to_nat (UART_BUFFER_SIZE + 1) ∧ 0 <= uart_buffer_ptr u < UART_BUFFER_SIZE.

(** A write of a character to the queue. *)
Definition is_char (w : Z * Z * Z) : Prop :=
  let '(addr, size, value) := w in addr = Board.UART_16550_BASE ∧ size = 1 ∧ w8 value ≠ 0.

Definition char_of (w : Z * Z * Z) : Z := w8 (snd w).

(** A byte for the queue: the buffer around the pointer. *)
Lemma queue_split u :
  uart_ok u → ∃ x y Q, uart_buffer u = pending u ++ x :: y :: Q ∧ Z.of_nat (length (pending u)) = uart_buffer_ptr u.
Proof.
  intros [Hl Hp]. unfold pending, UART_BUFFER_SIZE in *. set (k := Z.to_nat (uart_buffer_ptr u)).
  assert (length (drop k (uart_buffer u)) = (1025 - k)%nat) as Hd by (rewrite length_drop; lia).
  destruct (drop k (uart_buffer u)) as [|x [|y Q]] eqn:E; [simpl in Hd; lia..|]. exists x, y, Q. split.
  - by rewrite <- E, take_drop.
  - rewrite length_take. lia.
Qed.

Lemma uart_write_ok addr size value u :
  uart_ok u →
  ∃ u' o, uart_mmio_write addr size value u = Ok (u', o) ∧ uart_ok u' ∧
    (is_char (addr, size, value) → Forall (λ c, c ≠ 0) (pending u) →
     default [] o ++ pending u' = pending u ++ [w8 value] ∧ Forall (λ c, c ≠ 0) (pending u')).
Proof.
  intros Hu. pose proof Hu as [Hl Hp]. destruct (queue_split u Hu) as (x & y & Q & Hb & Hk).
  unfold uart_mmio_write, UART_BUFFER_SIZE in *.
  destruct (Z.eqb_spec size 1) as [->|Hs]; cbn [negb]; [|exists u, None; split_and!; [done..|]; by intros (_ & ? & _)].
  cbn [ASSERT]. rewrite (bind_step (Ok _) _ _ eq_refl). set (reg := w64 _).
  destruct ((reg =? UART_REG_FCR) || (reg =? UART_REG_LCR)) eqn:Ec.
  { eexists _, None. split; [done|]. split; [by split; [|done]|]. intros (-> & _). done. }
  destruct (Z.eqb_spec reg UART_REG_QUEUE) as [Er|Er].
  2: { exists u, None. split_and!; [done..|]. by intros (-> & _). }
  rewrite (Board.zset_at _ _ _ _ (w8 value) _ Hb) by lia. cbn [deref]. rewrite (bind_step (Ok _) _ _ eq_refl).
  rewrite Hb, length_app in Hl. cbn [length] in Hl.
  destruct ((uart_buffer_ptr u + 1 =? 1024) || (10 =? w8 value)) eqn:Ef.
  - rewrite (Board.zset_at _ (pending u ++ [w8 value]) Q _ 0 y) by (by rewrite <- app_assoc || (rewrite length_app; cbn [length]; lia)).
    cbn [deref]. rewrite (bind_step (Ok _) _ _ eq_refl). eexists _, _. split; [done|]. split.
    + unfold uart_ok, UART_BUFFER_SIZE. split; [cbn [uart_buffer]; rewrite !length_app; cbn [length]; lia|done].
    + intros (_ & _ & Hv) Hpl. cbn [default]. rewrite upto_nul_app; [by rewrite app_nil_r|]. apply Forall_app. by repeat constructor.
  - apply orb_false_iff in Ef as [Ef%Z.eqb_neq _]. eexists _, None. split; [done|]. split.
    + unfold uart_ok, UART_BUFFER_SIZE. split; [cbn [uart_buffer]; rewrite length_app; cbn [length]; lia|cbn [uart_buffer_ptr]; lia].
    + intros (_ & _ & Hv) Hpl.
      assert (pending (mk_uart (pending u ++ w8 value :: y :: Q) (uart_buffer_ptr u + 1)) = pending u ++ [w8 value]) as ->.
      { unfold pending at 1. cbn [uart_buffer uart_buffer_ptr]. rewrite (cons_middle (w8 value)), app_assoc.
        rewrite take_app_length'; [done|]. rewrite length_app. cbn [length]. lia. }
      split; [done|]. apply Forall_app. by repeat constructor.
Qed.

(** No access to the uart leaves its buffer or stops the program, in any
    sequence of accesses; and the characters written to the queue come out in
    order, in the strings printed so far followed by what the buffer holds. *)
Theorem uart_output ws u :
  uart_ok u →
  ∃ u' outs, uart_writes ws u = Ok (u', outs) ∧ uart_ok u' ∧
    (Forall is_char ws → Forall (λ c, c ≠ 0) (pending u) →
     concat outs ++ pending u' = pending u ++ (char_of <$> ws)).
Proof.
  revert u. induction ws as [|[[addr size] value] ws IH]; intros u Hu.
  { exists u, []. cbn. rewrite app_nil_r. done. }
  destruct (uart_write_ok addr size value u Hu) as (u1 & o & H1 & Hu1 & Hc1).
  destruct (IH u1 Hu1) as (u2 & outs & H2 & Hu2 & Hc2).
  cbn [uart_writes]. rewrite (bind_step _ _ _ H1), (bind_step _ _ _ H2). eexists _, _. split; [done|]. split; [done|].
  intros [Hc Hcs]%Forall_cons Hp. destruct (Hc1 Hc Hp) as [Ho Hp1]. specialize (Hc2 Hcs Hp1).
  change (char_of <$> (addr, size, value) :: ws) with ([w8 value] ++ (char_of <$> ws)).
  rewrite (app_assoc (pending u)), <- Ho, <- app_assoc, <- Hc2.
  destruct o; cbn [default concat app]; by rewrite ?app_assoc.
Qed.

Definition demo_accesses : list (Z * Z * Z) :=
  (λ c, (Board.UART_16550_BASE, 1, c)) <$> (chars "ok" ++ [10] ++ chars ">").

Lemma uart_output_witness :
  ∃ u' outs, uart_writes demo_accesses uart_zero = Ok (u', outs) ∧ uart_ok u' ∧
    concat outs ++ pending u' = chars "ok" ++ [10] ++ chars ">".
Proof.
  destruct (uart_output demo_accesses uart_zero) as (u' & outs & Hw & Hu & Hc).
  - split; [by vm_compute|done].
  - exists u', outs. split; [exact Hw|]. split; [exact Hu|]. rewrite Hc; [done| |done]. by repeat constructor.
Defined.

End Uart.
