(* ===== verification/App.v ===== *)
(** * The start of the emulator: application_sandbox_init of app.c

    The initial process is built from an executable, the arguments of the command
    line and the environment variables ROOT and BREAK, by the parts modelled in
    Loader, Vfs and Debugger.  Theorem: the process is then ready to run. *)
From S2P Require Import Prelude SortSearch X86 Hart PmRegion Vma VmaOps Path Vfs Loader Fork Exec Mmu Debugger Syscall.
Import Macros X86 PmRegion Vma VmaOps Path Vfs Loader.

Module App.

(** The initial process, the breakpoints and the process ids. *)
Record boot (K : Type) := mk_boot {
  registers_of : guest;
  vfs_of : vfs K;
  pid_of : Z;
  ppid_of : Z;
  tgid_of : Z;
  breakpoints_of : Debugger.bp_table
}.
Arguments mk_boot {K}.
Arguments registers_of {K}.
Arguments vfs_of {K}.
Arguments pid_of {K}.
Arguments ppid_of {K}.
Arguments tgid_of {K}.
Arguments breakpoints_of {K}.

Section code.
Context {K : Type} `{HK : HostKernel K} `{HR : HostRead} `{HA : HostAlloc}.
Context (buffer : list Z).

(** [exit] without ROOT. *)
Definition app_root_init (ROOT : option (list Z)) (root : list Z) : outcome (list Z) :=
  match ROOT with None => Err EAssert | Some s => Syscall.strcpy root s end.

(** The working directory; the ids are those of [new_pid]. *)
Definition misc_init (pid : Z) (cwd : list Z) : outcome (Z * Z * Z * list Z) :=
  cwd ← Syscall.strcpy cwd (chars "/");
  Ok (pid, pid, pid, cwd).

(** [cpu_init] allocates a hart with zeroed registers.  [found] is the file at
    [app_path], [h] and [k] are the host's memory and kernel, [pid] the counter of
    [new_pid]. *)
Definition application_sandbox_init (found : option (list Z)) (argv envp : list (list Z))
    (ROOT BREAK : option (list Z)) (pid : Z) (k : K) (h : host_heap) : outcome (boot K) :=
  let vm := Fork.zero_data in
  a ← program_init found (mk_app (mk_process (Fork.dspace vm) h) (Fork.dregs vm));
  a ← env_setup argv envp a;
  root ← app_root_init ROOT (Fork.droot vm);
  v ← vfs_init buffer (mk_vfs (Fork.dfiles vm) root (Fork.dcwd vm) (memory a) k);
  '(pid, ppid, tgid, cwd) ← misc_init pid (vcwd v);
  t ← Debugger.breakpoints_init BREAK Debugger.no_breakpoints;
  Ok (mk_boot (cpu a) (mk_vfs (files v) (vroot v) cwd (proc v) (kernel v)) pid ppid tgid t).

End code.

(** ** The three standard files *)
Section files.
Context {K : Type} `{HK : HostKernel K} {kopen : K → gset Z} {HKok : HostKernelOk K kopen}.
Context (buffer : list Z) (Hbuf : length buffer = 512%nat).

(** The host can open [n] more files, which changes no memory of the emulator. *)
Fixpoint can_open (n : nat) (k : K) : Prop :=
  match n with
  | O => True
  | S n => ∀ path flags mode h, ∃ ret e k', kcall (h_open path flags mode) k h = (ret, e, k', h) ∧
      0 <= sint 32 ret ∧ can_open n k'
  end.

#[local] Opaque canonicalize_path_name append_string.

(** An absolute path does not need the working directory. *)
Lemma host_path_absolute strict root cwd cwd' dirfd s b :
  head s = Some SLASH →
  host_path_of buffer strict root cwd dirfd (s ++ 0 :: b) = host_path_of buffer strict root cwd' dirfd (s ++ 0 :: b).
Proof.
  intros Hs. unfold host_path_of.
  assert (Hrel : relative_dir strict dirfd cwd (s ++ 0 :: b) = relative_dir strict dirfd cwd' (s ++ 0 :: b)).
  { unfold relative_dir. destruct s as [|x s]; [done|]. injection Hs as ->. reflexivity. }
  rewrite Hrel. reflexivity.
Qed.

#[local] Opaque host_path_of.

(** The first [n] entries are in use and the next one is free. *)
Definition taken (n : nat) (l : list file) : Prop :=
  (∀ j f, (j < n)%nat → l !! j = Some f → valid f = true) ∧ l !! n = Some no_file.

Lemma open_next root b1 s b3 flags mode v n m :
  can_open (S m) (kernel v) → vfs_good (kopen := kopen) v → taken n (files v) → (n < 127)%nat → files v !! S n = Some no_file →
  vroot v = root ++ 0 :: b1 → root_ok root →
  Forall (λ c, c ≠ 0) s → head s = Some SLASH → (length root + length s + 1 < 511)%nat →
  ∃ f k, can_open m k ∧ do_openat buffer (w32 AT_FDCWD) (s ++ 0 :: b3) flags mode v =
      Ok (Z.of_nat n, mk_vfs (<[n := f]> (files v)) (vroot v) (vcwd v) (proc v) k) ∧ valid f = true ∧
    vfs_good (kopen := kopen) (mk_vfs (<[n := f]> (files v)) (vroot v) (vcwd v) (proc v) k).
Proof.
  intros Hcan Hg [Htaken Hfree] Hn Hnext Hroot Hr Hs Hh Hlen. unfold do_openat.
  rewrite (host_path_absolute true (vroot v) (vcwd v) ([SLASH] ++ 0 :: []) _ s b3 Hh), Hroot.
  destruct (host_path_spec buffer true root [SLASH] s b1 [] b3 (w32 AT_FDCWD))
    as (X & rest & d & g & r1 & r2 & -> & HX & Hd & Hgg & Hdg);
    [done|done|by exists []|done|cbn [length]; lia|done|by left|].
  cbn [mbind outcome_bind].
  assert (Halloc : allocate_file_descriptor (files v) = Ok (Some (Z.of_nat n), <[n := mk_file (Z.of_nat n) 0 true None 0 0 FILE_TYPE_ERROR]> (files v))).
  { destruct (allocate_spec _ _ Hg) as [[Hall _]|(i & Hi & Hlow & ->)].
    { rewrite Forall_forall in Hall. specialize (Hall no_file (list_elem_of_lookup_2 _ _ _ Hfree)). done. }
    assert (i = n) as ->; [|done]. destruct (Nat.lt_trichotomy i n) as [Hlt|[?|Hlt]]; [|done|].
    - specialize (Htaken i no_file Hlt Hi). done.
    - specialize (Hlow n no_file Hlt Hfree). done. }
  rewrite Halloc. cbn [mbind outcome_bind].
  unfold host, set_files. cbn [files kernel proc vroot vcwd]. 
  destruct (Hcan (upto_nul ((root ++ mjoin X) ++ 0 :: rest)) flags mode (heap (proc v))) as (ret & e & k & Hk & Hret & Hcan').
  rewrite Hk.
  set (t := mk_file (Z.of_nat n) (sint 32 ret) true (Some (upto_nul ((root ++ mjoin X) ++ 0 :: rest))) flags mode FILE_TYPE_REGULAR).
  destruct (opened_good v (<[n := mk_file (Z.of_nat n) 0 true None 0 0 FILE_TYPE_ERROR]> (files v))
    (h_open (upto_nul ((root ++ mjoin X) ++ 0 :: rest)) flags mode) ret e k (heap (proc v)) n t Hg Hfree
    (or_intror (ex_intro _ _ eq_refl)) eq_refl Hk) as [Hgood _]; [done..|].
  destruct (Z.ltb_spec (sint 32 ret) 0); [lia|]. cbn [files].
  rewrite abs_path_spec by done. pose proof (lookup_lt_Some _ _ _ Hfree). rewrite zset_ok by (rewrite length_insert; lia).
  cbn [deref mbind outcome_bind]. rewrite Nat2Z.id. fold t. rewrite list_insert_insert_eq in Hgood |- *.
  exists t, k. split; [done|]. split; [|done]. cbn [vroot vcwd proc kernel]. rewrite Hroot. by destruct (proc v).
Qed.

Lemma taken_next n l f :
  taken n l → valid f = true → l !! S n = Some no_file → taken (S n) (<[n := f]> l).
Proof.
  intros [Ht Hn] Hf Hs. pose proof (lookup_lt_Some _ _ _ Hn). split; [|by rewrite list_lookup_insert_ne by lia].
  intros j g Hj Hg. destruct (decide (j = n)) as [-> |Hne].
  - rewrite list_lookup_insert_eq in Hg by done. by injection Hg as <-.
  - rewrite list_lookup_insert_ne in Hg by done. apply (Ht j); [lia|done].
Qed.

Lemma vfs_init_spec root b1 v :
  can_open 3 (kernel v) → vfs_good (kopen := kopen) v → files v = replicate 128 no_file → vroot v = root ++ 0 :: b1 → root_ok root →
  (length root < 128)%nat →
  ∃ l k, vfs_init buffer v = Ok (mk_vfs l (vroot v) (vcwd v) (proc v) k) ∧ taken 3 l ∧
    vfs_good (kopen := kopen) (mk_vfs l (vroot v) (vcwd v) (proc v) k).
Proof.
  intros Hcan Hg Hf Hroot Hr Hlen. unfold vfs_init.
  assert (Hpath : ∀ p, p = chars "/dev/stdin" ∨ p = chars "/dev/stdout" ∨ p = chars "/dev/stderr" →
    Forall (λ c, c ≠ 0) p ∧ head p = Some SLASH ∧ (length p <= 11)%nat).
  { intros p [-> |[-> | ->]]; (split; [by apply (bool_decide_unpack _)|]; split; [done|vm_compute; lia]). }
  destruct (Hpath (chars "/dev/stdin")) as (Ha1 & Hb1 & Hc1); [tauto|].
  destruct (Hpath (chars "/dev/stdout")) as (Ha2 & Hb2 & Hc2); [tauto|].
  destruct (Hpath (chars "/dev/stderr")) as (Ha3 & Hb3 & Hc3); [tauto|]. unfold cstring.
  assert (Ht0 : taken 0 (files v)) by (rewrite Hf; split; [lia|done]).
  destruct (open_next root b1 (chars "/dev/stdin") [] 0 0 v 0 2) as (f0 & k0 & Hcan0 & -> & Hv0 & Hg0);
    [done|done|done|lia|by rewrite Hf|done|done|done|done|lia|].
  cbn [mbind outcome_bind]. rewrite (Z.eqb_refl 0 : Z.of_nat 0 =? 0 = true). cbn [ASSERT mbind outcome_bind].
  set (v0 := mk_vfs _ _ _ _ k0) in *. assert (Ht1 : taken 1 (files v0)) by (apply taken_next; [done|done|by rewrite Hf]).
  destruct (open_next root b1 (chars "/dev/stdout") [] 1 0 v0 1 1) as (f1 & k1 & Hcan1 & -> & Hv1 & Hg1);
    [done|done|done|lia|cbn [files v0]; by rewrite list_lookup_insert_ne, Hf by lia|done|done|done|done|lia|].
  cbn [mbind outcome_bind]. rewrite (Z.eqb_refl 1 : Z.of_nat 1 =? 1 = true). cbn [ASSERT mbind outcome_bind].
  set (v1 := mk_vfs _ _ _ _ k1) in *.
  assert (Ht2 : taken 2 (files v1)).
  { apply taken_next; [done|done|]. cbn [files v0]. by rewrite list_lookup_insert_ne, Hf by lia. }
  destruct (open_next root b1 (chars "/dev/stderr") [] 1 0 v1 2 0) as (f2 & k2 & _ & -> & Hv2 & Hg2);
    [done|done|done|lia|cbn [files v1 v0]; by rewrite !list_lookup_insert_ne, Hf by lia|done|done|done|done|lia|].
  cbn [mbind outcome_bind]. rewrite (Z.eqb_refl 2 : Z.of_nat 2 =? 2 = true). cbn [ASSERT mbind outcome_bind].
  eexists _, k2. split; [done|]. split; [|done]. apply taken_next; [done|done|].
  cbn [files v1 v0]. by rewrite !list_lookup_insert_ne, Hf by lia.
Qed.

End files.

(** ** A process ready to run *)
Lemma zero_memory_ok h : mem_ok (mk_process (Fork.dspace Fork.zero_data) h).
Proof.
  split; [split; [done|done|constructor|]|by intros ? ? ?%not_elem_of_nil|constructor].
  intros i j a b _ Ha. by destruct i.
Qed.

Lemma free_table_good O : table_good (replicate 128 no_file) O.
Proof.
  split; [by rewrite length_replicate|..]; intros; simplify_eq;
    repeat match goal with H : replicate _ _ !! _ = Some _ |- _ => apply lookup_replicate in H as [-> _] end;
    done.
Qed.

Lemma strcpy_ok dst s : (length s + 1 <= length dst)%nat → Syscall.strcpy dst s = Ok (s ++ 0 :: drop (length s + 1) dst).
Proof. intros. unfold Syscall.strcpy. by destruct (Nat.leb_spec (length s + 1) (length dst)); [|lia]. Qed.

Definition break_words (BREAK : option (list Z)) : list (list Z) :=
  match BREAK with None => [] | Some s => Debugger.strtok_words [] s end.

Lemma breakpoints_init_words BREAK t : Debugger.breakpoints_init BREAK t = Debugger.add_breakpoints (break_words BREAK) t.
Proof. by destruct BREAK. Qed.

Section boot.
Context {K : Type} `{HK : HostKernel K} {kopen : K → gset Z} {HKok : HostKernelOk K kopen}.
Context `{HR : HostRead} {HRok : HostReadOk} `{HA : HostAlloc} {HAok : HostAllocOk}.
Context (buffer : list Z) (Hbuf : length buffer = 512%nat).
(** The host has memory. *)
Context (Hmem : ∀ h n, is_Some (aligned_alloc h n)).

(** What the user passes. *)
Record boot_args (c : list Z) (hdr : elf32_elf_header) (segs : list elf32_program_header) (argv envp : list (list Z))
    (root : list Z) (BREAK : option (list Z)) (lo : Z) : Prop := {
  ba_loadable : loadable c hdr segs;
  ba_counts : size argv <= 127 ∧ size envp <= 127;
  ba_bytes : Forall (Forall is_byte) argv ∧ Forall (Forall is_byte) envp;
  ba_room : stack_need argv envp <= DEFAULT_STACK_CELIING - 0x100 - STACK_LOW;
  ba_root : root_ok root;
  ba_root_length : (length root < 128)%nat;
  ba_break : Forall (Hart.in_window lo) (Debugger.addresses (break_words BREAK));
  ba_nr_break : Z.of_nat (length (break_words BREAK)) <= Debugger.MAX_BREAKPOINTS
}.

(** C15: from a well-formed executable, up to 127 arguments and 127 environment
    strings that fit the stack, a canonical root directory of less than 128
    characters and at most 256 words of BREAK, whose addresses lie in a window of
    2 GB, on a host with memory that can open the standard files, the
    initialization succeeds: the pc is at the entry point; every segment holds its
    bytes; the stack holds the vectors and the strings; descriptors 0, 1 and 2 are
    open and the table is consistent with the host; the working directory is "/";
    the breakpoints are the aligned addresses given. *)
Theorem boot_correct c hdr segs argv envp root BREAK lo pid k h :
  boot_args c hdr segs argv envp root BREAK lo → can_open 3 k →
  ∃ B sp args envs, application_sandbox_init buffer (Some c) argv envp (Some root) BREAK pid k h = Ok B ∧
    let p := proc (vfs_of B) in
    registers_of B = set_gpr (set_pc Exec.reset_registers (e_entry hdr)) 2 sp ∧
    mem_ok p ∧ (∀ ph, ph ∈ segs → holds p (p_vaddr ph) (segment_image c ph)) ∧
    holds p sp (env_table (DEFAULT_STACK_CELIING - 0x100) (e_entry hdr) args envs) ∧
    Forall2 (holds p) args ((λ s, s ++ [0]) <$> argv) ∧ Forall2 (holds p) envs ((λ s, s ++ [0]) <$> envp) ∧
    taken 3 (files (vfs_of B)) ∧
    Syscall.caller_good (kopen := kopen) (Syscall.mk_caller (vfs_of B) (ppid_of B) (tgid_of B)) ∧
    upto_nul (vroot (vfs_of B)) = root ∧ upto_nul (vcwd (vfs_of B)) = chars "/" ∧
    Debugger.bps_ok lo (breakpoints_of B) ∧
    ∀ x, x ∈ Debugger.bp_list (breakpoints_of B) ↔ x ∈ Debugger.addresses (break_words BREAK) ∧ x mod 4 = 0.
Proof.
  intros [Hld [Hna Hne] [Hba Hbe] Hroom Hroot Hrl Hbk Hnb] Hcan. unfold application_sandbox_init.
  destruct (program_init_spec Hmem c hdr segs (mk_app (mk_process (Fork.dspace Fork.zero_data) h) (Fork.dregs Fork.zero_data)) Hld
    (zero_memory_ok h) eq_refl) as (p1 & -> & Hpm). rewrite Exec.Ok_bind. cbn [cpu].
  destruct (Exec.stack_setup c hdr segs argv envp
    (set_gpr (set_pc (Fork.dregs Fork.zero_data) (e_entry hdr)) 2 (DEFAULT_STACK_CELIING - 0x100)) p1 Hld Hpm)
    as (sp & args & envs & p' & -> & Hok' & Hseg & Ht & Ha & He & _); try done. rewrite Exec.Ok_bind. cbn [app_root_init].
  rewrite strcpy_ok by (cbn; lia). rewrite Exec.Ok_bind. cbn [memory].
  destruct (vfs_init_spec buffer Hbuf root (drop (length root + 1) (replicate 128 0))
    (mk_vfs (replicate 128 no_file) (root ++ 0 :: drop (length root + 1) (replicate 128 0)) (replicate 128 0) p' k))
    as (l & k' & Hinit & Htk & Hgood); [done|apply free_table_good|done|done|done|done|].
  cbn [vroot vcwd proc] in Hinit.
  change (Fork.dfiles Fork.zero_data) with (replicate 128 no_file). change (Fork.dcwd Fork.zero_data) with (replicate 128 0).
  change (Fork.droot Fork.zero_data) with (replicate 128 0). rewrite Hinit, Exec.Ok_bind. cbn [vcwd vroot files proc kernel].
  unfold misc_init. rewrite strcpy_ok by (cbn; lia). rewrite !Exec.Ok_bind.
  destruct (Debugger.add_breakpoints_spec lo (break_words BREAK) Debugger.no_breakpoints (Debugger.no_breakpoints_ok lo) Hbk Hnb)
    as (t & Hbt & Hbok & Hbx).
  rewrite breakpoints_init_words, Hbt, Exec.Ok_bind. eexists _, sp, args, envs. split; [reflexivity|].
  cbn [vfs_of registers_of proc files vroot vcwd breakpoints_of ppid_of tgid_of cpu]. split_and!; try done.
  - split; cbn [Syscall.fs vcwd]; [done|done|]. exists []. by split_and!.
  - apply upto_nul_app. apply Hroot.
  - intros x. rewrite Hbx. split; [|tauto]. intros [?|Hx%not_elem_of_nil]; [done|done].
Qed.

End boot.

(** A host whose next descriptor is above all the open ones. *)
Lemma boot_correct_witness :
  ∃ B, application_sandbox_init (HK := counting_kernel) (HR := file_read) (HA := bump_alloc) blank (Some demo_elf)
      [chars "a.out"] [] (Some (chars "/srv/root")) (Some (chars "10000")) 1 ∅ ∅ = Ok B ∧
    upto_nul (vcwd (vfs_of B)) = chars "/" ∧ pc (registers_of B) = 0x10000.
Proof.
  destruct (boot_correct (kopen := λ k, k) (HA := bump_alloc) (HAok := bump_alloc_ok) blank eq_refl (λ h n, ex_intro _ _ eq_refl)
    demo_elf demo_header [demo_segment] [chars "a.out"] [] (chars "/srv/root") (Some (chars "10000")) 0 1 ∅ ∅)
    as (B & sp & args & envs & Hrun & Hregs & _ & _ & _ & _ & _ & _ & _ & _ & Hcwd & _).
  - split; try done.
    + apply demo_loadable.
    + split; [|constructor]. by apply (bool_decide_unpack _).
    + split; [done|]. split; [by apply (bool_decide_unpack _)|].
      vm_compute. repeat constructor; try done; eexists; (split; [reflexivity|]); repeat constructor; done.
    + vm_compute. lia.
    + replace (Debugger.addresses _) with [0x10000] by (vm_compute; reflexivity). apply Forall_singleton.
      split; unfold word32; lia.
  - intros ? ? ? ?. do 3 eexists. split; [reflexivity|]. split; [done|]. intros ? ? ? ?. do 3 eexists.
    split; [reflexivity|]. split; [done|]. intros ? ? ? ?. do 3 eexists. by split; [reflexivity|].
  - exists B. split; [exact Hrun|]. split; [exact Hcwd|]. by rewrite Hregs.
Defined.

End App.
